(** * Escape the Secret Island: the simulation core, embedded in Rocq

    A shallow embedding of [entities.py], [levels.py] and the frame
    pipeline of [game.py], followed by the properties of the specification
    that are settled against it.

    Conventions of the embedding.
    - Python [int] is [Z]; pygame rectangles hold integers.
    - Python [float] is idealised as an exact rational ([Q]); comparisons of
      a vector length with a constant are taken on the squares, which is what
      they mean over the reals (lemmas [length_le_distance] and the like).
    - [Vec.normalize] has irrational results in general and is a parameter of
      the development, together with the constants of [settings.py].
    - The zone names and the key names are closed sets of strings and are
      enumerations; the identifiers of the collected set are the strings the
      code builds.
    - Objects that are shared and removed by identity (the guards) live in a
      store and are referred to by their address.
    - What the code draws at random or reads from the devices (shoot timers,
      spawn positions, held keys, the mouse) is an argument.
    - Calls into the audio manager are recorded in a log. *)

From Stdlib Require Import ZArith QArith Qabs Qround Lqa Lia List String.
From stdpp Require Import base decidable strings gmap list pretty.

#[local] Set Warnings "-clear-no-such-hyp".

Open Scope Z_scope.

(** ** Python builtins on numbers *)

Definition Qleb (a b : Q) : bool := Qle_bool a b.
Definition Qltb (a b : Q) : bool := negb (Qle_bool b a).

(** [max(a, b)] and [min(a, b)] on floats: the first argument is kept unless
    the second is strictly better. *)
Definition py_max (a b : Q) : Q := if Qltb a b then b else a.
Definition py_min (a b : Q) : Q := if Qltb b a then b else a.

(** [int(q)]: truncation toward zero. *)
Definition py_int (q : Q) : Z := Z.quot (Qnum q) (Zpos (Qden q)).

(** ** Vec: pygame.math.Vector2 *)

Record Vec : Type := mkVec { vx : Q; vy : Q }.

Definition Vec_of_ints (p : Z * Z) : Vec := mkVec (inject_Z (fst p)) (inject_Z (snd p)).
Definition Vec_add (a b : Vec) : Vec := mkVec (vx a + vx b)%Q (vy a + vy b)%Q.
Definition Vec_sub (a b : Vec) : Vec := mkVec (vx a - vx b)%Q (vy a - vy b)%Q.
Definition Vec_scale (a : Vec) (k : Q) : Vec := mkVec (vx a * k)%Q (vy a * k)%Q.
Definition Vec_neg (a : Vec) : Vec := mkVec (- vx a)%Q (- vy a)%Q.
Definition length_squared (a : Vec) : Q := (vx a * vx a + vy a * vy a)%Q.

(** [a.length() < r], [a.length() <= r] and [a.length() > r] for a constant
    [r]: the length is a square root, so the comparison is made on squares,
    with the sign of [r] taken into account. *)
Definition length_lt (a : Vec) (r : Q) : bool := Qltb 0 r && Qltb (length_squared a) (r * r).
Definition length_le (a : Vec) (r : Q) : bool := Qleb 0 r && Qleb (length_squared a) (r * r).
Definition length_gt (a : Vec) (r : Q) : bool := negb (length_le a r).

(** ** Rect: pygame.Rect *)

Record Rect : Type := mkRect { rx : Z; ry : Z; rw : Z; rh : Z }.

Definition Rect_left (r : Rect) : Z := rx r.
Definition Rect_top (r : Rect) : Z := ry r.
Definition Rect_right (r : Rect) : Z := rx r + rw r.
Definition Rect_bottom (r : Rect) : Z := ry r + rh r.
Definition centerx (r : Rect) : Z := rx r + Z.quot (rw r) 2.
Definition centery (r : Rect) : Z := ry r + Z.quot (rh r) 2.
Definition center (r : Rect) : Z * Z := (centerx r, centery r).

Definition set_x (v : Z) (r : Rect) : Rect := mkRect v (ry r) (rw r) (rh r).
Definition set_y (v : Z) (r : Rect) : Rect := mkRect (rx r) v (rw r) (rh r).
Definition set_left (v : Z) (r : Rect) : Rect := set_x v r.
Definition set_top (v : Z) (r : Rect) : Rect := set_y v r.
Definition set_right (v : Z) (r : Rect) : Rect := set_x (v - rw r) r.
Definition set_bottom (v : Z) (r : Rect) : Rect := set_y (v - rh r) r.
Definition set_centerx (v : Z) (r : Rect) : Rect := set_x (v - Z.quot (rw r) 2) r.
Definition set_centery (v : Z) (r : Rect) : Rect := set_y (v - Z.quot (rh r) 2) r.
Definition set_center (p : Z * Z) (r : Rect) : Rect := set_centery (snd p) (set_centerx (fst p) r).
Definition set_topleft (p : Z * Z) (r : Rect) : Rect := mkRect (fst p) (snd p) (rw r) (rh r).

(** [Rect(x, y, w, h)] with float coordinates: pygame truncates them. *)
Definition Rect_of_floats (x y : Q) (w h : Z) : Rect := mkRect (py_int x) (py_int y) w h.

(** [a.colliderect(b)], as pygame decides it: a rectangle of zero width or
    height collides with nothing, and a negative size is read from its far
    edge. *)
Definition colliderect (a b : Rect) : bool :=
  if (rw a =? 0) || (rh a =? 0) || (rw b =? 0) || (rh b =? 0) then false
  else (Z.min (rx a) (rx a + rw a) <? Z.max (rx b) (rx b + rw b))
    && (Z.min (ry a) (ry a + rh a) <? Z.max (ry b) (ry b + rh b))
    && (Z.min (rx b) (rx b + rw b) <? Z.max (rx a) (rx a + rw a))
    && (Z.min (ry b) (ry b + rh b) <? Z.max (ry a) (ry a + rh a)).

(** [r.collidepoint(p)] for a float point: the coordinates are truncated and
    tested against the half-open rectangle. *)
Definition collidepoint (r : Rect) (p : Vec) : bool :=
  let x := py_int (vx p) in
  let y := py_int (vy p) in
  (rx r <=? x) && (x <? rx r + rw r) && (ry r <=? y) && (y <? ry r + rh r).

(** [r.inflate(dx, dy)]: grows the rectangle around its centre. *)
Definition inflate (dx dy : Z) (r : Rect) : Rect :=
  mkRect (rx r - Z.quot dx 2) (ry r - Z.quot dy 2) (rw r + dx) (rh r + dy).

(** ** models.py *)

Record DifficultyProfile : Type := mkProfile {
  name : string;
  player_health : Z;
  stamina_drain : Q;
  stamina_recover : Q;
  guard_speed : Q;
  guard_sight : Z;
  guard_shoot_cooldown : Q;
  guard_health : Z;
  guard_damage : Z;
  player_damage : Z;
  extra_guards : Z
}.

(** The four zones; [zone_name] gives the string the code uses. *)
Inductive Zone : Type := Ground | Estate | Tunnels | Harbor.

Definition zone_name (z : Zone) : string :=
  match z with
  | Ground => "Ground" | Estate => "Estate" | Tunnels => "Tunnels" | Harbor => "Harbor"
  end.

Global Instance Zone_eq_dec : EqDecision Zone.
Proof. solve_decision. Defined.

(** The three keys of [Player.keys]. *)
Inductive Key : Type := jail_key | cave_key | boat_key.

Definition key_name (k : Key) : string :=
  match k with
  | jail_key => "jail_key" | cave_key => "cave_key" | boat_key => "boat_key"
  end.

(** [k.replace('_', ' ')] on the three key names. *)
Definition key_label (k : Key) : string :=
  match k with
  | jail_key => "jail key" | cave_key => "cave key" | boat_key => "boat key"
  end.

Global Instance Key_eq_dec : EqDecision Key.
Proof. solve_decision. Defined.

Record ZoneGate : Type := mkGate {
  gate_rect : Rect;
  target_zone : Zone;
  spawn : Z * Z;
  required_key : option Key
}.

Global Instance Rect_eq_dec : EqDecision Rect.
Proof. solve_decision. Defined.

Global Instance ZoneGate_eq_dec : EqDecision ZoneGate.
Proof. solve_decision. Defined.

(** ** levels.py *)

Definition DIFFICULTIES : list DifficultyProfile :=
  [ mkProfile "Story" 120 24 20 (145 # 100) 260 (12 # 10) 38 12 24 0;
    mkProfile "Survivor" 95 30 15 (19 # 10) 340 (85 # 100) 55 18 20 1;
    mkProfile "Nightmare" 75 38 11 (24 # 10) 420 (62 # 100) 70 24 18 2 ].

(** ** settings.py

    The module is imported by every source file; its constants, and the
    vector library's [normalize], are the parameters of the development. *)

Class Settings : Type := {
  WIDTH : Z;
  HEIGHT : Z;
  MAX_STAMINA : Q;
  PLAYER_SPEED : Q;
  SPRINT_MULTIPLIER : Q;
  BULLET_SPEED : Q;
  normalize : Vec -> Vec
}.

(** ** Exceptions

    A call either returns, with the state it leaves and its result, or raises,
    with the state it had reached. *)

Inductive Exn : Type := IndexError | ValueError | KeyError.

Inductive Outcome (S A : Type) : Type :=
  | Ok (s : S) (a : A)
  | Raise (s : S) (e : Exn).

Arguments Ok {S A} s a.
Arguments Raise {S A} s e.

Definition final_state {S A : Type} (o : Outcome S A) : S :=
  match o with Ok s _ => s | Raise s _ => s end.

Definition returns {S A : Type} (o : Outcome S A) : Prop :=
  match o with Ok _ _ => True | Raise _ _ => False end.

(** Truth value of a float: anything but zero. *)
Definition nonzero (q : Q) : bool := negb (Qeq_bool q 0).

(** ** entities.py: Bullet *)

Module Bullet.

Record t : Type := mk {
  pos : Vec;
  dir : Vec;
  owner : string;
  radius : Z;
  alive : bool
}.

Definition set_alive (b : bool) (s : t) : t := mk (pos s) (dir s) (owner s) (radius s) b.

Section WithSettings.
Context {cfg : Settings}.

Definition init (p direction : Vec) (who : string) : t :=
  mk p
     (if nonzero (length_squared direction) then normalize direction else mkVec 1 0)
     who
     (if String.eqb who "player" then 4 else 5)
     true.

Definition update (obstacles : list Rect) (s : t) : t :=
  let p := Vec_add (pos s) (Vec_scale (dir s) BULLET_SPEED) in
  let s := mk p (dir s) (owner s) (radius s) (alive s) in
  if Qltb (vx p) 0 || Qltb (inject_Z WIDTH) (vx p)
     || Qltb (vy p) 0 || Qltb (inject_Z HEIGHT) (vy p)
  then set_alive false s
  else
    let hitbox := Rect_of_floats (vx p - inject_Z (radius s))%Q (vy p - inject_Z (radius s))%Q
                                 (radius s * 2) (radius s * 2) in
    if existsb (fun wall => colliderect wall hitbox) obstacles
    then set_alive false s
    else s.
End WithSettings.

End Bullet.

(** ** entities.py: Character *)

Module Character.

Record t : Type := mk {
  rect : Rect;
  vel : Vec;
  look_dir : Vec;
  muzzle_timer : Q
}.

Definition init (x y w h : Z) : t := mk (mkRect x y w h) (mkVec 0 0) (mkVec 1 0) 0.

Definition set_rect (r : Rect) (c : t) : t := mk r (vel c) (look_dir c) (muzzle_timer c).
Definition set_vel (v : Vec) (c : t) : t := mk (rect c) v (look_dir c) (muzzle_timer c).
Definition set_look_dir (v : Vec) (c : t) : t := mk (rect c) (vel c) v (muzzle_timer c).
Definition set_muzzle_timer (q : Q) (c : t) : t := mk (rect c) (vel c) (look_dir c) q.

(** One iteration of the first loop of [move_and_collide]. *)
Definition resolve_x (v : Q) (r wall : Rect) : Rect :=
  if colliderect r wall then
    if Qltb 0 v then set_right (Rect_left wall) r
    else if Qltb v 0 then set_left (Rect_right wall) r
    else r
  else r.

(** One iteration of the second loop. *)
Definition resolve_y (v : Q) (r wall : Rect) : Rect :=
  if colliderect r wall then
    if Qltb 0 v then set_bottom (Rect_top wall) r
    else if Qltb v 0 then set_top (Rect_bottom wall) r
    else r
  else r.

Definition move_x (v : Q) (obstacles : list Rect) (r : Rect) : Rect :=
  fold_left (resolve_x v) obstacles (set_x (rx r + py_int v) r).

Definition move_y (v : Q) (obstacles : list Rect) (r : Rect) : Rect :=
  fold_left (resolve_y v) obstacles (set_y (ry r + py_int v) r).

Definition move_and_collide (obstacles : list Rect) (c : t) : t :=
  set_rect (move_y (vy (vel c)) obstacles (move_x (vx (vel c)) obstacles (rect c))) c.

End Character.

(** ** entities.py: Player *)

(** [Player.keys]: a dictionary with exactly the three key names. *)
Record KeyRing : Type := mkKeys { has_jail_key : bool; has_cave_key : bool; has_boat_key : bool }.

Definition get_key (k : Key) (ks : KeyRing) : bool :=
  match k with
  | jail_key => has_jail_key ks
  | cave_key => has_cave_key ks
  | boat_key => has_boat_key ks
  end.

Definition set_key (k : Key) (ks : KeyRing) : KeyRing :=
  match k with
  | jail_key => mkKeys true (has_cave_key ks) (has_boat_key ks)
  | cave_key => mkKeys (has_jail_key ks) true (has_boat_key ks)
  | boat_key => mkKeys (has_jail_key ks) (has_cave_key ks) true
  end.

(** [all(keys.values())] *)
Definition all_keys (ks : KeyRing) : bool := has_jail_key ks && has_cave_key ks && has_boat_key ks.

(** What [pygame.key.get_pressed()] reports for the keys the player reads. *)
Record Pressed : Type := mkPressed {
  K_w : bool; K_UP : bool; K_s : bool; K_DOWN : bool;
  K_a : bool; K_LEFT : bool; K_d : bool; K_RIGHT : bool;
  K_LSHIFT : bool; K_RSHIFT : bool
}.

Module Player.

Record t : Type := mk {
  char : Character.t;
  health : Z;
  stamina : Q;
  has_gun : bool;
  ammo : Z;
  keys : KeyRing;
  clues : Z;
  rescued_npcs : Z;
  fire_cooldown : Q
}.

Definition rect (p : t) : Rect := Character.rect (char p).

Definition set_char (c : Character.t) (p : t) : t :=
  mk c (health p) (stamina p) (has_gun p) (ammo p) (keys p) (clues p) (rescued_npcs p) (fire_cooldown p).
Definition set_rect (r : Rect) (p : t) : t := set_char (Character.set_rect r (char p)) p.
Definition set_health (v : Z) (p : t) : t :=
  mk (char p) v (stamina p) (has_gun p) (ammo p) (keys p) (clues p) (rescued_npcs p) (fire_cooldown p).
Definition set_stamina (v : Q) (p : t) : t :=
  mk (char p) (health p) v (has_gun p) (ammo p) (keys p) (clues p) (rescued_npcs p) (fire_cooldown p).
Definition set_has_gun (v : bool) (p : t) : t :=
  mk (char p) (health p) (stamina p) v (ammo p) (keys p) (clues p) (rescued_npcs p) (fire_cooldown p).
Definition set_ammo (v : Z) (p : t) : t :=
  mk (char p) (health p) (stamina p) (has_gun p) v (keys p) (clues p) (rescued_npcs p) (fire_cooldown p).
Definition set_keys (v : KeyRing) (p : t) : t :=
  mk (char p) (health p) (stamina p) (has_gun p) (ammo p) v (clues p) (rescued_npcs p) (fire_cooldown p).
Definition set_clues (v : Z) (p : t) : t :=
  mk (char p) (health p) (stamina p) (has_gun p) (ammo p) (keys p) v (rescued_npcs p) (fire_cooldown p).
Definition set_rescued_npcs (v : Z) (p : t) : t :=
  mk (char p) (health p) (stamina p) (has_gun p) (ammo p) (keys p) (clues p) v (fire_cooldown p).
Definition set_fire_cooldown (v : Q) (p : t) : t :=
  mk (char p) (health p) (stamina p) (has_gun p) (ammo p) (keys p) (clues p) (rescued_npcs p) v.

(** The direction the held keys ask for, before normalisation. *)
Definition held_direction (k : Pressed) : Vec :=
  let d0 := mkVec 0 0 in
  let d1 := if K_w k || K_UP k then mkVec (vx d0) (vy d0 - 1) else d0 in
  let d2 := if K_s k || K_DOWN k then mkVec (vx d1) (vy d1 + 1) else d1 in
  let d3 := if K_a k || K_LEFT k then mkVec (vx d2 - 1) (vy d2) else d2 in
  if K_d k || K_RIGHT k then mkVec (vx d3 + 1) (vy d3) else d3.

Section WithSettings.
Context {cfg : Settings}.

Definition init (x y : Z) (profile : DifficultyProfile) : t :=
  mk (Character.init x y 22 32) (player_health profile) MAX_STAMINA false 0
     (mkKeys false false false) 0 0 0.

(** Whether this call of [handle_input] sprints. *)
Definition sprinting (k : Pressed) (p : t) : bool :=
  (K_LSHIFT k || K_RSHIFT k) && Qltb 0 (stamina p)
  && Qltb 0 (length_squared (held_direction k)).

Definition handle_input (k : Pressed) (dt stamina_drain stamina_recover : Q) (p : t) : t :=
  let direction := held_direction k in
  let sprint := sprinting k p in
  let speed := (PLAYER_SPEED * (if sprint then SPRINT_MULTIPLIER else 1))%Q in
  let st := if sprint then py_max 0 (stamina p - stamina_drain * dt)
            else py_min MAX_STAMINA (stamina p + stamina_recover * dt) in
  let moving := Qltb 0 (length_squared direction) in
  let direction := if moving then normalize direction else direction in
  let c := char p in
  let c := if moving then Character.set_look_dir direction c else c in
  let c := Character.set_vel (Vec_scale direction speed) c in
  let c := Character.set_muzzle_timer (py_max 0 (Character.muzzle_timer c - dt)) c in
  set_char c (set_fire_cooldown (py_max 0 (fire_cooldown p - dt)) (set_stamina st p)).

Definition try_shoot (target_pos : Z * Z) (p : t) : t * option Bullet.t :=
  if negb (has_gun p) || (ammo p <=? 0) || Qltb 0 (fire_cooldown p) then (p, None)
  else
    let origin := Vec_of_ints (center (rect p)) in
    let direction := Vec_sub (Vec_of_ints target_pos) origin in
    let c := char p in
    let c := if Qltb 0 (length_squared direction)
             then Character.set_look_dir (normalize direction) c else c in
    let c := Character.set_muzzle_timer (5 # 100) c in
    (set_char c (set_fire_cooldown (18 # 100) (set_ammo (ammo p - 1) p)),
     Some (Bullet.init origin direction "player")).
End WithSettings.

End Player.

(** ** entities.py: Guard *)

Module Guard.

Record t : Type := mk {
  char : Character.t;
  patrol_points : list Vec;
  current_patrol : nat;
  health : Z;
  profile : DifficultyProfile;
  shoot_timer : Q;
  alerted : bool
}.

Definition rect (g : t) : Rect := Character.rect (char g).

Definition set_char (c : Character.t) (g : t) : t :=
  mk c (patrol_points g) (current_patrol g) (health g) (profile g) (shoot_timer g) (alerted g).
Definition set_current_patrol (n : nat) (g : t) : t :=
  mk (char g) (patrol_points g) n (health g) (profile g) (shoot_timer g) (alerted g).
Definition set_health (v : Z) (g : t) : t :=
  mk (char g) (patrol_points g) (current_patrol g) v (profile g) (shoot_timer g) (alerted g).
Definition set_shoot_timer (v : Q) (g : t) : t :=
  mk (char g) (patrol_points g) (current_patrol g) (health g) (profile g) v (alerted g).
Definition set_alerted (v : bool) (g : t) : t :=
  mk (char g) (patrol_points g) (current_patrol g) (health g) (profile g) (shoot_timer g) v.

(** The probe rectangle of step [i] of [_line_of_sight], with [t = i / 26]. *)
Definition probe (from target : Z * Z) (i : nat) : Rect :=
  let t := (Z.of_nat i # 26)%Q in
  Rect_of_floats
    (inject_Z (fst from) + inject_Z (fst target - fst from) * t - 2)%Q
    (inject_Z (snd from) + inject_Z (snd target - snd from) * t - 2)%Q
    4 4.

(** [range(1, 26)] *)
Definition probe_steps : list nat := seq 1 25.

Definition _line_of_sight (target : Z * Z) (obstacles : list Rect) (g : t) : bool :=
  forallb (fun i => negb (existsb (fun w => colliderect w (probe (center (rect g)) target i)) obstacles))
          probe_steps.

(** The vector from the guard's centre to the player's. *)
Definition to_player (player : Player.t) (g : t) : Vec :=
  Vec_sub (Vec_of_ints (center (Player.rect player))) (Vec_of_ints (center (rect g))).

(** [can_see] of [update]: within sight radius and line of sight clear. *)
Definition can_see (player : Player.t) (obstacles : list Rect) (g : t) : bool :=
  length_le (to_player player g) (inject_Z (guard_sight (profile g)))
  && _line_of_sight (center (Player.rect player)) obstacles g.

Section WithSettings.
Context {cfg : Settings}.

(** [timer] is the value drawn by [random.uniform(0.2, 0.8)]. *)
Definition init (x y : Z) (patrol : list (Z * Z)) (prof : DifficultyProfile) (timer : Q) : t :=
  let x := Z.max 50 (Z.min (WIDTH - 70) x) in
  let y := Z.max 50 (Z.min (HEIGHT - 70) y) in
  mk (Character.init x y 22 32) (map Vec_of_ints patrol) 0 (guard_health prof) prof timer false.

(** The alerted branch of [update]: face the player, close in unless near. *)
Definition pursue (tp : Vec) (g : t) : t :=
  let c := char g in
  let c := if Qltb 0 (length_squared tp) then Character.set_look_dir (normalize tp) c else c in
  let c := Character.set_vel
             (if length_gt tp 75 then Vec_scale (Character.look_dir c) (guard_speed (profile g))
              else mkVec 0 0) c in
  set_char c g.

(** The patrol branch of [update]; indexing an empty route raises. *)
Definition patrol (g : t) : Outcome t unit :=
  match patrol_points g !! current_patrol g with
  | None => Raise g IndexError
  | Some target =>
      let here := Vec_of_ints (center (rect g)) in
      let path := Vec_sub target here in
      let next :=
        if length_lt path 10
        then
          let n := ((current_patrol g + 1) mod length (patrol_points g))%nat in
          match patrol_points g !! n with
          | None => Raise (set_current_patrol n g) IndexError
          | Some target' => Ok (set_current_patrol n g) (Vec_sub target' here)
          end
        else Ok g path in
      match next with
      | Raise g e => Raise g e
      | Ok g path =>
          let moving := Qltb 0 (length_squared path) in
          let c := char g in
          let c := Character.set_vel
                     (if moving then Vec_scale (normalize path) (guard_speed (profile g))
                      else mkVec 0 0) c in
          let c := if moving then Character.set_look_dir (normalize path) c else c in
          Ok (set_char c g) tt
      end
  end.

Definition update (dt : Q) (player : Player.t) (obstacles : list Rect) (g : t)
  : Outcome t (option Bullet.t) :=
  let tp := to_player player g in
  let see := can_see player obstacles g in
  let g := set_alerted see g in
  match (if see then Ok (pursue tp g) tt else patrol g) with
  | Raise g e => Raise g e
  | Ok g _ =>
      let c := Character.move_and_collide obstacles (char g) in
      let g := set_shoot_timer (shoot_timer g - dt) (set_char c g) in
      let g := set_char (Character.set_muzzle_timer
                           (py_max 0 (Character.muzzle_timer c - dt)) c) g in
      if see && Qleb (shoot_timer g) 0 then
        let g := set_shoot_timer (guard_shoot_cooldown (profile g)) g in
        let g := set_char (Character.set_muzzle_timer (5 # 100) (char g)) g in
        Ok g (Some (Bullet.init (Vec_of_ints (center (rect g))) tp "guard"))
      else Ok g None
  end.
End WithSettings.

End Guard.

(** ** entities.py: NPC *)

Module NPC.

Record t : Type := mk {
  char : Character.t;
  zone : Zone;
  following : bool;
  rescued : bool
}.

Definition rect (n : t) : Rect := Character.rect (char n).

Definition init (x y : Z) (z : Zone) : t := mk (Character.init x y 20 30) z false false.

Definition set_char (c : Character.t) (n : t) : t := mk c (zone n) (following n) (rescued n).
Definition set_zone (z : Zone) (n : t) : t := mk (char n) z (following n) (rescued n).
Definition set_following (b : bool) (n : t) : t := mk (char n) (zone n) b (rescued n).
Definition set_rescued (b : bool) (n : t) : t := mk (char n) (zone n) (following n) b.

Section WithSettings.
Context {cfg : Settings}.

Definition update (player : Player.t) (obstacles : list Rect) (n : t) : t :=
  if rescued n then n
  else if following n then
    let tp := Vec_sub (Vec_of_ints (center (Player.rect player))) (Vec_of_ints (center (rect n))) in
    let moving := Qltb 0 (length_squared tp) in
    let v :=
      if length_gt tp 50 then
        if moving then Vec_scale (normalize tp) (22 # 10) else mkVec 0 0
      else if length_lt tp 30 then
        if moving then Vec_scale (Vec_neg (normalize tp)) 1 else mkVec 0 0
      else mkVec 0 0 in
    set_char (Character.move_and_collide obstacles (Character.set_vel v (char n))) n
  else n.
End WithSettings.

End NPC.

(** ** levels.py: zone geometry *)

Section Levels.
Context {cfg : Settings}.

Definition border : list Rect :=
  [ mkRect 0 0 WIDTH 40;
    mkRect 0 (HEIGHT - 40) WIDTH 40;
    mkRect 0 0 40 HEIGHT;
    mkRect (WIDTH - 40) 0 40 HEIGHT ].

Definition zone_obstacles (z : Zone) : list Rect :=
  match z with
  | Ground => border ++
      [ mkRect 270 90 620 24; mkRect 270 90 24 220; mkRect 866 90 24 200;
        mkRect 180 320 560 24; mkRect 716 320 24 210; mkRect 330 530 410 24 ]
  | Estate => border ++
      [ mkRect 130 180 840 24; mkRect 130 180 24 360; mkRect 946 180 24 360;
        mkRect 350 340 430 24; mkRect 350 340 24 180; mkRect 756 340 24 180;
        mkRect 550 530 230 24 ]
  | Tunnels => border ++
      [ mkRect 120 120 200 20; mkRect 400 120 500 20; mkRect 120 120 20 300;
        mkRect 880 120 20 300; mkRect 120 400 300 20; mkRect 500 400 400 20;
        mkRect 400 200 20 220; mkRect 600 200 20 220; mkRect 120 520 300 20;
        mkRect 580 520 300 20; mkRect 120 400 20 140; mkRect 860 400 20 140;
        mkRect 250 220 100 20; mkRect 650 220 100 20 ]
  | Harbor => border ++
      [ mkRect 200 400 150 80; mkRect 500 450 120 60; mkRect 900 400 150 70;
        mkRect 300 550 40 40; mkRect 600 350 40 40; mkRect 400 500 30 30;
        mkRect 700 500 30 30; mkRect 820 180 15 60; mkRect 920 180 15 60;
        mkRect 1020 180 15 60 ]
  end.

Definition zone_gates (z : Zone) : list ZoneGate :=
  match z with
  | Ground => [ mkGate (mkRect 52 84 54 92) Estate (1060, 620) (Some jail_key) ]
  | Estate => [ mkGate (mkRect 1082 620 56 56) Ground (100, 140) None;
                mkGate (mkRect 80 620 60 60) Tunnels (1040, 600) (Some cave_key) ]
  | Tunnels => [ mkGate (mkRect 1082 620 56 56) Estate (120, 620) None;
                 mkGate (mkRect 70 80 80 80) Harbor (500, 400) (Some boat_key) ]
  | Harbor => [ mkGate (mkRect 1080 620 60 60) Tunnels (160, 140) None ]
  end.

Definition zone_extraction (z : Zone) : option Rect :=
  match z with
  | Harbor => Some (mkRect 1020 210 80 40)
  | _ => None
  end.

Definition build_zone_data (z : Zone) : list Rect * list ZoneGate * option Rect :=
  (zone_obstacles z, zone_gates z, zone_extraction z).

End Levels.

(** The items of one zone, as the dictionaries of [build_items] hold them: an
    absent entry is [None], an absent ammo list is empty. *)
Record ZoneItems : Type := mkItems {
  gun : option Rect;
  ammo_boxes : list Rect;
  clue : option Rect;
  jail_key_item : option Rect;
  cave_key_item : option Rect;
  boat_key_item : option Rect
}.

Definition key_item (k : Key) (it : ZoneItems) : option Rect :=
  match k with
  | jail_key => jail_key_item it
  | cave_key => cave_key_item it
  | boat_key => boat_key_item it
  end.

Definition build_items (z : Zone) : ZoneItems :=
  match z with
  | Ground => mkItems (Some (mkRect 200 550 24 12))
                      [ mkRect 300 200 16 10; mkRect 800 500 16 10 ]
                      (Some (mkRect 400 300 20 14))
                      (Some (mkRect 500 400 18 12)) None None
  | Estate => mkItems None [ mkRect 300 350 16 10 ]
                      (Some (mkRect 250 250 20 14))
                      None (Some (mkRect 700 400 18 12)) None
  | Tunnels => mkItems None [ mkRect 600 350 16 10; mkRect 300 500 16 10 ]
                       (Some (mkRect 500 200 20 14))
                       None None (Some (mkRect 800 200 18 12))
  | Harbor => mkItems None [] None None None None
  end.

(** ** game.py: the state of a round *)

Inductive GameState : Type := Menu | Playing.

(** Calls into the audio manager, in the order they are made. *)
Inductive AudioCall : Type :=
  | audio_update (dt : Q)
  | play_sound (sound_name : string) (priority : bool)
  | play_music_for_zone (z : Zone) (combat_active : bool).

(** Address of a guard object. *)
Abbreviation addr := nat.

Module Game.

Record t : Type := mk {
  state : GameState;
  profile : DifficultyProfile;
  zone : Zone;
  player : Player.t;
  message : string;
  message_time : Q;
  water_anim : Q;
  pathway_cooldown : Q;
  pathway_hint_cooldown : Q;
  creepy_flicker : Q;
  damage_flash_timer : Q;
  boat_escape_active : bool;
  game_over : bool;
  victory : bool;
  bullets : list Bullet.t;
  guards : Zone -> list addr;
  guard_store : gmap addr Guard.t;
  npcs : list NPC.t;
  collected : gset string;
  items : Zone -> ZoneItems;
  audio : list AudioCall
}.

Definition set_zone (v : Zone) (g : t) : t :=
  mk (state g) (profile g) v (player g) (message g) (message_time g) (water_anim g) (pathway_cooldown g) (pathway_hint_cooldown g) (creepy_flicker g) (damage_flash_timer g) (boat_escape_active g) (game_over g) (victory g) (bullets g) (guards g) (guard_store g) (npcs g) (collected g) (items g) (audio g).
Definition set_player (v : Player.t) (g : t) : t :=
  mk (state g) (profile g) (zone g) v (message g) (message_time g) (water_anim g) (pathway_cooldown g) (pathway_hint_cooldown g) (creepy_flicker g) (damage_flash_timer g) (boat_escape_active g) (game_over g) (victory g) (bullets g) (guards g) (guard_store g) (npcs g) (collected g) (items g) (audio g).
Definition set_message (v : string) (g : t) : t :=
  mk (state g) (profile g) (zone g) (player g) v (message_time g) (water_anim g) (pathway_cooldown g) (pathway_hint_cooldown g) (creepy_flicker g) (damage_flash_timer g) (boat_escape_active g) (game_over g) (victory g) (bullets g) (guards g) (guard_store g) (npcs g) (collected g) (items g) (audio g).
Definition set_message_time (v : Q) (g : t) : t :=
  mk (state g) (profile g) (zone g) (player g) (message g) v (water_anim g) (pathway_cooldown g) (pathway_hint_cooldown g) (creepy_flicker g) (damage_flash_timer g) (boat_escape_active g) (game_over g) (victory g) (bullets g) (guards g) (guard_store g) (npcs g) (collected g) (items g) (audio g).
Definition set_water_anim (v : Q) (g : t) : t :=
  mk (state g) (profile g) (zone g) (player g) (message g) (message_time g) v (pathway_cooldown g) (pathway_hint_cooldown g) (creepy_flicker g) (damage_flash_timer g) (boat_escape_active g) (game_over g) (victory g) (bullets g) (guards g) (guard_store g) (npcs g) (collected g) (items g) (audio g).
Definition set_pathway_cooldown (v : Q) (g : t) : t :=
  mk (state g) (profile g) (zone g) (player g) (message g) (message_time g) (water_anim g) v (pathway_hint_cooldown g) (creepy_flicker g) (damage_flash_timer g) (boat_escape_active g) (game_over g) (victory g) (bullets g) (guards g) (guard_store g) (npcs g) (collected g) (items g) (audio g).
Definition set_pathway_hint_cooldown (v : Q) (g : t) : t :=
  mk (state g) (profile g) (zone g) (player g) (message g) (message_time g) (water_anim g) (pathway_cooldown g) v (creepy_flicker g) (damage_flash_timer g) (boat_escape_active g) (game_over g) (victory g) (bullets g) (guards g) (guard_store g) (npcs g) (collected g) (items g) (audio g).
Definition set_creepy_flicker (v : Q) (g : t) : t :=
  mk (state g) (profile g) (zone g) (player g) (message g) (message_time g) (water_anim g) (pathway_cooldown g) (pathway_hint_cooldown g) v (damage_flash_timer g) (boat_escape_active g) (game_over g) (victory g) (bullets g) (guards g) (guard_store g) (npcs g) (collected g) (items g) (audio g).
Definition set_damage_flash_timer (v : Q) (g : t) : t :=
  mk (state g) (profile g) (zone g) (player g) (message g) (message_time g) (water_anim g) (pathway_cooldown g) (pathway_hint_cooldown g) (creepy_flicker g) v (boat_escape_active g) (game_over g) (victory g) (bullets g) (guards g) (guard_store g) (npcs g) (collected g) (items g) (audio g).
Definition set_game_over (v : bool) (g : t) : t :=
  mk (state g) (profile g) (zone g) (player g) (message g) (message_time g) (water_anim g) (pathway_cooldown g) (pathway_hint_cooldown g) (creepy_flicker g) (damage_flash_timer g) (boat_escape_active g) v (victory g) (bullets g) (guards g) (guard_store g) (npcs g) (collected g) (items g) (audio g).
Definition set_victory (v : bool) (g : t) : t :=
  mk (state g) (profile g) (zone g) (player g) (message g) (message_time g) (water_anim g) (pathway_cooldown g) (pathway_hint_cooldown g) (creepy_flicker g) (damage_flash_timer g) (boat_escape_active g) (game_over g) v (bullets g) (guards g) (guard_store g) (npcs g) (collected g) (items g) (audio g).
Definition set_bullets (v : list Bullet.t) (g : t) : t :=
  mk (state g) (profile g) (zone g) (player g) (message g) (message_time g) (water_anim g) (pathway_cooldown g) (pathway_hint_cooldown g) (creepy_flicker g) (damage_flash_timer g) (boat_escape_active g) (game_over g) (victory g) v (guards g) (guard_store g) (npcs g) (collected g) (items g) (audio g).
Definition set_guards (v : Zone -> list addr) (g : t) : t :=
  mk (state g) (profile g) (zone g) (player g) (message g) (message_time g) (water_anim g) (pathway_cooldown g) (pathway_hint_cooldown g) (creepy_flicker g) (damage_flash_timer g) (boat_escape_active g) (game_over g) (victory g) (bullets g) v (guard_store g) (npcs g) (collected g) (items g) (audio g).
Definition set_guard_store (v : gmap addr Guard.t) (g : t) : t :=
  mk (state g) (profile g) (zone g) (player g) (message g) (message_time g) (water_anim g) (pathway_cooldown g) (pathway_hint_cooldown g) (creepy_flicker g) (damage_flash_timer g) (boat_escape_active g) (game_over g) (victory g) (bullets g) (guards g) v (npcs g) (collected g) (items g) (audio g).
Definition set_npcs (v : list NPC.t) (g : t) : t :=
  mk (state g) (profile g) (zone g) (player g) (message g) (message_time g) (water_anim g) (pathway_cooldown g) (pathway_hint_cooldown g) (creepy_flicker g) (damage_flash_timer g) (boat_escape_active g) (game_over g) (victory g) (bullets g) (guards g) (guard_store g) v (collected g) (items g) (audio g).
Definition set_collected (v : gset string) (g : t) : t :=
  mk (state g) (profile g) (zone g) (player g) (message g) (message_time g) (water_anim g) (pathway_cooldown g) (pathway_hint_cooldown g) (creepy_flicker g) (damage_flash_timer g) (boat_escape_active g) (game_over g) (victory g) (bullets g) (guards g) (guard_store g) (npcs g) v (items g) (audio g).
Definition set_audio (v : list AudioCall) (g : t) : t :=
  mk (state g) (profile g) (zone g) (player g) (message g) (message_time g) (water_anim g) (pathway_cooldown g) (pathway_hint_cooldown g) (creepy_flicker g) (damage_flash_timer g) (boat_escape_active g) (game_over g) (victory g) (bullets g) (guards g) (guard_store g) (npcs g) (collected g) (items g) v.

Definition region_order : list Zone := [Ground; Estate; Tunnels; Harbor].

(** [l.index(z)]; [None] stands for [ValueError]. *)
Fixpoint index (z : Zone) (l : list Zone) : option nat :=
  match l with
  | [] => None
  | y :: l' => if decide (y = z) then Some O else option_map S (index z l')
  end.

(** [l.remove(a)]: drops the first occurrence; [None] stands for [ValueError]. *)
Fixpoint remove_first (a : addr) (l : list addr) : option (list addr) :=
  match l with
  | [] => None
  | y :: l' => if decide (y = a) then Some l'
               else option_map (cons y) (remove_first a l')
  end.

Definition play (c : AudioCall) (g : t) : t := set_audio (audio g ++ [c]) g.

(** [self.guards[z] = l] *)
Definition set_zone_guards (z : Zone) (l : list addr) (g : t) : t :=
  set_guards (fun z' => if decide (z' = z) then l else guards g z') g.

Definition set_player_rect (r : Rect) (g : t) : t := set_player (Player.set_rect r (player g)) g.

Definition player_rect (g : t) : Rect := Player.rect (player g).

Definition current_region_tasks (g : t) : list (string * bool) :=
  match zone g with
  | Ground =>
      [ ("Find Ground clue", bool_decide ("clue_Ground" ∈ collected g));
        ("Collect Jail key", get_key jail_key (Player.keys (player g)));
        ("Get a weapon", Player.has_gun (player g)) ]
  | Estate =>
      let done := existsb (fun n => bool_decide (NPC.zone n = Estate)
                                    && (NPC.following n || NPC.rescued n)) (npcs g) in
      [ ("Find Estate clue", bool_decide ("clue_Estate" ∈ collected g));
        ("Collect Cave key", get_key cave_key (Player.keys (player g)));
        ("Help trapped worker", done) ]
  | Tunnels =>
      let done := existsb (fun n => bool_decide (NPC.zone n = Tunnels)
                                    && (NPC.following n || NPC.rescued n)) (npcs g) in
      [ ("Find Tunnel clue", bool_decide ("clue_Tunnels" ∈ collected g));
        ("Collect Boat key", get_key boat_key (Player.keys (player g)));
        ("Guide tunnel survivor", done) ]
  | Harbor =>
      [ ("Bring all clues", 3 <=? Player.clues (player g));
        ("Bring all keys", all_keys (Player.keys (player g)));
        ("Rescue both survivors", 2 <=? Player.rescued_npcs (player g)) ]
  end.

Definition region_complete (z : Zone) (g : t) : bool :=
  if decide (zone g = z) then forallb snd (current_region_tasks g) else false.

Definition take_damage (amount : Z) (g : t) : t :=
  let g := set_player (Player.set_health (Player.health (player g) - amount) (player g)) g in
  let g := set_damage_flash_timer (2 # 10) g in
  let g := play (play_sound "hurt" true) g in
  let g := set_creepy_flicker (15 # 100) g in
  if Player.health (player g) <=? 0
  then set_message "You were defeated." (set_game_over true g)
  else g.

Definition transfer_step (new_zone : Zone) (g : t) (acc : list NPC.t * Z) (n : NPC.t)
  : list NPC.t * Z :=
  let '(done, followers_transferred) := acc in
  if NPC.following n && negb (NPC.rescued n) && bool_decide (NPC.zone n = zone g) then
    let offset_x := -40 - followers_transferred * 20 in
    let offset_y := 20 in
    let n := NPC.set_zone new_zone n in
    let n := NPC.set_char
               (Character.set_rect
                  (set_center (centerx (player_rect g) + offset_x, centery (player_rect g) + offset_y)
                              (NPC.rect n))
                  (NPC.char n)) n in
    (done ++ [n], followers_transferred + 1)
  else (done ++ [n], followers_transferred).

Definition transfer_followers (new_zone : Zone) (g : t) : t :=
  let '(ns, followers_transferred) := fold_left (transfer_step new_zone g) (npcs g) ([], 0) in
  let g := set_npcs ns g in
  if 0 <? followers_transferred
  then set_message_time 2
         (set_message (pretty followers_transferred +:+ " survivor(s) followed you through the portal") g)
  else g.

(** The rate-limited hint of a blocked gate. *)
Definition hint (text : string) (g : t) : t :=
  if Qleb (pathway_hint_cooldown g) 0
  then set_pathway_hint_cooldown 1 (set_message text g)
  else g.

(** The transition itself: the part of the gate loop after both checks. *)
Definition enter (gate : ZoneGate) (g : t) : t :=
  let g := transfer_followers (target_zone gate) g in
  let g := set_zone (target_zone gate) g in
  let g := set_player_rect (set_topleft (spawn gate) (player_rect g)) g in
  let g := if decide (zone g = Harbor) then
             if centery (player_rect g) <? 300
             then set_player_rect (set_centery 400 (player_rect g)) g
             else g
           else g in
  let g := set_pathway_cooldown (7 # 10) g in
  let g := play (play_sound "door" false) g in
  set_message ("Entered " +:+ zone_name (zone g)) g.

(** [gate.required_key and not self.player.keys.get(gate.required_key, False)] *)
Definition key_missing (gate : ZoneGate) (g : t) : bool :=
  match required_key gate with
  | Some k => negb (get_key k (Player.keys (player g)))
  | None => false
  end.

(** The loop over the gates of the zone. *)
Fixpoint gate_loop (gates : list ZoneGate) (g : t) : Outcome t unit :=
  match gates with
  | [] => Ok g tt
  | gate :: rest =>
      if Qltb 0 (pathway_cooldown g) then Ok g tt
      else if colliderect (player_rect g) (gate_rect gate) then
        if key_missing gate g
        then gate_loop rest (hint ("Pathway locked: requires " +:+ match required_key gate with
                                                                   | Some k => key_label k
                                                                   | None => ""
                                                                   end) g)
        else
          match index (zone g) region_order with
          | None => Raise g ValueError
          | Some current_idx =>
              match index (target_zone gate) region_order with
              | None => Raise g ValueError
              | Some target_idx =>
                  if (current_idx <? target_idx)%nat && negb (region_complete (zone g) g)
                  then gate_loop rest (hint "Complete this region's tasks first." g)
                  else Ok (enter gate g) tt
              end
          end
      else gate_loop rest g
  end.

(** The extraction check at the end of [update]. *)
Definition extraction_check (extraction : option Rect) (g : t) : t :=
  match extraction with
  | None => g
  | Some e =>
      if colliderect (player_rect g) e then
        if (3 <=? Player.clues (player g)) && all_keys (Player.keys (player g))
           && (2 <=? Player.rescued_npcs (player g))
        then play (play_sound "victory" true) (set_victory true g)
        else set_message "Not ready: need all clues, keys, and rescued survivors." g
      else g
  end.

(** The composite identifiers of one-shot pickups. *)
Definition ammo_id (z : Zone) (idx : nat) : string :=
  "ammo_" +:+ zone_name z +:+ "_" +:+ pretty idx.
Definition clue_id (z : Zone) : string := "clue_" +:+ zone_name z.

(** The loop of [interact] over [enumerate(items.get("ammo", []))]. *)
Fixpoint ammo_loop (p : Rect) (idx : nat) (boxes : list Rect) (acc : t * bool) : t * bool :=
  match boxes with
  | [] => acc
  | box :: rest =>
      let '(g, collected_anything) := acc in
      let key := ammo_id (zone g) idx in
      ammo_loop p (S idx) rest
        (if colliderect p box && bool_decide (key ∉ collected g)
         then (set_message "Picked up ammo (+12)."
                 (set_player (Player.set_ammo (Player.ammo (player g) + 12) (player g))
                    (set_collected (collected g ∪ {[key]}) g)), true)
         else acc)
  end.

(** One iteration of the loop of [interact] over the three key names. *)
Definition key_step (p : Rect) (its : ZoneItems) (acc : t * bool) (k : Key) : t * bool :=
  let '(g, collected_anything) := acc in
  match key_item k its with
  | Some r =>
      if colliderect p r && negb (get_key k (Player.keys (player g)))
      then (set_message ("Collected " +:+ key_label k +:+ ".")
              (set_player (Player.set_keys (set_key k (Player.keys (player g))) (player g)) g),
            true)
      else acc
  | None => acc
  end.

(** The loop of [interact] over the NPCs; [z] is the current zone. *)
Fixpoint npc_follow_loop (p : Rect) (z : Zone) (ns : list NPC.t) : list NPC.t * bool :=
  match ns with
  | [] => ([], false)
  | n :: rest =>
      let '(rest', any) := npc_follow_loop p z rest in
      if bool_decide (NPC.zone n = z) && negb (NPC.following n) && negb (NPC.rescued n)
         && colliderect p (inflate 24 24 (NPC.rect n))
      then (NPC.set_following true n :: rest', true)
      else (n :: rest', any)
  end.

(** The pistol: [if "gun" in items and ... and "gun" not in self.collected]. *)
Definition take_gun (p : Rect) (its : ZoneItems) (acc : t * bool) : t * bool :=
  let '(g, collected_anything) := acc in
  match gun its with
  | Some r =>
      if colliderect p r && bool_decide ("gun" ∉ collected g)
      then (set_message "You found a pistol with 20 ammo."
              (set_player (Player.set_ammo (Player.ammo (player g) + 20)
                             (Player.set_has_gun true (player g)))
                 (set_collected (collected g ∪ {["gun"]}) g)), true)
      else acc
  | None => acc
  end.

(** The clue of the zone: [if "clue" in items: ...]. *)
Definition take_clue (p : Rect) (its : ZoneItems) (acc : t * bool) : t * bool :=
  let '(g, collected_anything) := acc in
  match clue its with
  | Some r =>
      let key := clue_id (zone g) in
      if colliderect p r && bool_decide (key ∉ collected g)
      then
        let n := Player.clues (player g) + 1 in
        (set_message ("Clue found (" +:+ pretty n +:+ "/3).")
           (set_player (Player.set_clues n (player g))
              (set_collected (collected g ∪ {[key]}) g)), true)
      else acc
  | None => acc
  end.

(** The loop over the NPCs and the end of [interact]. *)
Definition take_followers (p : Rect) (acc : t * bool) : t :=
  let '(g, collected_anything) := acc in
  let '(ns, followed) := npc_follow_loop p (zone g) (npcs g) in
  let g := if followed then set_message "Survivor is now following you." (set_npcs ns g)
           else set_npcs ns g in
  if collected_anything || followed
  then set_message_time 2 (play (play_sound "item_pickup" false) g)
  else g.

Definition interact (g : t) : t :=
  let its := items g (zone g) in
  let p := player_rect g in
  let acc := take_gun p its (g, false) in
  let acc := ammo_loop p 0 (ammo_boxes its) acc in
  let acc := take_clue p its acc in
  let acc := fold_left (key_step p its) [jail_key; cave_key; boat_key] acc in
  take_followers p acc.

Section WithSettings.
Context {cfg : Settings}.

Definition validate_player_position (g : t) : t :=
  let g :=
    if decide (zone g = Harbor) then
      let pier_area := mkRect 800 200 300 40 in
      let boat_area := mkRect 1020 210 80 40 in
      let g :=
        if colliderect pier_area (player_rect g) || colliderect boat_area (player_rect g) then g
        else if centery (player_rect g) <? 200 then
          play (play_sound "hurt" false)
            (set_message_time 2
               (set_message "You can't swim! Get back on land."
                  (set_player_rect (set_center (500, 400) (player_rect g)) g)))
        else g in
      let g := if Rect_left (player_rect g) <? 40
               then set_player_rect (set_left 40 (player_rect g)) g else g in
      let g := if WIDTH - 40 <? Rect_right (player_rect g)
               then set_player_rect (set_right (WIDTH - 40) (player_rect g)) g else g in
      if (Rect_top (player_rect g) <? 200) && negb (colliderect pier_area (player_rect g))
      then set_player_rect (set_top 200 (player_rect g)) g else g
    else g in
  let g := if Rect_left (player_rect g) <? 40
           then set_player_rect (set_left 40 (player_rect g)) g else g in
  let g := if WIDTH - 40 <? Rect_right (player_rect g)
           then set_player_rect (set_right (WIDTH - 40) (player_rect g)) g else g in
  let g := if Rect_top (player_rect g) <? 40
           then set_player_rect (set_top 40 (player_rect g)) g else g in
  if HEIGHT - 40 <? Rect_bottom (player_rect g)
  then set_player_rect (set_bottom (HEIGHT - 40) (player_rect g)) g else g.

(** The obstacles a frame simulates against: the zone's, without those
    that touch the pier in Harbor. *)
Definition frame_obstacles (z : Zone) : list Rect :=
  if decide (z = Harbor)
  then List.filter (fun o => negb (colliderect o (mkRect 800 150 300 40))) (zone_obstacles z)
  else zone_obstacles z.

(** The loop over [list(self.guards[self.zone])]: [snapshot] is the copy
    that is iterated, the live list is in the state.  The result is
    [any_alert]. *)
Fixpoint guard_loop (dt : Q) (obstacles : list Rect) (snapshot : list addr)
         (any_alert : bool) (g : t) : Outcome t bool :=
  match snapshot with
  | [] => Ok g any_alert
  | a :: rest =>
      match guard_store g !! a with
      | None => Raise g KeyError
      | Some guard =>
          match Guard.update dt (player g) obstacles guard with
          | Raise guard e => Raise (set_guard_store (<[a := guard]> (guard_store g)) g) e
          | Ok guard shot =>
              let g := set_guard_store (<[a := guard]> (guard_store g)) g in
              let any_alert := if Guard.alerted guard then true else any_alert in
              let g := match shot with
                       | Some b => set_bullets (bullets g ++ [b]) g
                       | None => g
                       end in
              if Guard.health guard <=? 0 then
                match remove_first a (guards g (zone g)) with
                | None => Raise g ValueError
                | Some l => guard_loop dt obstacles rest any_alert (set_zone_guards (zone g) l g)
                end
              else guard_loop dt obstacles rest any_alert g
          end
      end
  end.

Definition guard_pass (dt : Q) (obstacles : list Rect) (g : t) : Outcome t bool :=
  guard_loop dt obstacles (guards g (zone g)) false g.

(** The loop over [self.npcs]. *)
Fixpoint npc_loop (obstacles : list Rect) (ns : list NPC.t) (g : t) : list NPC.t * t :=
  match ns with
  | [] => ([], g)
  | n :: rest =>
      let '(n, g) :=
        if bool_decide (NPC.zone n = zone g) then
          let n := NPC.update (player g) obstacles n in
          if NPC.following n && bool_decide (zone g = Harbor)
             && (1010 <? centerx (NPC.rect n)) && negb (NPC.rescued n)
          then (NPC.set_rescued true n,
                play (play_sound "item_pickup" false)
                  (set_player (Player.set_rescued_npcs
                                 (Player.rescued_npcs (player g) + 1) (player g)) g))
          else (n, g)
        else (n, g) in
      let '(rest, g) := npc_loop obstacles rest g in
      (n :: rest, g)
  end.

Definition npc_pass (obstacles : list Rect) (g : t) : t :=
  let '(ns, g) := npc_loop obstacles (npcs g) g in
  set_npcs ns g.

(** The first guard of the live list whose rectangle holds the point. *)
Fixpoint find_hit (p : Vec) (store : gmap addr Guard.t) (live : list addr) : option (addr * Guard.t) :=
  match live with
  | [] => None
  | a :: rest =>
      match store !! a with
      | Some guard => if collidepoint (Guard.rect guard) p then Some (a, guard)
                      else find_hit p store rest
      | None => find_hit p store rest
      end
  end.

(** The loop over [list(self.bullets)].  Every bullet is in the list once,
    so removing it by identity leaves the others in place: the result is
    the list of the bullets that stay. *)
Fixpoint bullet_loop (obstacles : list Rect) (bs : list Bullet.t) (g : t) : list Bullet.t * t :=
  match bs with
  | [] => ([], g)
  | b :: rest =>
      let b := Bullet.update obstacles b in
      let '(kept, g) :=
        if negb (Bullet.alive b) then ([], g)
        else if String.eqb (Bullet.owner b) "guard" && collidepoint (player_rect g) (Bullet.pos b)
        then ([], take_damage (guard_damage (profile g)) g)
        else if String.eqb (Bullet.owner b) "player" then
          match find_hit (Bullet.pos b) (guard_store g) (guards g (zone g)) with
          | Some (a, guard) =>
              ([], set_guard_store
                     (<[a := Guard.set_health (Guard.health guard - player_damage (profile g)) guard]>
                        (guard_store g)) g)
          | None => ([b], g)
          end
        else ([b], g) in
      let '(rest, g) := bullet_loop obstacles rest g in
      (kept ++ rest, g)
  end.

Definition bullet_pass (obstacles : list Rect) (g : t) : t :=
  let '(bs, g) := bullet_loop obstacles (bullets g) g in
  set_bullets bs g.

(** The head of [update]: the audio manager and the timers of the game. *)
Definition begin_frame (dt : Q) (g : t) : t :=
  let g := play (audio_update dt) g in
  let g := set_water_anim (water_anim g + dt) g in
  let g := set_pathway_cooldown (py_max 0 (pathway_cooldown g - dt)) g in
  let g := set_pathway_hint_cooldown (py_max 0 (pathway_hint_cooldown g - dt)) g in
  set_damage_flash_timer (py_max 0 (damage_flash_timer g - dt)) g.

(** The player's turn: [handle_input], then [move_and_collide]. *)
Definition control (k : Pressed) (dt : Q) (obstacles : list Rect) (g : t) : t :=
  let g := set_player (Player.handle_input k dt (stamina_drain (profile g))
                         (stamina_recover (profile g)) (player g)) g in
  set_player (Player.set_char
                (Character.move_and_collide obstacles (Player.char (player g)))
                (player g)) g.

(** What follows the guard pass: music, survivors, bullets, gates, the
    extraction check and the message timer. *)
Definition settle (dt : Q) (obstacles : list Rect) (gates : list ZoneGate)
    (extraction : option Rect) (any_alert : bool) (g : t) : Outcome t unit :=
  let g := play (play_music_for_zone (zone g) any_alert) g in
  let g := npc_pass obstacles g in
  let g := bullet_pass obstacles g in
  match gate_loop gates g with
  | Raise g e => Raise g e
  | Ok g _ =>
      let g := extraction_check extraction g in
      Ok (set_message_time (py_max 0 (message_time g - dt)) g) tt
  end.

(** [update(dt)]; [k] is what the keyboard reports during the frame.  The
    obstacles, gates and extraction point are those of the zone the frame
    starts in. *)
Definition update (k : Pressed) (dt : Q) (g : t) : Outcome t unit :=
  let '(_, gates, extraction) := build_zone_data (zone g) in
  let obstacles := frame_obstacles (zone g) in
  let g := begin_frame dt g in
  let g := validate_player_position g in
  let g := control k dt obstacles g in
  match guard_pass dt obstacles g with
  | Raise g e => Raise g e
  | Ok g any_alert => settle dt obstacles gates extraction any_alert g
  end.

(** The dictionary that [randomize_spawns] assigns to [self.items]; the
    positions are the ones it has drawn. *)
Definition randomized_items (gun_position : Z * Z) (ammo_positions : Zone -> list (Z * Z))
    (clue_positions : Zone -> Z * Z) (key_positions : Key -> Z * Z) (z : Zone) : ZoneItems :=
  let at_point (pos : Z * Z) (w h : Z) := mkRect (fst pos) (snd pos) w h in
  let boxes (z : Zone) := map (fun pos => at_point pos 16 10) (ammo_positions z) in
  match z with
  | Ground => mkItems (Some (at_point gun_position 24 12)) (boxes Ground)
                      (Some (at_point (clue_positions Ground) 20 14))
                      (Some (at_point (key_positions jail_key) 18 12)) None None
  | Estate => mkItems None (boxes Estate)
                      (Some (at_point (clue_positions Estate) 20 14))
                      None (Some (at_point (key_positions cave_key) 18 12)) None
  | Tunnels => mkItems None (boxes Tunnels)
                       (Some (at_point (clue_positions Tunnels) 20 14))
                       None None (Some (at_point (key_positions boat_key) 18 12))
  | Harbor => mkItems None [] None None None None
  end.

(** [reset_round(profile)].  The guards that [build_guards] has built (their
    spawn search and shoot timers are random) and the items that
    [randomize_spawns] has placed are arguments. *)
Definition reset_round (prof : DifficultyProfile) (built : Zone -> list addr)
    (store : gmap addr Guard.t) (placed : Zone -> ZoneItems) (g : t) : t :=
  {| state := Playing; profile := prof; zone := Ground;
     player := Player.init 100 550 prof;
     message := ("Difficulty: " +:+ name prof +:+ ". Escape the island!");
     message_time := 3;
     water_anim := water_anim g;
     pathway_cooldown := pathway_cooldown g;
     pathway_hint_cooldown := pathway_hint_cooldown g;
     creepy_flicker := creepy_flicker g;
     damage_flash_timer := 0;
     boat_escape_active := false; game_over := false; victory := false;
     bullets := [];
     guards := built; guard_store := store;
     npcs := [NPC.init 350 300 Estate; NPC.init 500 350 Tunnels];
     collected := ∅; items := placed; audio := audio g |}.

(** A left click while playing, from [events]. *)
Definition click (mouse_pos : Z * Z) (g : t) : t :=
  match state g with
  | Playing =>
      if boat_escape_active g then g
      else
        let '(p, b) := Player.try_shoot mouse_pos (player g) in
        let g := set_player p g in
        match b with
        | Some b => play (play_sound "gunshot" false) (set_bullets (bullets g ++ [b]) g)
        | None => g
        end
  | Menu => g
  end.

(** One turn of the loop of [run], after the events: [update] runs only
    while playing, neither defeated nor victorious. *)
Definition frame (k : Pressed) (dt : Q) (g : t) : Outcome t unit :=
  match state g with
  | Playing => if negb (game_over g) && negb (victory g) then update k dt g else Ok g tt
  | Menu => Ok g tt
  end.
End WithSettings.

End Game.

(** ** audio.py: AudioManager

    The manager as far as it decides what reaches the mixer.  A [Sound] is
    its volume; the calls that reach [pygame.mixer] are recorded in order. *)

Inductive MixerCall : Type :=
  | mixer_stop
  | track_play (track : string)
  | sound_play (sound_name : string) (volume : Q).

(** [Sound.set_volume(v)] of pygame: a negative value leaves the volume as it
    is, a value above 1 sets it to 1. *)
Definition Sound_set_volume (v old : Q) : Q :=
  if Qltb v 0 then old else if Qltb 1 v then 1 else v.

Module AudioManager.

Record t : Type := mk {
  enabled : bool;
  current_music : option string;
  music_volume : Q;
  sfx_volume : Q;
  priority_volume : Q;
  ducked_volume : Q;
  volume_duck_timer : Q;
  duck_duration : Q;
  using_file_sounds : bool;
  sounds : gmap string Q;
  music_tracks : gmap string Q;
  mixer : list MixerCall
}.

Definition set_current_music (v : option string) (a : t) : t :=
  mk (enabled a) v (music_volume a) (sfx_volume a) (priority_volume a) (ducked_volume a)
     (volume_duck_timer a) (duck_duration a) (using_file_sounds a) (sounds a) (music_tracks a)
     (mixer a).
Definition set_volume_duck_timer (v : Q) (a : t) : t :=
  mk (enabled a) (current_music a) (music_volume a) (sfx_volume a) (priority_volume a)
     (ducked_volume a) v (duck_duration a) (using_file_sounds a) (sounds a) (music_tracks a)
     (mixer a).
Definition set_sounds (v : gmap string Q) (a : t) : t :=
  mk (enabled a) (current_music a) (music_volume a) (sfx_volume a) (priority_volume a)
     (ducked_volume a) (volume_duck_timer a) (duck_duration a) (using_file_sounds a) v
     (music_tracks a) (mixer a).
Definition set_music_tracks (v : gmap string Q) (a : t) : t :=
  mk (enabled a) (current_music a) (music_volume a) (sfx_volume a) (priority_volume a)
     (ducked_volume a) (volume_duck_timer a) (duck_duration a) (using_file_sounds a) (sounds a)
     v (mixer a).
Definition set_using_file_sounds (v : bool) (a : t) : t :=
  mk (enabled a) (current_music a) (music_volume a) (sfx_volume a) (priority_volume a)
     (ducked_volume a) (volume_duck_timer a) (duck_duration a) v (sounds a) (music_tracks a)
     (mixer a).
Definition set_enabled (v : bool) (a : t) : t :=
  mk v (current_music a) (music_volume a) (sfx_volume a) (priority_volume a) (ducked_volume a)
     (volume_duck_timer a) (duck_duration a) (using_file_sounds a) (sounds a) (music_tracks a)
     (mixer a).

(** A call that reaches the mixer. *)
Definition emit (c : MixerCall) (a : t) : t :=
  mk (enabled a) (current_music a) (music_volume a) (sfx_volume a) (priority_volume a)
     (ducked_volume a) (volume_duck_timer a) (duck_duration a) (using_file_sounds a) (sounds a)
     (music_tracks a) (mixer a ++ [c]).

(** The keys of [sound_files] and of the generated sounds, in their order. *)
Definition sound_names : list string :=
  ["gunshot"; "footstep"; "item_pickup"; "door"; "hurt"; "guard_alert"].

(** The keys of the generated music tracks. *)
Definition track_names : list string :=
  ["menu"; "Ground"; "Estate"; "Tunnels"; "Harbor"; "combat"; "victory"].

(** [_load_sound_files]; [loads name] tells whether the file of the sound
    exists and loads.  A loaded [Sound] has volume 1; no music file is ever
    read. *)
Definition _load_sound_files (loads : string -> bool) (a : t) : t :=
  let a := set_sounds ∅ a in
  let a := set_music_tracks ∅ a in
  let a := fold_left (fun a n => if loads n then set_sounds (<[n := 1%Q]> (sounds a)) a else a)
                     sound_names a in
  set_using_file_sounds (existsb loads sound_names) a.

(** [_generate_procedural_sounds] *)
Definition _generate_procedural_sounds (a : t) : t :=
  let a := set_sounds ∅ a in
  let a := set_music_tracks ∅ a in
  let a := fold_left (fun a n => set_music_tracks (<[n := 1%Q]> (music_tracks a)) a) track_names a in
  let a := fold_left (fun a n => set_sounds (<[n := 1%Q]> (sounds a)) a) sound_names a in
  set_sounds
    (map_imap (fun n vol => Some (if String.eqb n "hurt"
                                  then Sound_set_volume (priority_volume a) vol
                                  else Sound_set_volume (sfx_volume a) vol))
              (sounds a)) a.

(** [__init__]; [mixer_ok] tells whether [pygame.mixer.init] succeeds.  When
    it does not, the tables of sounds and tracks are never created; they are
    empty here, and no method that is modelled reads them then. *)
Definition init (mixer_ok : bool) (loads : string -> bool) : t :=
  let a := mk false None (4 # 10) (5 # 10) (8 # 10) (15 # 100) 0 (3 # 10) false ∅ ∅ [] in
  if mixer_ok then
    let a := set_enabled true a in
    let a := _load_sound_files loads a in
    if using_file_sounds a then a else _generate_procedural_sounds a
  else a.

(** The track [play_music_for_zone] decides on. *)
Definition chosen_track (zone : string) (combat_active : bool) (a : t) : string :=
  if combat_active then "combat"
  else if bool_decide (is_Some (music_tracks a !! zone)) then zone
  else "menu".

Definition play_music_for_zone (zone : string) (combat_active : bool) (a : t) : t :=
  if negb (enabled a) then a
  else
    let track := chosen_track zone combat_active a in
    if bool_decide (current_music a = Some track) then a
    else
      let a := emit mixer_stop a in
      match music_tracks a !! track with
      | Some _ => set_current_music (Some track) (emit (track_play track) a)
      | None => a
      end.

Definition play_sound (sound_name : string) (priority : bool) (a : t) : t :=
  if negb (enabled a) then a
  else
    match sounds a !! sound_name with
    | None => a
    | Some original_vol =>
        let vol := if priority then Sound_set_volume (priority_volume a) original_vol
                   else original_vol in
        let a := emit (sound_play sound_name vol) a in
        let a := if priority
                 then set_sounds (<[sound_name := Sound_set_volume original_vol vol]> (sounds a)) a
                 else a in
        if String.eqb sound_name "gunshot" then set_volume_duck_timer (duck_duration a) a else a
    end.

Definition update (dt : Q) (a : t) : t :=
  if Qltb 0 (volume_duck_timer a) then set_volume_duck_timer (volume_duck_timer a - dt) a else a.

End AudioManager.

(** One recorded call of the game, carried out by the manager. *)
Definition run_call (a : AudioManager.t) (c : AudioCall) : AudioManager.t :=
  match c with
  | audio_update dt => AudioManager.update dt a
  | play_sound n p => AudioManager.play_sound n p a
  | play_music_for_zone z c => AudioManager.play_music_for_zone (zone_name z) c a
  end.

(** A request that reaches the manager: a call the game has recorded, or
    the call [draw] makes while the menu is shown,
    [play_music_for_zone("menu", False)]. *)
Inductive Request : Type :=
  | game_call (c : AudioCall)
  | menu_music.

Definition run_request (a : AudioManager.t) (r : Request) : AudioManager.t :=
  match r with
  | game_call c => run_call a c
  | menu_music => AudioManager.play_music_for_zone "menu" false a
  end.

(** The requests of a session, carried out in order. *)
Definition replay (log : list Request) (a : AudioManager.t) : AudioManager.t :=
  fold_left run_request log a.

(** ** game.py: the difficulty menu of [events] *)

(** [(selected - 1) % len(DIFFICULTIES)] and [(selected + 1) % len(DIFFICULTIES)] *)
Definition menu_up (selected : Z) : Z := (selected - 1) mod Z.of_nat (length DIFFICULTIES).
Definition menu_down (selected : Z) : Z := (selected + 1) mod Z.of_nat (length DIFFICULTIES).

(** The keys of the menu that move the selection. *)
Inductive MenuKey : Type := menu_key_up | menu_key_down.

Definition menu_press (selected : Z) (k : MenuKey) : Z :=
  match k with menu_key_up => menu_up selected | menu_key_down => menu_down selected end.

(** [DIFFICULTIES[selected]]; [None] stands for [IndexError].  A negative
    index counts from the end. *)
Definition difficulty_at (selected : Z) : option DifficultyProfile :=
  let n := Z.of_nat (length DIFFICULTIES) in
  if (0 <=? selected) && (selected <? n) then DIFFICULTIES !! Z.to_nat selected
  else if (- n <=? selected) && (selected <? 0) then DIFFICULTIES !! Z.to_nat (selected + n)
  else None.

(** ** levels.py: build_guards

    The second definition of [build_guards] in the module, which replaces the
    first.  The search of [find_valid_spawn] walks a spiral whose steps are
    [int(radius * cos(angle))] and [int(radius * sin(angle))]: the two
    integers of attempt [i] are [offset i].  The values [random.uniform]
    draws for the shoot timers are [timers]. *)

Section BuildGuards.
Context {cfg : Settings}.

Definition base_guard_configs (z : Zone) : list (Z * Z * list (Z * Z)) :=
  match z with
  | Ground => [ (540, 500, [(500, 500); (760, 500); (760, 640); (500, 640)]);
                (950, 250, [(900, 210); (1080, 210); (1080, 420); (900, 420)]) ]
  | Estate => [ (350, 300, [(250, 300); (550, 300)]);
                (850, 520, [(760, 520); (1040, 520)]) ]
  | Tunnels => [ (700, 300, [(620, 260); (920, 340); (620, 500)]) ]
  | Harbor => [ (800, 420, [(680, 420); (1000, 420)]) ]
  end.

Definition extra_guard_configs (z : Zone) : list (Z * Z * list (Z * Z)) :=
  match z with
  | Ground => [ (760, 180, [(680, 180); (860, 180); (860, 300); (680, 300)]);
                (420, 210, [(360, 200); (520, 200); (520, 300); (360, 300)]) ]
  | Estate => [ (1010, 230, [(940, 220); (1080, 220); (1080, 320); (940, 320)]);
                (140, 500, [(100, 450); (220, 520)]) ]
  | Tunnels => [ (350, 460, [(300, 420); (480, 500); (320, 560)]);
                 (980, 140, [(930, 120); (1080, 180)]) ]
  | Harbor => [ (620, 280, [(560, 260); (760, 260)]);
                (1000, 520, [(900, 500); (1080, 580)]) ]
  end.

Definition is_valid_position (x y : Z) (z : Zone) : bool :=
  if existsb (fun obstacle => colliderect (mkRect x y 22 32) obstacle) (zone_obstacles z)
  then false
  else if (x <? 60) || (WIDTH - 100 <? x) || (y <? 60) || (HEIGHT - 100 <? y) then false
  else true.

Definition safe_spots (z : Zone) : Z * Z :=
  match z with
  | Ground => (200, 600)
  | Estate => (200, 400)
  | Tunnels => (200, 300)
  | Harbor => (200, 500)
  end.

(** The position attempt [i] of the search tests. *)
Definition spawn_attempt (offset : nat -> Z * Z) (intended_x intended_y : Z) (attempt : nat)
  : Z * Z :=
  (Z.max 60 (Z.min (WIDTH - 100) (intended_x + fst (offset attempt))),
   Z.max 60 (Z.min (HEIGHT - 100) (intended_y + snd (offset attempt)))).

Definition find_valid_spawn (offset : nat -> Z * Z) (intended_x intended_y : Z) (z : Zone)
  : Z * Z :=
  if is_valid_position intended_x intended_y z then (intended_x, intended_y)
  else
    match List.find (fun p => is_valid_position (fst p) (snd p) z)
                    (map (spawn_attempt offset intended_x intended_y) (seq 0 20)) with
    | Some p => p
    | None => safe_spots z
    end.

(** [l[:n]] *)
Definition slice_to {A : Type} (n : Z) (l : list A) : list A :=
  if 0 <=? n then take (Z.to_nat n) l else take (Z.to_nat (Z.of_nat (length l) + n)) l.

(** The body of both loops: one guard from one configuration. *)
Definition spawn_guard (prof : DifficultyProfile) (offset : nat -> Z * Z) (z : Zone)
    (timer : Q) (config : Z * Z * list (Z * Z)) : Guard.t :=
  let '(x, y, patrol) := config in
  let '(spawn_x, spawn_y) := find_valid_spawn offset x y z in
  Guard.init spawn_x spawn_y patrol prof timer.

(** The list of the zone: the base guards, then the extra ones. *)
Definition build_guards (prof : DifficultyProfile) (offset : nat -> Z * Z)
    (timers : Zone -> nat -> Q) (z : Zone) : list Guard.t :=
  imap (fun i config => spawn_guard prof offset z (timers z i) config)
       (base_guard_configs z ++ slice_to (extra_guards prof) (extra_guard_configs z)).

End BuildGuards.

(** The guards as objects: the guards of the zones are numbered in the order
    of the zones, and the lists of the zones hold the numbers. *)
Definition all_guards (built : Zone -> list Guard.t) : list Guard.t :=
  built Ground ++ built Estate ++ built Tunnels ++ built Harbor.

Definition first_address (built : Zone -> list Guard.t) (z : Zone) : nat :=
  match z with
  | Ground => 0
  | Estate => length (built Ground)
  | Tunnels => length (built Ground) + length (built Estate)
  | Harbor => length (built Ground) + length (built Estate) + length (built Tunnels)
  end.

Definition allocate (built : Zone -> list Guard.t) : (Zone -> list addr) * gmap addr Guard.t :=
  (fun z => seq (first_address built z) (length (built z)), map_seq 0 (all_guards built)).

(** ** game.py: randomize_spawns

    The values the random module draws are arguments: for each position a
    number that stands for [random.choice] and the pairs that the calls of
    [random.randint] give when every safe position is taken; the number of
    ammunition boxes of a zone is the number of draws given for it. *)

Record Draw : Type := mkDraw { choice : nat; tries : list (Z * Z) }.

Record SpawnDraws : Type := mkSpawnDraws {
  d_jail_key : Draw;
  d_cave_key : Draw;
  d_boat_key : Draw;
  d_clue_ground : Draw;
  d_clue_estate : Draw;
  d_clue_tunnels : Draw;
  d_gun : Draw;
  d_ammo : Zone -> list Draw
}.

(** [p in used_positions] *)
Definition position_in (p : Z * Z) (used : list (Z * Z)) : bool :=
  existsb (fun q => (fst p =? fst q) && (snd p =? snd q)) used.

Section RandomizeSpawns.
Context {cfg : Settings}.

Definition safe_zone_candidates (z : Zone) : list (Z * Z) :=
  match z with
  | Ground => [ (150, 550); (300, 200); (800, 500); (1000, 300); (500, 400);
                (250, 600); (700, 200); (900, 550); (400, 300); (600, 500) ]
  | Estate => [ (250, 250); (700, 400); (900, 200); (400, 500);
                (300, 350); (600, 300); (500, 200); (800, 450) ]
  | Tunnels => [ (200, 200); (500, 200); (800, 200); (300, 350);
                 (600, 350); (200, 500); (500, 500); (800, 500);
                 (400, 250); (700, 450); (350, 400); (550, 300) ]
  | Harbor => [ (800, 300); (600, 400); (400, 200); (500, 300); (700, 350) ]
  end.

Definition is_position_safe (z : Zone) (x y padding : Z) : bool :=
  if (x <? 60) || (WIDTH - 100 <? x) || (y <? 60) || (HEIGHT - 100 <? y) then false
  else negb (existsb (fun wall =>
                        colliderect (mkRect (x - padding / 2) (y - padding / 2) padding padding)
                                    wall)
                     (zone_obstacles z)).

(** [safe_zones[zone]] after the filter and the defaults. *)
Definition safe_zones (z : Zone) : list (Z * Z) :=
  match List.filter (fun pos => is_position_safe z (fst pos) (snd pos) 40)
                    (safe_zone_candidates z) with
  | [] => match z with
          | Ground => [ (200, 550); (400, 300); (800, 500) ]
          | Tunnels => [ (300, 300); (500, 400); (700, 300) ]
          | _ => [ (300, 300) ]
          end
  | l => l
  end.

Definition get_unique_position (z : Zone) (used_positions : list (Z * Z)) (d : Draw) : Z * Z :=
  match safe_zones z with
  | [] => (300, 300)
  | first :: _ =>
      match List.filter (fun p => negb (position_in p used_positions)) (safe_zones z) with
      | [] =>
          match List.find (fun p => is_position_safe z (fst p) (snd p) 40
                                    && negb (position_in p used_positions))
                          (take 20 (tries d)) with
          | Some p => p
          | None => first
          end
      | a0 :: rest => nth (choice d mod length (a0 :: rest)) (a0 :: rest) a0
      end
  end.

(** The loop that places the ammunition of one zone. *)
Fixpoint ammo_spawns (z : Zone) (draws : list Draw) (used_positions : list (Z * Z))
  : list (Z * Z) * list (Z * Z) :=
  match draws with
  | [] => ([], used_positions)
  | d :: rest =>
      let pos := get_unique_position z used_positions d in
      let '(zone_ammo, used_positions) := ammo_spawns z rest (used_positions ++ [pos]) in
      (pos :: zone_ammo, used_positions)
  end.

Definition randomize_spawns (d : SpawnDraws) : Zone -> ZoneItems :=
  let used_positions := [] in
  let jail := get_unique_position Ground used_positions (d_jail_key d) in
  let used_positions := used_positions ++ [jail] in
  let cave := get_unique_position Estate used_positions (d_cave_key d) in
  let used_positions := used_positions ++ [cave] in
  let boat := get_unique_position Tunnels used_positions (d_boat_key d) in
  let used_positions := used_positions ++ [boat] in
  let clue_ground := get_unique_position Ground used_positions (d_clue_ground d) in
  let used_positions := used_positions ++ [clue_ground] in
  let clue_estate := get_unique_position Estate used_positions (d_clue_estate d) in
  let used_positions := used_positions ++ [clue_estate] in
  let clue_tunnels := get_unique_position Tunnels used_positions (d_clue_tunnels d) in
  let used_positions := used_positions ++ [clue_tunnels] in
  let gun_position := get_unique_position Ground used_positions (d_gun d) in
  let used_positions := used_positions ++ [gun_position] in
  let '(ammo_ground, used_positions) := ammo_spawns Ground (d_ammo d Ground) used_positions in
  let '(ammo_estate, used_positions) := ammo_spawns Estate (d_ammo d Estate) used_positions in
  let '(ammo_tunnels, used_positions) := ammo_spawns Tunnels (d_ammo d Tunnels) used_positions in
  Game.randomized_items gun_position
    (fun z => match z with
              | Ground => ammo_ground | Estate => ammo_estate
              | Tunnels => ammo_tunnels | Harbor => []
              end)
    (fun z => match z with
              | Ground => clue_ground | Estate => clue_estate
              | Tunnels => clue_tunnels | Harbor => (0, 0)
              end)
    (fun k => match k with jail_key => jail | cave_key => cave | boat_key => boat end).

End RandomizeSpawns.

(** * Sample configurations

    Concrete settings and states on which the definitions are run. *)

(** A rational stand-in for [normalize]: the vector divided by the sum of the
    absolute values of its coordinates. *)
Definition sample_normalize (v : Vec) : Vec :=
  let n := (Qabs (vx v) + Qabs (vy v))%Q in
  mkVec (vx v / n)%Q (vy v / n)%Q.

Definition sample_settings : Settings :=
  {| WIDTH := 1200; HEIGHT := 720; MAX_STAMINA := 100; PLAYER_SPEED := 3;
     SPRINT_MULTIPLIER := 16 # 10; BULLET_SPEED := 9; normalize := sample_normalize |}.

Definition story : DifficultyProfile :=
  mkProfile "Story" 120 24 20 (145 # 100) 260 (12 # 10) 38 12 24 0.

Definition no_keys_pressed : Pressed :=
  mkPressed false false false false false false false false false false.

Definition sample_player : Player.t := Player.init (cfg := sample_settings) 100 550 story.

(** The sample player after picking up the pistol. *)
Definition armed_player : Player.t := Player.set_ammo 20 (Player.set_has_gun true sample_player).

(** A guard far from the sample player, with 0.2 s left on its shoot timer. *)
Definition distant_guard : Guard.t :=
  Guard.init (cfg := sample_settings) 900 100 [(1000, 100); (800, 100)] story (2 # 10).

(** A guard 100 pixels to the right of the sample player. *)
Definition near_guard : Guard.t :=
  Guard.init (cfg := sample_settings) 200 550 [(500, 500); (760, 500)] story (2 # 10).

(** A round in play in the Ground zone: fresh player, the two survivors, no
    guards, nothing collected, the items of [build_items]. *)
Definition sample_game : Game.t :=
  {| Game.state := Playing; Game.profile := story; Game.zone := Ground;
     Game.player := sample_player;
     Game.message := "Difficulty: Story. Escape the island!"; Game.message_time := 3;
     Game.water_anim := 0; Game.pathway_cooldown := 0; Game.pathway_hint_cooldown := 0;
     Game.creepy_flicker := 0; Game.damage_flash_timer := 0;
     Game.boat_escape_active := false; Game.game_over := false; Game.victory := false;
     Game.bullets := []; Game.guards := fun _ => []; Game.guard_store := ∅;
     Game.npcs := [NPC.init 350 300 Estate; NPC.init 500 350 Tunnels];
     Game.collected := ∅; Game.items := build_items; Game.audio := [] |}.

(** The player standing on the boat in Harbor with everything gathered. *)
Definition ready_player : Player.t :=
  Player.set_rect (mkRect 1040 215 22 32)
    (Player.set_rescued_npcs 2
       (Player.set_clues 3 (Player.set_keys (mkKeys true true true) armed_player))).

Definition ready_game : Game.t := Game.set_player ready_player (Game.set_zone Harbor sample_game).

(** The same, with the boat key missing. *)
Definition unready_game : Game.t :=
  Game.set_player (Player.set_keys (mkKeys true true false) ready_player) ready_game.

(** The player at the Ground gate with the tasks of Ground done. *)
Definition gate_ready_game : Game.t :=
  Game.set_collected {["clue_Ground"]}
    (Game.set_player
       (Player.set_rect (mkRect 60 100 22 32)
          (Player.set_clues 1 (Player.set_keys (mkKeys true false false) armed_player)))
       sample_game).

(** The same without the jail key. *)
Definition gate_locked_game : Game.t :=
  Game.set_player (Player.set_keys (mkKeys false false false) (Game.player gate_ready_game))
    gate_ready_game.

Definition ground_gate : ZoneGate := mkGate (mkRect 52 84 54 92) Estate (1060, 620) (Some jail_key).

(** A guard that a bullet of the previous frame has brought to health 0:
    it is still in the list of its zone when the next frame starts. *)
Definition dead_guard : Guard.t := Guard.set_health 0 near_guard.

Definition dead_guard_game : Game.t :=
  Game.set_guard_store {[ 0%nat := dead_guard ]} (Game.set_zone_guards Ground [0%nat] sample_game).

(** The kill itself: a guard with 14 health left and 0.02 s on its shoot
    timer, and a bullet of the player one step away from it. *)
Definition wounded_guard : Guard.t :=
  Guard.set_shoot_timer (2 # 100) (Guard.set_health 14 near_guard).

Definition player_bullet : Bullet.t :=
  Bullet.init (cfg := sample_settings) (mkVec 195 566) (mkVec 1 0) "player".

Definition wounded_guard_game : Game.t :=
  Game.set_bullets [player_bullet]
    (Game.set_guard_store {[ 0%nat := wounded_guard ]}
       (Game.set_zone_guards Ground [0%nat] sample_game)).

(** The sample round with the player standing on the pistol. *)
Definition gun_game : Game.t :=
  Game.set_player (Player.set_rect (mkRect 200 550 22 32) sample_player) sample_game.

(** ** Sequences of calls *)

(** The arguments of one call of [handle_input]: the keys held, [dt], and the
    drain and recover rates. *)
Record InputCall : Type := mkCall {
  call_keys : Pressed; call_dt : Q; call_drain : Q; call_recover : Q
}.

(** The player after each call of a sequence of [handle_input] calls. *)
Fixpoint handle_inputs `{cfg : Settings} (calls : list InputCall) (p : Player.t) : list Player.t :=
  match calls with
  | [] => []
  | c :: rest =>
      let p' := Player.handle_input (call_keys c) (call_dt c) (call_drain c) (call_recover c) p in
      p' :: handle_inputs rest p'
  end.

Definition stamina_in_bounds `{cfg : Settings} (p : Player.t) : Prop :=
  (0 <= Player.stamina p)%Q /\ (Player.stamina p <= MAX_STAMINA)%Q.

Definition rates_nonnegative (c : InputCall) : Prop :=
  (0 <= call_dt c)%Q /\ (0 <= call_drain c)%Q /\ (0 <= call_recover c)%Q.

(** ** Conditions named by the specification *)

(** The condition the extraction check asks for, as the specification words
    it. *)
Definition ready_to_leave (p : Player.t) : Prop :=
  Player.clues p = 3 /\
  (has_jail_key (Player.keys p) = true /\ has_cave_key (Player.keys p) = true
   /\ has_boat_key (Player.keys p) = true) /\
  Player.rescued_npcs p = 2.

(** [target] comes later than [current] in [region_order]. *)
Definition later_in_order (target current : Zone) : Prop :=
  exists i j : nat,
    Game.index current Game.region_order = Some i /\
    Game.index target Game.region_order = Some j /\ (i < j)%nat.

(** No rectangle of the list collides with [r]. *)
Definition overlaps_none (obstacles : list Rect) (r : Rect) : Prop :=
  forall w, In w obstacles -> colliderect r w = false.

(** A rectangle whose width and height are not negative. *)
Definition nonneg_size (r : Rect) : Prop := 0 <= rw r /\ 0 <= rh r.

(** The rectangle mirrored in the diagonal: the two axes exchanged. *)
Definition transpose (r : Rect) : Rect := mkRect (ry r) (rx r) (rh r) (rw r).


(** The gate asks for a key the player does not hold. *)
Definition lacks_key (gate : ZoneGate) (g : Game.t) : Prop :=
  exists k, required_key gate = Some k /\ get_key k (Player.keys (Game.player g)) = false.

(** ** Pickups named by the specification

    An item is collectable when the zone has it, the player's rectangle
    overlaps it and its identifier is absent from the collected set. *)

Definition b2z (b : bool) : Z := if b then 1 else 0.

Definition gun_collectable (g : Game.t) : bool :=
  match gun (Game.items g (Game.zone g)) with
  | Some r => colliderect (Game.player_rect g) r && bool_decide ("gun" ∉ Game.collected g)
  | None => false
  end.

Definition clue_collectable (g : Game.t) : bool :=
  match clue (Game.items g (Game.zone g)) with
  | Some r => colliderect (Game.player_rect g) r
              && bool_decide (Game.clue_id (Game.zone g) ∉ Game.collected g)
  | None => false
  end.

(** The identifiers of the collectable ammo boxes among [boxes], the first of
    which has index [idx]. *)
Fixpoint collectable_boxes (p : Rect) (z : Zone) (c : gset string) (idx : nat) (boxes : list Rect)
  : list string :=
  match boxes with
  | [] => []
  | box :: rest =>
      (if colliderect p box && bool_decide (Game.ammo_id z idx ∉ c) then [Game.ammo_id z idx] else [])
      ++ collectable_boxes p z c (S idx) rest
  end.

Definition ammo_collectable (g : Game.t) : list string :=
  collectable_boxes (Game.player_rect g) (Game.zone g) (Game.collected g) 0
    (ammo_boxes (Game.items g (Game.zone g))).

(** The identifiers one call of [interact] adds to the collected set. *)
Definition collectable_ids (g : Game.t) : gset string :=
  (if gun_collectable g then {["gun"]} else ∅)
  ∪ list_to_set (ammo_collectable g)
  ∪ (if clue_collectable g then {[Game.clue_id (Game.zone g)]} else ∅).

(** Whether the loop of [interact] over the key names takes key [k], given
    the key ring [ks] it finds. *)
Definition key_collectable (p : Rect) (its : ZoneItems) (ks : KeyRing) (k : Key) : bool :=
  match key_item k its with
  | Some r => colliderect p r && negb (get_key k ks)
  | None => false
  end.

(** The key ring after that loop. *)
Definition keys_after (p : Rect) (its : ZoneItems) (ks : KeyRing) : KeyRing :=
  fold_left (fun ks k => if key_collectable p its ks k then set_key k ks else ks)
            [jail_key; cave_key; boat_key] ks.

(** The part of the state that decides and records pickups. *)
Record PickupView : Type := mkView {
  v_zone : Zone;
  v_items : Zone -> ZoneItems;
  v_rect : Rect;
  v_rescued : Z;
  v_collected : gset string;
  v_ammo : Z;
  v_clues : Z;
  v_has_gun : bool;
  v_keys : KeyRing;
  v_npcs : list NPC.t
}.

Definition view (g : Game.t) : PickupView :=
  mkView (Game.zone g) (Game.items g) (Game.player_rect g)
           (Player.rescued_npcs (Game.player g)) (Game.collected g)
         (Player.ammo (Game.player g)) (Player.clues (Game.player g))
         (Player.has_gun (Game.player g)) (Player.keys (Game.player g)) (Game.npcs g).

(** ** The states a round can reach *)

(** A round starts with [reset_round]; from then on the loop of [run] turns
    frames, and the events of [events] call [interact] and [try_shoot]. *)
Inductive reachable `{cfg : Settings} : Game.t -> Prop :=
  | reach_reset (prof : DifficultyProfile) (built : Zone -> list addr) (store : gmap addr Guard.t)
      (gun_position : Z * Z) (ammo_positions : Zone -> list (Z * Z))
      (clue_positions : Zone -> Z * Z) (key_positions : Key -> Z * Z) (g : Game.t) :
      reachable (Game.reset_round prof built store
                   (Game.randomized_items gun_position ammo_positions clue_positions key_positions) g)
  | reach_frame (k : Pressed) (dt : Q) (g g' : Game.t) :
      reachable g -> Game.frame k dt g = Ok g' tt -> reachable g'
  | reach_interact (g : Game.t) :
      reachable g -> Game.state g = Playing -> reachable (Game.interact g)
  | reach_click (mouse_pos : Z * Z) (g : Game.t) :
      reachable g -> reachable (Game.click mouse_pos g).

(** The zones whose clue identifier is in the collected set. *)
Definition clues_found (c : gset string) : list Zone :=
  List.filter (fun z => bool_decide (Game.clue_id z ∈ c)) [Ground; Estate; Tunnels].

(** The survivors that have been rescued. *)
Definition rescued_survivors (ns : list NPC.t) : list NPC.t := List.filter NPC.rescued ns.

(** What ties the counters of the player to the rest of the state. *)
Definition counters_tied (g : Game.t) : Prop :=
  0 <= Player.ammo (Game.player g) /\
  Player.clues (Game.player g) = Z.of_nat (length (clues_found (Game.collected g))) /\
  (Game.clue_id Harbor ∉ Game.collected g) /\
  clue (Game.items g Harbor) = None /\
  Player.rescued_npcs (Game.player g) = Z.of_nat (length (rescued_survivors (Game.npcs g))) /\
  (length (Game.npcs g) <= 2)%nat.

(** The fields the counters are tied to, outside the survivors. *)
Definition tally (g : Game.t) : Z * Z * gset string * (Zone -> ZoneItems) :=
  (Player.ammo (Game.player g), Player.clues (Game.player g), Game.collected g, Game.items g).

(** The rescued counter and the rescued flags of the survivors. *)
Definition rescue_tally (g : Game.t) : Z * list bool :=
  (Player.rescued_npcs (Game.player g), map NPC.rescued (Game.npcs g)).

(** Both together with the victory flag: what [update] keeps up to the
    loop over the survivors and the extraction check. *)
Definition ledger (g : Game.t)
  : (Z * Z * gset string * (Zone -> ZoneItems)) * (Z * list bool) * bool :=
  (tally g, rescue_tally g, Game.victory g).

(** ** Conditions of the bullets, guards and survivors *)

(** The position a bullet moves to, and the hitbox [update] builds there. *)
Definition bullet_target `{cfg : Settings} (b : Bullet.t) : Vec :=
  Vec_add (Bullet.pos b) (Vec_scale (Bullet.dir b) BULLET_SPEED).

Definition bullet_hitbox (p : Vec) (radius : Z) : Rect :=
  Rect_of_floats (vx p - inject_Z radius)%Q (vy p - inject_Z radius)%Q (radius * 2) (radius * 2).

(** The index of the route of a guard names one of its points. *)
Definition route_in_range (g : Guard.t) : Prop :=
  (Guard.current_patrol g < length (Guard.patrol_points g))%nat.

(** The guard at an address is there and has health left. *)
Definition guard_alive (store : gmap addr Guard.t) (a : addr) : bool :=
  match store !! a with
  | Some guard => 0 <? Guard.health guard
  | None => false
  end.

(** The guards of the current zone are distinct objects, each with its
    patrol index in range. *)
Definition guards_well_formed (g : Game.t) : Prop :=
  List.NoDup (Game.guards g (Game.zone g)) /\
  forall a, In a (Game.guards g (Game.zone g)) ->
    exists guard, Game.guard_store g !! a = Some guard /\ route_in_range guard.

(** A round with a dead guard and a living one in the Ground zone. *)
Definition two_guard_game : Game.t :=
  Game.set_guard_store {[ 0%nat := dead_guard; 1%nat := distant_guard ]}
    (Game.set_zone_guards Ground [0%nat; 1%nat] sample_game).

(** ** What a round keeps from frame to frame *)

Definition rect_size (r : Rect) : Z * Z := (rw r, rh r).

(** What no step of a round changes: the state of the program, the boat
    flag, the difficulty, the items on the ground and the sizes of the
    rectangles of the player and of the survivors. *)
Definition fixture (g : Game.t)
  : GameState * bool * DifficultyProfile * (Zone -> ZoneItems) * (Z * Z) * list (Z * Z) :=
  (Game.state g, Game.boat_escape_active g, Game.profile g, Game.items g,
   rect_size (Game.player_rect g), map (fun n => rect_size (NPC.rect n)) (Game.npcs g)).

(** The health of the player and the flag of defeat. *)
Definition vital (g : Game.t) : Z * bool := (Player.health (Game.player g), Game.game_over g).

(** The guards: the lists of the zones and the objects. *)
Definition posts (g : Game.t) : (Zone -> list addr) * gmap addr Guard.t :=
  (Game.guards g, Game.guard_store g).

(** All of it, with the zone and the cooldown of the pathways. *)
Definition whole (g : Game.t) :=
  (fixture g, vital g, Game.zone g, Game.pathway_cooldown g, posts g).

(** The guards of every zone are distinct objects, each with its patrol
    index in range. *)
Definition guards_in_order (g : Game.t) : Prop :=
  forall z,
    List.NoDup (Game.guards g z) /\
    forall a, In a (Game.guards g z) ->
      exists guard, Game.guard_store g !! a = Some guard /\ route_in_range guard.

(** The loop of [run] over a sequence of frames, without events: the keys
    held and the time step of each frame are given. *)
Fixpoint frames `{cfg : Settings} (inputs : list (Pressed * Q)) (g : Game.t) : Outcome Game.t unit :=
  match inputs with
  | [] => Ok g tt
  | (k, dt) :: rest =>
      match Game.frame k dt g with
      | Ok g' _ => frames rest g'
      | Raise g' e => Raise g' e
      end
  end.

(** The route of a guard and where it is on it. *)
Definition route (guard : Guard.t) : list Vec * nat :=
  (Guard.patrol_points guard, Guard.current_patrol guard).

(** The round is lost exactly when the health of the player is used up. *)
Definition defeat_recorded (g : Game.t) : Prop :=
  Game.game_over g = true <-> Player.health (Game.player g) <= 0.

(** A round two frames and one interaction old: the sample round is reset,
    a frame passes, the player presses the interaction key and another
    frame passes. *)
Definition fresh_round : Game.t :=
  Game.reset_round (cfg := sample_settings) story (fun _ => []) ∅
    (Game.randomized_items (200, 550) (fun _ => [(300, 200); (800, 500)])
       (fun _ => (500, 400)) (fun _ => (250, 600))) sample_game.

Definition first_frame : Game.t :=
  final_state (Game.frame (cfg := sample_settings) no_keys_pressed (1 # 60) fresh_round).

Definition played_round : Game.t :=
  final_state (Game.frame (cfg := sample_settings) no_keys_pressed (1 # 60)
                 (Game.interact first_frame)).

(** ** Conditions on motion *)

(** The vector from a survivor's centre to the player's. *)
Definition to_leader (player : Player.t) (n : NPC.t) : Vec :=
  Vec_sub (Vec_of_ints (center (Player.rect player))) (Vec_of_ints (center (NPC.rect n))).

(** A vector whose coordinates lie between -1 and 1, as those of a
    normalised vector do. *)
Definition unit_box (v : Vec) : Prop :=
  (-1 <= vx v <= 1)%Q /\ (-1 <= vy v <= 1)%Q.

(** The survivor of the Estate, following the sample player from afar. *)
Definition follower : NPC.t := NPC.set_following true (NPC.init 350 300 Estate).

(** The survivors [transfer_followers] takes along: those that follow, are
    not yet rescued and are in the zone the player leaves. *)
Definition transferable (g : Game.t) (n : NPC.t) : bool :=
  NPC.following n && negb (NPC.rescued n) && bool_decide (NPC.zone n = Game.zone g).

(** ** Conditions on the audio log *)

Definition is_mixer_stop (c : MixerCall) : bool :=
  match c with mixer_stop => true | _ => false end.

Definition is_track_play (c : MixerCall) : bool :=
  match c with track_play _ => true | _ => false end.

Definition is_music_call (r : Request) : bool :=
  match r with
  | game_call (play_music_for_zone _ _) => true
  | menu_music => true
  | _ => false
  end.

(** The track the game asks for: the combat track while a guard is alerted,
    the track of the zone otherwise. *)
Definition wanted_track (z : Zone) (combat_active : bool) : string :=
  if combat_active then "combat" else zone_name z.

(** Every sound has a volume between 0 and 1. *)
Definition volumes_in_range (a : AudioManager.t) : Prop :=
  forall n v, AudioManager.sounds a !! n = Some v -> (0 <= v <= 1)%Q.

(** The menu, then two frames in Ground, a shot, a hit and a pickup. *)
Definition sample_log : list Request :=
  [menu_music; menu_music;
   game_call (audio_update (1 # 60)); game_call (play_music_for_zone Ground false);
   game_call (play_sound "gunshot" false);
   game_call (audio_update (1 # 60)); game_call (play_music_for_zone Ground true);
   game_call (play_sound "hurt" true); game_call (play_sound "item_pickup" false)].

(** ** Conditions on what a round is built from *)

(** The rectangles of the items of a zone. *)
Definition present (o : option Rect) : list Rect :=
  match o with Some r => [r] | None => [] end.

Definition item_rects (it : ZoneItems) : list Rect :=
  present (gun it) ++ ammo_boxes it ++ present (clue it)
  ++ present (jail_key_item it) ++ present (cave_key_item it)
  ++ present (boat_key_item it).

(** One of the candidate positions of the zone passes [is_position_safe], so
    that the defaults of [randomize_spawns] are not used. *)
Definition has_safe_candidate `{cfg : Settings} (z : Zone) : Prop :=
  exists p, In p (safe_zone_candidates z) /\ is_position_safe z (fst p) (snd p) 40 = true.

(** The fallback spot of every zone is a valid position. *)
Definition safe_spots_valid `{cfg : Settings} : Prop :=
  forall z, is_valid_position (fst (safe_spots z)) (snd (safe_spots z)) z = true.

(** A spiral for the search of [find_valid_spawn], and draws for
    [randomize_spawns]. *)
Definition sample_offset (attempt : nat) : Z * Z := (20 + 10 * Z.of_nat attempt, 0).

Definition sample_draws : SpawnDraws :=
  mkSpawnDraws (mkDraw 0 []) (mkDraw 1 []) (mkDraw 2 []) (mkDraw 3 []) (mkDraw 4 [])
               (mkDraw 5 []) (mkDraw 6 [])
               (fun _ => [mkDraw 7 []; mkDraw 8 [(300, 300)]; mkDraw 9 []]).

(** A request for a sound effect. *)
Definition is_sound_call (c : AudioCall) : bool :=
  match c with play_sound _ _ => true | _ => false end.

(** The second state has the audio log of the first, with requests for sound
    effects added. *)
Definition adds_sounds (g g' : Game.t) : Prop :=
  exists l, Game.audio g' = Game.audio g ++ l /\ forallb is_sound_call l = true.

(** The pier of the Harbor, as [validate_player_position] has it. *)
Definition pier_area : Rect := mkRect 800 200 300 40.

(** The two parts of [validate_player_position]: the rules of the Harbor and
    the clamps to the screen that follow them in every zone. *)
Definition harbor_rules `{cfg : Settings} (g : Game.t) : Game.t :=
  let boat_area := mkRect 1020 210 80 40 in
  let g :=
    if colliderect pier_area (Game.player_rect g) || colliderect boat_area (Game.player_rect g)
    then g
    else if centery (Game.player_rect g) <? 200 then
      Game.play (play_sound "hurt" false)
        (Game.set_message_time 2
           (Game.set_message "You can't swim! Get back on land."
              (Game.set_player_rect (set_center (500, 400) (Game.player_rect g)) g)))
    else g in
  let g := if Rect_left (Game.player_rect g) <? 40
           then Game.set_player_rect (set_left 40 (Game.player_rect g)) g else g in
  let g := if WIDTH - 40 <? Rect_right (Game.player_rect g)
           then Game.set_player_rect (set_right (WIDTH - 40) (Game.player_rect g)) g else g in
  if (Rect_top (Game.player_rect g) <? 200) && negb (colliderect pier_area (Game.player_rect g))
  then Game.set_player_rect (set_top 200 (Game.player_rect g)) g else g.

Definition screen_clamps `{cfg : Settings} (g : Game.t) : Game.t :=
  let g := if Rect_left (Game.player_rect g) <? 40
           then Game.set_player_rect (set_left 40 (Game.player_rect g)) g else g in
  let g := if WIDTH - 40 <? Rect_right (Game.player_rect g)
           then Game.set_player_rect (set_right (WIDTH - 40) (Game.player_rect g)) g else g in
  let g := if Rect_top (Game.player_rect g) <? 40
           then Game.set_player_rect (set_top 40 (Game.player_rect g)) g else g in
  if HEIGHT - 40 <? Rect_bottom (Game.player_rect g)
  then Game.set_player_rect (set_bottom (HEIGHT - 40) (Game.player_rect g)) g else g.

(** The player in the water of the Harbor, above the shore line. *)
Definition swimmer_game : Game.t :=
  Game.set_player (Player.set_rect (mkRect 300 100 22 32) sample_player)
    (Game.set_zone Harbor sample_game).

(** The sample round with one bullet of the player in flight. *)
Definition shot_game : Game.t := Game.set_bullets [player_bullet] sample_game.

(** * Properties *)

(** ** Comparisons on floats *)

Lemma Qltb_lt (a b : Q) : Qltb a b = true <-> (a < b)%Q.
Proof.
  unfold Qltb. rewrite negb_true_iff, <- not_true_iff_false, Qle_bool_iff.
  split; [apply Qnot_le_lt | apply Qlt_not_le].
Qed.

Lemma Qltb_ge (a b : Q) : Qltb a b = false <-> (b <= a)%Q.
Proof. unfold Qltb. rewrite negb_false_iff. apply Qle_bool_iff. Qed.

Lemma Qleb_le (a b : Q) : Qleb a b = true <-> (a <= b)%Q.
Proof. apply Qle_bool_iff. Qed.

Lemma Qleb_gt (a b : Q) : Qleb a b = false <-> (b < a)%Q.
Proof.
  unfold Qleb. rewrite <- not_true_iff_false, Qle_bool_iff.
  split; [apply Qnot_le_lt | apply Qlt_not_le].
Qed.

Lemma py_max_lower (a b : Q) : (a <= py_max a b)%Q.
Proof.
  unfold py_max. destruct (Qltb a b) eqn:E.
  - apply Qltb_lt in E. lra.
  - lra.
Qed.

Lemma py_max_upper (a b c : Q) : (a <= c)%Q -> (b <= c)%Q -> (py_max a b <= c)%Q.
Proof. unfold py_max. destruct (Qltb a b); auto. Qed.

Lemma py_min_upper (a b : Q) : (py_min a b <= a)%Q.
Proof.
  unfold py_min. destruct (Qltb b a) eqn:E.
  - apply Qltb_lt in E. lra.
  - lra.
Qed.

Lemma py_min_lower (a b c : Q) : (c <= a)%Q -> (c <= b)%Q -> (c <= py_min a b)%Q.
Proof. unfold py_min. destruct (Qltb b a); auto. Qed.

(** ** Guard construction *)



(** ** Shooting *)

(** C3: [try_shoot] returns no bullet and leaves the player as it was when
    the player has no gun, no ammo, or a running fire cooldown; in every other
    state it takes one round, sets the cooldown to 0.18 and returns a live
    bullet of the player, placed at the player's centre and directed toward
    the target.  [ammo] is a count: it is never negative in a round
    ([reachable_counters_in_range]). *)
Theorem try_shoot_spec `{cfg : Settings} (target : Z * Z) (p : Player.t) :
  0 <= Player.ammo p ->
  (Player.has_gun p = false \/ Player.ammo p = 0 \/ (0 < Player.fire_cooldown p)%Q ->
   Player.try_shoot target p = (p, None)) /\
  (~ (Player.has_gun p = false \/ Player.ammo p = 0 \/ (0 < Player.fire_cooldown p)%Q) ->
   exists p' b,
     Player.try_shoot target p = (p', Some b) /\
     Player.ammo p' = Player.ammo p - 1 /\
     Player.fire_cooldown p' = (18 # 100)%Q /\
     Player.rect p' = Player.rect p /\
     Bullet.owner b = "player" /\
     Bullet.alive b = true /\
     Bullet.pos b = Vec_of_ints (center (Player.rect p)) /\
     Bullet.dir b =
       let d := Vec_sub (Vec_of_ints target) (Vec_of_ints (center (Player.rect p))) in
       if nonzero (length_squared d) then normalize d else mkVec 1 0).
Proof.
  intros Hammo. unfold Player.try_shoot. split.
  - intros [Hgun | [Hzero | Hcool]].
    + rewrite Hgun. reflexivity.
    + rewrite Hzero. cbn. rewrite orb_true_r. reflexivity.
    + apply Qltb_lt in Hcool. rewrite Hcool, orb_true_r. reflexivity.
  - intros Hready.
    destruct (Player.has_gun p) eqn:Hgun; [| exfalso; auto].
    destruct (Player.ammo p <=? 0) eqn:Hle.
    { apply Z.leb_le in Hle. exfalso. apply Hready. right. left. lia. }
    destruct (Qltb 0 (Player.fire_cooldown p)) eqn:Hcool.
    { apply Qltb_lt in Hcool. exfalso. auto. }
    cbn [negb orb]. eexists _, _. split; [reflexivity |].
    cbn. repeat split; try reflexivity.
    unfold Player.rect. cbn.
    match goal with |- context [if ?c then _ else _] => destruct c end; reflexivity.
Qed.

Lemma try_shoot_spec_witness :
  exists p' b,
    Player.try_shoot (cfg := sample_settings) (300, 400) armed_player = (p', Some b) /\
    Player.ammo p' = 19.
Proof.
  destruct (try_shoot_spec (cfg := sample_settings) (300, 400) armed_player) as [_ Hfire].
  - vm_compute. discriminate.
  - destruct Hfire as (p' & b & Heq & Hammo & _).
    + vm_compute. intros [H | [H | H]]; discriminate.
    + exists p', b. split; [exact Heq | rewrite Hammo; reflexivity].
Defined.

(** ** Stamina *)

Lemma handle_input_stamina `{cfg : Settings} (k : Pressed) (dt drain recover : Q) (p : Player.t) :
  Player.stamina (Player.handle_input k dt drain recover p) =
  if Player.sprinting k p then py_max 0 (Player.stamina p - drain * dt)
  else py_min MAX_STAMINA (Player.stamina p + recover * dt).
Proof. reflexivity. Qed.

Lemma handle_input_in_bounds `{cfg : Settings} (c : InputCall) (p : Player.t) :
  rates_nonnegative c -> stamina_in_bounds p ->
  stamina_in_bounds (Player.handle_input (call_keys c) (call_dt c) (call_drain c) (call_recover c) p).
Proof.
  intros (Hdt & Hdrain & Hrec) [Hlo Hhi]. unfold stamina_in_bounds.
  rewrite handle_input_stamina.
  assert (0 <= call_drain c * call_dt c)%Q by (apply Qmult_le_0_compat; assumption).
  assert (0 <= call_recover c * call_dt c)%Q by (apply Qmult_le_0_compat; assumption).
  destruct (Player.sprinting _ p); split.
  - apply py_max_lower.
  - apply py_max_upper; lra.
  - apply py_min_lower; lra.
  - apply py_min_upper.
Qed.

(** C7, counterexample: with a negative recover rate one call takes the
    stamina of a fresh player below zero, although [dt] is not negative. *)
Lemma stamina_negative_rate_counterexample :
  (0 <= 1)%Q /\
  ~ stamina_in_bounds (cfg := sample_settings)
      (Player.handle_input (cfg := sample_settings) no_keys_pressed 1 24 (-1000) sample_player).
Proof.
  split; [lra |]. intros [Hlo _]. vm_compute in Hlo. apply Hlo. reflexivity.
Qed.

(** C7, amended: for every sequence of [handle_input] calls whose [dt], drain
    rate and recover rate are not negative, starting from a stamina within
    [0, MAX_STAMINA], the stamina is within [0, MAX_STAMINA] after every call;
    a sprinting call drains [drain * dt] with a floor of 0, any other call
    recovers [recover * dt] with a cap of [MAX_STAMINA]. *)
Theorem stamina_bounds `{cfg : Settings} (calls : list InputCall) (p : Player.t) :
  stamina_in_bounds p ->
  Forall rates_nonnegative calls ->
  Forall stamina_in_bounds (handle_inputs calls p) /\
  (forall k dt drain recover q,
     Player.stamina (Player.handle_input k dt drain recover q) =
     if Player.sprinting k q then py_max 0 (Player.stamina q - drain * dt)
     else py_min MAX_STAMINA (Player.stamina q + recover * dt)).
Proof.
  intros Hp Hcalls. split; [| intros; apply handle_input_stamina].
  revert p Hp. induction Hcalls as [| c rest Hc _ IH]; intros p Hp; cbn.
  - constructor.
  - pose proof (handle_input_in_bounds c p Hc Hp) as Hp'.
    constructor; [exact Hp' | apply IH, Hp'].
Qed.

Lemma stamina_bounds_witness :
  Forall (stamina_in_bounds (cfg := sample_settings))
    (handle_inputs (cfg := sample_settings)
       [ mkCall (mkPressed true false false false false false false false true false) (1 # 60) 24 20;
         mkCall no_keys_pressed (1 # 60) 24 20 ]
       sample_player).
Proof.
  apply (stamina_bounds (cfg := sample_settings)).
  - split; vm_compute; discriminate.
  - repeat constructor; vm_compute; discriminate.
Defined.

(** ** Cooldown timers *)

(** C8, counterexample: a guard that does not see the player has its shoot
    timer decremented below zero. *)
Lemma guard_shoot_timer_counterexample :
  (0 <= 1 # 2)%Q /\
  returns (Guard.update (cfg := sample_settings) (1 # 2) sample_player [] distant_guard) /\
  (Guard.shoot_timer
     (final_state (Guard.update (cfg := sample_settings) (1 # 2) sample_player [] distant_guard)) < 0)%Q.
Proof. split; [| split]; vm_compute; auto; discriminate. Qed.

(** The first half of [Guard.update], pursuit or patrol, touches neither the
    timers nor the health, and leaves the rectangle where it is. *)
Lemma Guard_steer_fields `{cfg : Settings} (player : Player.t) (obstacles : list Rect) (g : Guard.t) :
  let o := if Guard.can_see player obstacles g
           then Ok (Guard.pursue (Guard.to_player player g)
                      (Guard.set_alerted (Guard.can_see player obstacles g) g)) tt
           else Guard.patrol (Guard.set_alerted (Guard.can_see player obstacles g) g) in
  Guard.shoot_timer (final_state o) = Guard.shoot_timer g /\
  Character.muzzle_timer (Guard.char (final_state o)) = Character.muzzle_timer (Guard.char g) /\
  Guard.profile (final_state o) = Guard.profile g /\
  Guard.health (final_state o) = Guard.health g /\
  Guard.alerted (final_state o) = Guard.can_see player obstacles g /\
  Guard.rect (final_state o) = Guard.rect g.
Proof.
  cbv zeta. destruct (Guard.can_see player obstacles g).
  - unfold Guard.pursue, Guard.rect. cbn.
    repeat match goal with |- context [if ?c then _ else _] => destruct c end; cbn;
      repeat split; reflexivity.
  - unfold Guard.patrol, Guard.rect. cbn.
    destruct (_ !! Guard.current_patrol g) as [target |]; cbn; [| repeat split; reflexivity].
    destruct (length_lt _ 10); cbn.
    + destruct (_ !! _) as [target' |]; cbn; [| repeat split; reflexivity].
      destruct (Qltb 0 _); cbn; repeat split; reflexivity.
    + destruct (Qltb 0 _); cbn; repeat split; reflexivity.
Qed.

(** What one call of [Guard.update] leaves and returns, by whether the guard
    sees the player. *)
Lemma Guard_update_outcome `{cfg : Settings} (dt : Q) (player : Player.t) (obstacles : list Rect)
    (g : Guard.t) :
  let see := Guard.can_see player obstacles g in
  let fires := see && Qleb (Guard.shoot_timer g - dt) 0 in
  match Guard.update dt player obstacles g with
  | Ok g' shot =>
      Guard.alerted g' = see /\
      Guard.profile g' = Guard.profile g /\
      Guard.health g' = Guard.health g /\
      Guard.shoot_timer g' =
        (if fires then guard_shoot_cooldown (Guard.profile g) else Guard.shoot_timer g - dt)%Q /\
      Character.muzzle_timer (Guard.char g') =
        (if fires then (5 # 100)%Q else py_max 0 (Character.muzzle_timer (Guard.char g) - dt)) /\
      shot = (if fires
              then Some (Bullet.init (Vec_of_ints (center (Guard.rect g')))
                                     (Guard.to_player player g) "guard")
              else None)
  | Raise g' e =>
      see = false /\ e = IndexError /\
      Guard.alerted g' = see /\
      Guard.shoot_timer g' = Guard.shoot_timer g /\
      Guard.health g' = Guard.health g
  end.
Proof.
  cbv zeta. unfold Guard.update.
  pose proof (Guard_steer_fields player obstacles g) as H. cbv zeta in H.
  destruct (Guard.can_see player obstacles g) eqn:Hsee.
  - set (g1 := Guard.pursue _ _) in *. clearbody g1.
    cbn [final_state] in H. destruct H as (Ht & Hm & Hp & Hh & Ha & Hr).
    cbn. rewrite Ht, Hp. destruct (Qleb (Guard.shoot_timer g - dt) 0); cbn.
    + repeat split; assumption.
    + rewrite Hm. repeat split; assumption.
  - destruct (Guard.patrol _) as [g1 [] | g1 e] eqn:Hpatrol;
      cbn [final_state] in H; destruct H as (Ht & Hm & Hp & Hh & Ha & Hr).
    + cbn. rewrite Ht, Hm. repeat split; assumption.
    + repeat split; try assumption.
      unfold Guard.patrol in Hpatrol.
      destruct (_ !! Guard.current_patrol _) as [target |]; [| congruence].
      destruct (length_lt _ 10).
      * destruct (_ !! _) as [target' |]; [discriminate | congruence].
      * discriminate.
Qed.

(** C8, amended: [handle_input] decrements the player's fire cooldown and
    muzzle timer by [dt] and clamps them at zero, so neither is negative
    afterwards; [Guard.update] does the same to the guard's muzzle timer, or
    arms it at 0.05 when the guard fires.  The guard's shoot timer is
    decremented by [dt] without a clamp, and set to the profile's cooldown when
    the guard fires. *)
Theorem cooldown_timers `{cfg : Settings} (k : Pressed) (dt drain recover : Q) (p player : Player.t)
    (obstacles : list Rect) (g : Guard.t) :
  let p' := Player.handle_input k dt drain recover p in
  Player.fire_cooldown p' = py_max 0 (Player.fire_cooldown p - dt) /\
  Character.muzzle_timer (Player.char p') = py_max 0 (Character.muzzle_timer (Player.char p) - dt) /\
  (0 <= Player.fire_cooldown p')%Q /\
  (0 <= Character.muzzle_timer (Player.char p'))%Q /\
  match Guard.update dt player obstacles g with
  | Ok g' (Some _) =>
      Guard.shoot_timer g' = guard_shoot_cooldown (Guard.profile g) /\
      Character.muzzle_timer (Guard.char g') = (5 # 100)%Q
  | Ok g' None =>
      Guard.shoot_timer g' = (Guard.shoot_timer g - dt)%Q /\
      Character.muzzle_timer (Guard.char g') = py_max 0 (Character.muzzle_timer (Guard.char g) - dt) /\
      (0 <= Character.muzzle_timer (Guard.char g'))%Q
  | Raise g' _ => Guard.shoot_timer g' = Guard.shoot_timer g
  end.
Proof.
  cbv zeta.
  assert (Hfc : Player.fire_cooldown (Player.handle_input k dt drain recover p)
                = py_max 0 (Player.fire_cooldown p - dt)) by reflexivity.
  assert (Hmz : Character.muzzle_timer (Player.char (Player.handle_input k dt drain recover p))
                = py_max 0 (Character.muzzle_timer (Player.char p) - dt)).
  { unfold Player.handle_input. cbn.
    destruct (Qltb 0 (length_squared (Player.held_direction k))); reflexivity. }
  rewrite Hfc, Hmz. repeat split; try apply py_max_lower.
  pose proof (Guard_update_outcome dt player obstacles g) as H. cbv zeta in H.
  destruct (Guard.update dt player obstacles g) as [g' shot | g' e].
  - destruct H as (_ & _ & _ & Ht & Hm & Hshot).
    destruct (Guard.can_see player obstacles g && Qleb (Guard.shoot_timer g - dt) 0);
      subst shot; rewrite Ht, Hm; repeat split. apply py_max_lower.
  - tauto.
Qed.

(** ** Guard sensing and firing *)





(** ** Extraction *)

(** C1: when the player's rectangle overlaps the extraction rectangle, the
    check sets victory exactly when the player has 3 clues, the three keys and
    2 rescued survivors; when one of the three fails, the state is left as it
    was except for the rejection message, so victory stays false.  The check
    runs while victory is false, with a clue counter of at most 3 and a
    rescued counter of at most 2: [frame_extraction_state] shows that every
    frame of a round calls it so. *)
Theorem extraction_victory (e : Rect) (g : Game.t) :
  colliderect (Game.player_rect g) e = true ->
  Game.victory g = false ->
  Player.clues (Game.player g) <= 3 ->
  Player.rescued_npcs (Game.player g) <= 2 ->
  let g' := Game.extraction_check (Some e) g in
  (Game.victory g' = true <-> ready_to_leave (Game.player g)) /\
  (ready_to_leave (Game.player g) ->
   g' = Game.play (play_sound "victory" true) (Game.set_victory true g)) /\
  (~ ready_to_leave (Game.player g) ->
   g' = Game.set_message "Not ready: need all clues, keys, and rescued survivors." g /\
   Game.victory g' = false).
Proof.
  intros Hover Hv Hclues Hresc. cbv zeta. unfold Game.extraction_check. rewrite Hover.
  assert (Hready : (3 <=? Player.clues (Game.player g)) && all_keys (Player.keys (Game.player g))
                   && (2 <=? Player.rescued_npcs (Game.player g)) = true
                   <-> ready_to_leave (Game.player g)).
  { unfold ready_to_leave, all_keys. rewrite !andb_true_iff, !Z.leb_le.
    split; [intros ((Hc & Hk) & Hr) | intros (Hc & Hk & Hr)]; repeat split; try tauto; lia. }
  destruct (_ && _ && _).
  - assert (Hr : ready_to_leave (Game.player g)) by (apply Hready; reflexivity).
    split; [split; [intros _; exact Hr | reflexivity] |].
    split; [reflexivity | intros Hn; contradiction].
  - assert (Hn : ~ ready_to_leave (Game.player g)) by (intros Hr; apply Hready in Hr; discriminate).
    split; [split; [cbn; rewrite Hv; discriminate | intros Hr; contradiction] |].
    split; [intros Hr; contradiction | intros _; split; [reflexivity | exact Hv]].
Qed.

Lemma extraction_victory_witness :
  Game.victory (Game.extraction_check (Some (mkRect 1020 210 80 40)) ready_game) = true /\
  Game.victory (Game.extraction_check (Some (mkRect 1020 210 80 40)) unready_game) = false.
Proof.
  split.
  - destruct (extraction_victory (mkRect 1020 210 80 40) ready_game) as (Hiff & _ & _).
    + reflexivity.
    + reflexivity.
    + vm_compute. discriminate.
    + vm_compute. discriminate.
    + apply Hiff. vm_compute. repeat split.
  - destruct (extraction_victory (mkRect 1020 210 80 40) unready_game) as (_ & _ & Hno).
    + reflexivity.
    + reflexivity.
    + vm_compute. discriminate.
    + vm_compute. discriminate.
    + apply Hno. vm_compute. intros (_ & (_ & _ & H) & _). discriminate.
Defined.

(** ** Rectangles *)

Lemma colliderect_true (a b : Rect) :
  colliderect a b = true <->
  rw a <> 0 /\ rh a <> 0 /\ rw b <> 0 /\ rh b <> 0 /\
  Z.min (rx a) (rx a + rw a) < Z.max (rx b) (rx b + rw b) /\
  Z.min (ry a) (ry a + rh a) < Z.max (ry b) (ry b + rh b) /\
  Z.min (rx b) (rx b + rw b) < Z.max (rx a) (rx a + rw a) /\
  Z.min (ry b) (ry b + rh b) < Z.max (ry a) (ry a + rh a).
Proof.
  unfold colliderect.
  destruct (Z.eqb_spec (rw a) 0), (Z.eqb_spec (rh a) 0),
    (Z.eqb_spec (rw b) 0), (Z.eqb_spec (rh b) 0);
    cbn [orb]; try (split; [discriminate | tauto]).
  rewrite !andb_true_iff, !Z.ltb_lt. tauto.
Qed.

(** For rectangles of non-negative size the test is the usual overlap of two
    half-open boxes, none of them empty. *)
Lemma colliderect_overlap (a b : Rect) :
  0 <= rw a -> 0 <= rh a -> 0 <= rw b -> 0 <= rh b ->
  (colliderect a b = true <->
   0 < rw a /\ 0 < rh a /\ 0 < rw b /\ 0 < rh b /\
   rx a < rx b + rw b /\ rx b < rx a + rw a /\
   ry a < ry b + rh b /\ ry b < ry a + rh a).
Proof. intros. rewrite colliderect_true. lia. Qed.

Lemma colliderect_free (a b : Rect) :
  0 <= rw a -> 0 <= rh a -> 0 <= rw b -> 0 <= rh b ->
  (colliderect a b = false <->
   rw a = 0 \/ rh a = 0 \/ rw b = 0 \/ rh b = 0 \/
   rx b + rw b <= rx a \/ rx a + rw a <= rx b \/
   ry b + rh b <= ry a \/ ry a + rh a <= ry b).
Proof.
  intros. rewrite <- not_true_iff_false, colliderect_overlap by assumption. lia.
Qed.

(** ** Movement against obstacles *)

Lemma py_int_sign (q : Q) :
  (0 < py_int q -> (0 < q)%Q) /\ (py_int q < 0 -> (q < 0)%Q) /\ ((q == 0)%Q -> py_int q = 0).
Proof.
  unfold py_int, Qlt, Qeq. destruct q as [n d]. cbn.
  assert (Hd : 0 < Z.pos d) by lia.
  repeat split; intros H.
  - destruct (Z.le_gt_cases n 0) as [Hn | Hn]; [| lia].
    assert (- n ÷ Z.pos d >= 0) by (apply Z.le_ge, Z.quot_pos; lia).
    rewrite Z.quot_opp_l in * by lia. lia.
  - destruct (Z.le_gt_cases 0 n) as [Hn | Hn]; [| lia].
    assert (0 <= n ÷ Z.pos d) by (apply Z.quot_pos; lia). lia.
  - assert (n = 0) by lia. subst n. reflexivity.
Qed.

Ltac rect_arith :=
  repeat match goal with
         | H : colliderect _ _ = true |- _ => apply colliderect_overlap in H; [| cbn; lia ..]
         | H : colliderect _ _ = false |- _ => apply colliderect_free in H; [| cbn; lia ..]
         | |- colliderect _ _ = false => apply colliderect_free; [cbn; lia .. |]
         end;
  cbn in *; try lia.

(** The first loop, moving right: the rectangle is pushed back toward its
    start and ends clear of every obstacle it was clear of at the start. *)
Lemma resolve_x_rightward (v : Q) (x0 d : Z) (r : Rect) (walls : list Rect) :
  (0 < v)%Q -> 0 <= d <= rw r -> 0 <= rh r ->
  Forall nonneg_size walls ->
  overlaps_none walls (set_x x0 r) ->
  forall p, ry p = ry r -> rw p = rw r -> rh p = rh r -> x0 <= rx p <= x0 + d ->
  let p' := fold_left (Character.resolve_x v) walls p in
  ry p' = ry r /\ rw p' = rw r /\ rh p' = rh r /\ x0 <= rx p' <= rx p /\
  forall w q, In w walls -> x0 <= q <= rx p' -> colliderect (set_x q r) w = false.
Proof.
  intros Hv Hd Hh Hwf. induction Hwf as [| W walls [HWw HWh] _ IH]; intros Hfree p Hy Hw Hh' Hx; cbn.
  - repeat split; try assumption; try lia.
  - assert (HfreeW : colliderect (set_x x0 r) W = false) by (apply Hfree; left; reflexivity).
    assert (Hfree' : overlaps_none walls (set_x x0 r)) by (intros w Hin; apply Hfree; right; exact Hin).
    specialize (IH Hfree').
    destruct (colliderect p W) eqn:Hc.
    + set (p1 := set_right (Rect_left W) p).
      assert (Hstep : Character.resolve_x v p W = p1).
      { unfold Character.resolve_x. apply Qltb_lt in Hv. rewrite Hc, Hv. reflexivity. }
      rewrite Hstep.
      assert (Hp1 : x0 <= rx p1 < rx p).
      { subst p1. unfold set_right, Rect_left. rect_arith. }
      destruct (IH p1) as (Hy1 & Hw1 & Hh1 & Hx1 & Hq1);
        [exact Hy | exact Hw | exact Hh' | lia |].
      split; [exact Hy1 |]. split; [exact Hw1 |]. split; [exact Hh1 |]. split; [lia |].
      intros w q [<- | Hin] Hq; [| apply Hq1; assumption].
      assert (q <= rx p1) by lia. subst p1. unfold set_right, Rect_left in *. rect_arith.
    + assert (Hstep : Character.resolve_x v p W = p).
      { unfold Character.resolve_x. rewrite Hc. reflexivity. }
      rewrite Hstep.
      destruct (IH p) as (Hy1 & Hw1 & Hh1 & Hx1 & Hq1); try assumption.
      split; [exact Hy1 |]. split; [exact Hw1 |]. split; [exact Hh1 |]. split; [lia |].
      intros w q [<- | Hin] Hq; [| apply Hq1; assumption].
      assert (q <= rx p) by lia. rect_arith.
Qed.

(** The first loop, moving left: the mirror image of the previous lemma. *)
Lemma resolve_x_leftward (v : Q) (x0 d : Z) (r : Rect) (walls : list Rect) :
  (v < 0)%Q -> - rw r <= d <= 0 -> 0 <= rh r ->
  Forall nonneg_size walls ->
  overlaps_none walls (set_x x0 r) ->
  forall p, ry p = ry r -> rw p = rw r -> rh p = rh r -> x0 + d <= rx p <= x0 ->
  let p' := fold_left (Character.resolve_x v) walls p in
  ry p' = ry r /\ rw p' = rw r /\ rh p' = rh r /\ rx p <= rx p' <= x0 /\
  forall w q, In w walls -> rx p' <= q <= x0 -> colliderect (set_x q r) w = false.
Proof.
  intros Hv Hd Hh Hwf. induction Hwf as [| W walls [HWw HWh] _ IH]; intros Hfree p Hy Hw Hh' Hx; cbn.
  - repeat split; try assumption; try lia.
  - assert (HfreeW : colliderect (set_x x0 r) W = false) by (apply Hfree; left; reflexivity).
    assert (Hfree' : overlaps_none walls (set_x x0 r)) by (intros w Hin; apply Hfree; right; exact Hin).
    specialize (IH Hfree').
    assert (Hnot : Qltb 0 v = false) by (apply Qltb_ge; lra).
    destruct (colliderect p W) eqn:Hc.
    + set (p1 := set_left (Rect_right W) p).
      assert (Hstep : Character.resolve_x v p W = p1).
      { unfold Character.resolve_x. apply Qltb_lt in Hv. rewrite Hc, Hnot, Hv. reflexivity. }
      rewrite Hstep.
      assert (Hp1 : rx p < rx p1 <= x0).
      { subst p1. unfold set_left, Rect_right. rect_arith. }
      destruct (IH p1) as (Hy1 & Hw1 & Hh1 & Hx1 & Hq1);
        [exact Hy | exact Hw | exact Hh' | lia |].
      split; [exact Hy1 |]. split; [exact Hw1 |]. split; [exact Hh1 |]. split; [lia |].
      intros w q [<- | Hin] Hq; [| apply Hq1; assumption].
      assert (rx p1 <= q) by lia. subst p1. unfold set_left, Rect_right in *. rect_arith.
    + assert (Hstep : Character.resolve_x v p W = p).
      { unfold Character.resolve_x. rewrite Hc. reflexivity. }
      rewrite Hstep.
      destruct (IH p) as (Hy1 & Hw1 & Hh1 & Hx1 & Hq1); try assumption.
      split; [exact Hy1 |]. split; [exact Hw1 |]. split; [exact Hh1 |]. split; [lia |].
      intros w q [<- | Hin] Hq; [| apply Hq1; assumption].
      assert (rx p <= q) by lia. rect_arith.
Qed.

(** With a zero velocity the loop leaves the rectangle where it is. *)
Lemma resolve_x_still (v : Q) (walls : list Rect) (p : Rect) :
  (v == 0)%Q -> fold_left (Character.resolve_x v) walls p = p.
Proof.
  intros Hv. induction walls as [| W walls IH]; cbn; [reflexivity |].
  assert (Hstep : Character.resolve_x v p W = p).
  { unfold Character.resolve_x.
    assert (Qltb 0 v = false) as -> by (apply Qltb_ge; lra).
    assert (Qltb v 0 = false) as -> by (apply Qltb_ge; lra).
    destruct (colliderect p W); reflexivity. }
  rewrite Hstep. exact IH.
Qed.

Lemma set_x_same (r p : Rect) : ry p = ry r -> rw p = rw r -> rh p = rh r -> set_x (rx p) r = p.
Proof. destruct r, p. cbn. intros -> -> ->. reflexivity. Qed.

(** The X step: a rectangle clear of the obstacles, moved by no more than
    its own width, is clear of them afterwards. *)
Lemma move_x_clear (v : Q) (walls : list Rect) (r : Rect) :
  Forall nonneg_size walls -> nonneg_size r ->
  Z.abs (py_int v) <= rw r ->
  overlaps_none walls r ->
  let r' := Character.move_x v walls r in
  overlaps_none walls r' /\ ry r' = ry r /\ rw r' = rw r /\ rh r' = rh r.
Proof.
  intros Hwf [Hrw Hrh] Hd Hfree. cbv zeta. unfold Character.move_x.
  assert (Hstart : set_x (rx r) r = r) by (apply set_x_same; reflexivity).
  destruct (py_int_sign v) as (Hpos & Hneg & Hzero).
  assert (Hfree0 : overlaps_none walls (set_x (rx r) r)) by (rewrite Hstart; exact Hfree).
  destruct (Qlt_le_dec 0 v) as [Hv | Hv].
  - assert (Hd' : 0 <= py_int v <= rw r).
    { split; [| lia]. destruct (Z.le_gt_cases 0 (py_int v)); [assumption |].
      assert (v < 0)%Q by (apply Hneg; lia). lra. }
    assert (Hrange : rx r <= rx (set_x (rx r + py_int v) r) <= rx r + py_int v) by (cbn; lia).
    destruct (resolve_x_rightward v (rx r) (py_int v) r walls Hv Hd' Hrh Hwf Hfree0
                (set_x (rx r + py_int v) r) eq_refl eq_refl eq_refl Hrange)
      as (Hy & Hw & Hh & Hx & Hq).
    split; [| auto]. intros w Hin.
    rewrite <- (set_x_same r _ Hy Hw Hh). apply Hq; [exact Hin | lia].
  - destruct (Qlt_le_dec v 0) as [Hv' | Hv'].
    + assert (Hd' : - rw r <= py_int v <= 0).
      { split; [lia |]. destruct (Z.le_gt_cases (py_int v) 0); [assumption |].
        assert (0 < v)%Q by (apply Hpos; lia). lra. }
      assert (Hrange : rx r + py_int v <= rx (set_x (rx r + py_int v) r) <= rx r) by (cbn; lia).
      destruct (resolve_x_leftward v (rx r) (py_int v) r walls Hv' Hd' Hrh Hwf Hfree0
                  (set_x (rx r + py_int v) r) eq_refl eq_refl eq_refl Hrange)
        as (Hy & Hw & Hh & Hx & Hq).
      split; [| auto]. intros w Hin.
      rewrite <- (set_x_same r _ Hy Hw Hh). apply Hq; [exact Hin | lia].
    + assert (Hv0 : (v == 0)%Q) by lra.
      rewrite resolve_x_still by exact Hv0.
      rewrite (Hzero Hv0), Z.add_0_r, Hstart. auto.
Qed.

(** The Y loop is the X loop with the two axes exchanged. *)
Lemma transpose_involutive (r : Rect) : transpose (transpose r) = r.
Proof. destruct r. reflexivity. Qed.

Lemma colliderect_transpose (a b : Rect) :
  colliderect (transpose a) (transpose b) = colliderect a b.
Proof.
  unfold colliderect, transpose. cbn.
  destruct (rw a =? 0), (rh a =? 0), (rw b =? 0), (rh b =? 0); cbn; try reflexivity.
  repeat match goal with |- context [?x <? ?y] => destruct (x <? y) end; reflexivity.
Qed.

Lemma resolve_y_transpose (v : Q) (r w : Rect) :
  Character.resolve_y v r w = transpose (Character.resolve_x v (transpose r) (transpose w)).
Proof.
  unfold Character.resolve_y, Character.resolve_x.
  rewrite colliderect_transpose.
  destruct (colliderect r w), (Qltb 0 v), (Qltb v 0); destruct r, w; reflexivity.
Qed.

Lemma fold_resolve_y_transpose (v : Q) (walls : list Rect) (r : Rect) :
  fold_left (Character.resolve_y v) walls r =
  transpose (fold_left (Character.resolve_x v) (map transpose walls) (transpose r)).
Proof.
  revert r. induction walls as [| W walls IH]; intros r; cbn.
  - symmetry. apply transpose_involutive.
  - rewrite IH, resolve_y_transpose, transpose_involutive. reflexivity.
Qed.

Lemma move_y_transpose (v : Q) (walls : list Rect) (r : Rect) :
  Character.move_y v walls r = transpose (Character.move_x v (map transpose walls) (transpose r)).
Proof.
  unfold Character.move_y, Character.move_x. rewrite fold_resolve_y_transpose.
  destruct r. reflexivity.
Qed.

(** The Y step: as [move_x_clear], with the height in place of the width. *)
Lemma move_y_clear (v : Q) (walls : list Rect) (r : Rect) :
  Forall nonneg_size walls -> nonneg_size r ->
  Z.abs (py_int v) <= rh r ->
  overlaps_none walls r ->
  let r' := Character.move_y v walls r in
  overlaps_none walls r' /\ rx r' = rx r /\ rw r' = rw r /\ rh r' = rh r.
Proof.
  intros Hwf [Hrw Hrh] Hd Hfree. cbv zeta. rewrite move_y_transpose.
  destruct (move_x_clear v (map transpose walls) (transpose r)) as (Hclear & Hy & Hw & Hh).
  - apply List.Forall_forall. intros w Hin. apply in_map_iff in Hin. destruct Hin as (w0 & <- & Hin0).
    rewrite List.Forall_forall in Hwf. destruct (Hwf w0 Hin0). split; assumption.
  - split; assumption.
  - exact Hd.
  - intros w Hin. apply in_map_iff in Hin. destruct Hin as (w0 & <- & Hin0).
    rewrite colliderect_transpose. apply Hfree, Hin0.
  - cbn in Hy, Hw, Hh. cbn. split; [| auto].
    intros w Hin. rewrite <- colliderect_transpose, transpose_involutive.
    apply Hclear, in_map, Hin.
Qed.




(** ** Gates *)

Lemma hint_fields (text : string) (g : Game.t) :
  Game.zone (Game.hint text g) = Game.zone g /\
  Game.player (Game.hint text g) = Game.player g /\
  Game.pathway_cooldown (Game.hint text g) = Game.pathway_cooldown g /\
  Game.audio (Game.hint text g) = Game.audio g /\
  Game.npcs (Game.hint text g) = Game.npcs g.
Proof. unfold Game.hint. destruct (Qleb _ 0); repeat split. Qed.

Lemma transfer_followers_fields (z : Zone) (g : Game.t) :
  Game.zone (Game.transfer_followers z g) = Game.zone g /\
  Game.player (Game.transfer_followers z g) = Game.player g /\
  Game.pathway_cooldown (Game.transfer_followers z g) = Game.pathway_cooldown g /\
  Game.audio (Game.transfer_followers z g) = Game.audio g.
Proof.
  unfold Game.transfer_followers.
  destruct (fold_left _ _ _) as [ns n]. destruct (0 <? n); repeat split.
Qed.

(** What a transition leaves: the new zone, the player's rectangle at the
    spawn point unless the Harbor rule moves it, the cooldown, one door
    sound. *)
Lemma enter_fields (gate : ZoneGate) (g : Game.t) :
  let g' := Game.enter gate g in
  let r := set_topleft (spawn gate) (Game.player_rect g) in
  Game.zone g' = target_zone gate /\
  Game.player_rect g' =
    (if decide (target_zone gate = Harbor)
     then if centery r <? 300 then set_centery 400 r else r
     else r) /\
  Game.pathway_cooldown g' = (7 # 10)%Q /\
  Game.audio g' = Game.audio g ++ [play_sound "door" false].
Proof.
  cbv zeta. unfold Game.enter.
  destruct (transfer_followers_fields (target_zone gate) g) as (Hz & Hp & Hc & Ha).
  set (g1 := Game.transfer_followers (target_zone gate) g) in *. clearbody g1.
  unfold Game.player_rect, Game.set_player_rect, Game.play in *. cbn.
  rewrite Hp.
  destruct (decide (target_zone gate = Harbor)); cbn.
  - unfold Player.rect. cbn. destruct (centery _ <? 300); cbn; rewrite ?Ha; repeat split.
  - rewrite Ha. repeat split.
Qed.

Lemma gate_loop_cons (gate : ZoneGate) (rest : list ZoneGate) (g : Game.t) :
  (Game.pathway_cooldown g <= 0)%Q ->
  Game.gate_loop (gate :: rest) g =
  if colliderect (Game.player_rect g) (gate_rect gate) then
    if Game.key_missing gate g
    then Game.gate_loop rest
           (Game.hint ("Pathway locked: requires " +:+ match required_key gate with
                                                       | Some k => key_label k
                                                       | None => ""
                                                       end) g)
    else
      match Game.index (Game.zone g) Game.region_order with
      | None => Raise g ValueError
      | Some current_idx =>
          match Game.index (target_zone gate) Game.region_order with
          | None => Raise g ValueError
          | Some target_idx =>
              if (current_idx <? target_idx)%nat && negb (Game.region_complete (Game.zone g) g)
              then Game.gate_loop rest (Game.hint "Complete this region's tasks first." g)
              else Ok (Game.enter gate g) tt
          end
      end
  else Game.gate_loop rest g.
Proof.
  intros Hc. apply Qltb_ge in Hc. cbn [Game.gate_loop]. rewrite Hc. reflexivity.
Qed.

(** The player, 22 by 32, cannot touch two gates of a zone in one frame. *)
Lemma gates_apart (z : Zone) (r : Rect) (gate other : ZoneGate) :
  rw r = 22 -> rh r = 32 ->
  In gate (zone_gates z) -> In other (zone_gates z) -> gate <> other ->
  colliderect r (gate_rect gate) = true -> colliderect r (gate_rect other) = false.
Proof.
  intros Hw Hh Hg Ho Hne Hc.
  destruct z; cbn in Hg, Ho;
    repeat match goal with
           | H : _ \/ _ |- _ => destruct H as [<- | H]
           | H : False |- _ => destruct H
           end; try congruence; cbn in *;
    apply colliderect_true in Hc; cbn in Hc;
    destruct (colliderect r _) eqn:E; try reflexivity;
    apply colliderect_true in E; cbn in E; lia.
Qed.

Lemma index_region_order (z : Zone) :
  Game.index z Game.region_order =
  Some (match z with Ground => 0 | Estate => 1 | Tunnels => 2 | Harbor => 3 end)%nat.
Proof. destruct z; reflexivity. Qed.

Lemma later_in_order_iff (target current : Zone) :
  later_in_order target current <->
  exists i j, Game.index current Game.region_order = Some i /\
              Game.index target Game.region_order = Some j /\ (i <? j)%nat = true.
Proof.
  unfold later_in_order. split; intros (i & j & Hi & Hj & Hlt); exists i, j;
    (split; [exact Hi | split; [exact Hj |]]); apply Nat.ltb_lt; assumption.
Qed.

Lemma gate_loop_untouched (gates : list ZoneGate) (g : Game.t) :
  (forall other, In other gates -> colliderect (Game.player_rect g) (gate_rect other) = false) ->
  Game.gate_loop gates g = Ok g tt.
Proof.
  induction gates as [| x rest IH]; intros Hfree; cbn [Game.gate_loop]; [reflexivity |].
  destruct (Qltb 0 (Game.pathway_cooldown g)); [reflexivity |].
  rewrite (Hfree x) by (left; reflexivity).
  apply IH. intros other Hin. apply Hfree. right. exact Hin.
Qed.

(** The verdict of the loop on the one gate the player touches. *)
Lemma gate_loop_single (gates : list ZoneGate) (g : Game.t) (gate : ZoneGate) :
  (Game.pathway_cooldown g <= 0)%Q ->
  List.NoDup gates -> In gate gates ->
  (forall other, In other gates -> other <> gate ->
     colliderect (Game.player_rect g) (gate_rect other) = false) ->
  colliderect (Game.player_rect g) (gate_rect gate) = true ->
  Game.gate_loop gates g =
  if Game.key_missing gate g
  then Ok (Game.hint ("Pathway locked: requires " +:+ match required_key gate with
                                                      | Some k => key_label k
                                                      | None => ""
                                                      end) g) tt
  else
    match Game.index (Game.zone g) Game.region_order,
          Game.index (target_zone gate) Game.region_order with
    | Some current_idx, Some target_idx =>
        if (current_idx <? target_idx)%nat && negb (Game.region_complete (Game.zone g) g)
        then Ok (Game.hint "Complete this region's tasks first." g) tt
        else Ok (Game.enter gate g) tt
    | _, _ => Raise g ValueError
    end.
Proof.
  intros Hcool Hnd. induction Hnd as [| x rest Hnotin Hnd IH]; intros Hin Hothers Hover.
  - destruct Hin.
  - rewrite gate_loop_cons by exact Hcool.
    assert (Hrest : forall text other, In other rest ->
              colliderect (Game.player_rect (Game.hint text g)) (gate_rect other) = false
              \/ other = gate).
    { intros text other Hor. destruct (hint_fields text g) as (_ & Hp & _).
      unfold Game.player_rect. rewrite Hp.
      destruct (colliderect (Player.rect (Game.player g)) (gate_rect other)) eqn:E; [| left; reflexivity].
      right. destruct (decide (other = gate)) as [Heq | Hne]; [exact Heq |].
      pose proof (Hothers other (or_intror Hor) Hne) as Hfalse.
      unfold Game.player_rect in Hfalse. congruence. }
    destruct Hin as [-> | Hin].
    + rewrite Hover.
      assert (Hfree : forall text other, In other rest ->
                colliderect (Game.player_rect (Game.hint text g)) (gate_rect other) = false).
      { intros text other Hor. destruct (Hrest text other Hor) as [H | ->]; [exact H | contradiction]. }
      rewrite !index_region_order.
      destruct (Game.key_missing gate g); [apply gate_loop_untouched, Hfree |].
      destruct (_ && _); [apply gate_loop_untouched, Hfree | reflexivity].
    + assert (Hne : x <> gate) by (intros ->; contradiction).
      rewrite (Hothers x) by (try left; auto).
      apply IH; [exact Hin | | exact Hover].
      intros other Hor Hog. apply Hothers; [right; exact Hor | exact Hog].
Qed.

Lemma zone_gates_NoDup (z : Zone) : List.NoDup (zone_gates z).
Proof.
  destruct z; cbn; repeat constructor; cbn; intros H;
    repeat match goal with
           | H : _ \/ _ |- _ => destruct H as [H | H]
           | H : False |- _ => destruct H
           end; discriminate.
Qed.

(** The Harbor rule after a transition never moves a 22 by 32 player that
    arrives through a gate of the level data. *)
Lemma level_spawn_kept (z : Zone) (gate : ZoneGate) (r : Rect) :
  rh r = 32 -> In gate (zone_gates z) ->
  (if decide (target_zone gate = Harbor)
   then if centery (set_topleft (spawn gate) r) <? 300
        then set_centery 400 (set_topleft (spawn gate) r)
        else set_topleft (spawn gate) r
   else set_topleft (spawn gate) r) = set_topleft (spawn gate) r.
Proof.
  intros Hh Hin.
  destruct z; cbn in Hin;
    repeat match goal with
           | H : _ \/ _ |- _ => destruct H as [<- | H]
           | H : False |- _ => destruct H
           end; cbn; try reflexivity.
  unfold centery. cbn. rewrite Hh. reflexivity.
Qed.

Lemma key_missing_iff (gate : ZoneGate) (g : Game.t) :
  Game.key_missing gate g = true <-> lacks_key gate g.
Proof.
  unfold Game.key_missing, lacks_key. destruct (required_key gate) as [k |].
  - rewrite negb_true_iff. split; [eauto | intros (k' & [= <-] & H); exact H].
  - split; [discriminate | intros (k' & H & _); discriminate].
Qed.

(** C2: in a frame in which the player touches a gate of the current zone
    and the transition cooldown has run out, the zone and the player stay as
    they are when the gate asks for a key the player lacks, and also when the
    target zone is later in [region_order] and the tasks of the current zone
    are incomplete; otherwise the zone becomes the gate's target, the player's
    rectangle is put at the gate's spawn point, the cooldown is set to 0.7 and
    the door sound is played once. *)
Theorem gate_transition (g : Game.t) (gate : ZoneGate) :
  rw (Game.player_rect g) = 22 -> rh (Game.player_rect g) = 32 ->
  (Game.pathway_cooldown g <= 0)%Q ->
  In gate (zone_gates (Game.zone g)) ->
  colliderect (Game.player_rect g) (gate_rect gate) = true ->
  let o := Game.gate_loop (zone_gates (Game.zone g)) g in
  let g' := final_state o in
  returns o /\
  (lacks_key gate g ->
   Game.zone g' = Game.zone g /\ Game.player g' = Game.player g) /\
  (later_in_order (target_zone gate) (Game.zone g) /\
   Game.region_complete (Game.zone g) g = false ->
   Game.zone g' = Game.zone g /\ Game.player g' = Game.player g) /\
  (~ lacks_key gate g ->
   ~ (later_in_order (target_zone gate) (Game.zone g) /\
      Game.region_complete (Game.zone g) g = false) ->
   Game.zone g' = target_zone gate /\
   Game.player_rect g' = set_topleft (spawn gate) (Game.player_rect g) /\
   Game.pathway_cooldown g' = (7 # 10)%Q /\
   Game.audio g' = Game.audio g ++ [play_sound "door" false]).
Proof.
  intros Hw Hh Hcool Hin Hover. cbv zeta.
  rewrite (gate_loop_single (zone_gates (Game.zone g)) g gate Hcool
             (zone_gates_NoDup _) Hin); [| | exact Hover].
  2: { intros other Hor Hne.
       apply (gates_apart (Game.zone g) _ gate other Hw Hh Hin Hor); [congruence | exact Hover]. }
  pose proof (key_missing_iff gate g) as Hkey.
  pose proof (later_in_order_iff (target_zone gate) (Game.zone g)) as Hlater.
  rewrite !index_region_order in *.
  set (i := match Game.zone g with Ground => _ | _ => _ end) in *.
  set (j := match target_zone gate with Ground => _ | _ => _ end) in *.
  assert (Hlt : later_in_order (target_zone gate) (Game.zone g) <-> (i <? j)%nat = true).
  { rewrite Hlater. split.
    - intros (i' & j' & [= <-] & [= <-] & H). exact H.
    - intros H. exists i, j. auto. }
  clear Hlater.
  destruct (Game.key_missing gate g) eqn:Ekey.
  - destruct (hint_fields ("Pathway locked: requires " +:+ match required_key gate with
                                                          | Some k => key_label k
                                                          | None => ""
                                                          end) g) as (Hz & Hp & _).
    cbn [final_state returns]. split; [exact I |]. split; [auto |]. split; [auto |].
    intros Hno. exfalso. apply Hno, Hkey. reflexivity.
  - destruct ((i <? j)%nat && negb (Game.region_complete (Game.zone g) g)) eqn:Eblock.
    + destruct (hint_fields "Complete this region's tasks first." g) as (Hz & Hp & _).
      cbn [final_state returns]. split; [exact I |]. split; [auto |]. split; [auto |].
      intros _ Hno. exfalso. apply Hno.
      apply andb_true_iff in Eblock. destruct Eblock as [E1 E2].
      apply negb_true_iff in E2. split; [apply Hlt, E1 | exact E2].
    + cbn [final_state returns]. split; [exact I |].
      split; [intros Hl; apply Hkey in Hl; discriminate |].
      split.
      { intros [Hl Hr]. apply Hlt in Hl. rewrite Hl, Hr in Eblock. discriminate. }
      intros _ _. destruct (enter_fields gate g) as (Hz & Hp & Hc & Ha).
      rewrite Hp, (level_spawn_kept (Game.zone g) gate _ Hh Hin). auto.
Qed.

Lemma gate_transition_witness :
  let unlocked := final_state (Game.gate_loop (zone_gates Ground) gate_ready_game) in
  let locked := final_state (Game.gate_loop (zone_gates Ground) gate_locked_game) in
  (Game.zone unlocked = Estate /\ Game.player_rect unlocked = mkRect 1060 620 22 32) /\
  Game.zone locked = Ground.
Proof.
  cbv zeta. split.
  - destruct (gate_transition gate_ready_game ground_gate) as (_ & _ & _ & Hgo).
    + reflexivity.
    + reflexivity.
    + vm_compute. discriminate.
    + left. reflexivity.
    + reflexivity.
    + destruct Hgo as (Hz & Hr & _).
      * intros (k & [= <-] & Hk). vm_compute in Hk. discriminate.
      * intros [_ Hr]. vm_compute in Hr. discriminate.
      * split; [exact Hz | exact Hr].
  - destruct (gate_transition gate_locked_game ground_gate) as (_ & Hstay & _).
    + reflexivity.
    + reflexivity.
    + vm_compute. discriminate.
    + left. reflexivity.
    + reflexivity.
    + apply Hstay. exists jail_key. split; reflexivity.
Defined.

(** ** The guard pass *)

(** A guard whose health is already at or below zero when the pass reaches it
    is updated like any other: the guard it leaves in the store is the updated
    one, its bullet is appended, and only then is it removed from the list. *)
Lemma guard_loop_updates_dead_guard `{cfg : Settings} (dt : Q) (obstacles : list Rect)
    (a : addr) (rest : list addr) (any_alert : bool) (g : Game.t)
    (guard guard' : Guard.t) (shot : option Bullet.t) (l : list addr) :
  Game.guard_store g !! a = Some guard ->
  Guard.health guard <= 0 ->
  Guard.update dt (Game.player g) obstacles guard = Ok guard' shot ->
  Game.remove_first a (Game.guards g (Game.zone g)) = Some l ->
  Game.guard_loop dt obstacles (a :: rest) any_alert g =
  Game.guard_loop dt obstacles rest (if Guard.alerted guard' then true else any_alert)
    (Game.set_zone_guards (Game.zone g) l
       (match shot with
        | Some b => Game.set_bullets (Game.bullets g ++ [b])
                      (Game.set_guard_store (<[a := guard']> (Game.guard_store g)) g)
        | None => Game.set_guard_store (<[a := guard']> (Game.guard_store g)) g
        end)).
Proof.
  intros Hstore Hdead Hupd Hrem. cbn [Game.guard_loop]. rewrite Hstore, Hupd.
  pose proof (Guard_update_outcome dt (Game.player g) obstacles guard) as H. cbv zeta in H.
  rewrite Hupd in H. destruct H as (_ & _ & Hh & _).
  assert (Hle : (Guard.health guard' <=? 0) = true) by (apply Z.leb_le; lia).
  rewrite Hle. destruct shot; cbn; rewrite Hrem; reflexivity.
Qed.

(** The guard pass on a state whose guard has health 0. *)
Lemma dead_guard_in_guard_pass :
  Guard.health dead_guard <= 0 /\
  Game.guards dead_guard_game Ground = [0%nat] /\
  exists g' moved b,
    Game.guard_pass (cfg := sample_settings) (1 # 2)
      (Game.frame_obstacles (cfg := sample_settings) Ground) dead_guard_game = Ok g' true /\
    Game.guards g' Ground = [] /\
    Game.guard_store g' !! 0%nat = Some moved /\
    Guard.rect dead_guard = mkRect 200 550 22 32 /\
    Guard.rect moved = mkRect 199 550 22 32 /\
    Game.bullets g' = [b] /\ Bullet.owner b = "guard" /\ Bullet.alive b = true.
Proof.
  split; [vm_compute; discriminate |]. split; [reflexivity |].
  eexists _, _, _. split; [vm_compute; reflexivity |].
  repeat split; vm_compute; reflexivity.
Qed.

(** C6, the failing frames: in the first frame the player's bullet brings the
    guard to health -10 in the bullet pass, after the guard pass, so the guard
    stays in the list of its zone; in the second frame, which starts with the
    guard at health -10, the guard pass gives it its [update] call: it steps
    from x = 199 to x = 198 toward the player and fires a bullet, and only
    then is it removed from the list. *)
Theorem dead_guard_acts_once_more :
  exists g1 g2 killed moved b,
    Game.frame (cfg := sample_settings) no_keys_pressed (1 # 60) wounded_guard_game = Ok g1 tt /\
    Game.guards g1 Ground = [0%nat] /\
    Game.guard_store g1 !! 0%nat = Some killed /\
    Guard.health killed = -10 /\
    Guard.rect killed = mkRect 199 550 22 32 /\
    Game.bullets g1 = [] /\
    Game.frame (cfg := sample_settings) no_keys_pressed (1 # 60) g1 = Ok g2 tt /\
    Game.guards g2 Ground = [] /\
    Game.guard_store g2 !! 0%nat = Some moved /\
    Guard.rect moved = mkRect 198 550 22 32 /\
    Game.bullets g2 = [b] /\ Bullet.owner b = "guard" /\ Bullet.alive b = true.
Proof.
  eexists _, _, _, _, _.
  split; [vm_compute; reflexivity |].
  split; [reflexivity |]. split; [vm_compute; reflexivity |].
  split; [reflexivity |]. split; [reflexivity |]. split; [reflexivity |].
  split; [vm_compute; reflexivity |].
  split; [reflexivity |]. split; [vm_compute; reflexivity |].
  split; [reflexivity |]. split; [reflexivity |]. split; reflexivity.
Qed.

(** ** Pickups *)

Lemma ammo_id_inj (z : Zone) (i j : nat) : Game.ammo_id z i = Game.ammo_id z j -> i = j.
Proof.
  unfold Game.ammo_id. intros H. apply (inj pretty).
  destruct z; cbn in H; injection H as H; exact H.
Qed.

Lemma ammo_id_not_gun (z : Zone) (i : nat) : Game.ammo_id z i <> "gun".
Proof. unfold Game.ammo_id. cbn. discriminate. Qed.

Lemma clue_id_not_gun (z : Zone) : Game.clue_id z <> "gun".
Proof. unfold Game.clue_id. cbn. discriminate. Qed.

Lemma clue_id_not_ammo (z z' : Zone) (i : nat) : Game.clue_id z <> Game.ammo_id z' i.
Proof. unfold Game.clue_id, Game.ammo_id. cbn. discriminate. Qed.

Lemma clue_id_inj (z z' : Zone) : Game.clue_id z = Game.clue_id z' -> z = z'.
Proof. destruct z, z'; cbn; intros H; try reflexivity; discriminate. Qed.

Lemma collectable_boxes_ids (p : Rect) (z : Zone) (c : gset string) (boxes : list Rect)
    (idx : nat) (x : string) :
  x ∈ collectable_boxes p z c idx boxes -> exists j, (idx <= j)%nat /\ x = Game.ammo_id z j.
Proof.
  revert idx. induction boxes as [| box rest IH]; intros idx Hx; cbn in Hx.
  - apply elem_of_nil in Hx. destruct Hx.
  - apply elem_of_app in Hx. destruct Hx as [Hx | Hx].
    + destruct (_ && _); [| apply elem_of_nil in Hx; destruct Hx].
      apply list_elem_of_singleton in Hx. exists idx. split; [lia | exact Hx].
    + destruct (IH _ Hx) as (j & Hj & ->). exists j. split; [lia | reflexivity].
Qed.

(** Identifiers that are not those of the boxes still to come do not change
    which of them are collectable. *)
Lemma collectable_boxes_fresh (p : Rect) (z : Zone) (c extra : gset string) (boxes : list Rect)
    (idx : nat) :
  (forall j, (idx <= j)%nat -> Game.ammo_id z j ∉ extra) ->
  collectable_boxes p z (c ∪ extra) idx boxes = collectable_boxes p z c idx boxes.
Proof.
  revert idx. induction boxes as [| box rest IH]; intros idx Hfresh; cbn; [reflexivity |].
  rewrite IH by (intros j Hj; apply Hfresh; lia).
  assert (Heq : bool_decide (Game.ammo_id z idx ∉ c ∪ extra) = bool_decide (Game.ammo_id z idx ∉ c)).
  { apply bool_decide_ext. specialize (Hfresh idx (le_n _)). set_solver. }
  rewrite Heq. reflexivity.
Qed.

Lemma take_gun_view (p : Rect) (its : ZoneItems) (g : Game.t) (b : bool) :
  let t := match gun its with
           | Some r => colliderect p r && bool_decide ("gun" ∉ Game.collected g)
           | None => false
           end in
  view (fst (Game.take_gun p its (g, b))) =
    mkView (Game.zone g) (Game.items g) (Game.player_rect g)
           (Player.rescued_npcs (Game.player g))
           (if t then Game.collected g ∪ {["gun"]} else Game.collected g)
           (Player.ammo (Game.player g) + 20 * b2z t) (Player.clues (Game.player g))
           (Player.has_gun (Game.player g) || t) (Player.keys (Game.player g)) (Game.npcs g) /\
  snd (Game.take_gun p its (g, b)) = b || t.
Proof.
  cbv zeta. unfold Game.take_gun, view. destruct (gun its) as [r |].
  - destruct (colliderect p r && _); cbn.
    + rewrite !orb_true_r. split; reflexivity.
    + rewrite !orb_false_r, Z.add_0_r. split; reflexivity.
  - cbn. rewrite !orb_false_r, Z.add_0_r. split; reflexivity.
Qed.

Lemma ammo_loop_view (p : Rect) (boxes : list Rect) (idx : nat) (g : Game.t) (b : bool) :
  let ids := collectable_boxes p (Game.zone g) (Game.collected g) idx boxes in
  view (fst (Game.ammo_loop p idx boxes (g, b))) =
    mkView (Game.zone g) (Game.items g) (Game.player_rect g)
           (Player.rescued_npcs (Game.player g))
           (Game.collected g ∪ list_to_set ids)
           (Player.ammo (Game.player g) + 12 * Z.of_nat (length ids)) (Player.clues (Game.player g))
           (Player.has_gun (Game.player g)) (Player.keys (Game.player g)) (Game.npcs g) /\
  snd (Game.ammo_loop p idx boxes (g, b)) = b || negb (bool_decide (ids = [])).
Proof.
  cbv zeta. revert idx g b. induction boxes as [| box rest IH]; intros idx g b.
  - cbn. unfold view. rewrite union_empty_r_L, Z.add_0_r, orb_false_r. split; reflexivity.
  - cbn [Game.ammo_loop collectable_boxes].
    destruct (colliderect p box && bool_decide (Game.ammo_id (Game.zone g) idx ∉ Game.collected g)) eqn:E.
    + destruct (IH (S idx)
                  (Game.set_message "Picked up ammo (+12)."
                     (Game.set_player (Player.set_ammo (Player.ammo (Game.player g) + 12) (Game.player g))
                        (Game.set_collected (Game.collected g ∪ {[Game.ammo_id (Game.zone g) idx]}) g)))
                  true) as [Hv Hb].
      rewrite Hv, Hb. cbn.
      rewrite collectable_boxes_fresh.
      2: { intros j Hj Hin. apply elem_of_singleton in Hin. apply ammo_id_inj in Hin. lia. }
      split; [| rewrite orb_true_r; reflexivity].
      f_equal; [set_solver | lia].
    + destruct (IH (S idx) g b) as [Hv Hb]. rewrite Hv, Hb. cbn. split; reflexivity.
Qed.

Lemma take_clue_view (p : Rect) (its : ZoneItems) (g : Game.t) (b : bool) :
  let t := match clue its with
           | Some r => colliderect p r && bool_decide (Game.clue_id (Game.zone g) ∉ Game.collected g)
           | None => false
           end in
  view (fst (Game.take_clue p its (g, b))) =
    mkView (Game.zone g) (Game.items g) (Game.player_rect g)
           (Player.rescued_npcs (Game.player g))
           (if t then Game.collected g ∪ {[Game.clue_id (Game.zone g)]} else Game.collected g)
           (Player.ammo (Game.player g)) (Player.clues (Game.player g) + b2z t)
           (Player.has_gun (Game.player g)) (Player.keys (Game.player g)) (Game.npcs g) /\
  snd (Game.take_clue p its (g, b)) = b || t.
Proof.
  cbv zeta. unfold Game.take_clue, view. destruct (clue its) as [r |].
  - destruct (colliderect p r && _); cbn.
    + rewrite !orb_true_r. split; reflexivity.
    + rewrite !orb_false_r, Z.add_0_r. split; reflexivity.
  - cbn. rewrite !orb_false_r, Z.add_0_r. split; reflexivity.
Qed.

Lemma key_step_view (p : Rect) (its : ZoneItems) (g : Game.t) (b : bool) (k : Key) :
  let t := key_collectable p its (Player.keys (Game.player g)) k in
  view (fst (Game.key_step p its (g, b) k)) =
    mkView (Game.zone g) (Game.items g) (Game.player_rect g)
           (Player.rescued_npcs (Game.player g)) (Game.collected g)
           (Player.ammo (Game.player g)) (Player.clues (Game.player g))
           (Player.has_gun (Game.player g))
           (if t then set_key k (Player.keys (Game.player g)) else Player.keys (Game.player g))
           (Game.npcs g) /\
  snd (Game.key_step p its (g, b) k) = b || t.
Proof.
  cbv zeta. unfold Game.key_step, view, key_collectable. destruct (key_item k its) as [r |].
  - destruct (colliderect p r && _); cbn -[set_key].
    + rewrite !orb_true_r. split; reflexivity.
    + rewrite !orb_false_r. split; reflexivity.
  - cbn. rewrite !orb_false_r. split; reflexivity.
Qed.

(** Reads the fields of [g] through [view g] and rewrites with [H]. *)
Ltac through_view g H :=
  change (Game.zone g) with (v_zone (view g));
  change (Game.items g) with (v_items (view g));
  change (Game.player_rect g) with (v_rect (view g));
  change (Player.rescued_npcs (Game.player g)) with (v_rescued (view g));
  change (Game.collected g) with (v_collected (view g));
  change (Player.ammo (Game.player g)) with (v_ammo (view g));
  change (Player.clues (Game.player g)) with (v_clues (view g));
  change (Player.has_gun (Game.player g)) with (v_has_gun (view g));
  change (Player.keys (Game.player g)) with (v_keys (view g));
  change (Game.npcs g) with (v_npcs (view g));
  rewrite H;
  cbn [v_zone v_items v_rect v_rescued v_collected v_ammo v_clues v_has_gun v_keys v_npcs].

Lemma key_loop_view (p : Rect) (its : ZoneItems) (g : Game.t) (b : bool) :
  view (fst (fold_left (Game.key_step p its) [jail_key; cave_key; boat_key] (g, b))) =
    mkView (Game.zone g) (Game.items g) (Game.player_rect g)
           (Player.rescued_npcs (Game.player g)) (Game.collected g)
           (Player.ammo (Game.player g)) (Player.clues (Game.player g))
           (Player.has_gun (Game.player g))
           (keys_after p its (Player.keys (Game.player g)))
           (Game.npcs g).
Proof.
  unfold keys_after. cbn [fold_left].
  destruct (Game.key_step p its (g, b) jail_key) as [g1 b1] eqn:E1.
  destruct (key_step_view p its g b jail_key) as [H1 _]. rewrite E1 in H1. cbn [fst] in H1.
  destruct (Game.key_step p its (g1, b1) cave_key) as [g2 b2] eqn:E2.
  destruct (key_step_view p its g1 b1 cave_key) as [H2 _]. rewrite E2 in H2. cbn [fst] in H2.
  destruct (key_step_view p its g2 b2 boat_key) as [H3 _].
  rewrite H3. through_view g2 H2. through_view g1 H1. reflexivity.
Qed.

Lemma take_followers_view (p : Rect) (g : Game.t) (b : bool) :
  view (Game.take_followers p (g, b)) =
    mkView (Game.zone g) (Game.items g) (Game.player_rect g)
           (Player.rescued_npcs (Game.player g)) (Game.collected g)
           (Player.ammo (Game.player g)) (Player.clues (Game.player g))
           (Player.has_gun (Game.player g)) (Player.keys (Game.player g))
           (fst (Game.npc_follow_loop p (Game.zone g) (Game.npcs g))).
Proof.
  unfold Game.take_followers, view.
  destruct (Game.npc_follow_loop p (Game.zone g) (Game.npcs g)) as [ns followed].
  destruct followed, b; reflexivity.
Qed.

(** What one call of [interact] does to the pickup view of the state. *)
Lemma interact_view (g : Game.t) :
  view (Game.interact g) =
    mkView (Game.zone g) (Game.items g) (Game.player_rect g)
           (Player.rescued_npcs (Game.player g))
           (Game.collected g ∪ collectable_ids g)
           (Player.ammo (Game.player g) + 20 * b2z (gun_collectable g)
            + 12 * Z.of_nat (length (ammo_collectable g)))
           (Player.clues (Game.player g) + b2z (clue_collectable g))
           (Player.has_gun (Game.player g) || gun_collectable g)
           (keys_after (Game.player_rect g) (Game.items g (Game.zone g)) (Player.keys (Game.player g)))
           (fst (Game.npc_follow_loop (Game.player_rect g) (Game.zone g) (Game.npcs g))).
Proof.
  unfold Game.interact.
  set (its := Game.items g (Game.zone g)). set (p := Game.player_rect g).
  destruct (Game.take_gun p its (g, false)) as [g1 b1] eqn:E1.
  destruct (take_gun_view p its g false) as [H1 _]. rewrite E1 in H1. cbn [fst] in H1.
  destruct (Game.ammo_loop p 0 (ammo_boxes its) (g1, b1)) as [g2 b2] eqn:E2.
  destruct (ammo_loop_view p (ammo_boxes its) 0 g1 b1) as [H2 _]. rewrite E2 in H2. cbn [fst] in H2.
  destruct (Game.take_clue p its (g2, b2)) as [g3 b3] eqn:E3.
  destruct (take_clue_view p its g2 b2) as [H3 _]. rewrite E3 in H3. cbn [fst] in H3.
  destruct (fold_left (Game.key_step p its) [jail_key; cave_key; boat_key] (g3, b3)) as [g4 b4] eqn:E4.
  pose proof (key_loop_view p its g3 b3) as H4. rewrite E4 in H4. cbn [fst] in H4.
  rewrite take_followers_view.
  through_view g4 H4. through_view g3 H3. through_view g2 H2. through_view g1 H1.
  unfold collectable_ids, gun_collectable, clue_collectable, ammo_collectable. fold its p.
  set (tg := match gun its with Some _ => _ | None => _ end).
  set (c := Game.collected g). set (z := Game.zone g).
  assert (Hcg : (if tg then c ∪ {["gun"]} else c) = c ∪ (if tg then {["gun"]} else ∅))
    by (destruct tg; set_solver).
  rewrite Hcg. clear Hcg.
  rewrite collectable_boxes_fresh.
  2: { intros j _. destruct tg; [| set_solver].
       rewrite elem_of_singleton. apply ammo_id_not_gun. }
  set (ids := collectable_boxes p z c 0 (ammo_boxes its)).
  assert (Hclue : bool_decide (Game.clue_id z ∉ c ∪ (if tg then {["gun"]} else ∅) ∪ list_to_set ids)
                  = bool_decide (Game.clue_id z ∉ c)).
  { apply bool_decide_ext.
    assert (Game.clue_id z ∉ (if tg then {["gun"]} else ∅ : gset string)).
    { destruct tg; [| set_solver]. rewrite elem_of_singleton. apply clue_id_not_gun. }
    assert (Game.clue_id z ∉ (list_to_set ids : gset string)).
    { rewrite elem_of_list_to_set. intros Hin.
      apply collectable_boxes_ids in Hin. destruct Hin as (j & _ & Hj).
      exact (clue_id_not_ammo _ _ _ Hj). }
    set_solver. }
  destruct (clue its) as [r |].
  - rewrite Hclue. clear Hclue.
    destruct (colliderect p r && bool_decide (Game.clue_id z ∉ c)), tg;
      f_equal; try reflexivity; set_solver.
  - clear Hclue. destruct tg; f_equal; try reflexivity; set_solver.
Qed.

Lemma ammo_loop_noop (p : Rect) (boxes : list Rect) (idx : nat) (g : Game.t) (b : bool) :
  collectable_boxes p (Game.zone g) (Game.collected g) idx boxes = [] ->
  Game.ammo_loop p idx boxes (g, b) = (g, b).
Proof.
  revert idx. induction boxes as [| box rest IH]; intros idx Hnone; cbn in *; [reflexivity |].
  destruct (colliderect p box && _); [discriminate |].
  apply IH. exact Hnone.
Qed.

Lemma collectable_boxes_done (p : Rect) (z : Zone) (c c' : gset string) (boxes : list Rect)
    (idx : nat) :
  c ∪ list_to_set (collectable_boxes p z c idx boxes) ⊆ c' ->
  collectable_boxes p z c' idx boxes = [].
Proof.
  revert idx. induction boxes as [| box rest IH]; intros idx Hsub; cbn in *; [reflexivity |].
  rewrite IH by set_solver.
  destruct (colliderect p box); cbn in *; [| reflexivity].
  destruct (bool_decide (Game.ammo_id z idx ∉ c')) eqn:E'; [| reflexivity].
  apply bool_decide_eq_true in E'. exfalso. apply E'.
  destruct (bool_decide (Game.ammo_id z idx ∉ c)) eqn:E.
  - cbn in Hsub. set_solver.
  - apply bool_decide_eq_false in E. apply dec_stable in E. set_solver.
Qed.

Lemma npc_follow_loop_unchanged (p : Rect) (z : Zone) (ns : list NPC.t) :
  snd (Game.npc_follow_loop p z ns) = false -> fst (Game.npc_follow_loop p z ns) = ns.
Proof.
  induction ns as [| n rest IH]; cbn; [reflexivity |].
  destruct (Game.npc_follow_loop p z rest) as [rest' any].
  destruct (_ && colliderect p _); cbn; [discriminate |].
  intros Hany. cbn in IH. rewrite IH by exact Hany. reflexivity.
Qed.

Lemma npc_follow_loop_settled (p : Rect) (z : Zone) (ns : list NPC.t) :
  snd (Game.npc_follow_loop p z (fst (Game.npc_follow_loop p z ns))) = false.
Proof.
  induction ns as [| n rest IH]; cbn; [reflexivity |].
  destruct (Game.npc_follow_loop p z rest) as [rest' any]. cbn in IH.
  destruct (bool_decide (NPC.zone n = z) && negb (NPC.following n) && negb (NPC.rescued n)
            && colliderect p (inflate 24 24 (NPC.rect n))) eqn:E; cbn.
  - destruct (Game.npc_follow_loop p z rest') as [rest'' any'].
    cbn in IH. rewrite andb_false_r. cbn. exact IH.
  - destruct (Game.npc_follow_loop p z rest') as [rest'' any'].
    cbn in IH. rewrite E. cbn. exact IH.
Qed.

Lemma keys_after_settled (p : Rect) (its : ZoneItems) (ks : KeyRing) (k : Key) :
  key_collectable p its (keys_after p its ks) k = false.
Proof.
  unfold keys_after, key_collectable.
  destruct ks as [kj kc kb], k; cbn;
    destruct (jail_key_item its) as [rj |], (cave_key_item its) as [rc |],
      (boat_key_item its) as [rb |]; cbn;
    repeat match goal with |- context [colliderect p ?r] => destruct (colliderect p r) end;
    destruct kj, kc, kb; reflexivity.
Qed.

(** When nothing is collectable, [interact] leaves the state as it is. *)
Lemma interact_noop (g : Game.t) :
  gun_collectable g = false ->
  ammo_collectable g = [] ->
  clue_collectable g = false ->
  (forall k, key_collectable (Game.player_rect g) (Game.items g (Game.zone g))
               (Player.keys (Game.player g)) k = false) ->
  snd (Game.npc_follow_loop (Game.player_rect g) (Game.zone g) (Game.npcs g)) = false ->
  Game.interact g = g.
Proof.
  unfold gun_collectable, ammo_collectable, clue_collectable, key_collectable, Game.interact.
  set (its := Game.items g (Game.zone g)). set (p := Game.player_rect g).
  intros Hgun Hammo Hclue Hkeys Hnpc.
  assert (E1 : Game.take_gun p its (g, false) = (g, false)).
  { unfold Game.take_gun. destruct (gun its); [rewrite Hgun |]; reflexivity. }
  rewrite E1, (ammo_loop_noop p _ 0 g false Hammo).
  assert (E3 : Game.take_clue p its (g, false) = (g, false)).
  { unfold Game.take_clue. destruct (clue its); [rewrite Hclue |]; reflexivity. }
  rewrite E3.
  assert (E4 : forall k, Game.key_step p its (g, false) k = (g, false)).
  { intros k. unfold Game.key_step. specialize (Hkeys k).
    destruct (key_item k its); [rewrite Hkeys |]; reflexivity. }
  cbn [fold_left]. rewrite !E4.
  unfold Game.take_followers.
  pose proof (npc_follow_loop_unchanged p (Game.zone g) (Game.npcs g) Hnpc) as Hns.
  destruct (Game.npc_follow_loop p (Game.zone g) (Game.npcs g)) as [ns followed].
  cbn in Hnpc, Hns. subst. destruct g. reflexivity.
Qed.

Lemma collectable_boxes_iff (p : Rect) (z : Zone) (c : gset string) (boxes : list Rect)
    (idx i : nat) (box : Rect) :
  boxes !! i = Some box -> colliderect p box = true ->
  (Game.ammo_id z (idx + i) ∈ collectable_boxes p z c idx boxes <-> Game.ammo_id z (idx + i) ∉ c).
Proof.
  revert idx i. induction boxes as [| b0 rest IH]; intros idx i Hbox Hover; [discriminate |].
  cbn [collectable_boxes]. rewrite elem_of_app. destruct i as [| i]; cbn in Hbox.
  - injection Hbox as ->. rewrite Hover, Nat.add_0_r. cbn.
    destruct (bool_decide (Game.ammo_id z idx ∉ c)) eqn:E.
    + apply bool_decide_eq_true in E. rewrite list_elem_of_singleton. tauto.
    + apply bool_decide_eq_false in E. split; [| tauto].
      intros [Hin | Hin]; [apply elem_of_nil in Hin; destruct Hin |].
      apply collectable_boxes_ids in Hin. destruct Hin as (j & Hj & Heq).
      apply ammo_id_inj in Heq. lia.
  - replace (idx + S i)%nat with (S idx + i)%nat by lia.
    rewrite <- (IH (S idx) i Hbox Hover). split; [| tauto].
    intros [Hin | Hin]; [| exact Hin].
    destruct (_ && _); [| apply elem_of_nil in Hin; destruct Hin].
    apply list_elem_of_singleton, ammo_id_inj in Hin. lia.
Qed.

(** C9: one call of [interact] adds to the collected set the identifiers of
    the items of the zone that the player overlaps and that are not yet in
    it, and adds 20 rounds and the gun for the pistol, 12 rounds for each
    ammo box and one clue for the clue, counted over those items only.  An
    overlapped item is taken exactly when its identifier is absent from the
    collected set, so an item whose identifier is in the set adds nothing,
    and a second call right after the first changes nothing at all. *)
Theorem interact_one_shot (g : Game.t) :
  let z := Game.zone g in
  let its := Game.items g z in
  let p := Game.player_rect g in
  let g1 := Game.interact g in
  (Game.collected g1 = Game.collected g ∪ collectable_ids g /\
   Player.ammo (Game.player g1) =
     Player.ammo (Game.player g) + 20 * b2z (gun_collectable g)
     + 12 * Z.of_nat (length (ammo_collectable g)) /\
   Player.clues (Game.player g1) = Player.clues (Game.player g) + b2z (clue_collectable g) /\
   Player.has_gun (Game.player g1) = Player.has_gun (Game.player g) || gun_collectable g) /\
  (forall r, gun its = Some r -> colliderect p r = true ->
     (gun_collectable g = true <-> "gun" ∉ Game.collected g)) /\
  (forall i box, ammo_boxes its !! i = Some box -> colliderect p box = true ->
     (Game.ammo_id z i ∈ ammo_collectable g <-> Game.ammo_id z i ∉ Game.collected g)) /\
  (forall id, id ∈ ammo_collectable g -> id ∉ Game.collected g) /\
  (forall r, clue its = Some r -> colliderect p r = true ->
     (clue_collectable g = true <-> Game.clue_id z ∉ Game.collected g)) /\
  Game.interact g1 = g1.
Proof.
  cbv zeta. pose proof (interact_view g) as Hv.
  assert (Hz : Game.zone (Game.interact g) = Game.zone g) by exact (f_equal v_zone Hv).
  assert (Hi : Game.items (Game.interact g) = Game.items g) by exact (f_equal v_items Hv).
  assert (Hr : Game.player_rect (Game.interact g) = Game.player_rect g) by exact (f_equal v_rect Hv).
  assert (Hc : Game.collected (Game.interact g) = Game.collected g ∪ collectable_ids g)
    by exact (f_equal v_collected Hv).
  assert (Hk : Player.keys (Game.player (Game.interact g)) = _) by exact (f_equal v_keys Hv).
  assert (Hn : Game.npcs (Game.interact g) = _) by exact (f_equal v_npcs Hv).
  split; [| split; [| split; [| split; [| split]]]].
  - split; [exact Hc |]. split; [exact (f_equal v_ammo Hv) |].
    split; [exact (f_equal v_clues Hv) | exact (f_equal v_has_gun Hv)].
  - intros r Hgun Hover. unfold gun_collectable. rewrite Hgun, Hover. cbn.
    rewrite bool_decide_eq_true. tauto.
  - intros i box Hbox Hover. unfold ammo_collectable.
    apply (collectable_boxes_iff _ _ _ _ 0 i box Hbox Hover).
  - intros id Hin Hcol. unfold ammo_collectable in Hin.
    revert Hin. generalize 0%nat. induction (ammo_boxes _) as [| b0 rest IH]; intros idx Hin; cbn in Hin.
    + apply elem_of_nil in Hin. exact Hin.
    + apply elem_of_app in Hin. destruct Hin as [Hin | Hin]; [| exact (IH _ Hin)].
      destruct (colliderect _ b0); cbn in Hin; [| apply elem_of_nil in Hin; exact Hin].
      destruct (bool_decide _) eqn:E; [| apply elem_of_nil in Hin; exact Hin].
      apply bool_decide_eq_true in E. apply list_elem_of_singleton in Hin. subst id. exact (E Hcol).
  - intros r Hclue Hover. unfold clue_collectable. rewrite Hclue, Hover. cbn.
    rewrite bool_decide_eq_true. tauto.
  - apply interact_noop.
    + unfold gun_collectable. rewrite Hz, Hi, Hr, Hc.
      destruct (gun _) as [r |] eqn:Hgun; [| reflexivity].
      destruct (colliderect _ r) eqn:Hover; [| reflexivity]. cbn.
      apply bool_decide_eq_false. intros Hnot. apply Hnot.
      unfold collectable_ids, gun_collectable. rewrite Hgun, Hover. cbn.
      destruct (bool_decide ("gun" ∉ Game.collected g)) eqn:E; [set_solver |].
      apply bool_decide_eq_false, dec_stable in E. set_solver.
    + unfold ammo_collectable. rewrite Hz, Hi, Hr, Hc.
      apply (collectable_boxes_done _ _ (Game.collected g)).
      unfold collectable_ids, ammo_collectable. set_solver.
    + unfold clue_collectable. rewrite Hz, Hi, Hr, Hc.
      destruct (clue _) as [r |] eqn:Hclue; [| reflexivity].
      destruct (colliderect _ r) eqn:Hover; [| reflexivity]. cbn.
      apply bool_decide_eq_false. intros Hnot. apply Hnot.
      unfold collectable_ids, clue_collectable. rewrite Hclue, Hover. cbn.
      destruct (bool_decide (Game.clue_id (Game.zone g) ∉ Game.collected g)) eqn:E; [set_solver |].
      apply bool_decide_eq_false, dec_stable in E. set_solver.
    + intros k. rewrite Hz, Hi, Hr, Hk. apply keys_after_settled.
    + rewrite Hz, Hr, Hn. apply npc_follow_loop_settled.
Qed.

Lemma interact_one_shot_witness :
  Player.ammo (Game.player (Game.interact gun_game)) = 20 /\
  Game.interact (Game.interact gun_game) = Game.interact gun_game.
Proof.
  destruct (interact_one_shot gun_game) as ((_ & Hammo & _) & _ & _ & _ & _ & Hagain).
  split; [rewrite Hammo; vm_compute; reflexivity | exact Hagain].
Defined.

(** ** The counters of a round

    The extraction check and [try_shoot] compare the counters with [>=] and
    [<=]; the states a round reaches keep the clue counter within 0..3, the
    rescued counter within 0..2 and the ammo counter at or above zero. *)

Create Rewrite HintDb ledger.

Lemma ledger_play (c : AudioCall) (g : Game.t) : ledger (Game.play c g) = ledger g.
Proof. reflexivity. Qed.

Lemma ledger_set_message (m : string) (g : Game.t) : ledger (Game.set_message m g) = ledger g.
Proof. reflexivity. Qed.

Lemma ledger_set_message_time (q : Q) (g : Game.t) : ledger (Game.set_message_time q g) = ledger g.
Proof. reflexivity. Qed.

Lemma ledger_set_water_anim (q : Q) (g : Game.t) : ledger (Game.set_water_anim q g) = ledger g.
Proof. reflexivity. Qed.

Lemma ledger_set_pathway_cooldown (q : Q) (g : Game.t) :
  ledger (Game.set_pathway_cooldown q g) = ledger g.
Proof. reflexivity. Qed.

Lemma ledger_set_pathway_hint_cooldown (q : Q) (g : Game.t) :
  ledger (Game.set_pathway_hint_cooldown q g) = ledger g.
Proof. reflexivity. Qed.

Lemma ledger_set_damage_flash_timer (q : Q) (g : Game.t) :
  ledger (Game.set_damage_flash_timer q g) = ledger g.
Proof. reflexivity. Qed.

Lemma ledger_set_player_rect (r : Rect) (g : Game.t) : ledger (Game.set_player_rect r g) = ledger g.
Proof. reflexivity. Qed.

Lemma ledger_set_player_char (c : Character.t) (g : Game.t) :
  ledger (Game.set_player (Player.set_char c (Game.player g)) g) = ledger g.
Proof. reflexivity. Qed.

Lemma ledger_handle_input `{cfg : Settings} (k : Pressed) (dt a b : Q) (g : Game.t) :
  ledger (Game.set_player (Player.handle_input k dt a b (Game.player g)) g) = ledger g.
Proof. reflexivity. Qed.

Lemma ledger_set_guard_store (m : gmap addr Guard.t) (g : Game.t) :
  ledger (Game.set_guard_store m g) = ledger g.
Proof. reflexivity. Qed.

Lemma ledger_set_bullets (bs : list Bullet.t) (g : Game.t) : ledger (Game.set_bullets bs g) = ledger g.
Proof. reflexivity. Qed.

Lemma ledger_set_zone_guards (z : Zone) (l : list addr) (g : Game.t) :
  ledger (Game.set_zone_guards z l g) = ledger g.
Proof. reflexivity. Qed.

Lemma ledger_set_zone (z : Zone) (g : Game.t) : ledger (Game.set_zone z g) = ledger g.
Proof. reflexivity. Qed.

Lemma ledger_hint (text : string) (g : Game.t) : ledger (Game.hint text g) = ledger g.
Proof. unfold Game.hint. destruct (Qleb _ 0); reflexivity. Qed.

Lemma ledger_take_damage (amount : Z) (g : Game.t) : ledger (Game.take_damage amount g) = ledger g.
Proof. unfold Game.take_damage. cbv zeta. destruct (_ <=? 0); reflexivity. Qed.

Lemma extraction_check_counters (e : option Rect) (g : Game.t) :
  counters_tied g -> counters_tied (Game.extraction_check e g).
Proof.
  unfold Game.extraction_check. destruct e as [r |]; [| auto].
  destruct (colliderect _ r); [| auto]. destruct (_ && _); auto.
Qed.

Lemma ledger_validate_player_position `{cfg : Settings} (g : Game.t) :
  ledger (Game.validate_player_position g) = ledger g.
Proof.
  unfold Game.validate_player_position.
  match goal with |- context [if Rect_left (Game.player_rect ?x) <? 40 then _ else ?x] =>
    set (g0 := x) end.
  assert (H0 : ledger g0 = ledger g).
  { subst g0. destruct (decide (Game.zone g = Harbor)); [| reflexivity].
    repeat match goal with
           | |- context [if ?c then _ else _] => destruct c
           end; reflexivity. }
  clearbody g0. rewrite <- H0.
  repeat match goal with
         | |- context [if ?c then _ else _] => destruct c
         end; reflexivity.
Qed.

#[local] Hint Rewrite ledger_play ledger_set_message ledger_set_message_time ledger_set_water_anim
  ledger_set_pathway_cooldown ledger_set_pathway_hint_cooldown ledger_set_damage_flash_timer
  ledger_set_player_rect ledger_set_player_char ledger_set_guard_store ledger_set_bullets
  ledger_set_zone_guards ledger_set_zone ledger_hint ledger_take_damage : ledger.
#[local] Hint Rewrite @ledger_handle_input @ledger_validate_player_position : ledger.

Lemma ledger_guard_loop `{cfg : Settings} (dt : Q) (obstacles : list Rect) (snapshot : list addr)
    (any_alert : bool) (g : Game.t) :
  ledger (final_state (Game.guard_loop dt obstacles snapshot any_alert g)) = ledger g.
Proof.
  revert any_alert g. induction snapshot as [| a rest IH]; intros any_alert g; cbn [Game.guard_loop].
  - reflexivity.
  - destruct (Game.guard_store g !! a) as [guard |]; [| reflexivity].
    destruct (Guard.update dt (Game.player g) obstacles guard) as [guard' shot | guard' e];
      [| reflexivity].
    destruct (Guard.health guard' <=? 0).
    + destruct shot as [b |]; cbn.
      * destruct (Game.remove_first a _); [rewrite IH |]; reflexivity.
      * destruct (Game.remove_first a _); [rewrite IH |]; reflexivity.
    + rewrite IH. destruct shot; reflexivity.
Qed.

Lemma NPC_update_flags `{cfg : Settings} (player : Player.t) (obstacles : list Rect) (n : NPC.t) :
  NPC.rescued (NPC.update player obstacles n) = NPC.rescued n /\
  NPC.following (NPC.update player obstacles n) = NPC.following n /\
  NPC.zone (NPC.update player obstacles n) = NPC.zone n.
Proof.
  unfold NPC.update. destruct (NPC.rescued n) eqn:E; [auto |].
  destruct (NPC.following n) eqn:F; [| auto]. cbn. auto.
Qed.

(** The loop over the survivors raises the rescued counter by one for each
    survivor it marks as rescued. *)
Lemma npc_loop_counts `{cfg : Settings} (obstacles : list Rect) (ns : list NPC.t) (g : Game.t) :
  let ns' := fst (Game.npc_loop obstacles ns g) in
  let g' := snd (Game.npc_loop obstacles ns g) in
  tally g' = tally g /\
  Game.npcs g' = Game.npcs g /\
  length ns' = length ns /\
  Player.rescued_npcs (Game.player g') - Z.of_nat (length (rescued_survivors ns')) =
  Player.rescued_npcs (Game.player g) - Z.of_nat (length (rescued_survivors ns)).
Proof.
  cbv zeta. revert g. induction ns as [| n rest IH]; intros g; cbn [Game.npc_loop].
  - repeat split.
  - destruct (NPC_update_flags (Game.player g) obstacles n) as (Hr & _ & _).
    set (n1 := NPC.update (Game.player g) obstacles n) in *.
    destruct (bool_decide (NPC.zone n = Game.zone g)).
    + destruct (NPC.following n1 && bool_decide (Game.zone g = Harbor)
                && (1010 <? centerx (NPC.rect n1)) && negb (NPC.rescued n1)) eqn:E.
      * set (g1 := Game.play _ _).
        specialize (IH g1). destruct (Game.npc_loop obstacles rest g1) as [rest' g2].
        cbn [fst snd] in *. destruct IH as (Ht & Hn & Hl & Hc).
        apply andb_true_iff in E. destruct E as [_ E]. apply negb_true_iff in E.
        rewrite Hr in E.
        split; [rewrite Ht; reflexivity |]. split; [rewrite Hn; reflexivity |].
        split; [cbn [length]; rewrite Hl; reflexivity |].
        unfold rescued_survivors in *. cbn [List.filter NPC.rescued NPC.set_rescued length].
        rewrite E. subst g1. cbn in Hc. cbn [length]. lia.
      * specialize (IH g). destruct (Game.npc_loop obstacles rest g) as [rest' g2].
        cbn [fst snd] in *. destruct IH as (Ht & Hn & Hl & Hc).
        split; [exact Ht |]. split; [exact Hn |]. split; [cbn [length]; rewrite Hl; reflexivity |].
        unfold rescued_survivors in *. cbn [List.filter]. rewrite Hr.
        destruct (NPC.rescued n); cbn [length]; lia.
    + specialize (IH g). destruct (Game.npc_loop obstacles rest g) as [rest' g2].
      cbn [fst snd] in *. destruct IH as (Ht & Hn & Hl & Hc).
      split; [exact Ht |]. split; [exact Hn |]. split; [cbn [length]; rewrite Hl; reflexivity |].
      unfold rescued_survivors in *. cbn [List.filter].
      destruct (NPC.rescued n); cbn [length]; lia.
Qed.

Lemma ledger_bullet_loop `{cfg : Settings} (obstacles : list Rect) (bs : list Bullet.t) (g : Game.t) :
  ledger (snd (Game.bullet_loop obstacles bs g)) = ledger g.
Proof.
  revert g. induction bs as [| b rest IH]; intros g; cbn [Game.bullet_loop]; [reflexivity |].
  set (b1 := Bullet.update obstacles b).
  destruct (negb (Bullet.alive b1)).
  - specialize (IH g). destruct (Game.bullet_loop obstacles rest g). exact IH.
  - destruct (_ && collidepoint _ _).
    + specialize (IH (Game.take_damage (guard_damage (Game.profile g)) g)).
      destruct (Game.bullet_loop obstacles rest _). cbn [snd] in *.
      rewrite IH. apply ledger_take_damage.
    + destruct (String.eqb _ "player").
      * destruct (Game.find_hit _ _ _) as [[a guard] |].
        -- match goal with |- context [Game.bullet_loop obstacles rest ?G] => specialize (IH G) end.
           destruct (Game.bullet_loop obstacles rest _). cbn [snd] in *. rewrite IH. reflexivity.
        -- specialize (IH g). destruct (Game.bullet_loop obstacles rest g). exact IH.
      * specialize (IH g). destruct (Game.bullet_loop obstacles rest g). exact IH.
Qed.

Lemma transfer_step_flags (new_zone : Zone) (g : Game.t) (ns : list NPC.t) (acc : list NPC.t * Z) :
  map NPC.rescued (fst (fold_left (Game.transfer_step new_zone g) ns acc)) =
  map NPC.rescued (fst acc) ++ map NPC.rescued ns.
Proof.
  revert acc. induction ns as [| n rest IH]; intros [done k]; cbn [fold_left].
  - cbn. rewrite app_nil_r. reflexivity.
  - rewrite IH. unfold Game.transfer_step.
    destruct (_ && bool_decide (NPC.zone n = Game.zone g)); cbn [fst];
      rewrite map_app, <- app_assoc; reflexivity.
Qed.

Lemma ledger_transfer_followers (z : Zone) (g : Game.t) :
  ledger (Game.transfer_followers z g) = ledger g.
Proof.
  unfold Game.transfer_followers.
  pose proof (transfer_step_flags z g (Game.npcs g) ([], 0)) as H.
  destruct (fold_left _ _ _) as [ns k]. cbn [fst] in H. cbn in H.
  unfold ledger, rescue_tally. destruct (0 <? k); cbn; rewrite H; reflexivity.
Qed.

Lemma ledger_enter (gate : ZoneGate) (g : Game.t) : ledger (Game.enter gate g) = ledger g.
Proof.
  unfold Game.enter. cbv zeta.
  repeat match goal with
         | |- context [if ?c then _ else _] => destruct c
         end; autorewrite with ledger; apply ledger_transfer_followers.
Qed.

Lemma ledger_gate_loop (gates : list ZoneGate) (g : Game.t) :
  ledger (final_state (Game.gate_loop gates g)) = ledger g.
Proof.
  revert g. induction gates as [| gate rest IH]; intros g; cbn [Game.gate_loop]; [reflexivity |].
  destruct (Qltb 0 _); [reflexivity |].
  destruct (colliderect _ _); [| apply IH].
  destruct (Game.key_missing gate g); [rewrite IH; apply ledger_hint |].
  destruct (Game.index _ _); [| reflexivity].
  destruct (Game.index _ _); [| reflexivity].
  destruct (_ && _); [rewrite IH; apply ledger_hint | apply ledger_enter].
Qed.


Lemma ledger_begin_frame (dt : Q) (g : Game.t) : ledger (Game.begin_frame dt g) = ledger g.
Proof. reflexivity. Qed.

Lemma ledger_control `{cfg : Settings} (k : Pressed) (dt : Q) (obstacles : list Rect) (g : Game.t) :
  ledger (Game.control k dt obstacles g) = ledger g.
Proof. reflexivity. Qed.

Lemma ledger_bullet_pass `{cfg : Settings} (obstacles : list Rect) (g : Game.t) :
  ledger (Game.bullet_pass obstacles g) = ledger g.
Proof.
  unfold Game.bullet_pass. pose proof (ledger_bullet_loop obstacles (Game.bullets g) g) as H.
  destruct (Game.bullet_loop obstacles (Game.bullets g) g) as [bs g']. exact H.
Qed.

Lemma npc_pass_victory `{cfg : Settings} (obstacles : list Rect) (g : Game.t) :
  Game.victory (Game.npc_pass obstacles g) = Game.victory g.
Proof.
  unfold Game.npc_pass.
  assert (H : forall ns g0, Game.victory (snd (Game.npc_loop obstacles ns g0)) = Game.victory g0).
  { induction ns as [| n rest IH]; intros g0; cbn [Game.npc_loop]; [reflexivity |].
    destruct (bool_decide _).
    - destruct (_ && negb _).
      + match goal with |- context [Game.npc_loop obstacles rest ?G] => specialize (IH G) end.
        destruct (Game.npc_loop obstacles rest _). cbn [snd] in *. rewrite IH. reflexivity.
      + specialize (IH g0). destruct (Game.npc_loop obstacles rest g0). exact IH.
    - specialize (IH g0). destruct (Game.npc_loop obstacles rest g0). exact IH. }
  specialize (H (Game.npcs g) g). destruct (Game.npc_loop obstacles (Game.npcs g) g). exact H.
Qed.

(** The loop over the survivors keeps the counters tied. *)
Lemma npc_pass_counters `{cfg : Settings} (obstacles : list Rect) (g : Game.t) :
  counters_tied g -> counters_tied (Game.npc_pass obstacles g).
Proof.
  intros (Hammo & Hclues & Hharbor & Hitems & Hresc & Hlen).
  unfold Game.npc_pass. pose proof (npc_loop_counts obstacles (Game.npcs g) g) as H.
  cbv zeta in H. destruct (Game.npc_loop obstacles (Game.npcs g) g) as [ns g1].
  cbn [fst snd] in H. destruct H as (Ht & _ & Hl & Hc).
  unfold tally in Ht. injection Ht as Ha Hcl Hco Hit.
  unfold counters_tied.
  change (Game.player (Game.set_npcs ns g1)) with (Game.player g1).
  change (Game.collected (Game.set_npcs ns g1)) with (Game.collected g1).
  change (Game.items (Game.set_npcs ns g1)) with (Game.items g1).
  change (Game.npcs (Game.set_npcs ns g1)) with ns.
  rewrite Ha, Hcl, Hco, Hit, Hl. repeat split; try assumption. lia.
Qed.


(** Equal ledgers: the counters are tied in both states or in neither. *)
Lemma counters_tied_ledger (g g' : Game.t) :
  ledger g' = ledger g -> counters_tied g -> counters_tied g'.
Proof.
  unfold ledger, tally, rescue_tally, counters_tied, rescued_survivors.
  intros [= Ha Hcl Hco Hit Hr Hflags _] (Hammo & Hclues & Hharbor & Hitems & Hresc & Hl).
  assert (Hlen : length (Game.npcs g') = length (Game.npcs g)).
  { rewrite <- (length_map NPC.rescued (Game.npcs g')), Hflags. apply length_map. }
  rewrite Ha, Hcl, Hco, Hit, Hr, Hlen. repeat split; try assumption.
  rewrite Hresc. f_equal.
  assert (Hcount : forall ns, length (List.filter NPC.rescued ns)
                              = length (List.filter id (map NPC.rescued ns))).
  { induction ns as [| n ns IH]; cbn; [reflexivity |].
    unfold id at 1. destruct (NPC.rescued n); cbn; rewrite IH; reflexivity. }
  rewrite !Hcount, Hflags. reflexivity.
Qed.

(** The state [update] hands to the extraction check: its counters are tied
    when those of the frame's first state are, its victory flag is the one the
    frame started with, and the frame ends with the check followed by the
    message timer. *)
Lemma update_at_extraction `{cfg : Settings} (k : Pressed) (dt : Q) (g g' : Game.t) :
  counters_tied g ->
  Game.update k dt g = Ok g' tt ->
  exists gm,
    counters_tied gm /\ Game.victory gm = Game.victory g /\
    g' = Game.set_message_time
           (py_max 0 (Game.message_time (Game.extraction_check (zone_extraction (Game.zone g)) gm) - dt))
           (Game.extraction_check (zone_extraction (Game.zone g)) gm).
Proof.
  intros Hinv. unfold Game.update, build_zone_data. cbv zeta. cbn beta iota.
  set (obstacles := Game.frame_obstacles (Game.zone g)).
  set (G1 := Game.control k dt obstacles _).
  assert (L1 : ledger G1 = ledger g).
  { subst G1. rewrite ledger_control, ledger_validate_player_position. apply ledger_begin_frame. }
  pose proof (ledger_guard_loop dt obstacles (Game.guards G1 (Game.zone G1)) false G1) as L2.
  fold (Game.guard_pass dt obstacles G1) in L2.
  destruct (Game.guard_pass dt obstacles G1) as [G2 any_alert | G2 e];
    cbn [final_state] in L2; [| intros [=]].
  unfold Game.settle. cbv zeta.
  set (G3 := Game.play _ G2).
  assert (L3 : ledger G3 = ledger g).
  { subst G3. rewrite ledger_play, L2. exact L1. }
  pose proof (npc_pass_counters obstacles G3 (counters_tied_ledger g G3 L3 Hinv)) as H4.
  pose proof (npc_pass_victory obstacles G3) as V4.
  set (G4 := Game.npc_pass obstacles G3) in *.
  set (G5 := Game.bullet_pass obstacles G4).
  pose proof (ledger_gate_loop (zone_gates (Game.zone g)) G5) as L6.
  destruct (Game.gate_loop (zone_gates (Game.zone g)) G5) as [G6 [] | G6 e];
    cbn [final_state] in L6; [| intros [=]].
  intros [= <-].
  assert (L64 : ledger G6 = ledger G4).
  { rewrite L6. subst G5. apply ledger_bullet_pass. }
  exists G6. split; [exact (counters_tied_ledger G4 G6 L64 H4) |]. split; [| reflexivity].
  transitivity (Game.victory G4); [exact (f_equal snd L64) |].
  rewrite V4. exact (f_equal snd L3).
Qed.

Lemma update_counters `{cfg : Settings} (k : Pressed) (dt : Q) (g g' : Game.t) :
  counters_tied g -> Game.update k dt g = Ok g' tt -> counters_tied g'.
Proof.
  intros Hinv Hupd.
  destruct (update_at_extraction k dt g g' Hinv Hupd) as (gm & Hm & _ & ->).
  apply (counters_tied_ledger (Game.extraction_check (zone_extraction (Game.zone g)) gm));
    [reflexivity |].
  apply extraction_check_counters, Hm.
Qed.

Lemma npc_follow_loop_flags (p : Rect) (z : Zone) (ns : list NPC.t) :
  map NPC.rescued (fst (Game.npc_follow_loop p z ns)) = map NPC.rescued ns.
Proof.
  induction ns as [| n rest IH]; cbn; [reflexivity |].
  destruct (Game.npc_follow_loop p z rest) as [rest' any]. cbn [fst] in IH.
  destruct (_ && colliderect p _); cbn; rewrite IH; reflexivity.
Qed.

(** Whether the clue of zone [z'] is in the collected set after one call of
    [interact]. *)
Lemma clue_found_after (g : Game.t) (z' : Zone) :
  bool_decide (Game.clue_id z' ∈ Game.collected g ∪ collectable_ids g) =
  bool_decide (Game.clue_id z' ∈ Game.collected g)
  || (clue_collectable g && bool_decide (z' = Game.zone g)).
Proof.
  apply eq_true_iff_eq. rewrite orb_true_iff, andb_true_iff, !bool_decide_eq_true.
  unfold collectable_ids. rewrite !elem_of_union.
  assert (Hgun : Game.clue_id z' ∉ (if gun_collectable g then {["gun"]} else ∅ : gset string)).
  { destruct (gun_collectable g); [| set_solver]. rewrite elem_of_singleton. apply clue_id_not_gun. }
  assert (Hammo : Game.clue_id z' ∉ (list_to_set (ammo_collectable g) : gset string)).
  { rewrite elem_of_list_to_set. intros Hin. apply collectable_boxes_ids in Hin.
    destruct Hin as (j & _ & Hj). exact (clue_id_not_ammo _ _ _ Hj). }
  destruct (clue_collectable g).
  - rewrite elem_of_singleton. split.
    + intros [Hc | [[Hg | Ha] | Hz]]; try tauto. right. split; [reflexivity |].
      apply clue_id_inj, Hz.
    + intros [Hc | [_ ->]]; [left; exact Hc | right; right; reflexivity].
  - split.
    + intros [Hc | [[Hg | Ha] | Hz]]; try tauto. apply elem_of_empty in Hz. destruct Hz.
    + intros [Hc | [Hf _]]; [left; exact Hc | discriminate].
Qed.

Lemma interact_counters (g : Game.t) : counters_tied g -> counters_tied (Game.interact g).
Proof.
  intros (Hammo & Hclues & Hharbor & Hitems & Hresc & Hlen).
  pose proof (interact_view g) as Hv.
  pose proof (f_equal v_items Hv) as Hi. pose proof (f_equal v_collected Hv) as Hc.
  pose proof (f_equal v_ammo Hv) as Ha. pose proof (f_equal v_clues Hv) as Hcl.
  pose proof (f_equal v_rescued Hv) as Hr. pose proof (f_equal v_npcs Hv) as Hn.
  cbn in Hi, Hc, Ha, Hcl, Hr, Hn.
  assert (Hzone : clue_collectable g = true -> Game.zone g <> Harbor /\
                  Game.clue_id (Game.zone g) ∉ Game.collected g).
  { unfold clue_collectable. intros Ht. split.
    - intros Hz. rewrite Hz, Hitems in Ht. discriminate Ht.
    - destruct (clue (Game.items g (Game.zone g))); [| discriminate Ht].
      apply andb_true_iff in Ht. destruct Ht as [_ Ht].
      apply bool_decide_eq_true in Ht. exact Ht. }
  unfold counters_tied. rewrite Hi, Hc, Ha, Hcl, Hr, Hn.
  split; [unfold b2z; destruct (gun_collectable g); lia |].
  split.
  { unfold clues_found in *. cbn [List.filter] in *. rewrite !clue_found_after.
    destruct (clue_collectable g) eqn:Et.
    - destruct (Hzone eq_refl) as [Hnh Hnot].
      pose proof (bool_decide_eq_false_2 _ Hnot) as Hb.
      revert Hnh Hb. clear Hzone Hnot. destruct (Game.zone g); intros Hnh Hb; try congruence;
        repeat match goal with
               | |- context [@bool_decide (?a = ?b) ?d] =>
                   let v := eval vm_compute in (@bool_decide (a = b) d) in
                   change (@bool_decide (a = b) d) with v
               end;
        rewrite ?orb_false_r, ?orb_true_r, ?andb_true_l, ?andb_false_r; cbn [andb];
        rewrite ?orb_false_r, ?orb_true_r;
        rewrite Hb in Hclues; rewrite Hclues; unfold b2z;
        repeat match goal with |- context [bool_decide ?P] => destruct (bool_decide P) end;
        cbn [length]; lia.
    - cbn [andb]. rewrite !orb_false_r, Hclues. unfold b2z. lia. }
  split.
  { intros Hin. pose proof (bool_decide_eq_true_2 _ Hin) as Hb. clear Hin. rename Hb into Hin.
    rewrite clue_found_after in Hin.
    apply orb_true_iff in Hin. destruct Hin as [Hin | Hin].
    - apply bool_decide_eq_true in Hin. exact (Hharbor Hin).
    - apply andb_true_iff in Hin. destruct Hin as [Ht Hz].
      apply bool_decide_eq_true in Hz. destruct (Hzone Ht) as [Hnh _]. congruence. }
  split; [exact Hitems |].
  split.
  { rewrite Hresc. f_equal. unfold rescued_survivors.
    assert (Hcount : forall ns, length (List.filter NPC.rescued ns)
                                = length (List.filter id (map NPC.rescued ns))).
    { induction ns as [| n ns IH]; cbn; [reflexivity |].
      unfold id at 1. destruct (NPC.rescued n); cbn; rewrite IH; reflexivity. }
    rewrite !Hcount, npc_follow_loop_flags. reflexivity. }
  rewrite <- (length_map NPC.rescued), npc_follow_loop_flags, length_map. exact Hlen.
Qed.

Lemma click_counters `{cfg : Settings} (mouse_pos : Z * Z) (g : Game.t) :
  counters_tied g -> counters_tied (Game.click mouse_pos g).
Proof.
  intros Hinv. unfold Game.click. destruct (Game.state g); [exact Hinv |].
  destruct (Game.boat_escape_active g); [exact Hinv |].
  unfold Player.try_shoot.
  destruct (negb (Player.has_gun (Game.player g))); [exact Hinv |].
  destruct (Player.ammo (Game.player g) <=? 0) eqn:E; [exact Hinv |].
  destruct (Qltb 0 (Player.fire_cooldown (Game.player g))); [exact Hinv |].
  apply Z.leb_gt in E. destruct Hinv as (Hammo & Hrest).
  cbn [orb]. unfold counters_tied. cbn. split; [lia | exact Hrest].
Qed.

Lemma reset_round_counters `{cfg : Settings} (prof : DifficultyProfile) (built : Zone -> list addr)
    (store : gmap addr Guard.t) (gun_position : Z * Z) (ammo_positions : Zone -> list (Z * Z))
    (clue_positions : Zone -> Z * Z) (key_positions : Key -> Z * Z) (g : Game.t) :
  counters_tied (Game.reset_round prof built store
                   (Game.randomized_items gun_position ammo_positions clue_positions key_positions) g).
Proof.
  unfold counters_tied, Game.reset_round, clues_found, rescued_survivors. cbn.
  repeat split; try lia. set_solver.
Qed.

(** Every state a round reaches has its counters tied to the collected set
    and to the survivors. *)
Lemma reachable_counters_tied `{cfg : Settings} (g : Game.t) : reachable g -> counters_tied g.
Proof.
  induction 1 as [prof built store gp ap cp kp g | k dt g g' _ IH Hframe | g _ IH _ | pos g _ IH].
  - apply reset_round_counters.
  - unfold Game.frame in Hframe. destruct (Game.state g).
    + injection Hframe as <-. exact IH.
    + destruct (negb (Game.game_over g) && negb (Game.victory g)).
      * exact (update_counters k dt g g' IH Hframe).
      * injection Hframe as <-. exact IH.
  - apply interact_counters, IH.
  - apply click_counters, IH.
Qed.

(** In every state a round reaches, the ammo counter is not negative, the
    clue counter is within 0..3 and the rescued counter within 0..2. *)
Lemma reachable_counters_in_range `{cfg : Settings} (g : Game.t) :
  reachable g ->
  0 <= Player.ammo (Game.player g) /\
  0 <= Player.clues (Game.player g) <= 3 /\
  0 <= Player.rescued_npcs (Game.player g) <= 2.
Proof.
  intros Hreach. destruct (reachable_counters_tied g Hreach) as (Hammo & Hclues & _ & _ & Hresc & Hlen).
  split; [exact Hammo |]. split.
  - rewrite Hclues. unfold clues_found. cbn [List.filter].
    repeat match goal with |- context [bool_decide ?P] => destruct (bool_decide P) end;
      cbn [length]; lia.
  - rewrite Hresc. unfold rescued_survivors.
    pose proof (List.filter_length_le NPC.rescued (Game.npcs g)). lia.
Qed.

(** In a frame of a round, the extraction check runs on a state without
    victory whose clue and rescued counters are in range: the state the
    extraction property is stated for. *)
Lemma frame_extraction_state `{cfg : Settings} (k : Pressed) (dt : Q) (g g' : Game.t) :
  reachable g ->
  Game.state g = Playing -> Game.game_over g = false -> Game.victory g = false ->
  Game.frame k dt g = Ok g' tt ->
  exists gm,
    Game.victory gm = false /\
    Player.clues (Game.player gm) <= 3 /\
    Player.rescued_npcs (Game.player gm) <= 2 /\
    g' = Game.set_message_time
           (py_max 0 (Game.message_time (Game.extraction_check (zone_extraction (Game.zone g)) gm) - dt))
           (Game.extraction_check (zone_extraction (Game.zone g)) gm).
Proof.
  intros Hreach Hstate Hover Hvic Hframe. unfold Game.frame in Hframe.
  rewrite Hstate, Hover, Hvic in Hframe.
  assert (Hb : negb false && negb false = true) by reflexivity.
  rewrite Hb in Hframe. cbv beta iota in Hframe.
  destruct (update_at_extraction k dt g g' (reachable_counters_tied g Hreach) Hframe)
    as (gm & (_ & Hclues & _ & _ & Hresc & Hlen) & Hv & Heq).
  exists gm. split; [congruence |]. split; [| split; [| exact Heq]].
  - rewrite Hclues. unfold clues_found. cbn [List.filter].
    repeat match goal with |- context [bool_decide ?P] => destruct (bool_decide P) end;
      cbn [length]; lia.
  - rewrite Hresc. unfold rescued_survivors.
    pose proof (List.filter_length_le NPC.rescued (Game.npcs gm)). lia.
Qed.

(** ** Lengths

    The comparisons of a length with a constant are made on squares.  For
    every distance [d], not negative, whose square is the squared length, they
    are the comparisons of [d] itself. *)

Lemma length_le_distance (v : Vec) (r d : Q) :
  (0 <= d)%Q -> (d * d == length_squared v)%Q ->
  (length_le v r = true <-> (d <= r)%Q).
Proof.
  intros Hd Hsq. unfold length_le. rewrite andb_true_iff, !Qleb_le, <- Hsq. split.
  - intros [Hr Hle]. destruct (Qlt_le_dec r d) as [Hlt | Hge]; [| exact Hge].
    exfalso. nra.
  - intros Hle. split; [lra | nra].
Qed.

Lemma length_lt_distance (v : Vec) (r d : Q) :
  (0 <= d)%Q -> (d * d == length_squared v)%Q ->
  (length_lt v r = true <-> (d < r)%Q).
Proof.
  intros Hd Hsq. unfold length_lt. rewrite andb_true_iff, !Qltb_lt, <- Hsq. split.
  - intros [Hr Hlt]. destruct (Qlt_le_dec d r) as [H | H]; [exact H |].
    exfalso. nra.
  - intros Hlt. split; [lra | nra].
Qed.

Lemma length_gt_distance (v : Vec) (r d : Q) :
  (0 <= d)%Q -> (d * d == length_squared v)%Q ->
  (length_gt v r = true <-> (r < d)%Q).
Proof.
  intros Hd Hsq. unfold length_gt. rewrite negb_true_iff, <- not_true_iff_false.
  rewrite (length_le_distance v r d Hd Hsq). split; [apply Qnot_le_lt | apply Qlt_not_le].
Qed.

(** ** Bullets *)

(** X1: a bullet always advances by its direction times [BULLET_SPEED]; it
    is alive after [update] exactly when it was alive before, the new
    position lies on the screen (borders included) and its hitbox collides
    with no obstacle.  In particular a spent bullet never comes back. *)
Theorem Bullet_update_alive `{cfg : Settings} (obstacles : list Rect) (b : Bullet.t) :
  let b' := Bullet.update obstacles b in
  Bullet.pos b' = bullet_target b /\
  Bullet.dir b' = Bullet.dir b /\ Bullet.owner b' = Bullet.owner b /\
  Bullet.radius b' = Bullet.radius b /\
  (Bullet.alive b' = true <->
   Bullet.alive b = true /\
   (0 <= vx (bullet_target b) <= inject_Z WIDTH)%Q /\
   (0 <= vy (bullet_target b) <= inject_Z HEIGHT)%Q /\
   forall wall, In wall obstacles ->
     colliderect wall (bullet_hitbox (bullet_target b) (Bullet.radius b)) = false).
Proof.
  cbv zeta. unfold Bullet.update, bullet_target, bullet_hitbox.
  set (p := Vec_add _ _).
  assert (Hdead : forall P : Prop, ~ P -> (false = true <-> P))
    by (intros P HP; split; [discriminate|intros HP'; destruct (HP HP')]).
  destruct (Qltb (vx p) 0) eqn:H1; cbn [orb].
  { cbn [Bullet.pos Bullet.dir Bullet.owner Bullet.radius Bullet.alive Bullet.set_alive].
    do 4 (split; [reflexivity|]). apply Hdead.
    intros (_ & [Hx _] & _). apply Qltb_lt in H1. subst p. cbn in *. lra. }
  destruct (Qltb (inject_Z WIDTH) (vx p)) eqn:H2; cbn [orb].
  { cbn [Bullet.pos Bullet.dir Bullet.owner Bullet.radius Bullet.alive Bullet.set_alive].
    do 4 (split; [reflexivity|]). apply Hdead.
    intros (_ & [_ Hx] & _). apply Qltb_lt in H2. subst p. cbn in *. lra. }
  destruct (Qltb (vy p) 0) eqn:H3; cbn [orb].
  { cbn [Bullet.pos Bullet.dir Bullet.owner Bullet.radius Bullet.alive Bullet.set_alive].
    do 4 (split; [reflexivity|]). apply Hdead.
    intros (_ & _ & [Hy _] & _). apply Qltb_lt in H3. subst p. cbn in *. lra. }
  destruct (Qltb (inject_Z HEIGHT) (vy p)) eqn:H4; cbn [orb].
  { cbn [Bullet.pos Bullet.dir Bullet.owner Bullet.radius Bullet.alive Bullet.set_alive].
    do 4 (split; [reflexivity|]). apply Hdead.
    intros (_ & _ & [_ Hy] & _). apply Qltb_lt in H4. subst p. cbn in *. lra. }
  apply Qltb_ge in H1, H2, H3, H4.
  cbn [Bullet.radius Bullet.pos].
  destruct (existsb _ obstacles) eqn:Hex.
  - cbn [Bullet.pos Bullet.dir Bullet.owner Bullet.radius Bullet.alive Bullet.set_alive].
    do 4 (split; [reflexivity|]). apply Hdead.
    intros (_ & _ & _ & Hfree).
    apply existsb_exists in Hex. destruct Hex as (w & Hin & Hw).
    rewrite (Hfree w Hin) in Hw. discriminate.
  - cbn [Bullet.pos Bullet.dir Bullet.owner Bullet.radius Bullet.alive Bullet.set_alive].
    do 4 (split; [reflexivity|]).
    split; [|tauto]. intros Halive.
    split; [exact Halive|]. split; [subst p; cbn in *; lra|]. split; [subst p; cbn in *; lra|].
    intros wall Hin.
    destruct (colliderect wall _) eqn:Hc; [|reflexivity].
    assert (existsb (fun wall => colliderect wall
              (Rect_of_floats (vx p - inject_Z (Bullet.radius b))%Q
                 (vy p - inject_Z (Bullet.radius b))%Q
                 (Bullet.radius b * 2) (Bullet.radius b * 2))) obstacles = true) as Ht.
    { apply existsb_exists. exists wall. split; assumption. }
    rewrite Ht in Hex. discriminate.
Qed.

(** ** The route of a guard *)


(** A guard whose patrol index is in range: [update] returns, and neither
    the route nor the health changes. *)
Lemma Guard_update_in_route `{cfg : Settings} (dt : Q) (player : Player.t)
    (obstacles : list Rect) (g : Guard.t) :
  route_in_range g ->
  exists g' shot,
    Guard.update dt player obstacles g = Ok g' shot /\
    Guard.patrol_points g' = Guard.patrol_points g /\
    route_in_range g' /\
    Guard.health g' = Guard.health g.
Proof.
  unfold route_in_range. intros Hlt.
  unfold Guard.update.
  destruct (Guard.can_see player obstacles g) eqn:Hsee.
  - cbn [andb].
    match goal with |- context [if ?c then _ else _] => destruct c end;
      eexists _, _; (split; [reflexivity|]); cbn; repeat split; (reflexivity || exact Hlt).
  - unfold Guard.patrol. cbn [Guard.patrol_points Guard.current_patrol Guard.set_alerted].
    destruct (Guard.patrol_points g !! Guard.current_patrol g) as [target|] eqn:Hl;
      [|apply lookup_ge_None in Hl; lia].
    pose proof (Nat.mod_upper_bound (Guard.current_patrol g + 1)
                  (length (Guard.patrol_points g))) as Hmod.
    destruct (length_lt _ 10).
    + cbn [Guard.patrol_points Guard.current_patrol Guard.set_alerted].
      destruct (Guard.patrol_points g !! ((Guard.current_patrol g + 1) mod length (Guard.patrol_points g))%nat) as [t'|] eqn:Hl2;
        [|apply lookup_ge_None in Hl2; lia].
      cbn [andb]. eexists _, _. split; [reflexivity|]. cbn.
      split; [reflexivity|]. split; [lia|reflexivity].
    + cbn [andb]. eexists _, _. split; [reflexivity|]. cbn.
      split; [reflexivity|]. split; [exact Hlt|reflexivity].
Qed.



(** ** The guard pass, with the guards in order *)

Lemma remove_first_middle (a : addr) (pre rest : list addr) :
  ~ In a pre -> Game.remove_first a (pre ++ a :: rest) = Some (pre ++ rest).
Proof.
  induction pre as [|y pre IH]; intros Hnot; cbn.
  - destruct (decide (a = a)); [reflexivity|congruence].
  - destruct (decide (y = a)) as [->|Hne].
    + exfalso. apply Hnot. left. reflexivity.
    + rewrite IH; [reflexivity|]. intros Hin. apply Hnot. right. exact Hin.
Qed.

Lemma guard_alive_insert_other (store : gmap addr Guard.t) (a a' : addr) (guard : Guard.t) :
  a <> a' -> guard_alive (<[a := guard]> store) a' = guard_alive store a'.
Proof. intros Hne. unfold guard_alive. rewrite lookup_insert_ne by exact Hne. reflexivity. Qed.

Lemma guard_loop_live `{cfg : Settings} (dt : Q) (obstacles : list Rect) (rest : list addr) :
  forall (pre : list addr) (any_alert : bool) (g : Game.t),
  Game.guards g (Game.zone g) = pre ++ rest ->
  List.NoDup (pre ++ rest) ->
  (forall a, In a rest ->
     exists guard, Game.guard_store g !! a = Some guard /\ route_in_range guard) ->
  exists g' any_alert',
    Game.guard_loop dt obstacles rest any_alert g = Ok g' any_alert' /\
    Game.zone g' = Game.zone g /\
    Game.guards g' (Game.zone g) = pre ++ List.filter (guard_alive (Game.guard_store g)) rest /\
    (forall z, z <> Game.zone g -> Game.guards g' z = Game.guards g z) /\
    Guard.health <$> Game.guard_store g' = Guard.health <$> Game.guard_store g /\
    (forall a guard, Game.guard_store g !! a = Some guard -> route_in_range guard ->
       exists guard', Game.guard_store g' !! a = Some guard' /\ route_in_range guard').
Proof.
  induction rest as [|a rest IH]; intros pre any_alert g Hlive Hnd Hwf.
  - exists g, any_alert. cbn. rewrite Hlive. repeat split; eauto.
  - cbn [Game.guard_loop].
    destruct (Hwf a) as (guard & Hlook & Hroute); [left; reflexivity|].
    rewrite Hlook.
    destruct (Guard_update_in_route dt (Game.player g) obstacles guard Hroute)
      as (guard' & shot & Hupd & _ & Hroute' & Hhealth).
    rewrite Hupd.
    assert (Hnot_pre : ~ In a pre).
    { intros Hin. apply NoDup_remove_2 in Hnd. apply Hnd. apply in_or_app. left. exact Hin. }
    assert (Hnot_rest : ~ In a rest).
    { intros Hin. apply NoDup_remove_2 in Hnd. apply Hnd. apply in_or_app. right. exact Hin. }
    set (g1 := match shot with
               | Some b => Game.set_bullets (Game.bullets (Game.set_guard_store (<[a:=guard']> (Game.guard_store g)) g) ++ [b])
                             (Game.set_guard_store (<[a:=guard']> (Game.guard_store g)) g)
               | None => Game.set_guard_store (<[a:=guard']> (Game.guard_store g)) g
               end).
    assert (Hg1 : Game.zone g1 = Game.zone g /\ Game.guards g1 = Game.guards g /\
                  Game.guard_store g1 = <[a:=guard']> (Game.guard_store g)).
    { subst g1. destruct shot; repeat split; reflexivity. }
    destruct Hg1 as (Hz1 & Hgs1 & Hst1).
    assert (Hfmap : Guard.health <$> <[a:=guard']> (Game.guard_store g)
                    = Guard.health <$> Game.guard_store g).
    { rewrite fmap_insert. apply insert_id. rewrite lookup_fmap, Hlook. cbn. congruence. }
    assert (Hwf1 : forall a', In a' rest ->
              exists gd, <[a:=guard']> (Game.guard_store g) !! a' = Some gd /\ route_in_range gd).
    { intros a' Hin. rewrite lookup_insert_ne by (intros ->; exact (Hnot_rest Hin)).
      apply Hwf. right. exact Hin. }
    assert (Hkeep : forall a' gd, Game.guard_store g !! a' = Some gd -> route_in_range gd ->
              exists gd', <[a:=guard']> (Game.guard_store g) !! a' = Some gd' /\ route_in_range gd').
    { intros a' gd Hl Hr. destruct (decide (a = a')) as [<-|Hne].
      - exists guard'. rewrite lookup_insert_eq. split; [reflexivity|exact Hroute'].
      - exists gd. rewrite lookup_insert_ne by exact Hne. split; assumption. }
    assert (Hfilter : List.filter (guard_alive (<[a:=guard']> (Game.guard_store g))) rest
                      = List.filter (guard_alive (Game.guard_store g)) rest).
    { apply filter_ext_in. intros a' Hin. apply guard_alive_insert_other.
      intros ->. exact (Hnot_rest Hin). }
    assert (Halive : guard_alive (Game.guard_store g) a = (0 <? Guard.health guard'))
      by (unfold guard_alive; rewrite Hlook, Hhealth; reflexivity).
    destruct (Guard.health guard' <=? 0) eqn:Hdead.
    + rewrite Hgs1, Hz1, Hlive, (remove_first_middle a pre rest Hnot_pre).
      destruct (IH pre (if Guard.alerted guard' then true else any_alert)
                  (Game.set_zone_guards (Game.zone g) (pre ++ rest) g1))
        as (g' & any' & Hloop & Hz & Hlist & Hother & Hh & Hwf').
      * cbn. rewrite Hz1. destruct (decide (Game.zone g = Game.zone g)); [reflexivity|congruence].
      * apply NoDup_remove_1 in Hnd. exact Hnd.
      * intros a' Hin. cbn. rewrite Hst1. apply Hwf1. exact Hin.
      * exists g', any'. split; [exact Hloop|].
        cbn in Hz, Hlist, Hother, Hh, Hwf'. rewrite Hz1 in *. rewrite Hst1 in *.
        split; [exact Hz|]. split.
        { rewrite Hlist, Hfilter. cbn [List.filter]. rewrite Halive.
          apply Z.leb_le in Hdead.
          destruct (0 <? Guard.health guard') eqn:Hpos; [apply Z.ltb_lt in Hpos; lia|reflexivity]. }
        split.
        { intros z Hz'. rewrite Hother by exact Hz'.
          destruct (decide (z = Game.zone g)); [congruence|]. rewrite Hgs1. reflexivity. }
        split; [rewrite Hh; exact Hfmap|].
        intros a' gd Hl Hr. destruct (Hkeep a' gd Hl Hr) as (gd' & Hl' & Hr').
        exact (Hwf' a' gd' Hl' Hr').
    + destruct (IH (pre ++ [a]) (if Guard.alerted guard' then true else any_alert) g1)
        as (g' & any' & Hloop & Hz & Hlist & Hother & Hh & Hwf').
      * rewrite Hgs1, Hz1, Hlive, <- app_assoc. reflexivity.
      * rewrite <- app_assoc. exact Hnd.
      * intros a' Hin. rewrite Hst1. apply Hwf1. exact Hin.
      * exists g', any'. split; [exact Hloop|].
        rewrite Hz1 in *. rewrite Hst1 in *.
        split; [exact Hz|]. split.
        { rewrite Hlist, Hfilter, <- app_assoc. cbn [List.filter app]. rewrite Halive.
          apply Z.leb_gt in Hdead.
          destruct (0 <? Guard.health guard') eqn:Hpos; [reflexivity|apply Z.ltb_ge in Hpos; lia]. }
        split.
        { intros z Hz'. rewrite Hother by exact Hz'. rewrite Hgs1. reflexivity. }
        split; [rewrite Hh; exact Hfmap|].
        intros a' gd Hl Hr. destruct (Hkeep a' gd Hl Hr) as (gd' & Hl' & Hr').
        exact (Hwf' a' gd' Hl' Hr').
Qed.

(** X4: when the guards of the current zone are distinct objects with their
    patrol indices in range, the guard pass returns; afterwards the list of
    the zone holds, in their order, exactly the guards that had health left
    when the pass began, the lists of the other zones are as they were, no
    guard has changed its health, and the guards that stay are well formed
    again. *)
Theorem guard_pass_keeps_the_living `{cfg : Settings} (dt : Q) (obstacles : list Rect)
    (g : Game.t) :
  guards_well_formed g ->
  exists g' any_alert,
    Game.guard_pass dt obstacles g = Ok g' any_alert /\
    Game.zone g' = Game.zone g /\
    Game.guards g' (Game.zone g) =
      List.filter (guard_alive (Game.guard_store g)) (Game.guards g (Game.zone g)) /\
    (forall z, z <> Game.zone g -> Game.guards g' z = Game.guards g z) /\
    Guard.health <$> Game.guard_store g' = Guard.health <$> Game.guard_store g /\
    guards_well_formed g'.
Proof.
  intros [Hnd Hwf].
  destruct (guard_loop_live dt obstacles (Game.guards g (Game.zone g)) [] false g
              eq_refl Hnd Hwf)
    as (g' & any' & Hloop & Hz & Hlist & Hother & Hh & Hkeep).
  exists g', any'. cbn [app] in Hlist.
  split; [exact Hloop|]. split; [exact Hz|]. split; [exact Hlist|].
  split; [exact Hother|]. split; [exact Hh|].
  unfold guards_well_formed. rewrite Hz, Hlist. split.
  - apply List.NoDup_filter. exact Hnd.
  - intros a Hin. apply filter_In in Hin. destruct Hin as [Hin _].
    destruct (Hwf a Hin) as (gd & Hl & Hr). exact (Hkeep a gd Hl Hr).
Qed.

(** A living guard and a dead one in the Ground zone. *)
Lemma guard_pass_keeps_the_living_witness :
  guards_well_formed two_guard_game /\
  exists g' any_alert,
    Game.guard_pass (cfg := sample_settings) (1 # 2) [] two_guard_game = Ok g' any_alert /\
    Game.zone g' = Game.zone two_guard_game /\
    Game.guards g' (Game.zone two_guard_game) =
      List.filter (guard_alive (Game.guard_store two_guard_game))
        (Game.guards two_guard_game (Game.zone two_guard_game)) /\
    (forall z, z <> Game.zone two_guard_game -> Game.guards g' z = Game.guards two_guard_game z) /\
    Guard.health <$> Game.guard_store g' = Guard.health <$> Game.guard_store two_guard_game /\
    guards_well_formed g'.
Proof.
  assert (Hwf : guards_well_formed two_guard_game).
  { split.
    - cbn. repeat constructor; cbn; intuition lia.
    - intros a Hin. cbn in Hin. destruct Hin as [<-|[<-|[]]].
      + exists dead_guard. split; [reflexivity|]. unfold route_in_range. vm_compute. lia.
      + exists distant_guard. split; [reflexivity|]. unfold route_in_range. vm_compute. lia. }
  split; [exact Hwf|].
  apply (guard_pass_keeps_the_living (cfg := sample_settings) (1 # 2) [] two_guard_game Hwf).
Defined.

(** ** The player kept on the screen *)

(** X5: [validate_player_position] never changes the size of the player's
    rectangle or the zone, and when the rectangle fits between the margins
    it leaves it inside them: 40 pixels from every edge of the screen. *)
Theorem validate_player_position_inside `{cfg : Settings} (g : Game.t) :
  0 <= rw (Game.player_rect g) <= WIDTH - 80 ->
  0 <= rh (Game.player_rect g) <= HEIGHT - 80 ->
  let r' := Game.player_rect (Game.validate_player_position g) in
  rw r' = rw (Game.player_rect g) /\ rh r' = rh (Game.player_rect g) /\
  40 <= Rect_left r' /\ Rect_right r' <= WIDTH - 40 /\
  40 <= Rect_top r' /\ Rect_bottom r' <= HEIGHT - 40 /\
  Game.zone (Game.validate_player_position g) = Game.zone g.
Proof.
  intros Hw Hh. cbv zeta.
  remember (Game.validate_player_position g) as v eqn:Hv.
  unfold Game.validate_player_position in Hv.
  match type of Hv with
  | context [if Rect_left (Game.player_rect ?x) <? 40 then _ else ?x] => set (g0 := x) in Hv
  end.
  assert (H0 : rw (Game.player_rect g0) = rw (Game.player_rect g) /\
               rh (Game.player_rect g0) = rh (Game.player_rect g) /\
               Game.zone g0 = Game.zone g).
  { clear Hv. subst g0. destruct (decide (Game.zone g = Harbor)); [|repeat split; reflexivity].
    repeat match goal with |- context [if ?c then _ else _] => destruct c end;
      repeat split; reflexivity. }
  clearbody g0. destruct H0 as (Hw0 & Hh0 & Hz0). rewrite <- Hw0 in *. rewrite <- Hh0 in *.
  rewrite <- Hz0. clear Hw0 Hh0 Hz0 g. subst v.
  assert (Hrect : forall (c : bool) (r : Rect) (x : Game.t),
            Game.player_rect (if c then Game.set_player_rect r x else x)
            = if c then r else Game.player_rect x) by (intros [] ? ?; reflexivity).
  assert (Hzone : forall (c : bool) (r : Rect) (x : Game.t),
            Game.zone (if c then Game.set_player_rect r x else x) = Game.zone x)
    by (intros [] ? ?; reflexivity).
  rewrite !Hzone. rewrite !Hrect.
  unfold Rect_left, Rect_right, Rect_top, Rect_bottom, set_left, set_right, set_top, set_bottom,
    set_x, set_y in *.
  destruct (Game.player_rect g0) as [x y w h]. cbn [rx ry rw rh] in *.
  repeat match goal with
         | |- context [if ?c then _ else _] =>
             let E := fresh "E" in destruct c eqn:E; cbn [rx ry rw rh] in *
         end;
  repeat match goal with
         | E : (_ <? _) = true |- _ => apply Z.ltb_lt in E
         | E : (_ <? _) = false |- _ => apply Z.ltb_ge in E
         end;
  repeat split; try reflexivity; lia.
Qed.

(** The player far outside the screen. *)
Lemma validate_player_position_inside_witness :
  let g := Game.set_player_rect (mkRect 5000 (-300) 22 32) sample_game in
  0 <= rw (Game.player_rect g) <= WIDTH (Settings := sample_settings) - 80 /\
  0 <= rh (Game.player_rect g) <= HEIGHT (Settings := sample_settings) - 80 /\
  let r' := Game.player_rect (Game.validate_player_position (cfg := sample_settings) g) in
  rw r' = rw (Game.player_rect g) /\ rh r' = rh (Game.player_rect g) /\
  40 <= Rect_left r' /\
  Rect_right r' <= WIDTH (Settings := sample_settings) - 40 /\
  40 <= Rect_top r' /\
  Rect_bottom r' <= HEIGHT (Settings := sample_settings) - 40 /\
  Game.zone (Game.validate_player_position (cfg := sample_settings) g) = Game.zone g.
Proof.
  cbv zeta.
  assert (Hw : 0 <= rw (Game.player_rect (Game.set_player_rect (mkRect 5000 (-300) 22 32) sample_game))
               <= WIDTH (Settings := sample_settings) - 80) by (vm_compute; split; discriminate).
  assert (Hh : 0 <= rh (Game.player_rect (Game.set_player_rect (mkRect 5000 (-300) 22 32) sample_game))
               <= HEIGHT (Settings := sample_settings) - 80) by (vm_compute; split; discriminate).
  split; [exact Hw|]. split; [exact Hh|].
  exact (validate_player_position_inside (cfg := sample_settings) _ Hw Hh).
Defined.

(** ** What the steps of a frame keep *)

Lemma resolve_x_size (v : Q) (r wall : Rect) :
  rect_size (Character.resolve_x v r wall) = rect_size r.
Proof.
  unfold Character.resolve_x.
  repeat match goal with |- context [if ?c then _ else _] => destruct c end; reflexivity.
Qed.

Lemma resolve_y_size (v : Q) (r wall : Rect) :
  rect_size (Character.resolve_y v r wall) = rect_size r.
Proof.
  unfold Character.resolve_y.
  repeat match goal with |- context [if ?c then _ else _] => destruct c end; reflexivity.
Qed.

Lemma fold_resolve_size (f : Rect -> Rect -> Rect) (walls : list Rect) :
  (forall r wall, rect_size (f r wall) = rect_size r) ->
  forall r, rect_size (fold_left f walls r) = rect_size r.
Proof.
  intros Hf. induction walls as [|w walls IH]; intros r; cbn; [reflexivity|].
  rewrite IH. apply Hf.
Qed.

Lemma move_and_collide_size (obstacles : list Rect) (c : Character.t) :
  rect_size (Character.rect (Character.move_and_collide obstacles c)) = rect_size (Character.rect c).
Proof.
  unfold Character.move_and_collide, Character.move_x, Character.move_y. cbn [Character.rect Character.set_rect].
  rewrite (fold_resolve_size _ _ (resolve_y_size _)).
  change (rect_size (set_y ?v ?r)) with (rect_size r).
  rewrite (fold_resolve_size _ _ (resolve_x_size _)). reflexivity.
Qed.

Lemma NPC_update_size `{cfg : Settings} (player : Player.t) (obstacles : list Rect) (n : NPC.t) :
  rect_size (NPC.rect (NPC.update player obstacles n)) = rect_size (NPC.rect n).
Proof.
  unfold NPC.update. destruct (NPC.rescued n); [reflexivity|].
  destruct (NPC.following n); [|reflexivity].
  unfold NPC.rect. cbn [NPC.char NPC.set_char]. rewrite move_and_collide_size. reflexivity.
Qed.

Lemma whole_play (c : AudioCall) (g : Game.t) : whole (Game.play c g) = whole g.
Proof. reflexivity. Qed.

Lemma whole_set_message (m : string) (g : Game.t) : whole (Game.set_message m g) = whole g.
Proof. reflexivity. Qed.

Lemma whole_set_message_time (q : Q) (g : Game.t) : whole (Game.set_message_time q g) = whole g.
Proof. reflexivity. Qed.

Lemma whole_hint (text : string) (g : Game.t) : whole (Game.hint text g) = whole g.
Proof. unfold Game.hint. destruct (Qleb _ 0); reflexivity. Qed.

Lemma whole_extraction_check (e : option Rect) (g : Game.t) :
  whole (Game.extraction_check e g) = whole g.
Proof.
  unfold Game.extraction_check. destruct e; [|reflexivity].
  repeat match goal with |- context [if ?c then _ else _] => destruct c end; reflexivity.
Qed.

Lemma whole_begin_frame (dt : Q) (g : Game.t) :
  fixture (Game.begin_frame dt g) = fixture g /\
  vital (Game.begin_frame dt g) = vital g /\
  Game.zone (Game.begin_frame dt g) = Game.zone g /\
  Game.pathway_cooldown (Game.begin_frame dt g) = py_max 0 (Game.pathway_cooldown g - dt) /\
  posts (Game.begin_frame dt g) = posts g.
Proof. repeat split; reflexivity. Qed.

Lemma whole_validate_player_position `{cfg : Settings} (g : Game.t) :
  whole (Game.validate_player_position g) = whole g.
Proof.
  unfold Game.validate_player_position.
  match goal with |- context [if Rect_left (Game.player_rect ?x) <? 40 then _ else ?x] =>
    set (g0 := x) end.
  assert (H0 : whole g0 = whole g).
  { subst g0. destruct (decide (Game.zone g = Harbor)); [| reflexivity].
    repeat match goal with
           | |- context [if ?c then _ else _] => destruct c
           end; reflexivity. }
  clearbody g0. rewrite <- H0.
  repeat match goal with
         | |- context [if ?c then _ else _] => destruct c
         end; reflexivity.
Qed.

Lemma handle_input_keeps `{cfg : Settings} (k : Pressed) (dt drain recover : Q) (p : Player.t) :
  Player.rect (Player.handle_input k dt drain recover p) = Player.rect p /\
  Player.health (Player.handle_input k dt drain recover p) = Player.health p.
Proof.
  unfold Player.handle_input, Player.rect. cbv zeta.
  cbn [Player.char Player.set_char Player.health Player.set_fire_cooldown Player.set_stamina].
  destruct (Qltb 0 (length_squared (Player.held_direction k))); split; reflexivity.
Qed.

Lemma whole_control `{cfg : Settings} (k : Pressed) (dt : Q) (obstacles : list Rect) (g : Game.t) :
  whole (Game.control k dt obstacles g) = whole g.
Proof.
  destruct (handle_input_keeps k dt (stamina_drain (Game.profile g))
              (stamina_recover (Game.profile g)) (Game.player g)) as [Hrect Hhealth].
  unfold whole, fixture, vital, posts, Game.control, Game.player_rect, Player.rect in *.
  cbn [Game.player Game.set_player Player.char Player.set_char Player.health Game.state
       Game.boat_escape_active Game.profile Game.items Game.npcs Game.zone
       Game.pathway_cooldown Game.game_over Game.guards Game.guard_store].
  rewrite move_and_collide_size, Hrect, Hhealth. reflexivity.
Qed.

Lemma whole_guard_loop `{cfg : Settings} (dt : Q) (obstacles : list Rect) (snapshot : list addr) :
  forall (any_alert : bool) (g : Game.t),
  let g' := final_state (Game.guard_loop dt obstacles snapshot any_alert g) in
  fixture g' = fixture g /\ vital g' = vital g /\ Game.zone g' = Game.zone g /\
  Game.pathway_cooldown g' = Game.pathway_cooldown g.
Proof.
  induction snapshot as [|a rest IH]; intros any_alert g; cbn [Game.guard_loop].
  - cbn. repeat split; reflexivity.
  - destruct (Game.guard_store g !! a) as [guard|]; [|cbn; repeat split; reflexivity].
    destruct (Guard.update dt (Game.player g) obstacles guard) as [guard' shot|guard' e];
      [|cbn; repeat split; reflexivity].
    destruct (Guard.health guard' <=? 0).
    + destruct (Game.remove_first a _) as [l|].
      * cbv zeta in IH |- *.
        destruct (IH (if Guard.alerted guard' then true else any_alert)
                    (Game.set_zone_guards
                       (Game.zone match shot with
                                  | Some b => Game.set_bullets (Game.bullets (Game.set_guard_store (<[a:=guard']> (Game.guard_store g)) g) ++ [b]) (Game.set_guard_store (<[a:=guard']> (Game.guard_store g)) g)
                                  | None => Game.set_guard_store (<[a:=guard']> (Game.guard_store g)) g
                                  end) l
                       match shot with
                       | Some b => Game.set_bullets (Game.bullets (Game.set_guard_store (<[a:=guard']> (Game.guard_store g)) g) ++ [b]) (Game.set_guard_store (<[a:=guard']> (Game.guard_store g)) g)
                       | None => Game.set_guard_store (<[a:=guard']> (Game.guard_store g)) g
                       end)) as (H1 & H2 & H3 & H4).
        rewrite H1, H2, H3, H4. destruct shot; repeat split; reflexivity.
      * destruct shot; cbn; repeat split; reflexivity.
    + cbv zeta in IH |- *.
      destruct (IH (if Guard.alerted guard' then true else any_alert)
                  match shot with
                  | Some b => Game.set_bullets (Game.bullets (Game.set_guard_store (<[a:=guard']> (Game.guard_store g)) g) ++ [b]) (Game.set_guard_store (<[a:=guard']> (Game.guard_store g)) g)
                  | None => Game.set_guard_store (<[a:=guard']> (Game.guard_store g)) g
                  end) as (H1 & H2 & H3 & H4).
      rewrite H1, H2, H3, H4. destruct shot; repeat split; reflexivity.
Qed.

Lemma whole_npc_loop `{cfg : Settings} (obstacles : list Rect) (ns : list NPC.t) :
  forall g : Game.t,
  whole (snd (Game.npc_loop obstacles ns g)) = whole g /\
  map (fun n => rect_size (NPC.rect n)) (fst (Game.npc_loop obstacles ns g))
  = map (fun n => rect_size (NPC.rect n)) ns.
Proof.
  induction ns as [|n rest IH]; intros g; cbn [Game.npc_loop]; [split; reflexivity|].
  destruct (bool_decide (NPC.zone n = Game.zone g)).
  - match goal with |- context [if ?c then _ else _] => destruct c end.
    + match goal with |- context [Game.npc_loop obstacles rest ?x] =>
        destruct (IH x) as [H1 H2]; destruct (Game.npc_loop obstacles rest x) as [rest' g'] end.
      cbn [fst snd] in *. rewrite H1. split; [reflexivity|].
      cbn [map]. rewrite H2. f_equal.
      change (NPC.rect (NPC.set_rescued true ?m)) with (NPC.rect m).
      apply NPC_update_size.
    + destruct (IH g) as [H1 H2]. destruct (Game.npc_loop obstacles rest g) as [rest' g'].
      cbn [fst snd] in *. rewrite H1. split; [reflexivity|].
      cbn [map]. rewrite H2. f_equal. apply NPC_update_size.
  - destruct (IH g) as [H1 H2]. destruct (Game.npc_loop obstacles rest g) as [rest' g'].
    cbn [fst snd] in *. rewrite H1. split; [reflexivity|].
    cbn [map]. rewrite H2. reflexivity.
Qed.

Lemma whole_npc_pass `{cfg : Settings} (obstacles : list Rect) (g : Game.t) :
  whole (Game.npc_pass obstacles g) = whole g.
Proof.
  unfold Game.npc_pass.
  destruct (whole_npc_loop obstacles (Game.npcs g) g) as [H1 H2].
  destruct (Game.npc_loop obstacles (Game.npcs g) g) as [ns g']. cbn [fst snd] in *.
  rewrite <- H1. unfold whole, fixture. cbn [Game.npcs Game.set_npcs].
  rewrite H2.
  assert (Hn : map (fun n => rect_size (NPC.rect n)) (Game.npcs g')
               = map (fun n => rect_size (NPC.rect n)) (Game.npcs g)).
  { pose proof (f_equal (fun w => snd (fst (fst (fst (fst w))))) H1) as H. exact H. }
  rewrite Hn. reflexivity.
Qed.

Lemma take_damage_keeps (amount : Z) (g : Game.t) :
  let g' := Game.take_damage amount g in
  fixture g' = fixture g /\ Game.zone g' = Game.zone g /\
  Game.pathway_cooldown g' = Game.pathway_cooldown g /\ posts g' = posts g /\
  Player.health (Game.player g') = Player.health (Game.player g) - amount /\
  Game.game_over g' = (Game.game_over g || (Player.health (Game.player g) - amount <=? 0)).
Proof.
  cbv zeta. unfold Game.take_damage. cbv zeta.
  cbn [Game.player Game.set_player Game.set_damage_flash_timer Game.play Game.set_audio
       Game.set_creepy_flicker Player.health Player.set_health].
  destruct (Player.health (Game.player g) - amount <=? 0); repeat split; try reflexivity.
  - cbn. rewrite orb_true_r. reflexivity.
  - cbn. rewrite orb_false_r. reflexivity.
Qed.

Lemma find_hit_lookup (p : Vec) (store : gmap addr Guard.t) (live : list addr)
    (a : addr) (guard : Guard.t) :
  Game.find_hit p store live = Some (a, guard) -> store !! a = Some guard /\ In a live.
Proof.
  induction live as [|y live IH]; cbn; [discriminate|].
  destruct (store !! y) as [gd|] eqn:Hl.
  - destruct (collidepoint (Guard.rect gd) p).
    + intros [= <- <-]. split; [exact Hl|left; reflexivity].
    + intros H. destruct (IH H). split; [assumption|right; assumption].
  - intros H. destruct (IH H). split; [assumption|right; assumption].
Qed.

Lemma route_insert_health (store : gmap addr Guard.t) (a : addr) (guard : Guard.t) (h : Z) :
  store !! a = Some guard ->
  route <$> <[a := Guard.set_health h guard]> store = route <$> store.
Proof.
  intros Hl. rewrite fmap_insert. apply insert_id. rewrite lookup_fmap, Hl. reflexivity.
Qed.

Lemma bullet_loop_keeps `{cfg : Settings} (obstacles : list Rect) (bs : list Bullet.t) :
  forall g : Game.t,
  let g' := snd (Game.bullet_loop obstacles bs g) in
  fixture g' = fixture g /\ Game.zone g' = Game.zone g /\
  Game.pathway_cooldown g' = Game.pathway_cooldown g /\
  Game.guards g' = Game.guards g /\
  route <$> Game.guard_store g' = route <$> Game.guard_store g.
Proof.
  induction bs as [|b rest IH]; intros g; cbn [Game.bullet_loop]; [repeat split; reflexivity|].
  cbv zeta in IH |- *.
  destruct (negb (Bullet.alive (Bullet.update obstacles b))).
  { specialize (IH g). destruct (Game.bullet_loop obstacles rest g). exact IH. }
  match goal with |- context [if ?c then _ else _] => destruct c end.
  { pose proof (take_damage_keeps (guard_damage (Game.profile g)) g) as (T1 & T2 & T3 & T4 & _).
    specialize (IH (Game.take_damage (guard_damage (Game.profile g)) g)).
    destruct (Game.bullet_loop obstacles rest _). cbn [snd] in *.
    destruct IH as (I1 & I2 & I3 & I4 & I5).
    rewrite I1, I2, I3, I4, I5, T1, T2, T3.
    pose proof (f_equal fst T4) as T5. pose proof (f_equal snd T4) as T6. cbn in T5, T6.
    rewrite T5, T6. repeat split; reflexivity. }
  destruct (String.eqb (Bullet.owner (Bullet.update obstacles b)) "player").
  - destruct (Game.find_hit _ _ _) as [[a guard]|] eqn:Hhit.
    + apply find_hit_lookup in Hhit. destruct Hhit as [Hl _].
      match goal with |- context [Game.bullet_loop obstacles rest ?x] =>
        specialize (IH x); destruct (Game.bullet_loop obstacles rest x) end.
      cbn [snd] in *. destruct IH as (I1 & I2 & I3 & I4 & I5).
      rewrite I1, I2, I3, I4, I5. cbn [Game.guard_store Game.set_guard_store].
      rewrite (route_insert_health _ _ _ _ Hl). repeat split; reflexivity.
    + specialize (IH g). destruct (Game.bullet_loop obstacles rest g). exact IH.
  - specialize (IH g). destruct (Game.bullet_loop obstacles rest g). exact IH.
Qed.

Lemma bullet_loop_vital `{cfg : Settings} (obstacles : list Rect) (bs : list Bullet.t) :
  forall g : Game.t,
  0 <= guard_damage (Game.profile g) ->
  defeat_recorded g ->
  let g' := snd (Game.bullet_loop obstacles bs g) in
  defeat_recorded g' /\ Player.health (Game.player g') <= Player.health (Game.player g).
Proof.
  induction bs as [|b rest IH]; intros g Hd Hrec; cbn [Game.bullet_loop];
    [cbv zeta; cbn [snd]; split; [exact Hrec|lia]|].
  cbv zeta in IH |- *.
  destruct (negb (Bullet.alive (Bullet.update obstacles b))).
  { specialize (IH g Hd Hrec). destruct (Game.bullet_loop obstacles rest g). exact IH. }
  match goal with |- context [if ?c then _ else _] => destruct c end.
  { pose proof (take_damage_keeps (guard_damage (Game.profile g)) g) as (T1 & _ & _ & _ & T5 & T6).
    cbv zeta in T1, T5, T6.
    assert (Hprof : Game.profile (Game.take_damage (guard_damage (Game.profile g)) g) = Game.profile g)
      by exact (f_equal (fun w => snd (fst (fst (fst w)))) T1).
    assert (Hrec' : defeat_recorded (Game.take_damage (guard_damage (Game.profile g)) g)).
    { unfold defeat_recorded in *. rewrite T5, T6, orb_true_iff, Z.leb_le. split; [|tauto].
      intros [Hover|Hle]; [|exact Hle]. apply Hrec in Hover. lia. }
    specialize (IH (Game.take_damage (guard_damage (Game.profile g)) g)).
    rewrite Hprof in IH. specialize (IH Hd Hrec').
    destruct (Game.bullet_loop obstacles rest _). cbn [snd] in *.
    destruct IH as [I1 I2]. split; [exact I1|]. rewrite T5 in I2. lia. }
  destruct (String.eqb (Bullet.owner (Bullet.update obstacles b)) "player").
  - destruct (Game.find_hit _ _ _) as [[a guard]|] eqn:Hhit.
    + match goal with |- context [Game.bullet_loop obstacles rest ?x] =>
        specialize (IH x Hd Hrec); destruct (Game.bullet_loop obstacles rest x) end.
      exact IH.
    + specialize (IH g Hd Hrec). destruct (Game.bullet_loop obstacles rest g). exact IH.
  - specialize (IH g Hd Hrec). destruct (Game.bullet_loop obstacles rest g). exact IH.
Qed.

Lemma transfer_step_sizes (new_zone : Zone) (g : Game.t) (ns : list NPC.t) :
  forall acc : list NPC.t * Z,
  map (fun n => rect_size (NPC.rect n)) (fst (fold_left (Game.transfer_step new_zone g) ns acc))
  = map (fun n => rect_size (NPC.rect n)) (fst acc) ++ map (fun n => rect_size (NPC.rect n)) ns.
Proof.
  induction ns as [|n rest IH]; intros [done count]; cbn [fold_left].
  - cbn. rewrite app_nil_r. reflexivity.
  - rewrite IH. unfold Game.transfer_step.
    destruct (NPC.following n && negb (NPC.rescued n) && bool_decide (NPC.zone n = Game.zone g));
      cbn [fst]; rewrite map_app, <- app_assoc; reflexivity.
Qed.

Lemma whole_transfer_followers (new_zone : Zone) (g : Game.t) :
  whole (Game.transfer_followers new_zone g) = whole g.
Proof.
  unfold Game.transfer_followers.
  pose proof (transfer_step_sizes new_zone g (Game.npcs g) ([], 0)) as Hs.
  destruct (fold_left _ (Game.npcs g) ([], 0)) as [ns count]. cbn [fst app map] in Hs.
  unfold whole, fixture.
  destruct (0 <? count); cbn [Game.npcs Game.set_npcs Game.set_message Game.set_message_time];
    rewrite Hs; reflexivity.
Qed.

Lemma enter_keeps (gate : ZoneGate) (g : Game.t) :
  fixture (Game.enter gate g) = fixture g /\
  vital (Game.enter gate g) = vital g /\
  posts (Game.enter gate g) = posts g.
Proof.
  pose proof (whole_transfer_followers (target_zone gate) g) as Ht.
  unfold Game.enter. cbv zeta.
  set (g1 := Game.transfer_followers (target_zone gate) g) in *.
  assert (Hf : fixture g1 = fixture g) by exact (f_equal (fun w => fst (fst (fst (fst w)))) Ht).
  assert (Hv : vital g1 = vital g) by exact (f_equal (fun w => snd (fst (fst (fst w)))) Ht).
  assert (Hp : posts g1 = posts g) by exact (f_equal snd Ht).
  clearbody g1. rewrite <- Hf, <- Hv, <- Hp.
  repeat match goal with |- context [if ?c then _ else _] => destruct c end;
    repeat split; reflexivity.
Qed.

Lemma index_region_order_total (z : Zone) : exists n, Game.index z Game.region_order = Some n.
Proof. destruct z; eexists; reflexivity. Qed.

Lemma gate_loop_keeps (gates : list ZoneGate) :
  forall g : Game.t,
  exists g', Game.gate_loop gates g = Ok g' tt /\
    fixture g' = fixture g /\ vital g' = vital g /\ posts g' = posts g.
Proof.
  induction gates as [|gate rest IH]; intros g; cbn [Game.gate_loop].
  - exists g. repeat split; reflexivity.
  - destruct (Qltb 0 (Game.pathway_cooldown g)); [exists g; repeat split; reflexivity|].
    destruct (colliderect (Game.player_rect g) (gate_rect gate)); [|apply IH].
    destruct (Game.key_missing gate g).
    { match goal with |- context [Game.gate_loop rest (Game.hint ?t g)] =>
        destruct (IH (Game.hint t g)) as (g' & Hl & H1 & H2 & H3);
        pose proof (whole_hint t g) as Hh end.
      exists g'. split; [exact Hl|]. rewrite H1, H2, H3.
      repeat split;
        [exact (f_equal (fun w => fst (fst (fst (fst w)))) Hh)
        |exact (f_equal (fun w => snd (fst (fst (fst w)))) Hh)
        |exact (f_equal snd Hh)]. }
    destruct (index_region_order_total (Game.zone g)) as [ci ->].
    destruct (index_region_order_total (target_zone gate)) as [ti ->].
    destruct ((ci <? ti)%nat && negb (Game.region_complete (Game.zone g) g)).
    { match goal with |- context [Game.gate_loop rest (Game.hint ?t g)] =>
        destruct (IH (Game.hint t g)) as (g' & Hl & H1 & H2 & H3);
        pose proof (whole_hint t g) as Hh end.
      exists g'. split; [exact Hl|]. rewrite H1, H2, H3.
      repeat split;
        [exact (f_equal (fun w => fst (fst (fst (fst w)))) Hh)
        |exact (f_equal (fun w => snd (fst (fst (fst w)))) Hh)
        |exact (f_equal snd Hh)]. }
    exists (Game.enter gate g). split; [reflexivity|]. apply enter_keeps.
Qed.

Lemma whole_take_gun (p : Rect) (its : ZoneItems) (acc : Game.t * bool) :
  whole (fst (Game.take_gun p its acc)) = whole (fst acc).
Proof.
  destruct acc as [g b]. unfold Game.take_gun. destruct (gun its); [|reflexivity].
  match goal with |- context [if ?c then _ else _] => destruct c end; reflexivity.
Qed.

Lemma whole_ammo_loop (p : Rect) (boxes : list Rect) :
  forall (idx : nat) (acc : Game.t * bool),
  whole (fst (Game.ammo_loop p idx boxes acc)) = whole (fst acc).
Proof.
  induction boxes as [|box rest IH]; intros idx [g b]; cbn [Game.ammo_loop]; [reflexivity|].
  rewrite IH.
  match goal with |- context [if ?c then _ else _] => destruct c end; reflexivity.
Qed.

Lemma whole_take_clue (p : Rect) (its : ZoneItems) (acc : Game.t * bool) :
  whole (fst (Game.take_clue p its acc)) = whole (fst acc).
Proof.
  destruct acc as [g b]. unfold Game.take_clue. destruct (clue its); [|reflexivity].
  match goal with |- context [if ?c then _ else _] => destruct c end; reflexivity.
Qed.

Lemma whole_key_step (p : Rect) (its : ZoneItems) (acc : Game.t * bool) (k : Key) :
  whole (fst (Game.key_step p its acc k)) = whole (fst acc).
Proof.
  destruct acc as [g b]. unfold Game.key_step. destruct (key_item k its); [|reflexivity].
  match goal with |- context [if ?c then _ else _] => destruct c end; reflexivity.
Qed.

Lemma npc_follow_loop_sizes (p : Rect) (z : Zone) (ns : list NPC.t) :
  map (fun n => rect_size (NPC.rect n)) (fst (Game.npc_follow_loop p z ns))
  = map (fun n => rect_size (NPC.rect n)) ns.
Proof.
  induction ns as [|n rest IH]; cbn [Game.npc_follow_loop]; [reflexivity|].
  destruct (Game.npc_follow_loop p z rest) as [rest' any]. cbn [fst] in IH.
  match goal with |- context [if ?c then _ else _] => destruct c end;
    cbn [fst map]; rewrite IH; reflexivity.
Qed.

Lemma whole_take_followers (p : Rect) (acc : Game.t * bool) :
  whole (Game.take_followers p acc) = whole (fst acc).
Proof.
  destruct acc as [g b]. unfold Game.take_followers.
  pose proof (npc_follow_loop_sizes p (Game.zone g) (Game.npcs g)) as Hs.
  destruct (Game.npc_follow_loop p (Game.zone g) (Game.npcs g)) as [ns followed].
  cbn [fst] in *. unfold whole, fixture.
  destruct followed, b; cbn [orb Game.npcs Game.set_npcs Game.set_message
                               Game.set_message_time Game.play Game.set_audio];
    rewrite Hs; reflexivity.
Qed.

Lemma whole_interact (g : Game.t) : whole (Game.interact g) = whole g.
Proof.
  unfold Game.interact. cbv zeta.
  rewrite whole_take_followers.
  cbn [fold_left]. rewrite !whole_key_step, whole_take_clue, whole_ammo_loop, whole_take_gun.
  reflexivity.
Qed.

Lemma whole_click `{cfg : Settings} (mouse_pos : Z * Z) (g : Game.t) :
  whole (Game.click mouse_pos g) = whole g.
Proof.
  unfold Game.click. destruct (Game.state g) eqn:Hs; [reflexivity|].
  destruct (Game.boat_escape_active g); [reflexivity|].
  unfold Player.try_shoot.
  match goal with |- context [if ?c then _ else _] => destruct c end; [reflexivity|].
  cbv zeta.
  match goal with |- context [if ?c then _ else _] => destruct c end; reflexivity.
Qed.

(** [update], stage by stage. *)
Lemma update_stages `{cfg : Settings} (k : Pressed) (dt : Q) (g : Game.t) :
  Game.update k dt g =
    match Game.guard_pass dt (Game.frame_obstacles (Game.zone g))
            (Game.control k dt (Game.frame_obstacles (Game.zone g))
               (Game.validate_player_position (Game.begin_frame dt g))) with
    | Raise G e => Raise G e
    | Ok G2 any_alert =>
        match Game.gate_loop (zone_gates (Game.zone g))
                (Game.bullet_pass (Game.frame_obstacles (Game.zone g))
                   (Game.npc_pass (Game.frame_obstacles (Game.zone g))
                      (Game.play (play_music_for_zone (Game.zone G2) any_alert) G2))) with
        | Raise G e => Raise G e
        | Ok G6 _ =>
            Ok (Game.set_message_time
                  (py_max 0 (Game.message_time
                               (Game.extraction_check (zone_extraction (Game.zone g)) G6) - dt))
                  (Game.extraction_check (zone_extraction (Game.zone g)) G6)) tt
        end
    end.
Proof.
  unfold Game.update, build_zone_data, Game.settle. cbv zeta. cbn beta iota.
  destruct (Game.guard_pass _ _ _); reflexivity.
Qed.

Lemma bullet_pass_keeps `{cfg : Settings} (obstacles : list Rect) (g : Game.t) :
  let g' := Game.bullet_pass obstacles g in
  fixture g' = fixture g /\ Game.zone g' = Game.zone g /\
  Game.pathway_cooldown g' = Game.pathway_cooldown g /\
  Game.guards g' = Game.guards g /\
  route <$> Game.guard_store g' = route <$> Game.guard_store g /\
  (0 <= guard_damage (Game.profile g) -> defeat_recorded g ->
   defeat_recorded g' /\ Player.health (Game.player g') <= Player.health (Game.player g)).
Proof.
  cbv zeta. unfold Game.bullet_pass.
  pose proof (bullet_loop_keeps obstacles (Game.bullets g) g) as (H1 & H2 & H3 & H4 & H5).
  pose proof (bullet_loop_vital obstacles (Game.bullets g) g) as H6.
  cbv zeta in *.
  destruct (Game.bullet_loop obstacles (Game.bullets g) g) as [bs g']. cbn [snd] in *.
  repeat split; try assumption; apply H6; assumption.
Qed.

(** The state in which a frame reaches the loop over the gates. *)
Lemma update_before_gates `{cfg : Settings} (k : Pressed) (dt : Q) (g G2 : Game.t)
    (any_alert : bool) :
  Game.guard_pass dt (Game.frame_obstacles (Game.zone g))
    (Game.control k dt (Game.frame_obstacles (Game.zone g))
       (Game.validate_player_position (Game.begin_frame dt g))) = Ok G2 any_alert ->
  let G5 := Game.bullet_pass (Game.frame_obstacles (Game.zone g))
              (Game.npc_pass (Game.frame_obstacles (Game.zone g))
                 (Game.play (play_music_for_zone (Game.zone G2) any_alert) G2)) in
  fixture G5 = fixture g /\ Game.zone G5 = Game.zone g /\
  Game.pathway_cooldown G5 = py_max 0 (Game.pathway_cooldown g - dt) /\
  Game.guards G5 = Game.guards G2 /\
  route <$> Game.guard_store G5 = route <$> Game.guard_store G2 /\
  (0 <= guard_damage (Game.profile g) -> defeat_recorded g ->
   defeat_recorded G5 /\ Player.health (Game.player G5) <= Player.health (Game.player g)).
Proof.
  intros Hpass. cbv zeta.
  set (obstacles := Game.frame_obstacles (Game.zone g)) in *.
  set (G1 := Game.control k dt obstacles _) in *.
  assert (W1 : fixture G1 = fixture g /\ vital G1 = vital g /\ Game.zone G1 = Game.zone g /\
               Game.pathway_cooldown G1 = py_max 0 (Game.pathway_cooldown g - dt)).
  { pose proof (whole_begin_frame dt g) as (B1 & B2 & B3 & B4 & _).
    pose proof (whole_validate_player_position (Game.begin_frame dt g)) as V.
    pose proof (whole_control k dt obstacles
                  (Game.validate_player_position (Game.begin_frame dt g))) as C.
    fold G1 in C. rewrite V in C.
    pose proof (f_equal (fun w => fst (fst (fst (fst w)))) C) as C1.
    pose proof (f_equal (fun w => snd (fst (fst (fst w)))) C) as C2.
    pose proof (f_equal (fun w => snd (fst (fst w))) C) as C3.
    pose proof (f_equal (fun w => snd (fst w)) C) as C4.
    cbn [fst snd whole] in C1, C2, C3, C4.
    rewrite C1, C2, C3, C4. repeat split; assumption. }
  destruct W1 as (F1 & V1 & Z1 & P1).
  pose proof (whole_guard_loop dt obstacles (Game.guards G1 (Game.zone G1)) false G1)
    as (F2 & V2 & Z2 & P2).
  fold (Game.guard_pass dt obstacles G1) in F2, V2, Z2, P2. rewrite Hpass in F2, V2, Z2, P2.
  cbn [final_state] in F2, V2, Z2, P2.
  pose proof (whole_npc_pass obstacles
                (Game.play (play_music_for_zone (Game.zone G2) any_alert) G2)) as N.
  rewrite whole_play in N.
  set (G3 := Game.play _ G2) in *.
  pose proof (f_equal (fun w => fst (fst (fst (fst w)))) N) as N1.
  pose proof (f_equal (fun w => snd (fst (fst (fst w)))) N) as N2.
  pose proof (f_equal (fun w => snd (fst (fst w))) N) as N3.
  pose proof (f_equal (fun w => snd (fst w)) N) as N4.
  pose proof (f_equal (fun w => snd w) N) as N5.
  cbn [fst snd whole] in N1, N2, N3, N4, N5.
  pose proof (bullet_pass_keeps obstacles (Game.npc_pass obstacles G3))
    as (B1 & B2 & B3 & B4 & B5 & B6).
  cbv zeta in B1, B2, B3, B4, B5, B6.
  split; [rewrite B1, N1, F2; exact F1|].
  split; [rewrite B2, N3, Z2; exact Z1|].
  split; [rewrite B3, N4, P2; exact P1|].
  split; [rewrite B4; exact (f_equal fst N5)|].
  split; [rewrite B5; exact (f_equal (fmap route) (f_equal snd N5))|].
  intros Hd Hrec.
  assert (Hprof : Game.profile (Game.npc_pass obstacles G3) = Game.profile g).
  { pose proof (f_equal (fun w => snd (fst (fst (fst w)))) N1) as E1.
    pose proof (f_equal (fun w => snd (fst (fst (fst w)))) F2) as E2.
    pose proof (f_equal (fun w => snd (fst (fst (fst w)))) F1) as E3.
    cbn in E1, E2, E3. congruence. }
  assert (Hvit : vital (Game.npc_pass obstacles G3) = vital g) by congruence.
  destruct B6 as [B6 B7].
  - rewrite Hprof. exact Hd.
  - unfold defeat_recorded in *.
    rewrite (f_equal fst Hvit : Player.health _ = _), (f_equal snd Hvit : Game.game_over _ = _).
    exact Hrec.
  - split; [exact B6|].
    pose proof (f_equal fst Hvit) as Hh. cbn [fst vital] in Hh. rewrite <- Hh. exact B7.
Qed.

Lemma update_keeps `{cfg : Settings} (k : Pressed) (dt : Q) (g g' : Game.t) :
  Game.update k dt g = Ok g' tt ->
  fixture g' = fixture g /\
  (0 <= guard_damage (Game.profile g) -> defeat_recorded g ->
   defeat_recorded g' /\ Player.health (Game.player g') <= Player.health (Game.player g)).
Proof.
  rewrite update_stages.
  destruct (Game.guard_pass _ _ _) as [G2 any_alert|G2 e] eqn:Hpass; [|discriminate].
  pose proof (update_before_gates k dt g G2 any_alert Hpass) as (F5 & _ & _ & _ & _ & V5).
  cbv zeta in F5, V5.
  set (G5 := Game.bullet_pass _ _) in *.
  destruct (gate_loop_keeps (zone_gates (Game.zone g)) G5) as (G6 & Hloop & F6 & V6 & _).
  rewrite Hloop. intros [= <-].
  pose proof (whole_extraction_check (zone_extraction (Game.zone g)) G6) as E.
  set (G7 := Game.extraction_check _ G6) in *.
  pose proof (f_equal (fun w => fst (fst (fst (fst w)))) E) as E1.
  pose proof (f_equal (fun w => snd (fst (fst (fst w)))) E) as E2.
  cbn [fst snd whole] in E1, E2.
  split.
  - change (fixture G7 = fixture g). congruence.
  - intros Hd Hrec. destruct (V5 Hd Hrec) as [R5 H5].
    assert (Hv : vital G7 = vital G5) by congruence.
    pose proof (f_equal fst Hv) as Hv1. pose proof (f_equal snd Hv) as Hv2.
    cbn [fst snd vital] in Hv1, Hv2.
    unfold defeat_recorded in *.
    cbn [Game.player Game.game_over Game.set_message_time].
    rewrite Hv1, Hv2. split; assumption.
Qed.

Lemma frame_keeps `{cfg : Settings} (k : Pressed) (dt : Q) (g g' : Game.t) :
  Game.frame k dt g = Ok g' tt ->
  fixture g' = fixture g /\
  (0 <= guard_damage (Game.profile g) -> defeat_recorded g ->
   defeat_recorded g' /\ Player.health (Game.player g') <= Player.health (Game.player g)).
Proof.
  unfold Game.frame.
  destruct (Game.state g); [intros [= <-]; split; [reflexivity|intros _ H; split; [exact H|lia]]|].
  destruct (negb (Game.game_over g) && negb (Game.victory g));
    [apply update_keeps|intros [= <-]; split; [reflexivity|intros _ H; split; [exact H|lia]]].
Qed.

(** ** The cooldown of the pathways *)

(** X6: while the cooldown of the pathways lasts beyond the frame, [update]
    enters no pathway: the zone at the end of the frame is the zone at its
    beginning, whatever the player touches, and the cooldown has gone down by
    the time step. *)
Theorem no_pathway_while_cooling `{cfg : Settings} (k : Pressed) (dt : Q) (g g' : Game.t) :
  (dt < Game.pathway_cooldown g)%Q ->
  Game.update k dt g = Ok g' tt ->
  Game.zone g' = Game.zone g /\
  Game.pathway_cooldown g' = (Game.pathway_cooldown g - dt)%Q.
Proof.
  intros Hdt. rewrite update_stages.
  destruct (Game.guard_pass _ _ _) as [G2 any_alert|G2 e] eqn:Hpass; [|discriminate].
  pose proof (update_before_gates k dt g G2 any_alert Hpass) as (_ & Z5 & P5 & _).
  cbv zeta in Z5, P5.
  set (G5 := Game.bullet_pass _ _) in *.
  assert (Hcool : py_max 0 (Game.pathway_cooldown g - dt) = (Game.pathway_cooldown g - dt)%Q).
  { unfold py_max.
    destruct (Qltb 0 (Game.pathway_cooldown g - dt)) eqn:E; [reflexivity|].
    apply Qltb_ge in E. lra. }
  rewrite Hcool in P5.
  assert (Hloop : Game.gate_loop (zone_gates (Game.zone g)) G5 = Ok G5 tt).
  { destruct (zone_gates (Game.zone g)); [reflexivity|]. cbn [Game.gate_loop].
    rewrite P5.
    destruct (Qltb 0 (Game.pathway_cooldown g - dt)) eqn:E; [reflexivity|].
    apply Qltb_ge in E. lra. }
  rewrite Hloop. intros [= <-].
  pose proof (whole_extraction_check (zone_extraction (Game.zone g)) G5) as E.
  pose proof (f_equal (fun w => snd (fst (fst w))) E) as E3.
  pose proof (f_equal (fun w => snd (fst w)) E) as E4.
  cbn [fst snd whole] in E3, E4.
  cbn [Game.zone Game.pathway_cooldown Game.set_message_time].
  split; congruence.
Qed.

(** The player on the gate of Ground, all tasks done, 0.7 s after a
    passage: the frame leaves them in Ground. *)
Lemma no_pathway_while_cooling_witness :
  let g := Game.set_pathway_cooldown (7 # 10) gate_ready_game in
  let g' := final_state (Game.update (cfg := sample_settings) no_keys_pressed (1 # 60) g) in
  ((1 # 60) < Game.pathway_cooldown g)%Q /\
  Game.update (cfg := sample_settings) no_keys_pressed (1 # 60) g = Ok g' tt /\
  Game.zone g' = Game.zone g /\
  Game.pathway_cooldown g' = (Game.pathway_cooldown g - (1 # 60))%Q.
Proof.
  cbv zeta.
  assert (H1 : ((1 # 60) < Game.pathway_cooldown
                             (Game.set_pathway_cooldown (7 # 10) gate_ready_game))%Q)
    by (vm_compute; reflexivity).
  assert (H2 : Game.update (cfg := sample_settings) no_keys_pressed (1 # 60)
                 (Game.set_pathway_cooldown (7 # 10) gate_ready_game)
               = Ok (final_state (Game.update (cfg := sample_settings) no_keys_pressed (1 # 60)
                                    (Game.set_pathway_cooldown (7 # 10) gate_ready_game))) tt)
    by (vm_compute; reflexivity).
  split; [exact H1|]. split; [exact H2|].
  exact (no_pathway_while_cooling (cfg := sample_settings) no_keys_pressed (1 # 60) _ _ H1 H2).
Defined.

(** ** Frames that cannot fail *)

Lemma route_in_range_kept (s s' : gmap addr Guard.t) (a : addr) (guard : Guard.t) :
  route <$> s' = route <$> s ->
  s !! a = Some guard -> route_in_range guard ->
  exists guard', s' !! a = Some guard' /\ route_in_range guard'.
Proof.
  intros Hr Hl Hin.
  pose proof (f_equal (fun m => m !! a) Hr) as H. cbn in H.
  rewrite !lookup_fmap, Hl in H. cbn in H.
  destruct (s' !! a) as [guard'|]; [|discriminate].
  exists guard'. split; [reflexivity|]. cbn in H. injection H as H1 H2.
  unfold route_in_range in *. rewrite H1, H2. exact Hin.
Qed.

Lemma guards_in_order_kept (g g' : Game.t) :
  Game.guards g' = Game.guards g ->
  route <$> Game.guard_store g' = route <$> Game.guard_store g ->
  guards_in_order g -> guards_in_order g'.
Proof.
  intros Hg Hr Hin z. destruct (Hin z) as [Hnd Hwf]. rewrite Hg. split; [exact Hnd|].
  intros a Ha. destruct (Hwf a Ha) as (guard & Hl & Hrange).
  exact (route_in_range_kept _ _ a guard Hr Hl Hrange).
Qed.

Lemma guard_pass_in_order `{cfg : Settings} (dt : Q) (obstacles : list Rect) (g : Game.t) :
  guards_in_order g ->
  exists g' any_alert,
    Game.guard_pass dt obstacles g = Ok g' any_alert /\ guards_in_order g'.
Proof.
  intros Hin. destruct (Hin (Game.zone g)) as [Hnd Hwf].
  destruct (guard_loop_live dt obstacles (Game.guards g (Game.zone g)) [] false g
              eq_refl Hnd Hwf)
    as (g' & any' & Hloop & Hz & Hlist & Hother & _ & Hkeep).
  exists g', any'. split; [exact Hloop|]. cbn [app] in Hlist.
  intros z. destruct (Hin z) as [Hndz Hwfz].
  destruct (decide (z = Game.zone g)) as [->|Hne].
  - rewrite Hlist. split; [apply List.NoDup_filter; exact Hnd|].
    intros a Ha. apply filter_In in Ha. destruct Ha as [Ha _].
    destruct (Hwf a Ha) as (gd & Hl & Hr). exact (Hkeep a gd Hl Hr).
  - rewrite (Hother z Hne). split; [exact Hndz|].
    intros a Ha. destruct (Hwfz a Ha) as (gd & Hl & Hr). exact (Hkeep a gd Hl Hr).
Qed.

Lemma frame_in_order `{cfg : Settings} (k : Pressed) (dt : Q) (g : Game.t) :
  guards_in_order g ->
  exists g', Game.frame k dt g = Ok g' tt /\ guards_in_order g'.
Proof.
  intros Hin. unfold Game.frame.
  destruct (Game.state g); [exists g; split; [reflexivity|exact Hin]|].
  destruct (negb (Game.game_over g) && negb (Game.victory g));
    [|exists g; split; [reflexivity|exact Hin]].
  rewrite update_stages.
  set (obstacles := Game.frame_obstacles (Game.zone g)).
  set (G1 := Game.control k dt obstacles _).
  assert (H1 : guards_in_order G1).
  { pose proof (whole_begin_frame dt g) as (_ & _ & _ & _ & B).
    pose proof (whole_validate_player_position (Game.begin_frame dt g)) as V.
    pose proof (whole_control k dt obstacles
                  (Game.validate_player_position (Game.begin_frame dt g))) as C.
    fold G1 in C. rewrite V in C. pose proof (f_equal snd C) as C5. cbn [snd whole] in C5.
    rewrite B in C5.
    apply (guards_in_order_kept g G1); [exact (f_equal fst C5)| |exact Hin].
    exact (f_equal (fmap route) (f_equal snd C5)). }
  destruct (guard_pass_in_order dt obstacles G1 H1) as (G2 & any_alert & Hpass & H2).
  pose proof (update_before_gates k dt g G2 any_alert) as Hstage.
  fold obstacles in Hstage. fold G1 in Hstage. specialize (Hstage Hpass).
  rewrite Hpass. cbv zeta in Hstage.
  destruct Hstage as (_ & _ & _ & Hg5 & Hr5 & _).
  set (G5 := Game.bullet_pass _ _) in *.
  destruct (gate_loop_keeps (zone_gates (Game.zone g)) G5) as (G6 & Hloop & _ & _ & P6).
  rewrite Hloop. eexists. split; [reflexivity|].
  pose proof (whole_extraction_check (zone_extraction (Game.zone g)) G6) as E.
  pose proof (f_equal snd E) as E5. cbn [snd whole] in E5.
  apply (guards_in_order_kept G2).
  - transitivity (Game.guards G6); [exact (f_equal fst E5)|].
    transitivity (Game.guards G5); [exact (f_equal fst P6)|exact Hg5].
  - transitivity (route <$> Game.guard_store G6);
      [exact (f_equal (fmap route) (f_equal snd E5))|].
    transitivity (route <$> Game.guard_store G5);
      [exact (f_equal (fmap route) (f_equal snd P6))|exact Hr5].
  - exact H2.
Qed.

(** X7: when the guards of every zone are distinct objects with their patrol
    indices in range, any sequence of frames runs to its end without an
    exception, whatever keys are held and whatever the time steps are, and
    the guards are in order again at the end. *)
Theorem frames_never_raise `{cfg : Settings} (inputs : list (Pressed * Q)) (g : Game.t) :
  guards_in_order g ->
  exists g', frames inputs g = Ok g' tt /\ guards_in_order g'.
Proof.
  revert g. induction inputs as [|[k dt] rest IH]; intros g Hin; cbn [frames].
  - exists g. split; [reflexivity|exact Hin].
  - destruct (frame_in_order k dt g Hin) as (g1 & Hframe & Hin1). rewrite Hframe.
    exact (IH g1 Hin1).
Qed.

(** Two frames of the round with a dead guard and a living one. *)
Lemma frames_never_raise_witness :
  guards_in_order two_guard_game /\
  exists g',
    frames (cfg := sample_settings) [(no_keys_pressed, 1 # 60); (no_keys_pressed, 1 # 2)]
      two_guard_game = Ok g' tt /\
    guards_in_order g'.
Proof.
  assert (Hin : guards_in_order two_guard_game).
  { intros z. destruct z; cbn; (split; [repeat constructor; cbn; intuition lia|]).
    - intros a [<-|[<-|[]]].
      + exists dead_guard. split; [reflexivity|]. unfold route_in_range. vm_compute. lia.
      + exists distant_guard. split; [reflexivity|]. unfold route_in_range. vm_compute. lia.
    - intros a [].
    - intros a [].
    - intros a []. }
  split; [exact Hin|].
  exact (frames_never_raise (cfg := sample_settings)
           [(no_keys_pressed, 1 # 60); (no_keys_pressed, 1 # 2)] two_guard_game Hin).
Defined.

(** ** What holds throughout a round *)

Lemma played_round_reachable : reachable (cfg := sample_settings) played_round.
Proof.
  apply (reach_frame (cfg := sample_settings) no_keys_pressed (1 # 60)
           (Game.interact first_frame) played_round).
  - apply (reach_interact (cfg := sample_settings) first_frame).
    + apply (reach_frame (cfg := sample_settings) no_keys_pressed (1 # 60)
               fresh_round first_frame).
      * apply reach_reset.
      * vm_compute. reflexivity.
    + vm_compute. reflexivity.
  - vm_compute. reflexivity.
Defined.

(** X8: in every state a round can reach the program is playing, the boat
    escape is not active, the rectangle of the player is 22 by 32 and there
    are two survivors with rectangles of 20 by 30: frames, interactions and
    shots move rectangles but never resize them. *)
Theorem round_keeps_its_shape `{cfg : Settings} (g : Game.t) :
  reachable g ->
  Game.state g = Playing /\ Game.boat_escape_active g = false /\
  rect_size (Game.player_rect g) = (22, 32) /\
  map (fun n => rect_size (NPC.rect n)) (Game.npcs g) = [(20, 30); (20, 30)].
Proof.
  intros Hreach.
  enough (H : exists prof its, fixture g = (Playing, false, prof, its, (22, 32), [(20, 30); (20, 30)])).
  { destruct H as (prof & its & H).
    split; [exact (f_equal (fun w => fst (fst (fst (fst (fst w))))) H)|].
    split; [exact (f_equal (fun w => snd (fst (fst (fst (fst w))))) H)|].
    split; [exact (f_equal (fun w => snd (fst w)) H)|exact (f_equal snd H)]. }
  induction Hreach as [prof built store gp ap cp kp g0 | k dt g g' _ IH Hframe
                      | g _ IH Hstate | mouse_pos g _ IH].
  - eexists _, _. reflexivity.
  - destruct IH as (prof & its & IH). exists prof, its.
    destruct (frame_keeps k dt g g' Hframe) as [Hf _]. rewrite Hf. exact IH.
  - destruct IH as (prof & its & IH). exists prof, its.
    pose proof (f_equal (fun w => fst (fst (fst (fst w)))) (whole_interact g)) as Hf.
    cbn [fst whole] in Hf. rewrite Hf. exact IH.
  - destruct IH as (prof & its & IH). exists prof, its.
    pose proof (f_equal (fun w => fst (fst (fst (fst w)))) (whole_click mouse_pos g)) as Hf.
    cbn [fst whole] in Hf. rewrite Hf. exact IH.
Qed.

Lemma round_keeps_its_shape_witness :
  reachable (cfg := sample_settings) played_round /\
  Game.state played_round = Playing /\ Game.boat_escape_active played_round = false /\
  rect_size (Game.player_rect played_round) = (22, 32) /\
  map (fun n => rect_size (NPC.rect n)) (Game.npcs played_round) = [(20, 30); (20, 30)].
Proof.
  split; [exact played_round_reachable|].
  exact (round_keeps_its_shape (cfg := sample_settings) played_round played_round_reachable).
Defined.

(** X9: in a round whose difficulty gives the player some health and the
    guards a damage that is not negative, the flag of defeat is set exactly
    when the health of the player is zero or less, and the health never
    exceeds the health the difficulty starts with. *)
Theorem defeat_exactly_at_zero_health `{cfg : Settings} (g : Game.t) :
  reachable g ->
  0 < player_health (Game.profile g) ->
  0 <= guard_damage (Game.profile g) ->
  (Game.game_over g = true <-> Player.health (Game.player g) <= 0) /\
  Player.health (Game.player g) <= player_health (Game.profile g).
Proof.
  intros Hreach.
  induction Hreach as [prof built store gp ap cp kp g0 | k dt g g' _ IH Hframe
                      | g _ IH Hstate | mouse_pos g _ IH]; intros Hpos Hdmg.
  - cbn in *. split; [|lia]. split; [discriminate|lia].
  - destruct (frame_keeps k dt g g' Hframe) as [Hf Hv].
    assert (Hprof : Game.profile g' = Game.profile g)
      by exact (f_equal (fun w => snd (fst (fst (fst w)))) Hf).
    rewrite Hprof in *. destruct (IH Hpos Hdmg) as [Hrec Hle].
    destruct (Hv Hdmg Hrec) as [Hrec' Hle']. split; [exact Hrec'|lia].
  - pose proof (whole_interact g) as W.
    assert (Hprof : Game.profile (Game.interact g) = Game.profile g)
      by exact (f_equal (fun w => snd (fst (fst (fst (fst (fst (fst (fst w)))))))) W).
    pose proof (f_equal (fun w => snd (fst (fst (fst w)))) W) as Hv. cbn [fst snd whole vital] in Hv.
    injection Hv as Hh Ho. rewrite Hprof, Hh, Ho in *. exact (IH Hpos Hdmg).
  - pose proof (whole_click mouse_pos g) as W.
    assert (Hprof : Game.profile (Game.click mouse_pos g) = Game.profile g)
      by exact (f_equal (fun w => snd (fst (fst (fst (fst (fst (fst (fst w)))))))) W).
    pose proof (f_equal (fun w => snd (fst (fst (fst w)))) W) as Hv. cbn [fst snd whole vital] in Hv.
    injection Hv as Hh Ho. rewrite Hprof, Hh, Ho in *. exact (IH Hpos Hdmg).
Qed.

Lemma defeat_exactly_at_zero_health_witness :
  reachable (cfg := sample_settings) played_round /\
  0 < player_health (Game.profile played_round) /\
  0 <= guard_damage (Game.profile played_round) /\
  (Game.game_over played_round = true <-> Player.health (Game.player played_round) <= 0) /\
  Player.health (Game.player played_round) <= player_health (Game.profile played_round).
Proof.
  assert (H1 : 0 < player_health (Game.profile played_round)) by (vm_compute; reflexivity).
  assert (H2 : 0 <= guard_damage (Game.profile played_round)) by (vm_compute; discriminate).
  split; [exact played_round_reachable|]. split; [exact H1|]. split; [exact H2|].
  exact (defeat_exactly_at_zero_health (cfg := sample_settings) played_round
           played_round_reachable H1 H2).
Defined.

(** ** Interactions and shots *)

Lemma keys_after_keeps (p : Rect) (its : ZoneItems) (ks : KeyRing) (k : Key) :
  get_key k ks = true -> get_key k (keys_after p its ks) = true.
Proof.
  unfold keys_after. cbn [fold_left]. intros Hk.
  repeat match goal with |- context [if ?c then _ else _] => destruct c end;
    destruct k, ks as [[] [] []]; cbn in *; congruence.
Qed.

Lemma npc_follow_loop_only_follows (p : Rect) (z : Zone) (ns : list NPC.t) :
  Forall2 (fun n n' => NPC.char n' = NPC.char n /\ NPC.zone n' = NPC.zone n /\
                       NPC.rescued n' = NPC.rescued n /\
                       (NPC.following n = true -> NPC.following n' = true))
          ns (fst (Game.npc_follow_loop p z ns)).
Proof.
  induction ns as [|n rest IH]; cbn [Game.npc_follow_loop]; [constructor|].
  destruct (Game.npc_follow_loop p z rest) as [rest' any]. cbn [fst] in IH.
  match goal with |- context [if ?c then _ else _] => destruct c end;
    cbn [fst]; constructor; try exact IH; repeat split; auto.
Qed.

(** X10: [interact] only gains.  One call never lowers the ammunition, adds
    at most one clue, keeps every collected identifier, the pistol and every
    key the player holds, leaves the zone, the player's rectangle, health and
    rescue counter alone, and changes a survivor at most by making it follow. *)
Theorem interact_only_gains (g : Game.t) :
  let p := Game.player g in
  let p' := Game.player (Game.interact g) in
  Player.ammo p <= Player.ammo p' /\
  Player.clues p <= Player.clues p' <= Player.clues p + 1 /\
  Game.collected g ⊆ Game.collected (Game.interact g) /\
  (Player.has_gun p = true -> Player.has_gun p' = true) /\
  (forall k, get_key k (Player.keys p) = true -> get_key k (Player.keys p') = true) /\
  Player.rescued_npcs p' = Player.rescued_npcs p /\
  Player.health p' = Player.health p /\
  Game.zone (Game.interact g) = Game.zone g /\
  Game.player_rect (Game.interact g) = Game.player_rect g /\
  Forall2 (fun n n' => NPC.char n' = NPC.char n /\ NPC.zone n' = NPC.zone n /\
                       NPC.rescued n' = NPC.rescued n /\
                       (NPC.following n = true -> NPC.following n' = true))
          (Game.npcs g) (Game.npcs (Game.interact g)).
Proof.
  cbv zeta. pose proof (interact_view g) as V. pose proof (whole_interact g) as W.
  pose proof (f_equal v_ammo V) as Va. pose proof (f_equal v_clues V) as Vc.
  pose proof (f_equal v_collected V) as Vs. pose proof (f_equal v_has_gun V) as Vg.
  pose proof (f_equal v_keys V) as Vk. pose proof (f_equal v_rescued V) as Vr.
  pose proof (f_equal v_zone V) as Vz. pose proof (f_equal v_rect V) as Vp.
  pose proof (f_equal v_npcs V) as Vn.
  cbn [view v_ammo v_clues v_collected v_has_gun v_keys v_rescued v_zone v_rect v_npcs] in *.
  rewrite Va, Vc, Vs, Vg, Vk, Vr, Vz, Vp, Vn.
  split; [destruct (gun_collectable g); cbn [b2z]; lia|].
  split; [destruct (clue_collectable g); cbn [b2z]; lia|].
  split; [set_solver|].
  split; [intros ->; reflexivity|].
  split; [intros k; apply keys_after_keeps|].
  split; [reflexivity|].
  split; [exact (f_equal (fun w => fst (snd (fst (fst (fst w))))) W)|].
  split; [reflexivity|]. split; [reflexivity|].
  apply npc_follow_loop_only_follows.
Qed.

(** X11: a click costs one round for one bullet.  Either nothing happens, or
    the game is playing, the player holds the pistol with ammunition left,
    one round is spent, one live bullet of the player is added at the centre
    of the player's rectangle and the gunshot sound is requested. *)
Theorem click_spends_one_round `{cfg : Settings} (mouse_pos : Z * Z) (g : Game.t) :
  let g' := Game.click mouse_pos g in
  g' = g \/
  (exists b,
     Game.bullets g' = Game.bullets g ++ [b] /\
     Bullet.owner b = "player" /\ Bullet.alive b = true /\
     Bullet.pos b = Vec_of_ints (center (Game.player_rect g)) /\
     Player.ammo (Game.player g') = Player.ammo (Game.player g) - 1 /\
     0 < Player.ammo (Game.player g) /\
     Player.has_gun (Game.player g) = true /\
     Game.state g = Playing /\
     Game.audio g' = Game.audio g ++ [play_sound "gunshot" false]).
Proof.
  cbv zeta. unfold Game.click.
  destruct (Game.state g) eqn:Hs; [left; reflexivity|].
  destruct (Game.boat_escape_active g); [left; reflexivity|].
  unfold Player.try_shoot.
  destruct (Player.has_gun (Game.player g)) eqn:Hg; cbn [negb orb].
  2:{ left. destruct g; reflexivity. }
  destruct (Player.ammo (Game.player g) <=? 0) eqn:Ha; cbn [orb].
  { left. destruct g; reflexivity. }
  destruct (Qltb 0 (Player.fire_cooldown (Game.player g))).
  { left. destruct g; reflexivity. }
  right. apply Z.leb_gt in Ha. cbv zeta.
  eexists. split; [reflexivity|].
  repeat split; try reflexivity; exact Ha.
Qed.

(** ** Survivors *)

Lemma resolve_y_still (v : Q) (walls : list Rect) (p : Rect) :
  (v == 0)%Q -> fold_left (Character.resolve_y v) walls p = p.
Proof.
  intros Hv. rewrite fold_resolve_y_transpose, (resolve_x_still v _ _ Hv).
  apply transpose_involutive.
Qed.

Lemma move_and_collide_still (obstacles : list Rect) (c : Character.t) :
  Character.vel c = mkVec 0 0 ->
  Character.rect (Character.move_and_collide obstacles c) = Character.rect c.
Proof.
  intros Hv. unfold Character.move_and_collide, Character.move_x, Character.move_y.
  cbn [Character.rect Character.set_rect]. rewrite Hv. cbn [vx vy].
  change (py_int 0) with 0. rewrite !Z.add_0_r.
  assert (Hx : forall r, set_x (rx r) r = r) by (intros []; reflexivity).
  assert (Hy : forall r, set_y (ry r) r = r) by (intros []; reflexivity).
  rewrite Hx, (resolve_x_still 0 _ _ (Qeq_refl 0)), Hy.
  apply (resolve_y_still 0 _ _ (Qeq_refl 0)).
Qed.

(** X12: [NPC.update] never changes the zone or the flags of a survivor, and
    it moves the survivor only when it follows, is not yet rescued, and is
    farther than 50 from the player or nearer than 30 (and not at the very
    same point): between 30 and 50 a follower stands still. *)
Theorem NPC_update_moves_outside_band `{cfg : Settings} (player : Player.t)
    (obstacles : list Rect) (n : NPC.t) :
  NPC.rect (NPC.update player obstacles n) <> NPC.rect n ->
  NPC.following n = true /\ NPC.rescued n = false /\
  ((2500 < length_squared (to_leader player n))%Q \/
   (0 < length_squared (to_leader player n) < 900)%Q) /\
  NPC.zone (NPC.update player obstacles n) = NPC.zone n /\
  NPC.following (NPC.update player obstacles n) = NPC.following n /\
  NPC.rescued (NPC.update player obstacles n) = NPC.rescued n.
Proof.
  unfold NPC.update. fold (to_leader player n).
  destruct (NPC.rescued n) eqn:Hr; [intros H; destruct (H eq_refl)|].
  destruct (NPC.following n) eqn:Hf; [|intros H; destruct (H eq_refl)].
  cbv zeta. intros Hmoved.
  split; [reflexivity|]. split; [reflexivity|].
  split; [|cbn; rewrite Hr, Hf; repeat split; reflexivity].
  assert (Hstill : forall v, v = mkVec 0 0 ->
            NPC.rect (NPC.set_char (Character.move_and_collide obstacles
                                      (Character.set_vel v (NPC.char n))) n) = NPC.rect n).
  { intros v ->. unfold NPC.rect. cbn [NPC.char NPC.set_char].
    rewrite move_and_collide_still; reflexivity. }
  unfold length_gt, length_le, length_lt in Hmoved.
  change (Qleb 0 50) with true in Hmoved. change (Qltb 0 30) with true in Hmoved.
  cbn [andb] in Hmoved.
  destruct (Qleb (length_squared (to_leader player n)) (50 * 50)) eqn:Hfar; cbn [negb] in Hmoved.
  - destruct (Qltb (length_squared (to_leader player n)) (30 * 30)) eqn:Hnear.
    + destruct (Qltb 0 (length_squared (to_leader player n))) eqn:Hpos.
      * right. apply Qltb_lt in Hnear, Hpos. split; [exact Hpos|]. lra.
      * exfalso. apply Hmoved. apply Hstill. reflexivity.
    + exfalso. apply Hmoved. apply Hstill. reflexivity.
  - destruct (Qltb 0 (length_squared (to_leader player n))) eqn:Hpos.
    + left. apply Qleb_gt in Hfar. lra.
    + exfalso. apply Hmoved. apply Hstill. reflexivity.
Qed.

(** The follower is some 350 pixels from the sample player and walks. *)
Lemma NPC_update_moves_outside_band_witness :
  NPC.rect (NPC.update (cfg := sample_settings) sample_player [] follower) <> NPC.rect follower /\
  NPC.following follower = true /\ NPC.rescued follower = false /\
  ((2500 < length_squared (to_leader sample_player follower))%Q \/
   (0 < length_squared (to_leader sample_player follower) < 900)%Q) /\
  NPC.zone (NPC.update (cfg := sample_settings) sample_player [] follower) = NPC.zone follower /\
  NPC.following (NPC.update (cfg := sample_settings) sample_player [] follower)
  = NPC.following follower /\
  NPC.rescued (NPC.update (cfg := sample_settings) sample_player [] follower)
  = NPC.rescued follower.
Proof.
  assert (H : NPC.rect (NPC.update (cfg := sample_settings) sample_player [] follower)
              <> NPC.rect follower) by (vm_compute; discriminate).
  split; [exact H|].
  exact (NPC_update_moves_outside_band (cfg := sample_settings) sample_player [] follower H).
Defined.

(** ** Guards and survivors against the walls *)

Lemma py_int_bound (q : Q) (n : Z) :
  0 <= n -> (- inject_Z n <= q <= inject_Z n)%Q -> - n <= py_int q <= n.
Proof.
  intros Hn [Hlo Hhi]. destruct q as [num den]. unfold py_int. cbn [Qnum Qden].
  unfold Qle, inject_Z, Qopp in Hlo, Hhi. cbn [Qnum Qden] in Hlo, Hhi.
  split.
  - rewrite <- (Z.quot_mul (- n) (Z.pos den)) by lia.
    apply Z.quot_le_mono; lia.
  - rewrite <- (Z.quot_mul n (Z.pos den)) by lia.
    apply Z.quot_le_mono; lia.
Qed.

Lemma scaled_step_bound (a s : Q) (n : Z) :
  0 <= n -> (-1 <= a <= 1)%Q -> (- inject_Z n <= s <= inject_Z n)%Q ->
  Z.abs (py_int (a * s)) <= n.
Proof.
  intros Hn Ha Hs.
  assert (Hb : (- inject_Z n <= a * s <= inject_Z n)%Q) by (split; nra).
  pose proof (py_int_bound (a * s) n Hn Hb). lia.
Qed.

Lemma move_and_collide_free (obstacles : list Rect) (c : Character.t) :
  Forall nonneg_size obstacles ->
  nonneg_size (Character.rect c) ->
  Z.abs (py_int (vx (Character.vel c))) <= rw (Character.rect c) ->
  Z.abs (py_int (vy (Character.vel c))) <= rh (Character.rect c) ->
  overlaps_none obstacles (Character.rect c) ->
  overlaps_none obstacles (Character.rect (Character.move_and_collide obstacles c)).
Proof.
  intros Hwalls Hsize Hvx Hvy Hfree.
  unfold Character.move_and_collide. cbn [Character.rect Character.set_rect].
  destruct (move_x_clear (vx (Character.vel c)) obstacles (Character.rect c)
              Hwalls Hsize Hvx Hfree) as (Hfree1 & _ & Hw1 & Hh1).
  cbv zeta in Hfree1, Hw1, Hh1.
  destruct (move_y_clear (vy (Character.vel c)) obstacles
              (Character.move_x (vx (Character.vel c)) obstacles (Character.rect c)))
    as (Hfree2 & _); try assumption.
  - unfold nonneg_size in *. rewrite Hw1, Hh1. exact Hsize.
  - rewrite Hh1. exact Hvy.
Qed.

(** X13: a follower that is clear of the walls stays clear of them.  With a
    [normalize] whose results have coordinates between -1 and 1, walls of
    sizes that are not negative and a survivor of the size the game gives
    it, [NPC.update] leaves the survivor's rectangle overlapping no wall. *)
Theorem NPC_update_stays_clear `{cfg : Settings} (player : Player.t)
    (obstacles : list Rect) (n : NPC.t) :
  (forall v, unit_box (normalize v)) ->
  Forall nonneg_size obstacles ->
  rect_size (NPC.rect n) = (20, 30) ->
  overlaps_none obstacles (NPC.rect n) ->
  overlaps_none obstacles (NPC.rect (NPC.update player obstacles n)) /\
  rect_size (NPC.rect (NPC.update player obstacles n)) = (20, 30).
Proof.
  intros Hunit Hwalls Hsize Hfree.
  split; [|rewrite NPC_update_size; exact Hsize].
  unfold NPC.update. destruct (NPC.rescued n); [exact Hfree|].
  destruct (NPC.following n); [|exact Hfree].
  cbv zeta. unfold NPC.rect in *. cbn [NPC.char NPC.set_char].
  injection Hsize as Hw Hh.
  set (tp := Vec_sub _ _).
  destruct (Hunit tp) as [Hx Hy].
  assert (Hzero : Z.abs (py_int 0) <= 2) by (vm_compute; discriminate).
  apply move_and_collide_free; cbn [Character.rect Character.vel Character.set_vel];
    try assumption.
  - unfold nonneg_size. lia.
  - rewrite Hw. transitivity 3; [|lia].
    repeat match goal with |- context [if ?c then _ else _] => destruct c end;
      cbn [vx Vec_scale Vec_neg]; try (vm_compute; discriminate);
      apply scaled_step_bound; try lia; try lra; unfold inject_Z; lra.
  - rewrite Hh. transitivity 3; [|lia].
    repeat match goal with |- context [if ?c then _ else _] => destruct c end;
      cbn [vy Vec_scale Vec_neg]; try (vm_compute; discriminate);
      apply scaled_step_bound; try lia; try lra; unfold inject_Z; lra.
Qed.

Lemma Guard_steer_bounds `{cfg : Settings} (player : Player.t) (obstacles : list Rect)
    (g g1 : Guard.t) :
  (forall v, unit_box (normalize v)) ->
  unit_box (Character.look_dir (Guard.char g)) ->
  (- inject_Z 22 <= guard_speed (Guard.profile g) <= inject_Z 22)%Q ->
  (if Guard.can_see player obstacles g
   then Ok (Guard.pursue (Guard.to_player player g)
              (Guard.set_alerted (Guard.can_see player obstacles g) g)) tt
   else Guard.patrol (Guard.set_alerted (Guard.can_see player obstacles g) g)) = Ok g1 tt ->
  Guard.rect g1 = Guard.rect g /\
  Z.abs (py_int (vx (Character.vel (Guard.char g1)))) <= 22 /\
  Z.abs (py_int (vy (Character.vel (Guard.char g1)))) <= 22 /\
  unit_box (Character.look_dir (Guard.char g1)).
Proof.
  intros Hunit Hlook Hspeed.
  assert (Hzero : Z.abs (py_int 0) <= 22) by (vm_compute; discriminate).
  assert (Hstep : forall v, unit_box v ->
            Z.abs (py_int (vx (Vec_scale v (guard_speed (Guard.profile g))))) <= 22 /\
            Z.abs (py_int (vy (Vec_scale v (guard_speed (Guard.profile g))))) <= 22).
  { intros v [Hx Hy]. cbn [vx vy Vec_scale].
    split; apply scaled_step_bound; (lia || assumption). }
  destruct (Guard.can_see player obstacles g).
  - intros [= <-]. unfold Guard.pursue, Guard.rect.
    cbn [Guard.char Guard.set_char Guard.set_alerted Guard.profile Character.rect
         Character.vel Character.look_dir Character.set_vel].
    destruct (Qltb 0 (length_squared (Guard.to_player player g)));
      destruct (length_gt (Guard.to_player player g) 75);
      cbn [Character.rect Character.look_dir Character.set_look_dir vx vy];
      (split; [reflexivity|]);
      first [ split; [apply (Hstep _ (Hunit _))|split; [apply (Hstep _ (Hunit _))|apply Hunit]]
            | split; [apply (Hstep _ Hlook)|split; [apply (Hstep _ Hlook)|exact Hlook]]
            | split; [exact Hzero|split; [exact Hzero|first [apply Hunit|exact Hlook]]] ].
  - unfold Guard.patrol.
    cbn [Guard.patrol_points Guard.current_patrol Guard.set_alerted].
    destruct (Guard.patrol_points g !! Guard.current_patrol g) as [target|]; [|discriminate].
    destruct (length_lt _ 10).
    + cbn [Guard.patrol_points Guard.current_patrol Guard.set_alerted].
      destruct (Guard.patrol_points g !! ((Guard.current_patrol g + 1) mod length (Guard.patrol_points g))%nat)
        as [target'|]; [|discriminate].
      intros [= <-]. unfold Guard.rect.
      cbn [Guard.char Guard.set_char Guard.set_current_patrol Guard.set_alerted Guard.profile
           Character.rect Character.vel Character.look_dir Character.set_vel].
      match goal with |- context [Qltb 0 ?x] => destruct (Qltb 0 x) end;
        cbn [Character.rect Character.vel Character.look_dir Character.set_look_dir
             Character.set_vel vx vy];
        (split; [reflexivity|]);
        first [ split; [apply (Hstep _ (Hunit _))|split; [apply (Hstep _ (Hunit _))|apply Hunit]]
              | split; [exact Hzero|split; [exact Hzero|exact Hlook]] ].
    + intros [= <-]. unfold Guard.rect.
      cbn [Guard.char Guard.set_char Guard.set_current_patrol Guard.set_alerted Guard.profile
           Character.rect Character.vel Character.look_dir Character.set_vel].
      match goal with |- context [Qltb 0 ?x] => destruct (Qltb 0 x) end;
        cbn [Character.rect Character.vel Character.look_dir Character.set_look_dir
             Character.set_vel vx vy];
        (split; [reflexivity|]);
        first [ split; [apply (Hstep _ (Hunit _))|split; [apply (Hstep _ (Hunit _))|apply Hunit]]
              | split; [exact Hzero|split; [exact Hzero|exact Hlook]] ].
Qed.

(** X14: a guard that is clear of the walls stays clear of them.  With a
    [normalize] whose results have coordinates between -1 and 1, a guard of
    the size the game gives it that looks along such a vector, and a speed of
    at most 22 pixels a frame, [Guard.update] leaves the guard's rectangle
    overlapping no wall, of the same size, and the guard still looks along
    such a vector: the property carries from frame to frame. *)
Theorem Guard_update_stays_clear `{cfg : Settings} (dt : Q) (player : Player.t)
    (obstacles : list Rect) (g g' : Guard.t) (shot : option Bullet.t) :
  (forall v, unit_box (normalize v)) ->
  Forall nonneg_size obstacles ->
  rect_size (Guard.rect g) = (22, 32) ->
  unit_box (Character.look_dir (Guard.char g)) ->
  (- inject_Z 22 <= guard_speed (Guard.profile g) <= inject_Z 22)%Q ->
  overlaps_none obstacles (Guard.rect g) ->
  Guard.update dt player obstacles g = Ok g' shot ->
  overlaps_none obstacles (Guard.rect g') /\
  rect_size (Guard.rect g') = (22, 32) /\
  unit_box (Character.look_dir (Guard.char g')).
Proof.
  intros Hunit Hwalls Hsize Hlook Hspeed Hfree. unfold Guard.update. cbv zeta.
  pose proof (Guard_steer_bounds player obstacles g) as Hsteer.
  destruct (if Guard.can_see player obstacles g then _ else _) as [g1 []|g1 e];
    [|discriminate].
  destruct (Hsteer g1 Hunit Hlook Hspeed eq_refl) as (Hrect & Hvx & Hvy & Hlook1).
  unfold Guard.rect in *. injection Hsize as Hw Hh.
  assert (Hclear : overlaps_none obstacles
                     (Character.rect (Character.move_and_collide obstacles (Guard.char g1)))).
  { apply move_and_collide_free; try assumption.
    - rewrite Hrect. unfold nonneg_size. lia.
    - rewrite Hrect, Hw. exact Hvx.
    - rewrite Hrect, Hh. lia.
    - rewrite Hrect. exact Hfree. }
  assert (Hsz : rect_size (Character.rect (Character.move_and_collide obstacles (Guard.char g1)))
                = (22, 32)).
  { rewrite move_and_collide_size, Hrect. unfold rect_size. rewrite Hw, Hh. reflexivity. }
  match goal with |- context [if ?c then _ else _] => destruct c end;
    intros [= <- _];
    cbn [Guard.char Guard.set_char Guard.set_shoot_timer Character.rect Character.look_dir
         Character.set_muzzle_timer];
    (split; [exact Hclear|split; [exact Hsz|exact Hlook1]]).
Qed.

Lemma sample_normalize_unit (v : Vec) : unit_box (sample_normalize v).
Proof.
  assert (H : forall a b : Q, (-1 <= a / (Qabs a + Qabs b) <= 1)%Q).
  { intros a b.
    pose proof (Qabs_nonneg a) as Ha. pose proof (Qabs_nonneg b) as Hb.
    pose proof (Qle_Qabs a) as Ha1. pose proof (Qle_Qabs (- a)) as Ha2.
    rewrite Qabs_opp in Ha2.
    destruct (Qeq_dec (Qabs a + Qabs b) 0) as [Hz|Hnz].
    - unfold Qdiv. rewrite Hz. change (/ 0)%Q with 0%Q. lra.
    - assert (Hpos : (0 < Qabs a + Qabs b)%Q) by lra.
      split.
      + apply Qle_shift_div_l; [exact Hpos|]. lra.
      + apply Qle_shift_div_r; [exact Hpos|]. lra. }
  unfold unit_box, sample_normalize. cbn [vx vy]. split; [apply H|].
  rewrite (Qplus_comm (Qabs (vx v))). apply H.
Qed.

Lemma overlaps_none_check (obstacles : list Rect) (r : Rect) :
  forallb (fun w => negb (colliderect r w)) obstacles = true -> overlaps_none obstacles r.
Proof.
  intros H w Hin. rewrite forallb_forall in H. specialize (H w Hin).
  apply negb_true_iff in H. exact H.
Qed.

Lemma nonneg_size_check (obstacles : list Rect) :
  forallb (fun w => (0 <=? rw w) && (0 <=? rh w)) obstacles = true ->
  Forall nonneg_size obstacles.
Proof.
  intros H. apply List.Forall_forall. intros w Hin. rewrite forallb_forall in H.
  specialize (H w Hin). apply andb_true_iff in H. destruct H as [H1 H2].
  apply Z.leb_le in H1, H2. split; assumption.
Qed.

(** The follower among the walls of the Estate. *)
Lemma NPC_update_stays_clear_witness :
  let walls := Game.frame_obstacles (cfg := sample_settings) Estate in
  (forall v, unit_box (normalize (Settings := sample_settings) v)) /\
  Forall nonneg_size walls /\
  rect_size (NPC.rect follower) = (20, 30) /\
  overlaps_none walls (NPC.rect follower) /\
  overlaps_none walls (NPC.rect (NPC.update (cfg := sample_settings) sample_player walls follower)) /\
  rect_size (NPC.rect (NPC.update (cfg := sample_settings) sample_player walls follower)) = (20, 30).
Proof.
  cbv zeta.
  assert (H1 : forall v, unit_box (normalize (Settings := sample_settings) v))
    by exact sample_normalize_unit.
  assert (H2 : Forall nonneg_size (Game.frame_obstacles (cfg := sample_settings) Estate))
    by (apply nonneg_size_check; vm_compute; reflexivity).
  assert (H3 : rect_size (NPC.rect follower) = (20, 30)) by reflexivity.
  assert (H4 : overlaps_none (Game.frame_obstacles (cfg := sample_settings) Estate)
                 (NPC.rect follower))
    by (apply overlaps_none_check; vm_compute; reflexivity).
  split; [exact H1|]. split; [exact H2|]. split; [exact H3|]. split; [exact H4|].
  exact (NPC_update_stays_clear (cfg := sample_settings) sample_player _ follower H1 H2 H3 H4).
Defined.

(** The guard next to the sample player, among the walls of Ground. *)
Lemma Guard_update_stays_clear_witness :
  let walls := Game.frame_obstacles (cfg := sample_settings) Ground in
  let g' := final_state (Guard.update (cfg := sample_settings) (1 # 60) sample_player walls
                           near_guard) in
  (forall v, unit_box (normalize (Settings := sample_settings) v)) /\
  Forall nonneg_size walls /\
  rect_size (Guard.rect near_guard) = (22, 32) /\
  unit_box (Character.look_dir (Guard.char near_guard)) /\
  (- inject_Z 22 <= guard_speed (Guard.profile near_guard) <= inject_Z 22)%Q /\
  overlaps_none walls (Guard.rect near_guard) /\
  Guard.update (cfg := sample_settings) (1 # 60) sample_player walls near_guard = Ok g' None /\
  overlaps_none walls (Guard.rect g') /\
  rect_size (Guard.rect g') = (22, 32) /\
  unit_box (Character.look_dir (Guard.char g')).
Proof.
  cbv zeta.
  assert (H1 : forall v, unit_box (normalize (Settings := sample_settings) v))
    by exact sample_normalize_unit.
  assert (H2 : Forall nonneg_size (Game.frame_obstacles (cfg := sample_settings) Ground))
    by (apply nonneg_size_check; vm_compute; reflexivity).
  assert (H3 : rect_size (Guard.rect near_guard) = (22, 32)) by reflexivity.
  assert (H4 : unit_box (Character.look_dir (Guard.char near_guard)))
    by (vm_compute; repeat split; discriminate).
  assert (H5 : (- inject_Z 22 <= guard_speed (Guard.profile near_guard) <= inject_Z 22)%Q)
    by (vm_compute; split; discriminate).
  assert (H6 : overlaps_none (Game.frame_obstacles (cfg := sample_settings) Ground)
                 (Guard.rect near_guard))
    by (apply overlaps_none_check; vm_compute; reflexivity).
  assert (H7 : Guard.update (cfg := sample_settings) (1 # 60) sample_player
                 (Game.frame_obstacles (cfg := sample_settings) Ground) near_guard
               = Ok (final_state (Guard.update (cfg := sample_settings) (1 # 60) sample_player
                                    (Game.frame_obstacles (cfg := sample_settings) Ground)
                                    near_guard)) None)
    by (vm_compute; reflexivity).
  split; [exact H1|]. split; [exact H2|]. split; [exact H3|]. split; [exact H4|].
  split; [exact H5|]. split; [exact H6|]. split; [exact H7|].
  exact (Guard_update_stays_clear (cfg := sample_settings) (1 # 60) sample_player _ near_guard
           _ None H1 H2 H3 H4 H5 H6 H7).
Defined.

(** ** Rescue *)

Lemma npc_loop_rescues `{cfg : Settings} (obstacles : list Rect) (ns : list NPC.t) :
  forall g : Game.t,
  Game.zone (snd (Game.npc_loop obstacles ns g)) = Game.zone g /\
  Forall2 (fun n n' =>
             NPC.zone n' = NPC.zone n /\ NPC.following n' = NPC.following n /\
             (NPC.zone n <> Game.zone g -> n' = n) /\
             (NPC.rescued n' = NPC.rescued n \/
              (NPC.rescued n = false /\ NPC.rescued n' = true /\
               Game.zone g = Harbor /\ NPC.zone n = Harbor /\ NPC.following n = true /\
               1010 < centerx (NPC.rect n'))))
          ns (fst (Game.npc_loop obstacles ns g)).
Proof.
  induction ns as [|n rest IH]; intros g; cbn [Game.npc_loop]; [split; [reflexivity|constructor]|].
  destruct (NPC_update_flags (Game.player g) obstacles n) as (Hr & Hf & Hz).
  destruct (bool_decide (NPC.zone n = Game.zone g)) eqn:Hzone.
  - apply bool_decide_eq_true in Hzone.
    destruct (NPC.following (NPC.update (Game.player g) obstacles n)
              && bool_decide (Game.zone g = Harbor)
              && (1010 <? centerx (NPC.rect (NPC.update (Game.player g) obstacles n)))
              && negb (NPC.rescued (NPC.update (Game.player g) obstacles n))) eqn:Hcond.
    + apply andb_true_iff in Hcond. destruct Hcond as [Hcond Hnr].
      apply andb_true_iff in Hcond. destruct Hcond as [Hcond Hx].
      apply andb_true_iff in Hcond. destruct Hcond as [Hfol Hh].
      apply bool_decide_eq_true in Hh. apply Z.ltb_lt in Hx. apply negb_true_iff in Hnr.
      match goal with |- context [Game.npc_loop obstacles rest ?x] =>
        destruct (IH x) as [H1 H2]; destruct (Game.npc_loop obstacles rest x) as [rest' g'] end.
      cbn [fst snd] in *. split; [exact H1|].
      constructor; [|exact H2].
      cbn [NPC.zone NPC.following NPC.rescued NPC.set_rescued].
      split; [exact Hz|]. split; [exact Hf|]. split; [intros Hne; destruct (Hne Hzone)|].
      right. rewrite <- Hr, <- Hf. repeat split; try assumption. congruence.
    + destruct (IH g) as [H1 H2]. destruct (Game.npc_loop obstacles rest g) as [rest' g'].
      cbn [fst snd] in *. split; [exact H1|].
      constructor; [|exact H2].
      split; [exact Hz|]. split; [exact Hf|]. split; [intros Hne; destruct (Hne Hzone)|].
      left. exact Hr.
  - apply bool_decide_eq_false in Hzone.
    destruct (IH g) as [H1 H2]. destruct (Game.npc_loop obstacles rest g) as [rest' g'].
    cbn [fst snd] in *. split; [exact H1|].
    constructor; [|exact H2]. repeat split; auto.
Qed.

(** X15: the loop of [update] over the survivors rescues only in the Harbor.
    A survivor of another zone than the current one is not touched; no
    survivor changes its zone or stops or starts following; one that becomes
    rescued was following in the Harbor and stands beyond x = 1010; and the
    rescue counter of the player grows by exactly the number of survivors
    that became rescued. *)
Theorem npc_pass_rescues_in_harbor `{cfg : Settings} (obstacles : list Rect) (g : Game.t) :
  let g' := Game.npc_pass obstacles g in
  Forall2 (fun n n' =>
             NPC.zone n' = NPC.zone n /\ NPC.following n' = NPC.following n /\
             (NPC.zone n <> Game.zone g -> n' = n) /\
             (NPC.rescued n' = NPC.rescued n \/
              (NPC.rescued n = false /\ NPC.rescued n' = true /\
               Game.zone g = Harbor /\ NPC.zone n = Harbor /\ NPC.following n = true /\
               1010 < centerx (NPC.rect n'))))
          (Game.npcs g) (Game.npcs g') /\
  Player.rescued_npcs (Game.player g') - Player.rescued_npcs (Game.player g)
  = Z.of_nat (length (rescued_survivors (Game.npcs g')))
    - Z.of_nat (length (rescued_survivors (Game.npcs g))).
Proof.
  cbv zeta. unfold Game.npc_pass.
  destruct (npc_loop_rescues obstacles (Game.npcs g) g) as [_ H2].
  destruct (npc_loop_counts obstacles (Game.npcs g) g) as (_ & _ & _ & H3).
  destruct (Game.npc_loop obstacles (Game.npcs g) g) as [ns g']. cbn [fst snd] in *.
  cbn [Game.npcs Game.player Game.set_npcs]. split; [exact H2|]. lia.
Qed.

(** ** Followers through a pathway *)

Lemma center_set_center (p : Z * Z) (r : Rect) : center (set_center p r) = p.
Proof.
  destruct p as [x y], r as [rx0 ry0 w h].
  unfold center, centerx, centery, set_center, set_centerx, set_centery, set_x, set_y.
  cbn [rx ry rw rh fst snd]. f_equal; lia.
Qed.

Lemma transfer_fold (new_zone : Zone) (g : Game.t) (ns : list NPC.t) :
  forall (done : list NPC.t) (k : Z),
  exists ns',
    fold_left (Game.transfer_step new_zone g) ns (done, k)
    = (done ++ ns', k + Z.of_nat (length (List.filter (transferable g) ns))) /\
    length ns' = length ns /\
    forall (i : nat) (n : NPC.t), ns !! i = Some n ->
      exists n', ns' !! i = Some n' /\
        if transferable g n
        then NPC.zone n' = new_zone /\
             center (NPC.rect n') =
               (centerx (Game.player_rect g) - 40
                - 20 * (k + Z.of_nat (length (List.filter (transferable g) (take i ns)))),
                centery (Game.player_rect g) + 20) /\
             rect_size (NPC.rect n') = rect_size (NPC.rect n) /\
             NPC.following n' = true /\ NPC.rescued n' = false
        else n' = n.
Proof.
  induction ns as [|n rest IH]; intros done k.
  - exists []. cbn. rewrite app_nil_r, Z.add_0_r. repeat split. intros i n Hl.
    rewrite lookup_nil in Hl. discriminate.
  - cbn [fold_left]. unfold Game.transfer_step at 2. fold (transferable g n).
    destruct (transferable g n) eqn:Ht.
    + cbv zeta.
      match goal with |- context [fold_left _ rest (done ++ [?m], _)] => set (n1 := m) end.
      destruct (IH (done ++ [n1]) (k + 1)) as (ns' & Hfold & Hlen & Hat).
      exists (n1 :: ns'). rewrite Hfold, <- app_assoc. cbn [app List.filter length].
      rewrite Ht. cbn [length]. split; [f_equal; lia|]. split; [lia|].
      intros [|i] m Hl.
      * cbn in Hl. injection Hl as <-. exists n1. split; [reflexivity|]. rewrite Ht.
        unfold transferable in Ht.
        apply andb_true_iff in Ht. destruct Ht as [Ht _].
        apply andb_true_iff in Ht. destruct Ht as [Hf Hr]. apply negb_true_iff in Hr.
        subst n1. unfold NPC.rect.
        cbn [NPC.char NPC.zone NPC.following NPC.rescued NPC.set_char NPC.set_zone
             Character.rect Character.set_rect take List.filter length].
        rewrite center_set_center.
        repeat split; try assumption. f_equal. lia.
      * cbn in Hl. destruct (Hat i m Hl) as (m' & Hl' & Hm). exists m'. split; [exact Hl'|].
        destruct (transferable g m); [|exact Hm].
        cbn [take List.filter]. rewrite Ht. cbn [length].
        destruct Hm as (H1 & H2 & H3). split; [exact H1|]. split; [|exact H3].
        rewrite H2. f_equal. lia.
    + destruct (IH (done ++ [n]) k) as (ns' & Hfold & Hlen & Hat).
      exists (n :: ns'). rewrite Hfold, <- app_assoc. cbn [app List.filter length].
      rewrite Ht. split; [reflexivity|]. split; [lia|].
      intros [|i] m Hl.
      * cbn in Hl. injection Hl as <-. exists n. split; [reflexivity|]. rewrite Ht. reflexivity.
      * cbn in Hl. destruct (Hat i m Hl) as (m' & Hl' & Hm). exists m'. split; [exact Hl'|].
        destruct (transferable g m); [|exact Hm].
        cbn [take List.filter]. rewrite Ht. exact Hm.
Qed.

(** X16: [transfer_followers] takes along exactly the survivors that follow,
    are not rescued and are in the zone the player leaves.  Each of them
    gets the new zone and is placed 20 pixels below the player's centre and
    40, 60, 80, ... pixels to its left, in the order of the list, keeping its
    size and flags; every other survivor is left as it is; and the player,
    the zone of the game and the guards are not changed. *)
Theorem transfer_followers_places (new_zone : Zone) (g : Game.t) :
  let g' := Game.transfer_followers new_zone g in
  length (Game.npcs g') = length (Game.npcs g) /\
  (forall (i : nat) (n : NPC.t), Game.npcs g !! i = Some n ->
     exists n', Game.npcs g' !! i = Some n' /\
       if transferable g n
       then NPC.zone n' = new_zone /\
            center (NPC.rect n') =
              (centerx (Game.player_rect g) - 40
               - 20 * Z.of_nat (length (List.filter (transferable g) (take i (Game.npcs g)))),
               centery (Game.player_rect g) + 20) /\
            rect_size (NPC.rect n') = rect_size (NPC.rect n) /\
            NPC.following n' = true /\ NPC.rescued n' = false
       else n' = n) /\
  Game.player g' = Game.player g /\ Game.zone g' = Game.zone g /\ posts g' = posts g.
Proof.
  cbv zeta.
  destruct (transfer_followers_fields new_zone g) as (Hz & Hp & _ & _).
  pose proof (f_equal snd (whole_transfer_followers new_zone g)) as Hposts. cbn [snd whole] in Hposts.
  split; [|split; [|split; [exact Hp|split; [exact Hz|exact Hposts]]]].
  - unfold Game.transfer_followers.
    destruct (transfer_fold new_zone g (Game.npcs g) [] 0) as (ns' & Hfold & Hlen & _).
    rewrite Hfold. cbn [app]. destruct (0 <? _); cbn; exact Hlen.
  - intros i n Hl. unfold Game.transfer_followers.
    destruct (transfer_fold new_zone g (Game.npcs g) [] 0) as (ns' & Hfold & _ & Hat).
    rewrite Hfold. cbn [app].
    destruct (Hat i n Hl) as (n' & Hl' & Hn). exists n'.
    split; [destruct (0 <? _); cbn; exact Hl'|].
    destruct (transferable g n); [|exact Hn].
    rewrite Z.add_0_l in Hn. exact Hn.
Qed.

(** ** The audio manager *)

Lemma load_keeps_other (loads : string -> bool) (k : string) (names : list string) :
  ~ In k names ->
  forall a : AudioManager.t,
  AudioManager.sounds
    (fold_left (fun a n => if loads n
                           then AudioManager.set_sounds (<[n := 1%Q]> (AudioManager.sounds a)) a
                           else a) names a) !! k
  = AudioManager.sounds a !! k.
Proof.
  induction names as [|n rest IH]; intros Hnot a; cbn [fold_left]; [reflexivity|].
  rewrite IH by (intros Hin; apply Hnot; right; exact Hin).
  destruct (loads n); [|reflexivity]. cbn [AudioManager.sounds AudioManager.set_sounds].
  apply lookup_insert_ne. intros ->. apply Hnot. left. reflexivity.
Qed.

Lemma load_fields (loads : string -> bool) (names : list string) :
  forall a : AudioManager.t,
  let a' := fold_left (fun a n => if loads n
                                  then AudioManager.set_sounds (<[n := 1%Q]> (AudioManager.sounds a)) a
                                  else a) names a in
  AudioManager.enabled a' = AudioManager.enabled a /\
  AudioManager.current_music a' = AudioManager.current_music a /\
  AudioManager.music_tracks a' = AudioManager.music_tracks a /\
  AudioManager.mixer a' = AudioManager.mixer a /\
  AudioManager.priority_volume a' = AudioManager.priority_volume a /\
  (volumes_in_range a -> volumes_in_range a').
Proof.
  induction names as [|n rest IH]; intros a; cbn [fold_left]; [cbv zeta; tauto|].
  cbv zeta in IH |- *.
  destruct (loads n); [|apply IH].
  destruct (IH (AudioManager.set_sounds (<[n := 1%Q]> (AudioManager.sounds a)) a))
    as (H1 & H2 & H3 & H4 & H5 & H6).
  rewrite H1, H2, H3, H4, H5.
  do 5 (split; [reflexivity|]).
  intros Hv. apply H6. intros m v.
  cbn [AudioManager.sounds AudioManager.set_sounds].
  destruct (decide (n = m)) as [<-|Hne].
  - rewrite lookup_insert_eq. intros [= <-]. lra.
  - rewrite lookup_insert_ne by exact Hne. apply Hv.
Qed.

Lemma load_nothing (loads : string -> bool) (names : list string) (a : AudioManager.t) :
  existsb loads names = false ->
  fold_left (fun a n => if loads n
                        then AudioManager.set_sounds (<[n := 1%Q]> (AudioManager.sounds a)) a
                        else a) names a = a.
Proof.
  induction names as [|n rest IH]; cbn [existsb fold_left]; [reflexivity|].
  intros H. apply orb_false_iff in H. destruct H as [Hn Hrest]. rewrite Hn. exact (IH Hrest).
Qed.

(** What [__init__] establishes. *)
Lemma init_state (mixer_ok : bool) (loads : string -> bool) :
  let a := AudioManager.init mixer_ok loads in
  AudioManager.sounds a !! "victory" = None /\
  AudioManager.current_music a = None /\
  AudioManager.mixer a = [] /\
  AudioManager.priority_volume a = (8 # 10)%Q /\
  volumes_in_range a /\
  AudioManager.enabled a = mixer_ok /\
  AudioManager.music_tracks a =
    (if mixer_ok && negb (existsb loads AudioManager.sound_names)
     then list_to_map (map (fun n => (n, 1%Q)) AudioManager.track_names)
     else ∅).
Proof.
  cbv zeta. unfold AudioManager.init. destruct mixer_ok; cbn [andb].
  2:{ do 4 (split; [reflexivity|]). split; [|split; reflexivity].
      intros n v H. cbn [AudioManager.sounds] in H. rewrite lookup_empty in H. discriminate. }
  cbv zeta. unfold AudioManager._load_sound_files. cbv zeta.
  cbn [AudioManager.using_file_sounds AudioManager.set_using_file_sounds].
  destruct (existsb loads AudioManager.sound_names) eqn:Hany; cbn [negb].
  - match goal with |- context [fold_left ?f AudioManager.sound_names ?x] =>
      pose proof (load_fields loads AudioManager.sound_names x) as (H1 & H2 & H3 & H4 & H5 & H6);
      pose proof (load_keeps_other loads "victory" AudioManager.sound_names) as Hk
    end.
    cbv zeta in H1, H2, H3, H4, H5, H6.
    cbn [AudioManager.sounds AudioManager.enabled AudioManager.current_music
         AudioManager.music_tracks AudioManager.mixer AudioManager.priority_volume
         AudioManager.set_using_file_sounds].
    rewrite Hk, H1, H2, H3, H4, H5.
    + do 4 (split; [reflexivity|]). split; [|split; reflexivity].
      apply H6. intros n v H. cbn [AudioManager.sounds AudioManager.set_sounds
                                     AudioManager.set_music_tracks AudioManager.set_enabled] in H.
      rewrite lookup_empty in H. discriminate.
    + cbn. intuition discriminate.
  - rewrite (load_nothing loads _ _ Hany).
    unfold AudioManager._generate_procedural_sounds. cbv zeta.
    split; [vm_compute; reflexivity|]. split; [reflexivity|]. split; [reflexivity|].
    split; [reflexivity|]. split; [|split; reflexivity].
    intros n v H.
    cbn [AudioManager.sounds AudioManager.set_sounds] in H.
    rewrite map_lookup_imap in H.
    match type of H with context [?m !! n] => destruct (m !! n) as [vol|] eqn:Hl end;
      [|discriminate].
    cbn in H. injection H as <-.
    destruct (String.eqb n "hurt"); vm_compute; split; discriminate.
Qed.

Lemma Sound_set_volume_restores (v : Q) (old : Q) :
  (0 <= v <= 1)%Q -> Sound_set_volume v old = v.
Proof.
  intros [H0 H1]. unfold Sound_set_volume.
  destruct (Qltb v 0) eqn:E0; [apply Qltb_lt in E0; lra|].
  destruct (Qltb 1 v) eqn:E1; [apply Qltb_lt in E1; lra|reflexivity].
Qed.

(** What no call of the game changes in a manager whose volumes are in
    range. *)
Lemma run_call_keeps (a : AudioManager.t) (c : AudioCall) :
  volumes_in_range a ->
  AudioManager.sounds (run_call a c) = AudioManager.sounds a /\
  AudioManager.enabled (run_call a c) = AudioManager.enabled a /\
  AudioManager.music_tracks (run_call a c) = AudioManager.music_tracks a /\
  AudioManager.priority_volume (run_call a c) = AudioManager.priority_volume a.
Proof.
  intros Hv. destruct c as [dt|name priority|z combat]; cbn [run_call].
  - unfold AudioManager.update. destruct (Qltb 0 _); repeat split; reflexivity.
  - unfold AudioManager.play_sound. destruct (negb (AudioManager.enabled a)); [repeat split; reflexivity|].
    destruct (AudioManager.sounds a !! name) as [original|] eqn:Hl; [|repeat split; reflexivity].
    cbv zeta.
    assert (Hsame : <[name := Sound_set_volume original
                                (Sound_set_volume (AudioManager.priority_volume a) original)]>
                      (AudioManager.sounds a) = AudioManager.sounds a).
    { rewrite (Sound_set_volume_restores original _ (Hv name original Hl)).
      apply insert_id. exact Hl. }
    destruct priority, (String.eqb name "gunshot");
      cbn [AudioManager.sounds AudioManager.enabled AudioManager.music_tracks
           AudioManager.priority_volume AudioManager.set_sounds AudioManager.emit
           AudioManager.set_volume_duck_timer];
      rewrite ?Hsame; repeat split; reflexivity.
  - unfold AudioManager.play_music_for_zone.
    destruct (negb (AudioManager.enabled a)); [repeat split; reflexivity|].
    cbv zeta. destruct (bool_decide _); [repeat split; reflexivity|].
    cbn [AudioManager.music_tracks AudioManager.emit].
    destruct (AudioManager.music_tracks a !! _); repeat split; reflexivity.
Qed.

Lemma run_request_keeps (a : AudioManager.t) (r : Request) :
  volumes_in_range a ->
  AudioManager.sounds (run_request a r) = AudioManager.sounds a /\
  AudioManager.enabled (run_request a r) = AudioManager.enabled a /\
  AudioManager.music_tracks (run_request a r) = AudioManager.music_tracks a /\
  AudioManager.priority_volume (run_request a r) = AudioManager.priority_volume a.
Proof.
  intros Hv. destruct r as [c|]; cbn [run_request]; [exact (run_call_keeps a c Hv)|].
  unfold AudioManager.play_music_for_zone.
  destruct (negb (AudioManager.enabled a)); [repeat split; reflexivity|].
  cbv zeta. destruct (bool_decide _); [repeat split; reflexivity|].
  cbn [AudioManager.music_tracks AudioManager.emit].
  destruct (AudioManager.music_tracks a !! _); repeat split; reflexivity.
Qed.

Lemma replay_keeps (log : list Request) :
  forall a : AudioManager.t,
  volumes_in_range a ->
  AudioManager.sounds (replay log a) = AudioManager.sounds a /\
  AudioManager.enabled (replay log a) = AudioManager.enabled a /\
  AudioManager.music_tracks (replay log a) = AudioManager.music_tracks a /\
  AudioManager.priority_volume (replay log a) = AudioManager.priority_volume a.
Proof.
  unfold replay. induction log as [|c rest IH]; intros a Hv; cbn [fold_left];
    [repeat split; reflexivity|].
  destruct (run_request_keeps a c Hv) as (H1 & H2 & H3 & H4).
  destruct (IH (run_request a c)) as (I1 & I2 & I3 & I4).
  { intros n v. rewrite H1. apply Hv. }
  rewrite I1, I2, I3, I4. repeat split; assumption.
Qed.

(** X17: the sound the game asks for at the extraction point is never
    played.  Whether the mixer starts or not, whichever files load, and
    whatever has been requested so far, [play_sound("victory")] leaves
    the manager as it is: no manager has a sound of that name. *)
Theorem victory_sound_is_never_played (mixer_ok : bool) (loads : string -> bool)
    (log : list Request) (priority : bool) :
  let a := replay log (AudioManager.init mixer_ok loads) in
  AudioManager.sounds a !! "victory" = None /\
  AudioManager.play_sound "victory" priority a = a.
Proof.
  cbv zeta.
  destruct (init_state mixer_ok loads) as (Hvic & _ & _ & _ & Hv & _).
  destruct (replay_keeps log _ Hv) as (Hs & _).
  assert (Hnone : AudioManager.sounds (replay log (AudioManager.init mixer_ok loads)) !! "victory"
                  = None) by (rewrite Hs; exact Hvic).
  split; [exact Hnone|].
  unfold AudioManager.play_sound. destruct (negb _); [reflexivity|].
  rewrite Hnone. reflexivity.
Qed.


Lemma silent_music_call (zone : string) (combat_active : bool) (a : AudioManager.t) :
  AudioManager.enabled a = true ->
  AudioManager.music_tracks a = ∅ ->
  AudioManager.current_music a = None ->
  let a' := AudioManager.play_music_for_zone zone combat_active a in
  AudioManager.enabled a' = true /\
  AudioManager.music_tracks a' = ∅ /\
  AudioManager.current_music a' = None /\
  List.filter is_track_play (AudioManager.mixer a')
  = List.filter is_track_play (AudioManager.mixer a) /\
  length (List.filter is_mixer_stop (AudioManager.mixer a'))
  = (length (List.filter is_mixer_stop (AudioManager.mixer a)) + 1)%nat.
Proof.
  intros He Ht Hc. cbv zeta.
  unfold AudioManager.play_music_for_zone. rewrite He. cbn [negb]. cbv zeta.
  rewrite Hc. rewrite bool_decide_eq_false_2 by discriminate.
  cbn [AudioManager.music_tracks AudioManager.emit]. rewrite Ht, lookup_empty.
  cbn [AudioManager.enabled AudioManager.music_tracks AudioManager.current_music
       AudioManager.mixer AudioManager.emit].
  rewrite !List.filter_app. cbn [List.filter is_track_play is_mixer_stop].
  rewrite app_nil_r, length_app. cbn [length]. repeat split; assumption.
Qed.

Lemma silent_music_step (a : AudioManager.t) (r : Request) :
  AudioManager.enabled a = true ->
  AudioManager.music_tracks a = ∅ ->
  AudioManager.current_music a = None ->
  let a' := run_request a r in
  AudioManager.enabled a' = true /\
  AudioManager.music_tracks a' = ∅ /\
  AudioManager.current_music a' = None /\
  List.filter is_track_play (AudioManager.mixer a')
  = List.filter is_track_play (AudioManager.mixer a) /\
  length (List.filter is_mixer_stop (AudioManager.mixer a'))
  = (length (List.filter is_mixer_stop (AudioManager.mixer a))
     + if is_music_call r then 1 else 0)%nat.
Proof.
  intros He Ht Hc. cbv zeta.
  destruct r as [[dt|name priority|z combat]|]; cbn [run_request run_call is_music_call].
  - unfold AudioManager.update. rewrite Nat.add_0_r.
    destruct (Qltb 0 _); repeat split; assumption.
  - unfold AudioManager.play_sound. rewrite He. cbn [negb]. rewrite Nat.add_0_r.
    destruct (AudioManager.sounds a !! name) as [original|]; [|repeat split; assumption].
    cbv zeta.
    destruct priority, (String.eqb name "gunshot");
      cbn [AudioManager.enabled AudioManager.music_tracks AudioManager.current_music
           AudioManager.mixer AudioManager.set_sounds AudioManager.emit
           AudioManager.set_volume_duck_timer];
      rewrite !List.filter_app; cbn [List.filter is_track_play is_mixer_stop];
      rewrite !app_nil_r; repeat split; assumption.
  - exact (silent_music_call (zone_name z) combat a He Ht Hc).
  - exact (silent_music_call "menu" false a He Ht Hc).
Qed.

Lemma silent_music_replay (log : list Request) :
  forall a : AudioManager.t,
  AudioManager.enabled a = true ->
  AudioManager.music_tracks a = ∅ ->
  AudioManager.current_music a = None ->
  AudioManager.current_music (replay log a) = None /\
  List.filter is_track_play (AudioManager.mixer (replay log a))
  = List.filter is_track_play (AudioManager.mixer a) /\
  length (List.filter is_mixer_stop (AudioManager.mixer (replay log a)))
  = (length (List.filter is_mixer_stop (AudioManager.mixer a))
     + length (List.filter is_music_call log))%nat.
Proof.
  unfold replay. induction log as [|c rest IH]; intros a He Ht Hc; cbn [fold_left List.filter].
  - cbn [length]. rewrite Nat.add_0_r. repeat split; assumption.
  - destruct (silent_music_step a c He Ht Hc) as (He' & Ht' & Hc' & Hp & Hs).
    destruct (IH (run_request a c) He' Ht' Hc') as (I1 & I2 & I3).
    rewrite I1, I2, I3, Hp, Hs. split; [reflexivity|]. split; [reflexivity|].
    destruct (is_music_call c); cbn [length]; lia.
Qed.

(** X19: when at least one sound file loads, no music is ever played.
    [_load_sound_files] leaves the table of tracks empty and the generated
    tracks are skipped, so after any sequence of requests no track has been
    started and none is current; yet every request for music stops the
    mixer, once for each call of [play_music_for_zone], from the menu or
    from the game. *)
Theorem file_sounds_mute_the_music (loads : string -> bool) (log : list Request) :
  existsb loads AudioManager.sound_names = true ->
  let a := replay log (AudioManager.init true loads) in
  AudioManager.current_music a = None /\
  List.filter is_track_play (AudioManager.mixer a) = [] /\
  length (List.filter is_mixer_stop (AudioManager.mixer a))
  = length (List.filter is_music_call log).
Proof.
  intros Hany. cbv zeta.
  destruct (init_state true loads) as (_ & Hc & Hm & _ & _ & He & Ht).
  cbv zeta in Hc, Hm, He, Ht. rewrite Hany in Ht. cbn [andb negb] in Ht.
  destruct (silent_music_replay log _ He Ht Hc) as (H1 & H2 & H3).
  rewrite Hm in H2, H3. cbn [List.filter length] in H2, H3.
  split; [exact H1|]. split; [exact H2|exact H3].
Qed.

(** One sound file is enough. *)
Lemma file_sounds_mute_the_music_witness :
  let loads := String.eqb "gunshot" in
  let a := replay sample_log (AudioManager.init true loads) in
  existsb loads AudioManager.sound_names = true /\
  AudioManager.current_music a = None /\
  List.filter is_track_play (AudioManager.mixer a) = [] /\
  length (List.filter is_mixer_stop (AudioManager.mixer a))
  = length (List.filter is_music_call sample_log).
Proof.
  cbv zeta.
  assert (H : existsb (String.eqb "gunshot") AudioManager.sound_names = true) by reflexivity.
  split; [exact H|].
  exact (file_sounds_mute_the_music (String.eqb "gunshot") sample_log H).
Defined.

Lemma zone_track_generated (z : Zone) (combat_active : bool) :
  (list_to_map (map (fun n => (n, 1%Q)) AudioManager.track_names) : gmap string Q)
    !! wanted_track z combat_active = Some 1%Q /\
  is_Some ((list_to_map (map (fun n => (n, 1%Q)) AudioManager.track_names) : gmap string Q)
             !! zone_name z).
Proof.
  split.
  - destruct combat_active; [|destruct z]; vm_compute; reflexivity.
  - destruct z; eexists; vm_compute; reflexivity.
Qed.

Lemma play_music_step (zone : string) (combat_active : bool) (w : string) (v : Q)
    (b : AudioManager.t) :
  AudioManager.enabled b = true ->
  AudioManager.music_tracks b !! w = Some v ->
  AudioManager.chosen_track zone combat_active b = w ->
  AudioManager.play_music_for_zone zone combat_active b =
    if bool_decide (AudioManager.current_music b = Some w) then b
    else AudioManager.set_current_music (Some w)
           (AudioManager.emit (track_play w) (AudioManager.emit mixer_stop b)).
Proof.
  intros He Ht Hc. unfold AudioManager.play_music_for_zone. rewrite He. cbn [negb]. cbv zeta.
  rewrite Hc. destruct (bool_decide _); [reflexivity|].
  cbn [AudioManager.music_tracks AudioManager.emit]. rewrite Ht. reflexivity.
Qed.

(** X20: with the generated sounds the music follows the game.  After any
    sequence of requests, a request for the music of a zone makes the combat
    track current while a guard is alerted and the track of the zone
    otherwise; when that track is current already the manager is not
    touched, and otherwise the mixer is stopped and the track started; the
    same request again does nothing. *)
Theorem generated_music_follows_the_game (loads : string -> bool) (log : list Request)
    (z : Zone) (combat_active : bool) :
  existsb loads AudioManager.sound_names = false ->
  let a := replay log (AudioManager.init true loads) in
  let a' := AudioManager.play_music_for_zone (zone_name z) combat_active a in
  AudioManager.current_music a' = Some (wanted_track z combat_active) /\
  (if bool_decide (AudioManager.current_music a = Some (wanted_track z combat_active))
   then a' = a
   else AudioManager.mixer a' =
          AudioManager.mixer a ++ [mixer_stop; track_play (wanted_track z combat_active)]) /\
  AudioManager.play_music_for_zone (zone_name z) combat_active a' = a'.
Proof.
  intros Hany. cbv zeta.
  destruct (init_state true loads) as (_ & _ & _ & _ & Hv & He & Ht).
  cbv zeta in He, Ht. rewrite Hany in Ht. cbn [andb negb] in Ht.
  destruct (replay_keeps log _ Hv) as (_ & He' & Ht' & _).
  rewrite He in He'. rewrite Ht in Ht'.
  set (a := replay log (AudioManager.init true loads)) in *.
  destruct (zone_track_generated z combat_active) as [Hwanted Hzone].
  assert (Hchosen : forall b, AudioManager.music_tracks b = AudioManager.music_tracks a ->
            AudioManager.chosen_track (zone_name z) combat_active b = wanted_track z combat_active).
  { intros b Hb. unfold AudioManager.chosen_track, wanted_track.
    destruct combat_active; [reflexivity|].
    rewrite Hb, Ht'. rewrite bool_decide_eq_true_2 by exact Hzone. reflexivity. }
  assert (Hstep : forall b, AudioManager.enabled b = true ->
            AudioManager.music_tracks b = AudioManager.music_tracks a ->
            AudioManager.play_music_for_zone (zone_name z) combat_active b =
              if bool_decide (AudioManager.current_music b = Some (wanted_track z combat_active))
              then b
              else AudioManager.set_current_music (Some (wanted_track z combat_active))
                     (AudioManager.emit (track_play (wanted_track z combat_active))
                        (AudioManager.emit mixer_stop b))).
  { intros b Hb1 Hb2. apply (play_music_step _ _ _ 1%Q); [exact Hb1| |exact (Hchosen b Hb2)].
    rewrite Hb2, Ht'. exact Hwanted. }
  rewrite (Hstep a He' eq_refl).
  destruct (bool_decide (AudioManager.current_music a = Some (wanted_track z combat_active)))
    eqn:Hcur.
  - apply bool_decide_eq_true in Hcur. split; [exact Hcur|]. split; [reflexivity|].
    rewrite (Hstep a He' eq_refl). rewrite bool_decide_eq_true_2 by exact Hcur. reflexivity.
  - split; [reflexivity|]. split; [cbn; rewrite <- app_assoc; reflexivity|].
    rewrite Hstep; [|exact He'|reflexivity].
    rewrite bool_decide_eq_true_2 by reflexivity. reflexivity.
Qed.

(** No sound file at all. *)
Lemma generated_music_follows_the_game_witness :
  let loads := fun _ : string => false in
  let a := replay sample_log (AudioManager.init true loads) in
  let a' := AudioManager.play_music_for_zone (zone_name Estate) false a in
  existsb loads AudioManager.sound_names = false /\
  AudioManager.current_music a' = Some (wanted_track Estate false) /\
  (if bool_decide (AudioManager.current_music a = Some (wanted_track Estate false))
   then a' = a
   else AudioManager.mixer a' =
          AudioManager.mixer a ++ [mixer_stop; track_play (wanted_track Estate false)]) /\
  AudioManager.play_music_for_zone (zone_name Estate) false a' = a'.
Proof.
  cbv zeta.
  assert (H : existsb (fun _ : string => false) AudioManager.sound_names = false) by reflexivity.
  split; [exact H|].
  exact (generated_music_follows_the_game (fun _ => false) sample_log Estate false H).
Defined.

(** ** The difficulty menu *)

(** X21: the selection of the menu never leaves the list of difficulties.
    From an index in range, any sequence of up and down keys leaves an index
    in range, so that confirming always finds a difficulty and never raises
    an [IndexError]; up and down wrap around and undo each other. *)
Theorem menu_selection_stays_in_range (keys : list MenuKey) (selected : Z) :
  0 <= selected < Z.of_nat (length DIFFICULTIES) ->
  let s := fold_left menu_press keys selected in
  0 <= s < Z.of_nat (length DIFFICULTIES) /\
  (exists profile, difficulty_at s = Some profile /\ In profile DIFFICULTIES) /\
  menu_up (menu_down selected) = selected /\
  menu_down (menu_up selected) = selected.
Proof.
  intros Hsel. cbv zeta.
  assert (Hrange : 0 <= fold_left menu_press keys selected < Z.of_nat (length DIFFICULTIES)).
  { revert selected Hsel. induction keys as [|k rest IH]; intros selected Hsel; cbn [fold_left];
      [exact Hsel|].
    apply IH. destruct k; unfold menu_press, menu_up, menu_down;
      apply Z.mod_pos_bound; cbn; lia. }
  split; [exact Hrange|]. split.
  - set (s := fold_left menu_press keys selected) in *.
    assert (Hcases : s = 0 \/ s = 1 \/ s = 2) by (cbn in Hrange; lia).
    destruct Hcases as [-> | [-> | ->]]; eexists; (split; [reflexivity|]); cbn; tauto.
  - cbn [length DIFFICULTIES] in Hsel. change (Z.of_nat 3) with 3 in Hsel.
    unfold menu_up, menu_down. cbn [length DIFFICULTIES]. change (Z.of_nat 3) with 3.
    assert (Hcases : selected = 0 \/ selected = 1 \/ selected = 2) by lia.
    destruct Hcases as [-> | [-> | ->]]; split; reflexivity.
Qed.

(** The selection the game starts with, after five key presses. *)
Lemma menu_selection_stays_in_range_witness :
  let keys := [menu_key_up; menu_key_up; menu_key_down; menu_key_up; menu_key_up] in
  0 <= 1 < Z.of_nat (length DIFFICULTIES) /\
  0 <= fold_left menu_press keys 1 < Z.of_nat (length DIFFICULTIES) /\
  (exists profile, difficulty_at (fold_left menu_press keys 1) = Some profile /\
                   In profile DIFFICULTIES) /\
  menu_up (menu_down 1) = 1 /\
  menu_down (menu_up 1) = 1.
Proof.
  cbv zeta.
  assert (H : 0 <= 1 < Z.of_nat (length DIFFICULTIES)) by (cbn; lia).
  split; [exact H|].
  exact (menu_selection_stays_in_range
           [menu_key_up; menu_key_up; menu_key_down; menu_key_up; menu_key_up] 1 H).
Defined.

(** ** Regions and their gates *)

(** X22: a completed region opens its gates.  When the tasks of the current
    zone are all done, no gate of the zone asks for a key the player does
    not hold: the key each forward gate requires is one of the tasks of its
    zone, and the gates that lead back require none. *)
Theorem completed_region_holds_its_keys `{cfg : Settings} (g : Game.t) (gate : ZoneGate) :
  Game.region_complete (Game.zone g) g = true ->
  In gate (zone_gates (Game.zone g)) ->
  Game.key_missing gate g = false.
Proof.
  unfold Game.region_complete. destruct (decide (Game.zone g = Game.zone g)); [|congruence].
  unfold Game.current_region_tasks, Game.key_missing.
  destruct (Game.zone g); cbn [forallb snd zone_gates In]; intros Hdone Hin;
    repeat (destruct Hin as [<-|Hin]; [cbn [required_key]|]); try destruct Hin;
    try reflexivity;
    match goal with |- negb ?b = false => destruct b eqn:E; [reflexivity|] end;
    cbn [andb] in Hdone;
    rewrite ?andb_false_r in Hdone; discriminate Hdone.
Qed.

(** The player at the gate of Ground with the tasks of Ground done. *)
Lemma completed_region_holds_its_keys_witness :
  Game.region_complete (Game.zone gate_ready_game) gate_ready_game = true /\
  In ground_gate (zone_gates (Game.zone gate_ready_game)) /\
  Game.key_missing ground_gate gate_ready_game = false.
Proof.
  assert (H1 : Game.region_complete (Game.zone gate_ready_game) gate_ready_game = true)
    by (vm_compute; reflexivity).
  assert (H2 : In ground_gate (zone_gates (Game.zone gate_ready_game)))
    by (left; reflexivity).
  split; [exact H1|]. split; [exact H2|].
  exact (completed_region_holds_its_keys (cfg := sample_settings) gate_ready_game ground_gate
           H1 H2).
Defined.

(** ** Where a round puts its items *)

Lemma is_position_safe_spec `{cfg : Settings} (z : Zone) (x y : Z) :
  is_position_safe z x y 40 = true ->
  60 <= x <= WIDTH - 100 /\ 60 <= y <= HEIGHT - 100 /\
  overlaps_none (zone_obstacles z) (mkRect (x - 20) (y - 20) 40 40).
Proof.
  unfold is_position_safe.
  destruct ((x <? 60) || (WIDTH - 100 <? x) || (y <? 60) || (HEIGHT - 100 <? y)) eqn:Hm;
    [discriminate|].
  repeat (apply orb_false_iff in Hm; destruct Hm as [Hm ?]).
  repeat match goal with H : (_ <? _) = false |- _ => apply Z.ltb_ge in H end.
  intros Hfree. apply negb_true_iff in Hfree.
  split; [lia|]. split; [lia|].
  intros wall Hin. change (40 / 2) with 20 in Hfree.
  destruct (colliderect (mkRect (x - 20) (y - 20) 40 40) wall) eqn:Hc; [|reflexivity].
  assert (Ht : existsb (fun wall => colliderect (mkRect (x - 20) (y - 20) 40 40) wall)
                 (zone_obstacles z) = true)
    by (apply existsb_exists; exists wall; split; assumption).
  rewrite Ht in Hfree. discriminate.
Qed.

Lemma safe_zones_safe `{cfg : Settings} (z : Zone) (p : Z * Z) :
  has_safe_candidate z -> In p (safe_zones z) ->
  is_position_safe z (fst p) (snd p) 40 = true.
Proof.
  intros (q & Hq & Hsafe) Hin. unfold safe_zones in Hin.
  destruct (List.filter _ (safe_zone_candidates z)) as [|a l] eqn:Hf.
  - exfalso.
    assert (Hin' : In q (List.filter (fun pos => is_position_safe z (fst pos) (snd pos) 40)
                           (safe_zone_candidates z)))
      by (apply filter_In; split; assumption).
    rewrite Hf in Hin'. destruct Hin'.
  - rewrite <- Hf in Hin. apply filter_In in Hin. exact (proj2 Hin).
Qed.

Lemma get_unique_position_safe `{cfg : Settings} (z : Zone) (used : list (Z * Z)) (d : Draw) :
  has_safe_candidate z ->
  is_position_safe z (fst (get_unique_position z used d)) (snd (get_unique_position z used d)) 40
  = true.
Proof.
  intros Hsafe. unfold get_unique_position.
  destruct (safe_zones z) as [|first others] eqn:Hz.
  - exfalso. destruct Hsafe as (q & Hq & Hs). unfold safe_zones in Hz.
    destruct (List.filter _ (safe_zone_candidates z)) as [|a l] eqn:Hf.
    + assert (Hin' : In q (List.filter (fun pos => is_position_safe z (fst pos) (snd pos) 40)
                             (safe_zone_candidates z)))
        by (apply filter_In; split; assumption).
      rewrite Hf in Hin'. destruct Hin'.
    + discriminate.
  - destruct (List.filter _ (first :: others)) as [|a0 rest] eqn:Hav.
    + destruct (List.find _ (take 20 (tries d))) as [p|] eqn:Hfind.
      * apply find_some in Hfind. destruct Hfind as [_ Hp].
        apply andb_true_iff in Hp. exact (proj1 Hp).
      * apply (safe_zones_safe z first Hsafe). rewrite Hz. left. reflexivity.
    + apply (safe_zones_safe z _ Hsafe). rewrite Hz.
      set (q := nth (choice d mod length (a0 :: rest)) (a0 :: rest) a0).
      assert (Hin : In q (a0 :: rest)).
      { apply nth_In. apply Nat.mod_upper_bound. cbn. lia. }
      clearbody q. rewrite <- Hav in Hin. apply filter_In in Hin. exact (proj1 Hin).
Qed.

Lemma ammo_spawns_safe `{cfg : Settings} (z : Zone) (draws : list Draw) :
  has_safe_candidate z ->
  forall (used : list (Z * Z)) (p : Z * Z),
  In p (fst (ammo_spawns z draws used)) -> is_position_safe z (fst p) (snd p) 40 = true.
Proof.
  intros Hsafe. induction draws as [|d rest IH]; intros used p; cbn [ammo_spawns].
  - intros [].
  - specialize (IH (used ++ [get_unique_position z used d])).
    destruct (ammo_spawns z rest _) as [zone_ammo used']. cbn [fst] in *.
    intros [<-|Hin]; [apply get_unique_position_safe; exact Hsafe|exact (IH p Hin)].
Qed.

Lemma randomized_items_positions `{cfg : Settings} (gun_position : Z * Z)
    (ammo_positions : Zone -> list (Z * Z)) (clue_positions : Zone -> Z * Z)
    (key_positions : Key -> Z * Z) (z : Zone) (r : Rect) :
  In r (item_rects (Game.randomized_items gun_position ammo_positions clue_positions
                      key_positions z)) ->
  (z = Ground /\ (rx r, ry r) = gun_position) \/
  In (rx r, ry r) (ammo_positions z) \/
  (z <> Harbor /\ (rx r, ry r) = clue_positions z) \/
  (z = Ground /\ (rx r, ry r) = key_positions jail_key) \/
  (z = Estate /\ (rx r, ry r) = key_positions cave_key) \/
  (z = Tunnels /\ (rx r, ry r) = key_positions boat_key).
Proof.
  assert (Hpair : forall p : Z * Z, (fst p, snd p) = p) by (intros []; reflexivity).
  assert (Hammo : forall l, In r (map (fun pos : Z * Z => mkRect (fst pos) (snd pos) 16 10) l) ->
                            In (rx r, ry r) l).
  { intros l H. apply in_map_iff in H. destruct H as (pos & <- & H). cbn [rx ry].
    rewrite Hpair. exact H. }
  unfold item_rects, Game.randomized_items.
  destruct z; cbn [gun ammo_boxes clue jail_key_item cave_key_item boat_key_item present app];
    rewrite ?app_nil_r; intros Hin.
  - destruct Hin as [<-|Hin]; [left; split; [reflexivity|apply Hpair]|].
    apply in_app_or in Hin. destruct Hin as [Hin|Hin]; [right; left; exact (Hammo _ Hin)|].
    destruct Hin as [<-|[<-|[]]].
    + right; right; left. split; [discriminate|apply Hpair].
    + right; right; right; left. split; [reflexivity|apply Hpair].
  - apply in_app_or in Hin. destruct Hin as [Hin|Hin]; [right; left; exact (Hammo _ Hin)|].
    destruct Hin as [<-|[<-|[]]].
    + right; right; left. split; [discriminate|apply Hpair].
    + right; right; right; right; left. split; [reflexivity|apply Hpair].
  - apply in_app_or in Hin. destruct Hin as [Hin|Hin]; [right; left; exact (Hammo _ Hin)|].
    destruct Hin as [<-|[<-|[]]].
    + right; right; left. split; [discriminate|apply Hpair].
    + right; right; right; right; right. split; [reflexivity|apply Hpair].
  - destruct Hin.
Qed.

(** X23: [randomize_spawns] puts no item into a wall.  In a zone with at
    least one safe candidate position, every item of the zone (pistol,
    ammunition, clue, key) is placed at a point that lies within the margins
    of [is_position_safe] and around which a square of 40 pixels overlaps no
    obstacle of the zone, whatever the random module draws. *)
Theorem randomize_spawns_clear_of_walls `{cfg : Settings} (d : SpawnDraws) (z : Zone) (r : Rect) :
  has_safe_candidate z ->
  In r (item_rects (randomize_spawns d z)) ->
  60 <= rx r <= WIDTH - 100 /\ 60 <= ry r <= HEIGHT - 100 /\
  overlaps_none (zone_obstacles z) (mkRect (rx r - 20) (ry r - 20) 40 40).
Proof.
  intros Hsafe Hin.
  enough (H : is_position_safe z (fst (rx r, ry r)) (snd (rx r, ry r)) 40 = true)
    by exact (is_position_safe_spec z _ _ H).
  unfold randomize_spawns in Hin. cbv zeta in Hin.
  pose proof (ammo_spawns_safe Ground (d_ammo d Ground)) as HG.
  pose proof (ammo_spawns_safe Estate (d_ammo d Estate)) as HE.
  pose proof (ammo_spawns_safe Tunnels (d_ammo d Tunnels)) as HT.
  match type of Hin with context [ammo_spawns Ground (d_ammo d Ground) ?u] =>
    specialize (fun H => HG H u); destruct (ammo_spawns Ground (d_ammo d Ground) u) as [aG uG] end.
  match type of Hin with context [ammo_spawns Estate (d_ammo d Estate) ?u] =>
    specialize (fun H => HE H u); destruct (ammo_spawns Estate (d_ammo d Estate) u) as [aE uE] end.
  match type of Hin with context [ammo_spawns Tunnels (d_ammo d Tunnels) ?u] =>
    specialize (fun H => HT H u); destruct (ammo_spawns Tunnels (d_ammo d Tunnels) u) as [aT uT] end.
  cbn [fst] in HG, HE, HT.
  apply randomized_items_positions in Hin.
  destruct Hin as [[-> ->]|[Hin|[[Hz ->]|[[-> ->]|[[-> ->]|[-> ->]]]]]].
  - apply get_unique_position_safe. exact Hsafe.
  - destruct z; [apply (HG Hsafe)|apply (HE Hsafe)|apply (HT Hsafe)|destruct Hin]; exact Hin.
  - destruct z; try (apply get_unique_position_safe; exact Hsafe). destruct (Hz eq_refl).
  - apply get_unique_position_safe. exact Hsafe.
  - apply get_unique_position_safe. exact Hsafe.
  - apply get_unique_position_safe. exact Hsafe.
Qed.

(** The pistol of the sample draws. *)
Lemma randomize_spawns_clear_of_walls_witness :
  let r := mkRect 1000 300 24 12 in
  has_safe_candidate (cfg := sample_settings) Ground /\
  In r (item_rects (randomize_spawns (cfg := sample_settings) sample_draws Ground)) /\
  60 <= rx r <= WIDTH (Settings := sample_settings) - 100 /\
  60 <= ry r <= HEIGHT (Settings := sample_settings) - 100 /\
  overlaps_none (zone_obstacles (cfg := sample_settings) Ground)
    (mkRect (rx r - 20) (ry r - 20) 40 40).
Proof.
  cbv zeta.
  assert (H1 : has_safe_candidate (cfg := sample_settings) Ground).
  { exists (150, 550). split; [left; reflexivity|vm_compute; reflexivity]. }
  assert (H2 : In (mkRect 1000 300 24 12)
                 (item_rects (randomize_spawns (cfg := sample_settings) sample_draws Ground)))
    by (vm_compute; left; reflexivity).
  split; [exact H1|]. split; [exact H2|].
  exact (randomize_spawns_clear_of_walls (cfg := sample_settings) sample_draws Ground _ H1 H2).
Defined.

(** ** The guards a round is built with *)

Lemma is_valid_position_spec `{cfg : Settings} (x y : Z) (z : Zone) :
  is_valid_position x y z = true ->
  overlaps_none (zone_obstacles z) (mkRect x y 22 32) /\
  60 <= x <= WIDTH - 100 /\ 60 <= y <= HEIGHT - 100.
Proof.
  unfold is_valid_position.
  destruct (existsb _ (zone_obstacles z)) eqn:Hhit; [discriminate|].
  destruct ((x <? 60) || (WIDTH - 100 <? x) || (y <? 60) || (HEIGHT - 100 <? y)) eqn:Hm;
    [discriminate|].
  intros _.
  repeat (apply orb_false_iff in Hm; destruct Hm as [Hm ?]).
  repeat match goal with H : (_ <? _) = false |- _ => apply Z.ltb_ge in H end.
  split; [|lia].
  intros wall Hin.
  destruct (colliderect (mkRect x y 22 32) wall) eqn:Hc; [|reflexivity].
  assert (Ht : existsb (fun obstacle => colliderect (mkRect x y 22 32) obstacle)
                 (zone_obstacles z) = true)
    by (apply existsb_exists; exists wall; split; assumption).
  rewrite Ht in Hhit. discriminate.
Qed.

Lemma find_valid_spawn_valid `{cfg : Settings} (offset : nat -> Z * Z) (x y : Z) (z : Zone) :
  safe_spots_valid ->
  is_valid_position (fst (find_valid_spawn offset x y z)) (snd (find_valid_spawn offset x y z)) z
  = true.
Proof.
  intros Hspots. unfold find_valid_spawn.
  destruct (is_valid_position x y z) eqn:Hv; [exact Hv|].
  destruct (List.find _ _) as [p|] eqn:Hfind.
  - apply find_some in Hfind. exact (proj2 Hfind).
  - apply Hspots.
Qed.

Lemma spawn_guard_spec `{cfg : Settings} (prof : DifficultyProfile) (offset : nat -> Z * Z)
    (z : Zone) (timer : Q) (x y : Z) (patrol : list (Z * Z)) :
  safe_spots_valid ->
  patrol <> [] ->
  let guard := spawn_guard prof offset z timer (x, y, patrol) in
  overlaps_none (zone_obstacles z) (Guard.rect guard) /\
  rect_size (Guard.rect guard) = (22, 32) /\
  60 <= rx (Guard.rect guard) <= WIDTH - 100 /\
  60 <= ry (Guard.rect guard) <= HEIGHT - 100 /\
  route_in_range guard /\
  Guard.profile guard = prof /\
  Guard.health guard = guard_health prof /\
  Character.look_dir (Guard.char guard) = mkVec 1 0.
Proof.
  intros Hspots Hpatrol. cbv zeta. unfold spawn_guard.
  pose proof (find_valid_spawn_valid offset x y z Hspots) as Hvalid.
  destruct (find_valid_spawn offset x y z) as [sx sy]. cbn [fst snd] in Hvalid.
  apply is_valid_position_spec in Hvalid. destruct Hvalid as (Hfree & Hx & Hy).
  unfold Guard.init, Guard.rect, route_in_range. cbv zeta.
  cbn [Guard.char Guard.patrol_points Guard.current_patrol Guard.profile Guard.health
       Character.init Character.rect Character.look_dir rx ry].
  replace (Z.max 50 (Z.min (WIDTH - 70) sx)) with sx by lia.
  replace (Z.max 50 (Z.min (HEIGHT - 70) sy)) with sy by lia.
  split; [exact Hfree|]. split; [reflexivity|]. split; [exact Hx|]. split; [exact Hy|].
  split; [|repeat split; reflexivity].
  rewrite length_map. destruct patrol; [congruence|cbn; lia].
Qed.

Lemma guard_configs_have_routes `{cfg : Settings} (prof : DifficultyProfile) (z : Zone)
    (x y : Z) (patrol : list (Z * Z)) :
  In (x, y, patrol) (base_guard_configs z ++ slice_to (extra_guards prof) (extra_guard_configs z)) ->
  patrol <> [].
Proof.
  intros Hin. apply in_app_or in Hin. destruct Hin as [Hin|Hin].
  - destruct z; cbn in Hin;
      repeat (destruct Hin as [[= <- <- <-]|Hin]; [discriminate|]); destruct Hin.
  - assert (Hin' : In (x, y, patrol) (extra_guard_configs z)).
    { unfold slice_to in Hin. apply list_elem_of_In.
      destruct (0 <=? extra_guards prof); apply list_elem_of_In in Hin;
        apply elem_of_take in Hin; destruct Hin as (i & Hl & _);
        eapply list_elem_of_lookup_2; exact Hl. }
    destruct z; cbn in Hin';
      repeat (destruct Hin' as [[= <- <- <-]|Hin']; [discriminate|]); destruct Hin'.
Qed.

(** X24: every guard [build_guards] makes stands clear of the walls.  For
    any difficulty, whatever the spiral of [find_valid_spawn] and the timers
    are, when the fallback spots of the zones are valid positions every guard
    of a zone is placed where its 22 by 32 rectangle overlaps no obstacle of
    the zone, within the margins of [is_valid_position] (so the clamp of
    [Guard.__init__] does not move it), with a route that is not empty, the
    health of the difficulty, and looking along (1, 0). *)
Theorem build_guards_stand_clear `{cfg : Settings} (prof : DifficultyProfile)
    (offset : nat -> Z * Z) (timers : Zone -> nat -> Q) (z : Zone) (guard : Guard.t) :
  safe_spots_valid ->
  In guard (build_guards prof offset timers z) ->
  overlaps_none (zone_obstacles z) (Guard.rect guard) /\
  rect_size (Guard.rect guard) = (22, 32) /\
  60 <= rx (Guard.rect guard) <= WIDTH - 100 /\
  60 <= ry (Guard.rect guard) <= HEIGHT - 100 /\
  route_in_range guard /\
  Guard.profile guard = prof /\
  Guard.health guard = guard_health prof /\
  Character.look_dir (Guard.char guard) = mkVec 1 0.
Proof.
  intros Hspots Hin. unfold build_guards in Hin.
  apply list_elem_of_In, elem_of_lookup_imap_1 in Hin.
  destruct Hin as (i & [[x y] patrol] & -> & Hl).
  apply spawn_guard_spec; [exact Hspots|].
  apply (guard_configs_have_routes prof z x y).
  apply list_elem_of_In. eapply list_elem_of_lookup_2. exact Hl.
Qed.

(** The first guard of Ground on the hardest difficulty: its intended
    position is inside a wall. *)
Lemma build_guards_stand_clear_witness :
  let prof := mkProfile "Nightmare" 75 38 11 (24 # 10) 420 (62 # 100) 70 24 18 2 in
  let guards := build_guards (cfg := sample_settings) prof sample_offset (fun _ _ => 1 # 2) Ground in
  let guard := nth 0 guards distant_guard in
  is_valid_position (cfg := sample_settings) 540 500 Ground = false /\
  safe_spots_valid (cfg := sample_settings) /\
  In guard guards /\
  overlaps_none (zone_obstacles (cfg := sample_settings) Ground) (Guard.rect guard) /\
  rect_size (Guard.rect guard) = (22, 32) /\
  60 <= rx (Guard.rect guard) <= WIDTH (Settings := sample_settings) - 100 /\
  60 <= ry (Guard.rect guard) <= HEIGHT (Settings := sample_settings) - 100 /\
  route_in_range guard /\
  Guard.profile guard = prof /\
  Guard.health guard = guard_health prof /\
  Character.look_dir (Guard.char guard) = mkVec 1 0.
Proof.
  cbv zeta.
  assert (H0 : is_valid_position (cfg := sample_settings) 540 500 Ground = false)
    by (vm_compute; reflexivity).
  assert (H1 : safe_spots_valid (cfg := sample_settings))
    by (intros z; destruct z; vm_compute; reflexivity).
  assert (H2 : In (nth 0 (build_guards (cfg := sample_settings)
                            (mkProfile "Nightmare" 75 38 11 (24 # 10) 420 (62 # 100) 70 24 18 2)
                            sample_offset (fun _ _ => 1 # 2) Ground) distant_guard)
                  (build_guards (cfg := sample_settings)
                     (mkProfile "Nightmare" 75 38 11 (24 # 10) 420 (62 # 100) 70 24 18 2)
                     sample_offset (fun _ _ => 1 # 2) Ground))
    by (apply nth_In; vm_compute; lia).
  split; [exact H0|]. split; [exact H1|]. split; [exact H2|].
  exact (build_guards_stand_clear (cfg := sample_settings) _ sample_offset _ Ground _ H1 H2).
Defined.

Lemma build_guards_routes `{cfg : Settings} (prof : DifficultyProfile)
    (offset : nat -> Z * Z) (timers : Zone -> nat -> Q) (z : Zone) (guard : Guard.t) :
  In guard (build_guards prof offset timers z) -> route_in_range guard.
Proof.
  intros Hin. unfold build_guards in Hin.
  apply list_elem_of_In, elem_of_lookup_imap_1 in Hin.
  destruct Hin as (i & [[x y] patrol] & -> & Hl).
  assert (Hpatrol : patrol <> []).
  { apply (guard_configs_have_routes prof z x y).
    apply list_elem_of_In. eapply list_elem_of_lookup_2. exact Hl. }
  unfold spawn_guard. destruct (find_valid_spawn offset x y z) as [sx sy].
  unfold route_in_range, Guard.init. cbv zeta.
  cbn [Guard.patrol_points Guard.current_patrol]. rewrite length_map.
  destruct patrol; [congruence|cbn; lia].
Qed.

Lemma allocate_lookup (built : Zone -> list Guard.t) (z : Zone) (a : addr) :
  In a (fst (allocate built) z) ->
  exists guard, snd (allocate built) !! a = Some guard /\ In guard (built z).
Proof.
  unfold allocate. cbn [fst snd]. intros Hin. apply in_seq in Hin.
  rewrite lookup_map_seq_0. unfold all_guards.
  assert (Hat : exists guard, built z !! (a - first_address built z)%nat = Some guard).
  { apply lookup_lt_is_Some. lia. }
  destruct Hat as (guard & Hl). exists guard.
  split; [|apply list_elem_of_In; eapply list_elem_of_lookup_2; exact Hl].
  destruct z; cbn [first_address] in *.
  - rewrite Nat.sub_0_r in Hl. apply lookup_app_l_Some. exact Hl.
  - rewrite lookup_app_r by lia. apply lookup_app_l_Some. exact Hl.
  - rewrite lookup_app_r by lia. rewrite lookup_app_r by lia.
    apply lookup_app_l_Some. rewrite <- Hl. f_equal. lia.
  - rewrite lookup_app_r by lia. rewrite lookup_app_r by lia. rewrite lookup_app_r by lia.
    rewrite <- Hl. f_equal. lia.
Qed.

(** X25: a round built by [reset_round] never fails.  With the guards of
    [build_guards], for any difficulty, any spiral of the spawn search, any
    timers and any placement of the items, the guards of the new round are
    distinct objects with their patrol indices in range, and every sequence
    of frames runs to its end without an exception. *)
Theorem built_round_never_raises `{cfg : Settings} (prof : DifficultyProfile)
    (offset : nat -> Z * Z) (timers : Zone -> nat -> Q) (placed : Zone -> ZoneItems)
    (g : Game.t) (inputs : list (Pressed * Q)) :
  let built := allocate (build_guards prof offset timers) in
  let start := Game.reset_round prof (fst built) (snd built) placed g in
  guards_in_order start /\
  exists g', frames inputs start = Ok g' tt.
Proof.
  cbv zeta.
  set (start := Game.reset_round _ _ _ _ _).
  assert (Hstart : guards_in_order start).
  { intros z. subst start. cbn [Game.guards Game.guard_store Game.reset_round]. split.
    - unfold allocate. cbn [fst]. apply List.seq_NoDup.
    - intros a Hin. destruct (allocate_lookup _ z a Hin) as (guard & Hl & Hg).
      exists guard. split; [exact Hl|]. exact (build_guards_routes prof offset timers z guard Hg). }
  split; [exact Hstart|].
  clearbody start. revert start Hstart.
  induction inputs as [|[k dt] rest IH]; intros start Hstart; cbn [frames].
  - exists start. reflexivity.
  - destruct (frame_in_order k dt start Hstart) as (g1 & Hframe & Hin1). rewrite Hframe.
    exact (IH g1 Hin1).
Qed.

(** ** What a frame asks of the audio manager *)

Lemma adds_sounds_refl (g g' : Game.t) : Game.audio g' = Game.audio g -> adds_sounds g g'.
Proof. intros H. exists []. rewrite app_nil_r. split; [exact H|reflexivity]. Qed.

Lemma adds_sounds_trans (g1 g2 g3 : Game.t) :
  adds_sounds g1 g2 -> adds_sounds g2 g3 -> adds_sounds g1 g3.
Proof.
  intros (l1 & H1 & S1) (l2 & H2 & S2). exists (l1 ++ l2).
  rewrite H2, H1, <- app_assoc. split; [reflexivity|].
  rewrite forallb_app, S1, S2. reflexivity.
Qed.

Lemma adds_sounds_play (name : string) (priority : bool) (g g' : Game.t) :
  Game.audio g' = Game.audio g ++ [play_sound name priority] -> adds_sounds g g'.
Proof. intros H. exists [play_sound name priority]. split; [exact H|reflexivity]. Qed.

Lemma validate_player_position_sounds `{cfg : Settings} (g : Game.t) :
  adds_sounds g (Game.validate_player_position g).
Proof.
  unfold Game.validate_player_position.
  match goal with |- context [if Rect_left (Game.player_rect ?x) <? 40 then _ else ?x] =>
    set (g0 := x) end.
  assert (H0 : adds_sounds g g0).
  { subst g0. destruct (decide (Game.zone g = Harbor)); [|apply adds_sounds_refl; reflexivity].
    destruct (colliderect _ _ || colliderect _ _).
    - apply adds_sounds_refl.
      repeat match goal with |- context [if ?c then _ else _] => destruct c end; reflexivity.
    - destruct (centery (Game.player_rect g) <? 200).
      + apply (adds_sounds_play "hurt" false).
        repeat match goal with |- context [if ?c then _ else _] => destruct c end; reflexivity.
      + apply adds_sounds_refl.
        repeat match goal with |- context [if ?c then _ else _] => destruct c end; reflexivity. }
  apply (adds_sounds_trans g g0); [exact H0|]. clearbody g0.
  apply adds_sounds_refl.
  repeat match goal with |- context [if ?c then _ else _] => destruct c end; reflexivity.
Qed.

Lemma guard_loop_audio `{cfg : Settings} (dt : Q) (obstacles : list Rect) (snapshot : list addr) :
  forall (any_alert : bool) (g : Game.t),
  Game.audio (final_state (Game.guard_loop dt obstacles snapshot any_alert g)) = Game.audio g.
Proof.
  induction snapshot as [|a rest IH]; intros any_alert g; cbn [Game.guard_loop]; [reflexivity|].
  destruct (Game.guard_store g !! a) as [guard|]; [|reflexivity].
  destruct (Guard.update dt (Game.player g) obstacles guard) as [guard' shot|guard' e];
    [|reflexivity].
  destruct (Guard.health guard' <=? 0).
  - destruct (Game.remove_first a _) as [l|]; [rewrite IH|]; destruct shot; reflexivity.
  - rewrite IH. destruct shot; reflexivity.
Qed.

Lemma npc_loop_sounds `{cfg : Settings} (obstacles : list Rect) (ns : list NPC.t) :
  forall g : Game.t, adds_sounds g (snd (Game.npc_loop obstacles ns g)).
Proof.
  induction ns as [|n rest IH]; intros g; cbn [Game.npc_loop];
    [apply adds_sounds_refl; reflexivity|].
  destruct (bool_decide (NPC.zone n = Game.zone g)).
  - match goal with |- context [if ?c then _ else _] => destruct c end.
    + match goal with |- context [Game.npc_loop obstacles rest ?x] =>
        pose proof (IH x) as H; destruct (Game.npc_loop obstacles rest x) as [rest' g'] end.
      cbn [snd] in *. refine (adds_sounds_trans g _ g' _ H).
      apply (adds_sounds_play "item_pickup" false). reflexivity.
    + pose proof (IH g) as H. destruct (Game.npc_loop obstacles rest g). exact H.
  - pose proof (IH g) as H. destruct (Game.npc_loop obstacles rest g). exact H.
Qed.

Lemma take_damage_sounds (amount : Z) (g : Game.t) : adds_sounds g (Game.take_damage amount g).
Proof.
  apply (adds_sounds_play "hurt" true). unfold Game.take_damage. cbv zeta.
  match goal with |- context [if ?c then _ else _] => destruct c end; reflexivity.
Qed.

Lemma bullet_loop_sounds `{cfg : Settings} (obstacles : list Rect) (bs : list Bullet.t) :
  forall g : Game.t, adds_sounds g (snd (Game.bullet_loop obstacles bs g)).
Proof.
  induction bs as [|b rest IH]; intros g; cbn [Game.bullet_loop];
    [apply adds_sounds_refl; reflexivity|].
  cbv zeta.
  destruct (negb (Bullet.alive (Bullet.update obstacles b))).
  { pose proof (IH g) as H. destruct (Game.bullet_loop obstacles rest g). exact H. }
  match goal with |- context [if ?c then _ else _] => destruct c end.
  { pose proof (IH (Game.take_damage (guard_damage (Game.profile g)) g)) as H.
    destruct (Game.bullet_loop obstacles rest _). cbn [snd] in *.
    exact (adds_sounds_trans g _ _ (take_damage_sounds _ g) H). }
  destruct (String.eqb (Bullet.owner (Bullet.update obstacles b)) "player").
  - destruct (Game.find_hit _ _ _) as [[a guard]|].
    + match goal with |- context [Game.bullet_loop obstacles rest ?x] =>
        pose proof (IH x) as H; destruct (Game.bullet_loop obstacles rest x) end.
      exact H.
    + pose proof (IH g) as H. destruct (Game.bullet_loop obstacles rest g). exact H.
  - pose proof (IH g) as H. destruct (Game.bullet_loop obstacles rest g). exact H.
Qed.

Lemma gate_loop_sounds (gates : list ZoneGate) :
  forall g : Game.t, adds_sounds g (final_state (Game.gate_loop gates g)).
Proof.
  induction gates as [|gate rest IH]; intros g; cbn [Game.gate_loop];
    [apply adds_sounds_refl; reflexivity|].
  destruct (Qltb 0 (Game.pathway_cooldown g)); [apply adds_sounds_refl; reflexivity|].
  destruct (colliderect (Game.player_rect g) (gate_rect gate)); [|apply IH].
  destruct (Game.key_missing gate g).
  { match goal with |- context [Game.gate_loop rest (Game.hint ?t g)] =>
      refine (adds_sounds_trans g (Game.hint t g) _ _ (IH _));
      apply adds_sounds_refl; apply (hint_fields t g) end. }
  destruct (Game.index (Game.zone g) Game.region_order); [|apply adds_sounds_refl; reflexivity].
  destruct (Game.index (target_zone gate) Game.region_order);
    [|apply adds_sounds_refl; reflexivity].
  destruct (_ && _).
  { match goal with |- context [Game.gate_loop rest (Game.hint ?t g)] =>
      refine (adds_sounds_trans g (Game.hint t g) _ _ (IH _));
      apply adds_sounds_refl; apply (hint_fields t g) end. }
  cbn [final_state]. apply (adds_sounds_play "door" false). apply (enter_fields gate g).
Qed.

Lemma extraction_check_sounds (e : option Rect) (g : Game.t) :
  adds_sounds g (Game.extraction_check e g).
Proof.
  unfold Game.extraction_check. destruct e; [|apply adds_sounds_refl; reflexivity].
  destruct (colliderect _ _); [|apply adds_sounds_refl; reflexivity].
  destruct (_ && _); [apply (adds_sounds_play "victory" true)|apply adds_sounds_refl]; reflexivity.
Qed.

(** X26: every frame asks for music exactly once, and for the zone the frame
    starts in.  The audio log of a frame that [update] completes is the log
    before it, then the update of the manager with the time step, then
    requests for sound effects, then one request for the music of the zone,
    then requests for sound effects again; nothing is ever removed from the
    log. *)
Theorem frame_requests_music_once `{cfg : Settings} (k : Pressed) (dt : Q) (g g' : Game.t) :
  Game.update k dt g = Ok g' tt ->
  exists before any_alert after,
    Game.audio g' =
      Game.audio g ++ audio_update dt :: before
      ++ play_music_for_zone (Game.zone g) any_alert :: after /\
    forallb is_sound_call before = true /\
    forallb is_sound_call after = true.
Proof.
  rewrite update_stages.
  set (obstacles := Game.frame_obstacles (Game.zone g)).
  set (G0 := Game.validate_player_position (Game.begin_frame dt g)).
  set (G1 := Game.control k dt obstacles G0).
  destruct (Game.guard_pass dt obstacles G1) as [G2 any_alert|G2 e] eqn:Hpass; [|discriminate].
  pose proof (update_before_gates k dt g G2 any_alert Hpass) as Hstage.
  pose proof (validate_player_position_sounds (Game.begin_frame dt g)) as (l0 & H0 & S0).
  fold G0 in H0.
  assert (H1 : Game.audio G1 = Game.audio G0) by reflexivity.
  pose proof (guard_loop_audio dt obstacles (Game.guards G1 (Game.zone G1)) false G1) as H2.
  fold (Game.guard_pass dt obstacles G1) in H2. rewrite Hpass in H2. cbn [final_state] in H2.
  assert (Hz2 : Game.zone G2 = Game.zone g).
  { pose proof (whole_guard_loop dt obstacles (Game.guards G1 (Game.zone G1)) false G1)
      as (_ & _ & Z2 & _).
    fold (Game.guard_pass dt obstacles G1) in Z2. rewrite Hpass in Z2. cbn [final_state] in Z2.
    rewrite Z2. subst G1 G0.
    pose proof (f_equal (fun w => snd (fst (fst w))) (whole_control k dt obstacles
                  (Game.validate_player_position (Game.begin_frame dt g)))) as Zc.
    pose proof (f_equal (fun w => snd (fst (fst w)))
                  (whole_validate_player_position (Game.begin_frame dt g))) as Zv.
    cbn [fst snd whole] in Zc, Zv. rewrite Zc, Zv. reflexivity. }
  set (G3 := Game.play (play_music_for_zone (Game.zone G2) any_alert) G2) in *.
  assert (H4 : adds_sounds G3 (Game.npc_pass obstacles G3)).
  { unfold Game.npc_pass. pose proof (npc_loop_sounds obstacles (Game.npcs G3) G3) as H.
    destruct (Game.npc_loop obstacles (Game.npcs G3) G3). exact H. }
  set (G4 := Game.npc_pass obstacles G3) in *.
  assert (H5 : adds_sounds G4 (Game.bullet_pass obstacles G4)).
  { unfold Game.bullet_pass. pose proof (bullet_loop_sounds obstacles (Game.bullets G4) G4) as H.
    destruct (Game.bullet_loop obstacles (Game.bullets G4) G4). exact H. }
  set (G5 := Game.bullet_pass obstacles G4) in *.
  pose proof (gate_loop_sounds (zone_gates (Game.zone g)) G5) as H6.
  destruct (Game.gate_loop (zone_gates (Game.zone g)) G5) as [G6 []|G6 e]; [|discriminate].
  cbn [final_state] in H6. intros [= <-].
  pose proof (extraction_check_sounds (zone_extraction (Game.zone g)) G6) as H7.
  destruct (adds_sounds_trans _ _ _ (adds_sounds_trans _ _ _ (adds_sounds_trans _ _ _ H4 H5) H6) H7)
    as (l & Hl & Sl).
  exists l0, any_alert, l.
  split; [|split; [exact S0|exact Sl]].
  cbn [Game.audio Game.set_message_time]. rewrite Hl.
  subst G3. cbn [Game.audio Game.play Game.set_audio]. rewrite H2, H1, H0, Hz2.
  cbn [Game.audio Game.begin_frame Game.play Game.set_audio Game.set_water_anim
       Game.set_pathway_cooldown Game.set_pathway_hint_cooldown Game.set_damage_flash_timer].
  rewrite <- !app_assoc. reflexivity.
Qed.

(** A frame of the round with a guard next to the player. *)
Lemma frame_requests_music_once_witness :
  let g' := final_state (Game.update (cfg := sample_settings) no_keys_pressed (1 # 60)
                           wounded_guard_game) in
  Game.update (cfg := sample_settings) no_keys_pressed (1 # 60) wounded_guard_game = Ok g' tt /\
  exists before any_alert after,
    Game.audio g' =
      Game.audio wounded_guard_game ++ audio_update (1 # 60) :: before
      ++ play_music_for_zone (Game.zone wounded_guard_game) any_alert :: after /\
    forallb is_sound_call before = true /\
    forallb is_sound_call after = true.
Proof.
  cbv zeta.
  assert (H : Game.update (cfg := sample_settings) no_keys_pressed (1 # 60) wounded_guard_game
              = Ok (final_state (Game.update (cfg := sample_settings) no_keys_pressed (1 # 60)
                                   wounded_guard_game)) tt)
    by (vm_compute; reflexivity).
  split; [exact H|].
  exact (frame_requests_music_once (cfg := sample_settings) no_keys_pressed (1 # 60)
           wounded_guard_game _ H).
Defined.

(** ** The shore of the Harbor *)

Lemma validate_player_position_parts `{cfg : Settings} (g : Game.t) :
  Game.validate_player_position g =
    screen_clamps (if decide (Game.zone g = Harbor) then harbor_rules g else g).
Proof. reflexivity. Qed.

Lemma player_rect_clamp (c : bool) (r : Rect) (x : Game.t) :
  Game.player_rect (if c then Game.set_player_rect r x else x)
  = if c then r else Game.player_rect x.
Proof. destruct c; reflexivity. Qed.

Lemma harbor_rules_shore `{cfg : Settings} (g : Game.t) :
  102 <= WIDTH ->
  rect_size (Game.player_rect g) = (22, 32) ->
  rect_size (Game.player_rect (harbor_rules g)) = (22, 32) /\
  40 <= Rect_left (Game.player_rect (harbor_rules g)) /\
  Rect_right (Game.player_rect (harbor_rules g)) <= WIDTH - 40 /\
  (200 <= Rect_top (Game.player_rect (harbor_rules g)) \/
   colliderect pier_area (Game.player_rect (harbor_rules g)) = true).
Proof.
  intros Hw Hsize. unfold harbor_rules. cbv zeta.
  set (g1 := if colliderect pier_area (Game.player_rect g) || _ then g else _).
  assert (H1 : rect_size (Game.player_rect g1) = (22, 32)).
  { subst g1. destruct (_ || _); [exact Hsize|].
    destruct (centery (Game.player_rect g) <? 200); [|exact Hsize].
    injection Hsize as Hw0 Hh0. unfold rect_size.
    cbn. rewrite Hw0, Hh0. reflexivity. }
  clearbody g1. rewrite !player_rect_clamp.
  injection H1 as Hw1 Hh1.
  unfold rect_size, Rect_left, Rect_right, Rect_top, Rect_bottom, set_left, set_right, set_top,
    set_x, set_y.
  destruct (Game.player_rect g1) as [x y w h]. cbn [rx ry rw rh] in *. subst w h.
  destruct (x <? 40) eqn:E1; cbn [rx ry rw rh];
    [apply Z.ltb_lt in E1|apply Z.ltb_ge in E1];
    match goal with |- context [WIDTH - 40 <? ?e] =>
      destruct (WIDTH - 40 <? e) eqn:E2; cbn [rx ry rw rh];
        [apply Z.ltb_lt in E2|apply Z.ltb_ge in E2] end;
    match goal with |- context [(?t <? 200) && negb ?c] =>
      destruct (t <? 200) eqn:E3; [apply Z.ltb_lt in E3|apply Z.ltb_ge in E3];
        destruct c eqn:E4; cbn [andb negb rx ry rw rh] end;
    (split; [reflexivity|]); (split; [lia|]); (split; [lia|]);
    first [left; lia | right; exact E4].
Qed.

(** X27: nobody swims in the Harbor.  On a screen of at least 102 by 272
    pixels [validate_player_position] leaves a player of 22 by 32 in the
    Harbor at or below the shore line y = 200, or else on the strip of the
    pier: higher than y = 168 and between x = 778 and x = 1100. *)
Theorem harbor_player_stays_on_land `{cfg : Settings} (g : Game.t) :
  Game.zone g = Harbor ->
  102 <= WIDTH -> 272 <= HEIGHT ->
  rect_size (Game.player_rect g) = (22, 32) ->
  let r' := Game.player_rect (Game.validate_player_position g) in
  200 <= Rect_top r' \/ (168 < Rect_top r' /\ 778 < Rect_left r' < 1100).
Proof.
  intros Hz Hw Hh Hsize. cbv zeta. rewrite validate_player_position_parts.
  destruct (decide (Game.zone g = Harbor)) as [_|Hne]; [|congruence].
  destruct (harbor_rules_shore g Hw Hsize) as (H0 & Hl & Hr & Hshore).
  set (g0 := harbor_rules g) in *. clearbody g0.
  unfold screen_clamps. cbv zeta. rewrite !player_rect_clamp.
  assert (Hpier : colliderect pier_area (Game.player_rect g0) = true ->
                  168 < Rect_top (Game.player_rect g0) < 240 /\
                  778 < Rect_left (Game.player_rect g0) < 1100).
  { intros Hc. injection H0 as Hw0 Hh0.
    apply colliderect_overlap in Hc; unfold pier_area in *; cbn [rx ry rw rh] in *; try lia.
    unfold Rect_top, Rect_left. lia. }
  injection H0 as Hw0 Hh0.
  unfold Rect_left, Rect_right, Rect_top, Rect_bottom, set_left, set_right, set_top, set_bottom,
    set_x, set_y in *.
  destruct (Game.player_rect g0) as [x y w h]. cbn [rx ry rw rh] in *. subst w h.
  repeat match goal with
         | |- context [if ?c then _ else _] =>
             let E := fresh "E" in destruct c eqn:E; cbn [rx ry rw rh] in *
         end;
  repeat match goal with
         | E : (_ <? _) = true |- _ => apply Z.ltb_lt in E
         | E : (_ <? _) = false |- _ => apply Z.ltb_ge in E
         end;
  (destruct Hshore as [Hs|Hs]; [lia|apply Hpier in Hs; lia]).
Qed.

(** A player in the water is put back on land. *)
Lemma harbor_player_stays_on_land_witness :
  let r' := Game.player_rect (Game.validate_player_position (cfg := sample_settings) swimmer_game) in
  Game.zone swimmer_game = Harbor /\
  102 <= WIDTH (Settings := sample_settings) /\ 272 <= HEIGHT (Settings := sample_settings) /\
  rect_size (Game.player_rect swimmer_game) = (22, 32) /\
  (200 <= Rect_top r' \/ (168 < Rect_top r' /\ 778 < Rect_left r' < 1100)).
Proof.
  cbv zeta.
  assert (H1 : Game.zone swimmer_game = Harbor) by reflexivity.
  assert (H2 : 102 <= WIDTH (Settings := sample_settings)) by (vm_compute; discriminate).
  assert (H3 : 272 <= HEIGHT (Settings := sample_settings)) by (vm_compute; discriminate).
  assert (H4 : rect_size (Game.player_rect swimmer_game) = (22, 32)) by reflexivity.
  split; [exact H1|]. split; [exact H2|]. split; [exact H3|]. split; [exact H4|].
  exact (harbor_player_stays_on_land (cfg := sample_settings) swimmer_game H1 H2 H3 H4).
Defined.

(** ** The bullets that stay *)

Lemma find_hit_None (p : Vec) (store : gmap addr Guard.t) (live : list addr) :
  Game.find_hit p store live = None <->
  forall a guard, In a live -> store !! a = Some guard ->
    collidepoint (Guard.rect guard) p = false.
Proof.
  induction live as [|y live IH]; cbn [Game.find_hit].
  - split; [intros _ a guard []|reflexivity].
  - destruct (store !! y) as [gd|] eqn:Hl.
    + destruct (collidepoint (Guard.rect gd) p) eqn:Hc.
      * split; [discriminate|]. intros H. specialize (H y gd (or_introl eq_refl) Hl). congruence.
      * rewrite IH. split.
        -- intros H a guard [<-|Hin] Ha; [congruence|exact (H a guard Hin Ha)].
        -- intros H a guard Hin Ha. exact (H a guard (or_intror Hin) Ha).
    + rewrite IH. split.
      * intros H a guard [<-|Hin] Ha; [congruence|exact (H a guard Hin Ha)].
      * intros H a guard Hin Ha. exact (H a guard (or_intror Hin) Ha).
Qed.

Lemma bullet_loop_places `{cfg : Settings} (obstacles : list Rect) (bs : list Bullet.t) :
  forall g : Game.t,
  let g' := snd (Game.bullet_loop obstacles bs g) in
  Game.player_rect g' = Game.player_rect g /\
  Guard.rect <$> Game.guard_store g' = Guard.rect <$> Game.guard_store g.
Proof.
  induction bs as [|b rest IH]; intros g; cbn [Game.bullet_loop]; [split; reflexivity|].
  cbv zeta in IH |- *.
  destruct (negb (Bullet.alive (Bullet.update obstacles b))).
  { specialize (IH g). destruct (Game.bullet_loop obstacles rest g). exact IH. }
  match goal with |- context [if ?c then _ else _] => destruct c end.
  { specialize (IH (Game.take_damage (guard_damage (Game.profile g)) g)).
    destruct (Game.bullet_loop obstacles rest _). cbn [snd] in *.
    destruct IH as [I1 I2]. rewrite I1, I2. unfold Game.take_damage. cbv zeta.
    match goal with |- context [if ?c then _ else _] => destruct c end; split; reflexivity. }
  destruct (String.eqb (Bullet.owner (Bullet.update obstacles b)) "player").
  - destruct (Game.find_hit _ _ _) as [[a guard]|] eqn:Hhit.
    + apply find_hit_lookup in Hhit. destruct Hhit as [Hl _].
      match goal with |- context [Game.bullet_loop obstacles rest ?x] =>
        specialize (IH x); destruct (Game.bullet_loop obstacles rest x) end.
      cbn [snd] in *. destruct IH as [I1 I2]. rewrite I1, I2. split; [reflexivity|].
      cbn [Game.guard_store Game.set_guard_store].
      rewrite fmap_insert. apply insert_id. rewrite lookup_fmap, Hl. reflexivity.
    + specialize (IH g). destruct (Game.bullet_loop obstacles rest g). exact IH.
  - specialize (IH g). destruct (Game.bullet_loop obstacles rest g). exact IH.
Qed.

Lemma bullet_loop_kept `{cfg : Settings} (obstacles : list Rect) (bs : list Bullet.t) :
  forall (g : Game.t) (b : Bullet.t),
  In b (fst (Game.bullet_loop obstacles bs g)) ->
  (exists b0, In b0 bs /\ b = Bullet.update obstacles b0) /\
  Bullet.alive b = true /\
  (Bullet.owner b = "guard" -> collidepoint (Game.player_rect g) (Bullet.pos b) = false) /\
  (Bullet.owner b = "player" ->
   forall a guard, In a (Game.guards g (Game.zone g)) ->
     (Guard.rect <$> Game.guard_store g) !! a = Some (Guard.rect guard) ->
     collidepoint (Guard.rect guard) (Bullet.pos b) = false).
Proof.
  induction bs as [|b0 rest IH]; intros g b; cbn [Game.bullet_loop]; [intros []|].
  cbv zeta.
  assert (Hlater : forall g1 : Game.t,
            Game.player_rect g1 = Game.player_rect g ->
            Game.guards g1 = Game.guards g -> Game.zone g1 = Game.zone g ->
            Guard.rect <$> Game.guard_store g1 = Guard.rect <$> Game.guard_store g ->
            In b (fst (Game.bullet_loop obstacles rest g1)) ->
            (exists b1, In b1 (b0 :: rest) /\ b = Bullet.update obstacles b1) /\
            Bullet.alive b = true /\
            (Bullet.owner b = "guard" ->
             collidepoint (Game.player_rect g) (Bullet.pos b) = false) /\
            (Bullet.owner b = "player" ->
             forall a guard, In a (Game.guards g (Game.zone g)) ->
               (Guard.rect <$> Game.guard_store g) !! a = Some (Guard.rect guard) ->
               collidepoint (Guard.rect guard) (Bullet.pos b) = false)).
  { intros g1 Hp Hg Hz Hs Hin. destruct (IH g1 b Hin) as ((b1 & Hb1 & ->) & Ha & Hgd & Hpl).
    rewrite Hp in Hgd. rewrite Hg, Hz, Hs in Hpl.
    split; [exists b1; split; [right; exact Hb1|reflexivity]|]. split; [exact Ha|].
    split; assumption. }
  destruct (Bullet.alive (Bullet.update obstacles b0)) eqn:Halive; cbn [negb].
  2:{ destruct (Game.bullet_loop obstacles rest g) as [kept g'] eqn:Hloop. cbn [fst app].
      intros Hin. apply (Hlater g); try reflexivity. rewrite Hloop. exact Hin. }
  destruct (String.eqb (Bullet.owner (Bullet.update obstacles b0)) "guard") eqn:Hog; cbn [andb].
  - destruct (collidepoint (Game.player_rect g) (Bullet.pos (Bullet.update obstacles b0))) eqn:Hcp.
    + pose proof (take_damage_keeps (guard_damage (Game.profile g)) g) as (_ & Tz & _ & Tp & _).
      assert (Trect : Game.player_rect (Game.take_damage (guard_damage (Game.profile g)) g)
                      = Game.player_rect g).
      { unfold Game.take_damage. cbv zeta.
        match goal with |- context [if ?c then _ else _] => destruct c end; reflexivity. }
      destruct (Game.bullet_loop obstacles rest _) as [kept g'] eqn:Hloop. cbn [fst app].
      intros Hin.
      apply (Hlater (Game.take_damage (guard_damage (Game.profile g)) g)); try assumption.
      * exact (f_equal fst Tp).
      * exact (f_equal (fmap Guard.rect) (f_equal snd Tp)).
      * rewrite Hloop. exact Hin.
    + apply String.eqb_eq in Hog.
      assert (Hnp : String.eqb (Bullet.owner (Bullet.update obstacles b0)) "player" = false)
        by (rewrite Hog; reflexivity).
      rewrite Hnp.
      destruct (Game.bullet_loop obstacles rest g) as [kept g'] eqn:Hloop. cbn [fst app].
      intros [<-|Hin].
      * split; [exists b0; split; [left; reflexivity|reflexivity]|]. split; [exact Halive|].
        split; [intros _; exact Hcp|]. intros Hpl. rewrite Hog in Hpl. discriminate.
      * apply (Hlater g); try reflexivity. rewrite Hloop. exact Hin.
  - destruct (String.eqb (Bullet.owner (Bullet.update obstacles b0)) "player") eqn:Hop.
    + destruct (Game.find_hit _ _ _) as [[a guard]|] eqn:Hhit.
      * pose proof (find_hit_lookup _ _ _ _ _ Hhit) as [Hl _].
        match goal with |- context [Game.bullet_loop obstacles rest ?x] =>
          destruct (Game.bullet_loop obstacles rest x) as [kept g'] eqn:Hloop end.
        cbn [fst app]. intros Hin.
        match type of Hloop with Game.bullet_loop obstacles rest ?x = _ =>
          apply (Hlater x); try reflexivity end.
        -- cbn [Game.guard_store Game.set_guard_store].
           rewrite fmap_insert. apply insert_id. rewrite lookup_fmap, Hl. reflexivity.
        -- rewrite Hloop. exact Hin.
      * destruct (Game.bullet_loop obstacles rest g) as [kept g'] eqn:Hloop. cbn [fst app].
        intros [<-|Hin].
        -- split; [exists b0; split; [left; reflexivity|reflexivity]|]. split; [exact Halive|].
           split.
           ++ intros Hg. apply String.eqb_neq in Hog. congruence.
           ++ intros _ a guard Hin Ha. rewrite lookup_fmap in Ha.
              destruct (Game.guard_store g !! a) as [gd|] eqn:Hgd; [|discriminate].
              cbn in Ha. injection Ha as Ha. rewrite <- Ha.
              exact (proj1 (find_hit_None _ _ _) Hhit a gd Hin Hgd).
        -- apply (Hlater g); try reflexivity. rewrite Hloop. exact Hin.
    + destruct (Game.bullet_loop obstacles rest g) as [kept g'] eqn:Hloop. cbn [fst app].
      intros [<-|Hin].
      * split; [exists b0; split; [left; reflexivity|reflexivity]|]. split; [exact Halive|].
        split.
        -- intros Hg. apply String.eqb_neq in Hog. congruence.
        -- intros Hp. apply String.eqb_neq in Hop. congruence.
      * apply (Hlater g); try reflexivity. rewrite Hloop. exact Hin.
Qed.

Lemma Bullet_update_survivor `{cfg : Settings} (obstacles : list Rect) (b : Bullet.t) :
  Bullet.alive (Bullet.update obstacles b) = true ->
  let b' := Bullet.update obstacles b in
  (0 <= vx (Bullet.pos b') <= inject_Z WIDTH)%Q /\
  (0 <= vy (Bullet.pos b') <= inject_Z HEIGHT)%Q /\
  forall wall, In wall obstacles ->
    colliderect wall (bullet_hitbox (Bullet.pos b') (Bullet.radius b')) = false.
Proof.
  cbv zeta. unfold Bullet.update, bullet_hitbox. cbv zeta.
  set (p := Vec_add _ _).
  destruct (Qltb (vx p) 0) eqn:H1; cbn [orb]; [discriminate|].
  destruct (Qltb (inject_Z WIDTH) (vx p)) eqn:H2; cbn [orb]; [discriminate|].
  destruct (Qltb (vy p) 0) eqn:H3; cbn [orb]; [discriminate|].
  destruct (Qltb (inject_Z HEIGHT) (vy p)) eqn:H4; cbn [orb]; [discriminate|].
  apply Qltb_ge in H1, H2, H3, H4.
  cbn [Bullet.radius Bullet.pos].
  destruct (existsb _ obstacles) eqn:Hex; [discriminate|].
  intros _. cbn [Bullet.pos Bullet.radius].
  split; [split; assumption|]. split; [split; assumption|].
  intros wall Hin.
  destruct (colliderect wall _) eqn:Hc; [|reflexivity].
  assert (existsb (fun wall => colliderect wall
            (Rect_of_floats (vx p - inject_Z (Bullet.radius b))%Q
               (vy p - inject_Z (Bullet.radius b))%Q
               (Bullet.radius b * 2) (Bullet.radius b * 2))) obstacles = true) as Ht.
  { apply existsb_exists. exists wall. split; assumption. }
  rewrite Ht in Hex. discriminate.
Qed.

(** X28: the bullets that stay after the loop of [update] over the bullets
    touch nothing.  Each of them is a bullet of the list before, moved one
    step; it is alive, on the screen, and its hitbox overlaps no obstacle; if
    a guard fired it, it is not inside the player's rectangle; and if the
    player fired it, it is inside the rectangle of no guard of the zone. *)
Theorem bullet_pass_leaves_no_hit `{cfg : Settings} (obstacles : list Rect) (g : Game.t)
    (b : Bullet.t) :
  let g' := Game.bullet_pass obstacles g in
  In b (Game.bullets g') ->
  (exists b0, In b0 (Game.bullets g) /\ b = Bullet.update obstacles b0) /\
  Bullet.alive b = true /\
  (0 <= vx (Bullet.pos b) <= inject_Z WIDTH)%Q /\
  (0 <= vy (Bullet.pos b) <= inject_Z HEIGHT)%Q /\
  (forall wall, In wall obstacles ->
     colliderect wall (bullet_hitbox (Bullet.pos b) (Bullet.radius b)) = false) /\
  (Bullet.owner b = "guard" -> collidepoint (Game.player_rect g') (Bullet.pos b) = false) /\
  (Bullet.owner b = "player" ->
   forall a guard, In a (Game.guards g' (Game.zone g')) ->
     Game.guard_store g' !! a = Some guard ->
     collidepoint (Guard.rect guard) (Bullet.pos b) = false).
Proof.
  cbv zeta. unfold Game.bullet_pass.
  pose proof (bullet_loop_kept obstacles (Game.bullets g) g b) as Hkept.
  pose proof (bullet_loop_places obstacles (Game.bullets g) g) as (Hp & Hs).
  pose proof (bullet_loop_keeps obstacles (Game.bullets g) g) as (_ & Hz & _ & Hg & _).
  cbv zeta in Hp, Hs, Hz, Hg.
  destruct (Game.bullet_loop obstacles (Game.bullets g) g) as [kept g'].
  cbn [fst snd Game.bullets Game.set_bullets] in *. intros Hin.
  destruct (Hkept Hin) as ((b0 & Hb0 & ->) & Halive & Hguard & Hplayer).
  destruct (Bullet_update_survivor obstacles b0 Halive) as (Hx & Hy & Hwalls).
  split; [exists b0; split; [exact Hb0|reflexivity]|].
  split; [exact Halive|].
  split; [exact Hx|]. split; [exact Hy|]. split; [exact Hwalls|].
  split.
  - intros Ho. change (Game.player_rect (Game.set_bullets kept g')) with (Game.player_rect g').
    rewrite Hp. exact (Hguard Ho).
  - intros Ho a guard Hin' Ha.
    cbn [Game.guards Game.zone Game.guard_store Game.set_bullets] in Hin', Ha.
    rewrite Hg, Hz in Hin'.
    apply (Hplayer Ho a guard Hin'). rewrite <- Hs, lookup_fmap, Ha. reflexivity.
Qed.

(** A bullet of the player in the open. *)
Lemma bullet_pass_leaves_no_hit_witness :
  let obstacles := Game.frame_obstacles (cfg := sample_settings) Ground in
  let g' := Game.bullet_pass (cfg := sample_settings) obstacles shot_game in
  let b := Bullet.update (cfg := sample_settings) obstacles player_bullet in
  In b (Game.bullets g') /\
  (exists b0, In b0 (Game.bullets shot_game)
              /\ b = Bullet.update (cfg := sample_settings) obstacles b0) /\
  Bullet.alive b = true /\
  (0 <= vx (Bullet.pos b) <= inject_Z (WIDTH (Settings := sample_settings)))%Q /\
  (0 <= vy (Bullet.pos b) <= inject_Z (HEIGHT (Settings := sample_settings)))%Q /\
  (forall wall, In wall obstacles ->
     colliderect wall (bullet_hitbox (Bullet.pos b) (Bullet.radius b)) = false) /\
  (Bullet.owner b = "guard" -> collidepoint (Game.player_rect g') (Bullet.pos b) = false) /\
  (Bullet.owner b = "player" ->
   forall a guard, In a (Game.guards g' (Game.zone g')) ->
     Game.guard_store g' !! a = Some guard ->
     collidepoint (Guard.rect guard) (Bullet.pos b) = false).
Proof.
  cbv zeta.
  assert (H : In (Bullet.update (cfg := sample_settings)
                    (Game.frame_obstacles (cfg := sample_settings) Ground) player_bullet)
                 (Game.bullets (Game.bullet_pass (cfg := sample_settings)
                                  (Game.frame_obstacles (cfg := sample_settings) Ground)
                                  shot_game)))
    by (vm_compute; left; reflexivity).
  split; [exact H|].
  exact (bullet_pass_leaves_no_hit (cfg := sample_settings) _ shot_game _ H).
Defined.
